(* ===== verification/_CoqProject ===== *)
-Q . S2P
Prelude.v
Bytes.v
Crypto.v
Commitment.v
Smt.v
SmtRef.v
SmtProofs.v
SmtBinding.v
Names.v
Icann.v
Codec.v
Checkpoint.v
Pow.v
Tx.v
Wire.v
State.v
Blocks.v
Signer.v
BlocksProps.v
SignerProps.v
StateSpec.v
StateProofs.v
StateProps.v
StateBinding.v
WireProps.v
Chain.v
ForkChoice.v
ChainProofs.v
ChainProps.v
FinalityProps.v
ForkProps.v
ChainScenario.v
ChainWitness.v
Redb.v
StateBytes.v
Store.v
StoreSpec.v
StoreProofs.v
StorePaging.v
StoreProps.v
Persist.v
PersistProofs.v
Restart.v
Mirror.v
Resume.v
RestartProps.v
Snapshot.v
SnapshotProofs.v
SnapshotTransfer.v
SnapshotProps.v
Records.v
Messages.v
MessagesProps.v
Mempool.v
Anchor.v
Relay.v
Hex.v
Dns.v
RelayRpc.v
DnsProofs.v
DnsProps.v
DnsScenario.v
Rpc.v
RelayProofs.v
RelayMirror.v
RelayProps.v
RestartScenario.v
StoreScenario.v
SnapshotScenario.v
RelayScenario.v
Keystore.v
KeystoreProps.v
Wallet.v
WalletProps.v
Groups.v
GroupsProps.v
Publish.v
PublishProps.v
DomainProps.v
