(* ===== verification/Prelude.v ===== *)
(** * Scone: verification library

    Scone is a naming system on a proof-of-stake chain: domain names and
    top-level domains are registered, updated, renewed, transferred and
    expired by signed transactions, blocks of transactions are produced
    by the owners of live domains, and checkpoints signed by a committee
    finalize them.  A node keeps its chain in an embedded database, talks
    to its peers through a relay, and serves the records of the domains
    over DNS; its users sign transactions and publish records from a
    command line with an encrypted keystore.

    This library models the node from the bytes on the wire to the answer
    of the DNS server — the crates [scone-core], [scone-crypto],
    [scone-protocol], [scone-blockchain], [scone-storage],
    [scone-network], [scone-keystore] and [scone] of [src/crates] — as
    executable functions, and proves what makes them correct.  A
    definition that translates code is preceded by a comment with the
    file, the lines and the item it translates.

    ** Parts

    Foundations:
    - [Prelude] (this file): results and the [?] operator, machine
      integers with their wrap-around, bytes.
    - [Bytes]: little and big endian numbers, arrays of a fixed length,
      chunks, the lexicographic order.
    - [Crypto] ([scone-crypto]: [lib.rs], [keys.rs]): BLAKE3 and Ed25519
      are third-party crates, the operations of the class [Crypto]; the
      law "a signature verifies under its key" is [CryptoLaws]; [Toy] is
      a concrete instance used to evaluate examples.

    Data and wire ([scone-core], [scone-protocol]):
    - [Names], [Icann] ([name.rs], [id.rs], [owner.rs], [network.rs],
      [consensus_params.rs], [icann_tlds.rs]): names, identifiers,
      network profiles, the reserved list and its binary search.
    - [Codec] ([codec.rs], [varint.rs], [limits.rs], [ids.rs]): the
      serialization layer; a [codec] pairs an encoder and a decoder with
      the values it covers, and the class [Lawful] is the interface its
      clients use.
    - [Checkpoint] ([checkpoint.rs], core): checkpoint data, hashes,
      quorum, seeds and the committee draw.
    - [Pow] ([pow.rs]): proof of work of registrations.
    - [Tx], [Wire], [WireProps] ([transaction.rs] of core and protocol):
      the ten transactions, their rules, wire format and signing payload.
    - [Records], [Messages], [MessagesProps] ([record.rs] of both,
      [hash.rs], [message.rs], [behaviour.rs]): record sets, signed
      records and their hash, gossip messages and their frames.
    - [Groups], [GroupsProps] ([groups.rs], [group_aead.rs]): sealed sets
      of records, their selection and their root.

    State and chain ([scone-blockchain]):
    - [Commitment] ([state.rs]): leaf preimages of the state commitment.
    - [Smt], [SmtRef], [SmtProofs], [SmtBinding] ([smt.rs]): the
      compressed sparse Merkle tree with its node store, overflow buckets
      and cached root; the reference tree over a set of leaves; the
      refinement; what the root commits to.
    - [State] ([state.rs], [state_backend.rs], [validate.rs]): the chain
      state — backend, expiry queue, grace windows, owner reference
      counts, bans, tree — and its handlers in a state and error monad
      with the undo journal.
    - [StateSpec], [StateProofs], [StateProps], [StateBinding]: the
      abstract registry (maps of domains and TLDs with the rules of each
      transaction), the refinement relation, and the theorems on the
      state and its root.
    - [Blocks], [BlocksProps] ([block.rs], [checkpoint.rs] of protocol,
      [txid.rs], [block_hash.rs], [merkle.rs], [genesis.rs],
      [producer.rs], [builder.rs], [consensus.rs]): blocks and signed
      checkpoints with their codecs, identifiers and commitments, and
      block production.
    - [Chain], [ChainProofs], [ChainProps], [FinalityProps] ([chain.rs],
      [finality.rs]): the window of canonical blocks, block application,
      eviction, the anti-replay index, finality.
    - [ForkChoice], [ForkProps] ([fork_choice.rs]): attaching blocks,
      adopting branches, reorganisations.
    - [Signer], [SignerProps] ([signer.rs]): the guard against double
      signing and its state file.

    Storage ([scone-storage]):
    - [Redb]: the tables of the third-party database, the operations of
      the classes [Table] and [Redb] with their documented behaviour in
      [TableLaws] and [RedbLaws]; [ToyRedb] is an instance over maps.
    - [StateBytes] ([state_bytes.rs]), [Store] ([redb.rs], [lib.rs],
      [error.rs]): the rows, and the node store over eleven tables, each
      write one transaction that [Faults] may refuse.
    - [StoreSpec], [StoreProofs], [StorePaging], [StoreProps]: the
      abstract disk (maps, a tip, a frozen snapshot), the refinement, the
      readers page by page, the invariants of a store's history.
    - [Persist], [PersistProofs], [Restart], [Mirror], [Resume],
      [RestartProps] ([integration.rs]): storing a block with the entries
      it touched, both loaders of a restart, and the proof that a stored
      chain is resumed.
    - [Snapshot], [SnapshotProofs], [SnapshotTransfer], [SnapshotProps]
      ([verified_snapshot.rs], [snapshot_verify.rs]): pages, manifests,
      export, verified import, bootstrap.

    Network ([scone-network]):
    - [Mempool] ([mempool.rs]) and [Anchor] ([relay/anchor.rs]): the
      bounded queue of transactions, the pending checkpoints.
    - [Relay], [RelayRpc] ([relay.rs], [relay/], [sync.rs]): the task that
      owns chain, store, mempool and swarm, as functions on an explicit
      state with a log of what is sent; one event of its loop is
      [relay_step].
    - [Rpc] ([rpc.rs]): the frames of the control RPC, the serving of a
      connection and the client, over any parser and printer of JSON.
    - [RelayProofs], [RelayMirror], [RelayProps]: production, the store of
      a relay, bounds, what is served from the DHT cache.
    - [Hex] ([relay/hex.rs]), [Dns], [DnsProofs], [DnsProps] ([dns.rs]):
      the DNS server: packets, cache, suffix search, fallback.

    Users ([scone-keystore], [scone]):
    - [Keystore], [KeystoreProps] ([scone-keystore/src/lib.rs],
      [identity.rs]): key files, phrases, listing; Argon2,
      XChaCha20-Poly1305 and BIP39 are the class [Sealing].
    - [Wallet], [WalletProps] ([tx.rs], [pow.rs]): building, signing and
      verifying transactions.
    - [Publish], [PublishProps], [DomainProps] ([domain.rs], [rpc.rs]):
      record files, the update of a domain and the record that is
      published; registering and updating as conversations with a relay.

    Concrete executions, evaluated: [ChainScenario], [ChainWitness],
    [RestartScenario], [StoreScenario], [SnapshotScenario],
    [DnsScenario], [RelayScenario], and modules at the end of other files.

    ** How the parts interact

    A block is decoded by [Block_decode], checked by [check_block]
    (parent, height, version, Merkle root, replay index, consensus hooks,
    producer), then [push_block_with_gc] expires domains at the parent's
    time, runs [validate_transaction] and [apply_journaled_at] on each
    transaction and either appends the block or rolls the journal back.
    [accept_checkpoint] freezes the committee pool and the seed that
    [allowed_producers] and [committee] read; eviction follows the
    finality floor.  [adopt_branch] and [try_attach] replay blocks through
    [push_block_with_gc].  A node releases a checkpoint signature through
    [authorize] only.

    The relay calls [try_attach] and [store_block_with_removals] on each
    block it accepts or produces, and [load_chain] when it starts.  A
    request of a client or an event of the swarm changes its state in
    [dispatch], [handle_peer_message] and [handle_kad]; the DNS server asks
    it through [dns_resolver].  The command line signs with a key that
    [open_keyfile] returns, and sends what [tx_sign], [update_tx] and
    [record_bytes] give.

    ** What the theorems show

    - State: every handler implements the rule of the abstract registry,
      on success and on every error; the journal undoes exactly what was
      done; expiry removes exactly the lapsed domains; a restored state is
      the live one; the state root is a function of the registry and
      commits to it; a live domain changes only under the signature of
      its owner, grace windows and bans are respected.
    - Tree: the compressed tree represents its set of leaves, has the
      reference root and a canonical shape.
    - Wire: transactions, blocks, checkpoints, records and messages have
      one encoding, and their signing payloads and hashes bind their
      content.
    - Chain: block application refines the registry and is atomic; the
      anti-replay index is exactly the last 256 blocks; an honest
      producer's block is accepted; memory is bounded by finality.
    - Finality: what a node requires of a checkpoint; finalized
      checkpoints form a chain; conflicting quorums are slashable; a
      signer never releases conflicting signatures.
    - Fork choice: an adopted branch is strictly better and respects
      finality.
    - Storage: every write refines the abstract disk, errors included;
      pages enumerate a table; the store of a node of the test network
      that extends its chain block by block ([node_run]: every accepted
      block is [storable] and was stored, no sister or branch is adopted)
      mirrors it, and a restart resumes at its tip with its state root
      and replay index; an import of a snapshot is authentic and all or
      nothing, and what one node exports another imports.
    - Network: the mempool is a bounded queue without duplicates; block
      production ends, with one block of pending transactions, an emptied
      mempool or a failed write; a request over the control RPC is carried
      out once and its answer read back; all that a relay holds for others
      is bounded; within [node_run] its store follows its chain unless a
      write fails; the resolver serves what the chain commits to, a DNS
      answer comes from the chain or is not marked as such, and its cache
      is bounded, first in, first out.
    - Users: a key file opens to its key; what the wallet signs is valid
      and is what was asked; a record file that an owner publishes, of at
      most 64 KiB once signed, is what the DNS server of an up-to-date
      relay answers with; a command that reports success reports the
      truth, whatever happens to the relay while it runs.
    - Theorems, most of them with an execution as witness, on where the
      code departs from its documentation: a stale replay index after a
      reorganisation, a finalized tip dropped by a sister block, no
      reorganisation after an eviction, a signer's directory that is not synced, a domain lost
      from the store when it expires and is registered in one block, a
      restart without validators, a store that a sister block corrupts or
      that never catches up, a lookup that takes any record, a compressed
      DNS reply misread, a failed overwrite of a key file.

    ** Hypotheses

    BLAKE3 is collision resistant, not injective: theorems that need it
    assume that the values actually hashed do not collide, as
    [collision_free] (the identifiers and leaves of a registry; decided by
    [collision_freeb]) or [injective_on] (a given list of preimages).
    [CryptoLaws], [RedbLaws] and [SealingLaws] state what the third-party
    crates document; each has a concrete instance.  [storable] and [safe]
    say that a block fits the store: its numbers fit their types, no names
    collide, and it does not register a domain that it expires.
    [represents] relates a store to a disk, and a chain to a registry.

    Loops that the code bounds by data are structural here; the others
    take as fuel the length of what they consume ([merkle_loop],
    [bsearch_loop], [chunks], [bucket_loop], [parse_labels], [skip_name],
    [trim_start], [expire_from], [produce_loop], [produce_batch]) — enough
    since each round consumes an element; the two loops of block
    production answer [NeDiverged] should they run out, which is shown not
    to happen — or the depth of the tree
    ([locate_loop], forty levels) or the ten bytes of a varint;
    [for_pages] is shown to end; mining takes the number of attempts.
    Heights, times and counters are [N] with the code's wrapping,
    saturating or checked operations where they can leave 64 bits.  The
    release profile is modelled: arithmetic overflow wraps.

    ** Not modelled

    - A failure of a single table access inside a transaction of the
      database (a refused or uncommitted transaction is).
    - The transports: libp2p, the rendering of requests and answers in
      JSON, sockets, connection slots and time limits of the RPC and DNS
      servers.
    - The parsing of arguments, the prompts and the texts of the command
      line.
    - The simulator ([sim/mod.rs]), a test harness over the chain. *)

From Stdlib Require Export Strings.Byte NArith Lia.

From stdpp Require Export base countable list gmap strings sorting.

#[global] Open Scope N_scope.

(** ** Results *)

(** Rust's [Result<A, E>]. *)
Inductive result (E A : Type) : Type :=
| Ok (a : A)
| Err (e : E).
Arguments Ok {E A} a.
Arguments Err {E A} e.

#[global] Instance result_eq_dec {E A} `{EqDecision E, EqDecision A} : EqDecision (result E A).
Proof. solve_decision. Defined.

Definition rbind {E A B} (r : result E A) (k : A → result E B) : result E B :=
  match r with Ok a => k a | Err e => Err e end.

Definition rmap {E A B} (f : A → B) (r : result E A) : result E B :=
  match r with Ok a => Ok (f a) | Err e => Err e end.

(** [map_err] (also the [#[from]] conversions the [?] operator applies). *)
Definition map_err {E F A} (f : E → F) (r : result E A) : result F A :=
  match r with Ok a => Ok a | Err e => Err (f e) end.

Definition is_ok {E A} (r : result E A) : bool :=
  match r with Ok _ => true | Err _ => false end.

Definition ok_or {E A} (o : option A) (e : E) : result E A :=
  match o with Some a => Ok a | None => Err e end.

(** [.ok()] *)
Definition to_option {E A} (r : result E A) : option A :=
  match r with Ok a => Some a | Err _ => None end.

Declare Scope rust_scope.
Delimit Scope rust_scope with rust.
#[global] Open Scope rust_scope.

(** The [?] operator: [let? x := e in k]. *)
Notation "'let?' x := e 'in' k" := (rbind e (λ x, k))
  (at level 200, x pattern, e at level 100, k at level 200, right associativity) : rust_scope.
Notation "'if?' c 'return' e ; k" := (if c then Err e else k)
  (at level 200, c at level 100, e at level 100, k at level 200, right associativity) : rust_scope.

Lemma is_ok_Ok {E A} (r : result E A) : is_ok r = true ↔ ∃ a, r = Ok a.
Proof. destruct r; naive_solver. Qed.

Lemma Ok_inj {E A} (a b : A) : Ok (E := E) a = Ok b → a = b.
Proof. by intros [= ->]. Qed.

Lemma rbind_Ok {E A B} (r : result E A) (k : A → result E B) b :
  rbind r k = Ok b ↔ ∃ a, r = Ok a ∧ k a = Ok b.
Proof. destruct r; naive_solver. Qed.

Lemma map_err_Ok {E F A} (f : E → F) (r : result E A) a :
  map_err f r = Ok a ↔ r = Ok a.
Proof. destruct r; naive_solver. Qed.

Lemma ok_or_Ok {E A} (o : option A) (e : E) a : ok_or o e = Ok a ↔ o = Some a.
Proof. destruct o; naive_solver. Qed.

(** ** Lists *)

Lemma filter_all {B} (P : B → Prop) `{∀ b, Decision (P b)} l : Forall P l → filter P l = l.
Proof. induction 1 as [|b l Hb Hl IH]; [done|]. by rewrite filter_cons_True, IH. Qed.

Lemma filter_none {B} (P : B → Prop) `{∀ b, Decision (P b)} l : Forall (λ b, ¬ P b) l → filter P l = [].
Proof. induction 1 as [|b l Hb Hl IH]; [done|]. by rewrite filter_cons_False. Qed.

(** A decidable fact of the numbers below a bound, by computation. *)
Lemma forall_below (n : nat) (P : N → bool) :
  forallb P (map N.of_nat (seq 0 n)) = true → ∀ x, x < N.of_nat n → P x = true.
Proof.
  intros Hall x Hx. rewrite forallb_forall in Hall. apply Hall, in_map_iff. exists (N.to_nat x).
  rewrite in_seq. lia.
Qed.

Lemma cons_inv {A} (x y : A) l k : x :: l = y :: k → x = y ∧ l = k.
Proof. by intros [= -> ->]. Qed.

(** ** Machine integers

    [u8], [u32], [u64] and [usize] are non-negative numbers [N]; the
    width appears where the code can leave it: [add64]/[sub64] wrap
    (Rust's arithmetic in the release profile, which enables no
    overflow check), [sat_add64] saturates and [checked_add64] fails. *)
Definition U64 : N := 2 ^ 64.
Definition U64_MAX : N := U64 - 1.
Definition U32_MAX : N := 2 ^ 32 - 1.

Definition wrap64 (n : N) : N := n mod U64.
Definition add64 (a b : N) : N := wrap64 (a + b).
Definition sub64 (a b : N) : N := wrap64 (a + U64 - b).
Definition mul64 (a b : N) : N := wrap64 (a * b).
Definition sat_add64 (a b : N) : N := N.min (a + b) U64_MAX.
Definition checked_add64 (a b : N) : option N :=
  if a + b <=? U64_MAX then Some (a + b) else None.
Definition checked_sub (a b : N) : option N :=
  if b <=? a then Some (a - b) else None.

Lemma add64_small a b : a + b < U64 → add64 a b = a + b.
Proof. intros. by apply N.mod_small. Qed.

Lemma add64_lt a b : add64 a b < U64.
Proof. by apply N.mod_lt. Qed.

Lemma sat_add64_lt a b : sat_add64 a b < U64.
Proof. apply (N.le_lt_trans _ U64_MAX); [apply N.le_min_r|done]. Qed.

Lemma sub64_small a b : b ≤ a → a < U64 → sub64 a b = a - b.
Proof.
  intros ? ?. unfold sub64, wrap64.
  replace (a + U64 - b) with (a - b + 1 * U64) by lia.
  rewrite N.Div0.mod_add. apply N.mod_small. lia.
Qed.

(** The two increments a journal and its rollback pair up. *)
Lemma sub64_add64 a b : a < U64 → b < U64 → sub64 (add64 a b) b = a.
Proof.
  intros Ha Hb. unfold sub64, add64, wrap64.
  destruct (decide (a + b < U64)) as [Hs|Hs].
  - rewrite (N.mod_small (a + b)) by done.
    replace (a + b + U64 - b) with (a + 1 * U64) by lia.
    rewrite N.Div0.mod_add. by apply N.mod_small.
  - assert ((a + b) mod U64 = a + b - U64) as ->.
    { symmetry. apply (N.mod_unique _ _ 1); lia. }
    replace (a + b - U64 + U64 - b) with a by lia. by apply N.mod_small.
Qed.

Lemma add64_sub64 a b : a < U64 → b < U64 → add64 (sub64 a b) b = a.
Proof.
  intros Ha Hb. unfold sub64, add64, wrap64.
  destruct (decide (b ≤ a)) as [Hs|Hs].
  - assert ((a + U64 - b) mod U64 = a - b) as ->.
    { symmetry. apply (N.mod_unique _ _ 1); lia. }
    replace (a - b + b) with a by lia. by apply N.mod_small.
  - rewrite (N.mod_small (a + U64 - b)) by lia.
    replace (a + U64 - b + b) with (a + 1 * U64) by lia.
    rewrite N.Div0.mod_add. by apply N.mod_small.
Qed.

(** ** Bits *)

Lemma testbit_small x n i : x < 2 ^ n → n ≤ i → N.testbit x i = false.
Proof.
  intros Hx Hi. destruct (decide (x = 0)) as [->|Hx0]; [apply N.bits_0|].
  apply N.bits_above_log2. apply N.lt_le_trans with n; [|done].
  apply N.log2_lt_pow2; lia.
Qed.

Lemma lor_add_small hi x n : x < 2 ^ n → N.lor (N.shiftl hi n) x = hi * 2 ^ n + x.
Proof.
  intros Hx. rewrite <- N.shiftl_mul_pow2.
  assert (N.land (N.shiftl hi n) x = 0) as Hl.
  2:{ by rewrite N.add_nocarry_lxor, N.lxor_lor. }
  apply N.bits_inj. intros i. rewrite N.land_spec, N.bits_0.
  destruct (N.lt_ge_cases i n) as [Hi|Hi].
  - by rewrite N.shiftl_spec_low.
  - by rewrite (testbit_small x n i), andb_false_r.
Qed.

(** ** Bytes *)

#[global] Instance byte_eq_dec : EqDecision byte := Byte.byte_eq_dec.

#[global] Instance byte_countable : Countable byte.
Proof.
  refine (inj_countable Byte.to_N Byte.of_N _). apply Byte.of_to_N.
Defined.

(** [v as u8]. *)
Definition byte_of_N (v : N) : byte := default x00 (Byte.of_N (v mod 256)).

Lemma byte_to_N_bounded b : Byte.to_N b < 256.
Proof. pose proof (Byte.to_N_bounded b). lia. Qed.

Lemma byte_of_N_to_N b : byte_of_N (Byte.to_N b) = b.
Proof.
  unfold byte_of_N. rewrite N.mod_small by apply byte_to_N_bounded.
  by rewrite Byte.of_to_N.
Qed.

Lemma byte_to_N_of_N v : Byte.to_N (byte_of_N v) = v mod 256.
Proof.
  unfold byte_of_N. destruct (Byte.of_N (v mod 256)) eqn:E.
  - by apply Byte.to_of_N.
  - apply Byte.of_N_None_iff in E. pose proof (N.mod_lt v 256). lia.
Qed.

Lemma byte_to_N_inj b c : Byte.to_N b = Byte.to_N c → b = c.
Proof. intros H. by rewrite <- (byte_of_N_to_N b), H, byte_of_N_to_N. Qed.

Definition byte_eqb (b c : byte) : bool := bool_decide (b = c).

(** The bytes of an ASCII literal ([b"..."]). *)
Definition ascii (s : string) : list byte := String.list_byte_of_string s.
