(* ===== verification/Bytes.v ===== *)
(** * Byte strings: fixed-width integers, fixed-size arrays, lexicographic order

    Rust's [to_le_bytes]/[from_le_bytes] (and their big-endian
    variants), [[u8; N]] as the type [arr N], and the derived [Ord] of
    byte arrays and byte vectors. *)

From S2P Require Import Prelude.

(** ** Fixed-width integers *)

(** [&bytes[lo..hi]] *)
Definition slice {A} (lo hi : nat) (l : list A) : list A := take (hi - lo) (drop lo l).

(** [bytes.get(lo..hi)], for [lo <= hi] *)
Definition get_range {A} (lo hi : nat) (l : list A) : option (list A) :=
  if (hi <=? length l)%nat then Some (slice lo hi l) else None.

(** [slice::chunks]; the length of the list is enough fuel. *)
Fixpoint chunks {A} (fuel n : nat) (l : list A) : list (list A) :=
  match fuel, l with
  | S fuel, _ :: _ => take n l :: chunks fuel n (drop n l)
  | _, _ => []
  end.

Fixpoint le_bytes (k : nat) (v : N) : list byte :=
  match k with
  | O => []
  | S k => byte_of_N v :: le_bytes k (v / 256)
  end.

Fixpoint le_val (l : list byte) : N :=
  match l with
  | [] => 0
  | b :: l => Byte.to_N b + 256 * le_val l
  end.

Definition be_bytes (k : nat) (v : N) : list byte := reverse (le_bytes k v).
Definition be_val (l : list byte) : N := le_val (reverse l).

Lemma length_le_bytes k v : length (le_bytes k v) = k.
Proof. revert v. induction k as [|k IH]; intros v; [done|]. simpl. by rewrite IH. Qed.

Lemma length_be_bytes k v : length (be_bytes k v) = k.
Proof. unfold be_bytes. by rewrite length_reverse, length_le_bytes. Qed.

Lemma le_val_le_bytes k v : le_val (le_bytes k v) = v mod 256 ^ N.of_nat k.
Proof.
  revert v. induction k as [|k IH]; intros v; simpl le_bytes; simpl le_val.
  { by rewrite N.mod_1_r. }
  rewrite IH, byte_to_N_of_N, Nat2N.inj_succ, N.pow_succ_r'.
  by rewrite N.Div0.mod_mul_r.
Qed.

Lemma le_val_lt l : le_val l < 256 ^ N.of_nat (length l).
Proof.
  induction l as [|b l IH]; simpl length; simpl le_val; [done|].
  rewrite Nat2N.inj_succ, N.pow_succ_r'. pose proof (byte_to_N_bounded b). lia.
Qed.

Lemma le_bytes_le_val l : le_bytes (length l) (le_val l) = l.
Proof.
  induction l as [|b l IH]; [done|].
  change (le_bytes (length (b :: l)) (le_val (b :: l)))
    with (byte_of_N (Byte.to_N b + 256 * le_val l)
          :: le_bytes (length l) ((Byte.to_N b + 256 * le_val l) / 256)). f_equal.
  - rewrite <- (byte_of_N_to_N b) at 2. unfold byte_of_N.
    by rewrite (N.mul_comm 256), N.Div0.mod_add.
  - pose proof (byte_to_N_bounded b).
    rewrite <- (N.div_unique (Byte.to_N b + 256 * le_val l) 256 (le_val l) (Byte.to_N b)); [done|lia..].
Qed.

Lemma le_val_le_bytes_64 v : v < U64 → le_val (le_bytes 8 v) = v.
Proof. intros. rewrite le_val_le_bytes. by apply N.mod_small. Qed.

Lemma le_val_le_bytes_32 v : v ≤ U32_MAX → le_val (le_bytes 4 v) = v.
Proof.
  intros. rewrite le_val_le_bytes. apply N.mod_small.
  unfold U32_MAX in *. simpl. lia.
Qed.

Lemma le_bytes_le_val_n n l : length l = n → le_bytes n (le_val l) = l.
Proof. intros <-. apply le_bytes_le_val. Qed.

Lemma le_bytes_inj k a b :
  a < 256 ^ N.of_nat k → b < 256 ^ N.of_nat k → le_bytes k a = le_bytes k b → a = b.
Proof.
  intros Ha Hb H%(f_equal le_val). rewrite !le_val_le_bytes in H.
  by rewrite !N.mod_small in H.
Qed.

Lemma le_bytes_inj_64 a b : a < U64 → b < U64 → le_bytes 8 a = le_bytes 8 b → a = b.
Proof. intros Ha Hb E%(f_equal le_val). by rewrite !le_val_le_bytes_64 in E. Qed.

Lemma le_bytes_inj_32 a b : a ≤ U32_MAX → b ≤ U32_MAX → le_bytes 4 a = le_bytes 4 b → a = b.
Proof. intros Ha Hb E%(f_equal le_val). by rewrite !le_val_le_bytes_32 in E. Qed.

Lemma be_bytes_inj_64 a b : a < U64 → b < U64 → be_bytes 8 a = be_bytes 8 b → a = b.
Proof. intros Ha Hb E%(inj reverse). by apply le_bytes_inj_64. Qed.

Lemma be_val_be_bytes k v : be_val (be_bytes k v) = v mod 256 ^ N.of_nat k.
Proof. unfold be_val, be_bytes. by rewrite reverse_involutive, le_val_le_bytes. Qed.

Lemma be_val_be_bytes_64 v : v < U64 → be_val (be_bytes 8 v) = v.
Proof. intros. rewrite be_val_be_bytes. by apply N.mod_small. Qed.

Lemma be_bytes_be_val_n n l : length l = n → be_bytes n (be_val l) = l.
Proof.
  intros. unfold be_val, be_bytes. by rewrite le_bytes_le_val_n, reverse_involutive by (by rewrite length_reverse).
Qed.

Lemma be_val_lt_64 l : length l = 8%nat → be_val l < U64.
Proof. intros E. unfold be_val. pose proof (le_val_lt (reverse l)) as Hl. by rewrite length_reverse, E in Hl. Qed.

(** ** Fixed-size arrays [[u8; n]] *)

Record arr (n : nat) : Type := mkArr {
  arr_list :> list byte;
  arr_ok : (length arr_list =? n)%nat = true }.
Arguments mkArr {n} _ _.
Arguments arr_list {n} _.
Arguments arr_ok {n} _.

(** [slice.try_into::<[u8; n]>()] *)
Definition to_arr (n : nat) (l : list byte) : option (arr n) :=
  match (length l =? n)%nat as b return (length l =? n)%nat = b → option (arr n) with
  | true => λ H, Some (mkArr l H)
  | false => λ _, None
  end eq_refl.

Fixpoint replicate_ok (n : nat) (b : byte) :
    (length (replicate n b) =? n)%nat = true :=
  match n with
  | O => eq_refl
  | S n => replicate_ok n b
  end.

(** [[b; n]] *)
Definition arr_rep (n : nat) (b : byte) : arr n := mkArr (replicate n b) (replicate_ok n b).
Definition arr_zero (n : nat) : arr n := arr_rep n x00.

(** Truncates or zero-pads to [n] bytes: a literal array. *)
Definition arr_of (n : nat) (l : list byte) : arr n :=
  default (arr_zero n) (to_arr n (take n (l ++ replicate n x00))).

Lemma arr_eq {n} (a b : arr n) : arr_list a = arr_list b → a = b.
Proof.
  destruct a as [la Ha], b as [lb Hb]. simpl. intros <-. f_equal.
  apply (proof_irrel Ha Hb).
Qed.

Lemma arr_length {n} (a : arr n) : length a = n.
Proof. destruct a as [l H]. simpl. by apply Nat.eqb_eq. Qed.

Lemma to_arr_Some n l (a : arr n) : to_arr n l = Some a ↔ l = arr_list a.
Proof.
  unfold to_arr. generalize (eq_refl (length l =? n)%nat).
  destruct (length l =? n)%nat at 2 3; intros E; split; intros H.
  - by injection H as <-.
  - f_equal. by apply arr_eq.
  - done.
  - subst. by rewrite (arr_ok a) in E.
Qed.

Lemma to_arr_arr {n} (a : arr n) : to_arr n a = Some a.
Proof. by apply to_arr_Some. Qed.

Lemma to_arr_is_Some n l : length l = n → ∃ a : arr n, to_arr n l = Some a ∧ arr_list a = l.
Proof.
  intros H. apply Nat.eqb_eq in H. exists (mkArr l H). split; [|done]. by apply to_arr_Some.
Qed.

Lemma to_arr_None n l : to_arr n l = None → length l ≠ n.
Proof. intros H1 H2. destruct (to_arr_is_Some n l H2) as (?&?&?). congruence. Qed.

#[global] Instance arr_eq_dec n : EqDecision (arr n) :=
  λ a b, match decide (arr_list a = arr_list b) with
         | left H => left (arr_eq a b H)
         | right H => right (λ E, H (f_equal arr_list E))
         end.

#[global] Instance arr_countable n : Countable (arr n).
Proof. refine (inj_countable arr_list (to_arr n) _). apply to_arr_arr. Defined.

#[global] Instance arr_list_inj n : Inj (=) (=) (@arr_list n).
Proof. intros a b. apply arr_eq. Qed.

Definition arr_eqb {n} (a b : arr n) : bool := bool_decide (a = b).

(** 32-byte hashes and identifiers, 64-byte signatures. *)
Notation hash := (arr 32).
Notation sig64 := (arr 64).

(** ** Lexicographic order (the derived [Ord] of byte arrays and vectors) *)

Fixpoint bytes_cmp (a b : list byte) : comparison :=
  match a, b with
  | [], [] => Eq
  | [], _ :: _ => Lt
  | _ :: _, [] => Gt
  | x :: a, y :: b =>
      match Byte.to_N x ?= Byte.to_N y with
      | Eq => bytes_cmp a b
      | c => c
      end
  end.

Definition bytes_ltb (a b : list byte) : bool :=
  match bytes_cmp a b with Lt => true | _ => false end.
Definition bytes_leb (a b : list byte) : bool :=
  match bytes_cmp a b with Gt => false | _ => true end.
Definition bytes_le (a b : list byte) : Prop := bytes_leb a b = true.
Definition bytes_lt (a b : list byte) : Prop := bytes_ltb a b = true.

#[global] Instance bytes_le_dec : RelDecision bytes_le.
Proof. intros a b. unfold bytes_le. apply _. Defined.
#[global] Instance bytes_lt_dec : RelDecision bytes_lt.
Proof. intros a b. unfold bytes_lt. apply _. Defined.

Lemma bytes_cmp_refl a : bytes_cmp a a = Eq.
Proof. induction a as [|x a IH]; [done|]. simpl. by rewrite N.compare_refl. Qed.

Lemma bytes_cmp_eq a b : bytes_cmp a b = Eq ↔ a = b.
Proof.
  split; [|intros <-; apply bytes_cmp_refl].
  revert b. induction a as [|x a IH]; intros [|y b]; simpl; try done.
  destruct (N.compare_spec (Byte.to_N x) (Byte.to_N y)) as [H%byte_to_N_inj|H|H]; try done.
  intros ?%IH. congruence.
Qed.

Lemma bytes_cmp_antisym a b : bytes_cmp b a = CompOpp (bytes_cmp a b).
Proof.
  revert b. induction a as [|x a IH]; intros [|y b]; simpl; try done.
  rewrite N.compare_antisym. destruct (Byte.to_N x ?= Byte.to_N y); simpl; auto.
Qed.

Lemma bytes_cmp_trans a b c r :
  bytes_cmp a b = r → bytes_cmp b c = r → bytes_cmp a c = r.
Proof.
  revert b c. induction a as [|x a IH]; intros [|y b] [|z c]; simpl; try congruence.
  destruct (N.compare_spec (Byte.to_N x) (Byte.to_N y)) as [Hxy|Hxy|Hxy];
  destruct (N.compare_spec (Byte.to_N y) (Byte.to_N z)) as [Hyz|Hyz|Hyz];
  destruct (N.compare_spec (Byte.to_N x) (Byte.to_N z)) as [Hxz|Hxz|Hxz];
  intros; subst; try congruence; try (exfalso; lia); eauto.
Qed.

Lemma bytes_le_lt a b : bytes_le a b ↔ a = b ∨ bytes_lt a b.
Proof.
  unfold bytes_le, bytes_lt, bytes_leb, bytes_ltb. rewrite <- (bytes_cmp_eq a b).
  destruct (bytes_cmp a b); naive_solver.
Qed.

#[global] Instance bytes_lt_trans : Transitive bytes_lt.
Proof.
  intros a b c. unfold bytes_lt, bytes_ltb.
  destruct (bytes_cmp a b) eqn:E1, (bytes_cmp b c) eqn:E2; try done.
  by rewrite (bytes_cmp_trans _ _ _ _ E1 E2).
Qed.

Lemma bytes_lt_irrefl a : ¬ bytes_lt a a.
Proof. unfold bytes_lt, bytes_ltb. by rewrite bytes_cmp_refl. Qed.

Lemma bytes_lt_asym a b : bytes_lt a b → ¬ bytes_lt b a.
Proof. intros H1 H2. exact (bytes_lt_irrefl a (transitivity H1 H2)). Qed.

Lemma bytes_lt_total a b : bytes_lt a b ∨ a = b ∨ bytes_lt b a.
Proof.
  unfold bytes_lt, bytes_ltb. rewrite (bytes_cmp_antisym a b), <- (bytes_cmp_eq a b).
  destruct (bytes_cmp a b); naive_solver.
Qed.

#[global] Instance bytes_le_preorder : PreOrder bytes_le.
Proof.
  split.
  - intros a. apply bytes_le_lt. by left.
  - intros a b c. rewrite !bytes_le_lt. intros [->|H1] [->|H2]; eauto.
    right. by transitivity b.
Qed.

#[global] Instance bytes_le_antisymm : AntiSymm (=) bytes_le.
Proof.
  intros a b. rewrite !bytes_le_lt. intros [->|H1] [H2|H2]; try done.
  by destruct (bytes_lt_asym a b).
Qed.

#[global] Instance bytes_le_total : Total bytes_le.
Proof.
  intros a b. rewrite !bytes_le_lt. destruct (bytes_lt_total a b) as [|[|]]; auto.
Qed.

(** The order of fixed-size arrays. *)
Definition arr_le {n} (a b : arr n) : Prop := bytes_le a b.
#[global] Instance arr_le_dec n : RelDecision (@arr_le n).
Proof. intros a b. unfold arr_le. apply _. Defined.
#[global] Instance arr_le_preorder n : PreOrder (@arr_le n).
Proof.
  split; unfold arr_le.
  - by intros a.
  - intros a b c H1 H2. by transitivity (arr_list b).
Qed.
#[global] Instance arr_le_antisymm n : AntiSymm (=) (@arr_le n).
Proof. intros a b H1 H2. apply arr_eq. by apply (anti_symm bytes_le). Qed.
#[global] Instance arr_le_total n : Total (@arr_le n).
Proof. intros a b. apply (total bytes_le). Qed.

(** ** Splitting byte strings *)

(** [input.split_at(n)] when long enough, as a fixed-size array and the rest. *)
Definition split_arr (n : nat) (l : list byte) : option (arr n * list byte) :=
  a ← to_arr n (take n l); Some (a, drop n l).

Lemma split_arr_app {n} (a : arr n) l : split_arr n (arr_list a ++ l) = Some (a, l).
Proof.
  unfold split_arr. rewrite take_app_length', drop_app_length' by (by rewrite arr_length).
  by rewrite to_arr_arr.
Qed.

Lemma split_arr_Some n l (a : arr n) r :
  split_arr n l = Some (a, r) ↔ l = arr_list a ++ r.
Proof.
  split; [|intros ->; apply split_arr_app].
  unfold split_arr. destruct (to_arr n (take n l)) as [a'|] eqn:E; [|done].
  simpl. intros [= -> <-]. apply to_arr_Some in E. rewrite <- E. by rewrite take_drop.
Qed.

Lemma split_arr_None n l : split_arr n l = None ↔ (length l < n)%nat.
Proof.
  unfold split_arr. destruct (to_arr n (take n l)) as [a|] eqn:E; simpl.
  - split; [done|]. apply to_arr_Some in E. intros Hl.
    pose proof (arr_length a) as Ha. rewrite <- E, length_take in Ha. lia.
  - split; [|done]. intros _. apply to_arr_None in E. rewrite length_take in E. lia.
Qed.

(** Equal prefixes of equal length split a concatenation uniquely. *)
Lemma app_arr_inj {n} (a b : arr n) l r :
  arr_list a ++ l = arr_list b ++ r → a = b ∧ l = r.
Proof.
  intros H. apply app_inj_1 in H as [H1 H2]; [|by rewrite !arr_length].
  split; [by apply arr_eq|done].
Qed.

#[global] Arguments le_bytes : simpl never.
