(* ===== verification/Crypto.v ===== *)
(** * Cryptographic primitives

    BLAKE3 and Ed25519 are third-party crates ([blake3],
    [ed25519-dalek]): they are the operations of the class [Crypto],
    with the documented laws the code relies on in [CryptoLaws].
    [scone-crypto]'s own code (the hashing helper, the key and signature
    wrappers) is defined on top of them.  [Toy] is a concrete instance,
    used to evaluate the models on closed inputs. *)

From S2P Require Import Prelude Bytes.

Class Crypto := {
  (** [blake3::Hasher]: the digest of the bytes fed by the successive
      [update] calls. *)
  blake3 : list byte → hash;
  (** [ed25519_dalek::VerifyingKey::from_bytes] succeeds. *)
  vk_valid : arr 32 → bool;
  (** [ed25519_dalek::Signature::from_slice] succeeds. *)
  sig_wf : sig64 → bool;
  (** [VerifyingKey::verify_strict] succeeds. *)
  verify_strict : arr 32 → list byte → sig64 → bool;
  (** [SigningKey::verifying_key] *)
  dalek_public : arr 32 → arr 32;
  (** [Signer::sign] *)
  dalek_sign : arr 32 → list byte → sig64 }.

(** The contract of [ed25519-dalek]: a signature made with a key
    verifies under its public key. *)
Class CryptoLaws `{Crypto} : Prop := {
  public_valid sk : vk_valid (dalek_public sk) = true;
  sign_wf sk m : sig_wf (dalek_sign sk m) = true;
  sign_verify sk m : verify_strict (dalek_public sk) m (dalek_sign sk m) = true }.

(** [scone-crypto/src/keys.rs:91-91 PublicKey] *)
Definition PublicKey : Type := arr 32.
(** [scone-crypto/src/keys.rs:154-154 Signature] *)
Definition Signature : Type := sig64.
(** [scone-crypto/src/keys.rs:40-40 SigningKey] *)
Definition SigningKey : Type := arr 32.

#[global] Instance PublicKey_eq_dec : EqDecision PublicKey := arr_eq_dec 32.
#[global] Instance PublicKey_countable : Countable PublicKey := arr_countable 32.
#[global] Instance Signature_eq_dec : EqDecision Signature := arr_eq_dec 64.

Section crypto.
Context `{Crypto}.

(** [scone-crypto/src/lib.rs:30-45 hash256] *)
Definition hash256 (parts : list (list byte)) : hash := blake3 (concat parts).

(** [scone-crypto/src/keys.rs:95-110 PublicKey::from_bytes] *)
Definition PublicKey_from_bytes (b : arr 32) : option PublicKey :=
  if vk_valid b then Some b else None.

(** [scone-crypto/src/keys.rs:115-129 PublicKey::verify] *)
Definition pk_verify (pk : PublicKey) (payload : list byte) (s : Signature) : bool :=
  if negb (vk_valid pk) then false
  else if negb (sig_wf s) then false
  else verify_strict pk payload s.

(** [scone-crypto/src/keys.rs:77-80 SigningKey::public_key] *)
Definition sk_public_key (sk : SigningKey) : PublicKey := dalek_public sk.

(** [scone-crypto/src/keys.rs:82-86 SigningKey::sign] *)
Definition sk_sign (sk : SigningKey) (payload : list byte) : Signature :=
  dalek_sign sk payload.

Lemma pk_verify_sign `{!CryptoLaws} sk m :
  pk_verify (sk_public_key sk) m (sk_sign sk m) = true.
Proof.
  unfold pk_verify, sk_public_key, sk_sign.
  by rewrite public_valid, sign_wf, sign_verify.
Qed.

Lemma pk_verify_valid pk m s : pk_verify pk m s = true → vk_valid pk = true.
Proof. unfold pk_verify. by destruct (vk_valid pk). Qed.

(** ** Collision freeness

    BLAKE3 is collision resistant, not injective: what an identifier or
    a root commits to is stated for runs whose preimages do not
    collide. *)
Definition injective_on (l : list (list byte)) : Prop :=
  ∀ x y, x ∈ l → y ∈ l → blake3 x = blake3 y → x = y.

Lemma injective_on_sub l l' : (∀ x, x ∈ l → x ∈ l') → injective_on l' → injective_on l.
Proof. intros Hs Hi x y Hx Hy. apply Hi; by apply Hs. Qed.

(** Decided by hashing every value once. *)
Definition injective_onb (l : list (list byte)) : bool :=
  let h := map (λ x, (blake3 x, x)) l in
  forallb (λ a, forallb (λ b, negb (arr_eqb a.1 b.1) || bool_decide (a.2 = b.2)) h) h.

Lemma injective_onb_sound l : injective_onb l = true → injective_on l.
Proof.
  unfold injective_onb. rewrite forallb_forall. intros Hl x y Hx Hy E.
  assert (∀ z, z ∈ l → In (blake3 z, z) (map (λ x, (blake3 x, x)) l)) as Hin.
  { intros z Hz. apply list_elem_of_In, list_elem_of_fmap. by exists z. }
  specialize (Hl _ (Hin x Hx)). rewrite forallb_forall in Hl. specialize (Hl _ (Hin y Hy)). cbn in Hl.
  apply orb_true_iff in Hl as [Hl|Hl]; [|by apply bool_decide_eq_true_1 in Hl].
  apply negb_true_iff, bool_decide_eq_false in Hl. done.
Qed.
End crypto.

(** Fewer preimages: the lists are concatenations of the same parts. *)
Ltac fewer_preimages Hi :=
  eapply injective_on_sub; [|exact Hi]; intros ?;
  repeat first [rewrite elem_of_app | rewrite elem_of_cons]; tauto.

(** ** A computable instance

    [Toy.digest] keeps the identifier of a state leaf and the text of a
    name (with a byte per namespace), and folds everything else into a
    polynomial; a "signature" is the fold of the key and the message.
    It satisfies [CryptoLaws] and the identifier hypotheses of the
    state layer, so the theorems that assume them can be applied to
    closed inputs. *)
Module Toy.
Definition fold (l : list byte) : N :=
  fold_left (λ acc b, N.land (acc * 5 + Byte.to_N b + 1) 0xFFFFFF) l 7.

Definition has_prefix (p l : list byte) : bool := bool_decide (take (length p) l = p).

Definition digest (l : list byte) : hash :=
  if has_prefix (ascii "SCONE-LEAF-") l then arr_of 32 (drop 17 l)
  else if has_prefix (ascii "SCONE-DOMAIN-V1") l then arr_of 32 (x44 :: drop 15 l)
  else if has_prefix (ascii "SCONE-TLD-V1") l then arr_of 32 (x54 :: drop 12 l)
  else arr_of 32 (le_bytes 3 (fold l)).

Definition sign (k : arr 32) (m : list byte) : sig64 :=
  arr_of 64 (le_bytes 3 (fold (arr_list k ++ m))).

#[global] Instance crypto : Crypto := {|
  blake3 := digest;
  vk_valid _ := true;
  sig_wf _ := true;
  verify_strict pk m s := arr_eqb s (sign pk m);
  dalek_public sk := sk;
  dalek_sign := sign |}.

#[global] Instance laws : CryptoLaws.
Proof. split; try done. intros sk m. by apply bool_decide_eq_true. Qed.
End Toy.
