(* ===== verification/Commitment.v ===== *)
(** * The contract of the state commitment

    What the chain state relies on: a set of (key, leaf) pairs with
    insertion and removal, whose representation is determined by the
    set.  The sparse Merkle tree discharges it ([SmtProofs.smt_commitment]);
    the state layer is verified against it. *)

From S2P Require Import Prelude Bytes.

Class SetCommitment {T : Type} `{Equiv T} (empty : T)
    (insert remove : T → N → hash → T) (key_ok : N → Prop) := {
  sc_wf : T → Prop;
  sc_has : T → N → hash → Prop;
  sc_wf_empty : sc_wf empty;
  sc_wf_insert s k l : sc_wf s → key_ok k → sc_wf (insert s k l);
  sc_wf_remove s k l : sc_wf s → key_ok k → sc_wf (remove s k l);
  sc_has_empty k l : ¬ sc_has empty k l;
  sc_has_insert s k l k' l' :
    sc_wf s → key_ok k → sc_has (insert s k l) k' l' ↔ (k' = k ∧ l' = l) ∨ sc_has s k' l';
  sc_has_remove s k l k' l' :
    sc_wf s → key_ok k → sc_has (remove s k l) k' l' ↔ sc_has s k' l' ∧ ¬ (k' = k ∧ l' = l);
  sc_canonical s t : sc_wf s → sc_wf t → (∀ k l, sc_has s k l ↔ sc_has t k l) → s ≡ t }.

(** Derived laws. *)
Section laws.
Context {T : Type} `{Equiv T} {empty : T} {insert remove : T → N → hash → T} {key_ok : N → Prop}.
Context `{!SetCommitment empty insert remove key_ok}.

Lemma sc_insert_comm s k l k' l' :
  sc_wf s → key_ok k → key_ok k' →
  insert (insert s k l) k' l' ≡ insert (insert s k' l') k l.
Proof.
  intros. apply sc_canonical; [by repeat apply sc_wf_insert..|].
  intros. rewrite !sc_has_insert by (done || by apply sc_wf_insert). tauto.
Qed.

Lemma sc_insert_remove s k l :
  sc_wf s → key_ok k → ¬ sc_has s k l → remove (insert s k l) k l ≡ s.
Proof.
  intros Hs Hk Hn. assert (sc_wf (insert s k l)) by by apply sc_wf_insert.
  apply sc_canonical; [by apply sc_wf_remove|done|].
  intros k' l'. rewrite sc_has_remove, sc_has_insert by done.
  split; [tauto|]. intros Hh. split; [by right|]. intros [-> ->]. done.
Qed.

Lemma sc_remove_insert s k l :
  sc_wf s → key_ok k → sc_has s k l → insert (remove s k l) k l ≡ s.
Proof.
  intros Hs Hk Hh. assert (sc_wf (remove s k l)) by by apply sc_wf_remove.
  apply sc_canonical; [by apply sc_wf_insert|done|].
  intros k' l'. rewrite sc_has_insert, sc_has_remove by done. split; [|].
  - intros [[-> ->]|[? _]]; done.
  - intros Hh'. destruct (decide (k' = k ∧ l' = l)) as [|Hne]; [by left|by right].
Qed.
End laws.
