(* ===== verification/Smt.v ===== *)
(** * The compact sparse Merkle tree ([scone-blockchain/src/smt.rs])

    The incremental state commitment: a radix trie over 40 key bits
    whose branch points live in a hash map keyed by their packed
    (depth, prefix), with implicit chains between them.  This file holds
    the data structure and its operations as the code has them; the
    reference tree they implement and the proofs are in [SmtProofs.v].

    Depths are [nat]; keys, prefixes, packed paths and child slots are
    the [u64]s of the code with their tag bits. *)

From S2P Require Import Prelude Bytes Crypto.

(** [scone-blockchain/src/smt.rs:67-67 SMT_NODE_TAG] *)
Definition SMT_NODE_TAG : list byte := ascii "SCONE-SMT-NODE".
(** [scone-blockchain/src/smt.rs:69-69 SMT_EMPTY_LEAF_TAG] *)
Definition SMT_EMPTY_LEAF_TAG : list byte := ascii "SCONE-SMT-LEAF-EMPTY".

(** [scone-blockchain/src/smt.rs:71-72 MAX_DEPTH] *)
Definition D : nat := 40.

(** [scone-blockchain/src/smt.rs:76-77 EMPTY] *)
Definition EMPTY : N := 0.
(** [scone-blockchain/src/smt.rs:78-79 CHAIN_BIT] *)
Definition CHAIN_BIT : N := N.shiftl 1 63.
(** [scone-blockchain/src/smt.rs:80-81 NODE_BIT] *)
Definition NODE_BIT : N := N.shiftl 1 62.
(** [scone-blockchain/src/smt.rs:82-82 TAG_MASK] *)
Definition TAG_MASK : N := N.lor CHAIN_BIT NODE_BIT.

(** [scone-blockchain/src/smt.rs:84-88 chain] *)
Definition chain (key : N) : N := N.lor CHAIN_BIT key.
(** [scone-blockchain/src/smt.rs:89-92 is_chain] *)
Definition is_chain (c : N) : bool := negb (N.land c CHAIN_BIT =? 0).
(** [scone-blockchain/src/smt.rs:93-96 chain_key] *)
Definition chain_key (c : N) : N := N.ldiff c TAG_MASK.
(** [scone-blockchain/src/smt.rs:97-100 node_ref] *)
Definition node_ref (packed : N) : N := N.lor NODE_BIT packed.
(** [scone-blockchain/src/smt.rs:101-104 is_node] *)
Definition is_node (c : N) : bool := negb (N.land c NODE_BIT =? 0).
(** [scone-blockchain/src/smt.rs:105-108 node_packed] *)
Definition node_packed (c : N) : N := N.ldiff c TAG_MASK.

(** [scone-blockchain/src/smt.rs:110-116 pack] *)
Definition pack (depth : nat) (path : N) : N := N.lor (N.shiftl (N.of_nat depth) 40) path.
(** [scone-blockchain/src/smt.rs:117-120 unpack] *)
Definition unpack (p : N) : nat * N :=
  (N.to_nat (N.shiftr p 40), N.land p (N.shiftl 1 40 - 1)).

(** [key >> n] for a bit count given as a depth difference. *)
Definition shr (key : N) (n : nat) : N := N.shiftr key (N.of_nat n).
(** [(key >> n) & 1 == 1] *)
Definition bit_at (key : N) (n : nat) : bool := N.testbit key (N.of_nat n).

(** [u64::leading_zeros] *)
Definition leading_zeros64 (x : N) : N := if x =? 0 then 64 else 63 - N.log2 x.

(** [scone-blockchain/src/smt.rs:122-129 divergence_depth] *)
Definition divergence_depth (a b : N) : nat :=
  D - 1 - N.to_nat (63 - leading_zeros64 (N.lxor a b)).

(** [scone-blockchain/src/smt.rs:131-137 BranchNode] *)
Record BranchNode := mkBranch { bn_hash : hash; bn_left : N; bn_right : N }.

#[global] Instance BranchNode_eq_dec : EqDecision BranchNode.
Proof. solve_decision. Defined.

(** [scone-blockchain/src/smt.rs:143-148 SlotRef] *)
Inductive SlotRef := Root | Child (parent : N) (bit : bool).

(** [scone-blockchain/src/smt.rs:203-221 Smt] *)
Record Smt := mkSmt {
  leaves : gmap N hash;
  buckets : gmap N (list hash);
  nodes : gmap N BranchNode;
  root_child : N;
  root_hash : option hash;
  dirty_nodes : list N;
  dirty_leaves : list N }.

(** Field updates. *)
Definition with_nodes (f : gmap N BranchNode → gmap N BranchNode) (s : Smt) : Smt :=
  mkSmt (leaves s) (buckets s) (f (nodes s)) (root_child s) (root_hash s)
    (dirty_nodes s) (dirty_leaves s).
Definition with_root_child (c : N) (s : Smt) : Smt :=
  mkSmt (leaves s) (buckets s) (nodes s) c (root_hash s) (dirty_nodes s) (dirty_leaves s).
Definition with_root_hash (h : option hash) (s : Smt) : Smt :=
  mkSmt (leaves s) (buckets s) (nodes s) (root_child s) h (dirty_nodes s) (dirty_leaves s).
Definition with_content (l : gmap N hash) (b : gmap N (list hash)) (s : Smt) : Smt :=
  mkSmt l b (nodes s) (root_child s) (root_hash s) (dirty_nodes s) (dirty_leaves s).
Definition push_dirty_node (q : N) (s : Smt) : Smt :=
  mkSmt (leaves s) (buckets s) (nodes s) (root_child s) (root_hash s)
    (dirty_nodes s ++ [q]) (dirty_leaves s).
Definition push_dirty_leaf (k : N) (s : Smt) : Smt :=
  mkSmt (leaves s) (buckets s) (nodes s) (root_child s) (root_hash s)
    (dirty_nodes s) (dirty_leaves s ++ [k]).

(** [slice.chunks(2)] *)
Fixpoint chunks2 {A} (l : list A) : list (list A) :=
  match l with
  | a :: b :: r => [a; b] :: chunks2 r
  | [a] => [[a]]
  | [] => []
  end.

Section smt.
Context `{Crypto}.

(** [scone-blockchain/src/smt.rs:150-152 node_hash] *)
Definition smt_node_hash (left right : hash) : hash :=
  hash256 [SMT_NODE_TAG; arr_list left; arr_list right].

(** [scone-blockchain/src/smt.rs:154-156 empty_leaf] *)
Definition empty_leaf : hash := hash256 [SMT_EMPTY_LEAF_TAG].

(** One level of the bucket tree: the last hash is duplicated on an
    odd level, then adjacent pairs are hashed. *)
Definition bucket_level (level : list hash) : list hash :=
  let level :=
    if Nat.even (length level) then level
    else match last level with Some x => level ++ [x] | None => level end in
  map (λ p, hash256 (map arr_list p)) (chunks2 level).

(** [while level.len() > 1] *)
Fixpoint bucket_loop (fuel : nat) (level : list hash) : list hash :=
  match fuel with
  | O => level
  | S fuel => if (1 <? length level)%nat then bucket_loop fuel (bucket_level level) else level
  end.

(** [scone-blockchain/src/smt.rs:158-179 bucket_merkle_root] *)
Definition bucket_merkle_root (ls : list hash) : hash :=
  match ls with
  | [] => arr_zero 32
  | [x] => x
  | _ => default (arr_zero 32) (head (bucket_loop (length ls) ls))
  end.

(** [scone-blockchain/src/smt.rs:181-193 defaults] *)
Fixpoint defaults (i : nat) : hash :=
  match i with
  | O => empty_leaf
  | S i => let d := defaults i in smt_node_hash d d
  end.

(** [scone-blockchain/src/smt.rs:224-227 Smt::new] *)
Definition smt_new : Smt := mkSmt ∅ ∅ ∅ EMPTY None [] [].

(** [scone-blockchain/src/smt.rs:229-239 Smt::bucket_root] *)
Definition bucket_root (s : Smt) (key : N) : hash :=
  match buckets s !! key with
  | Some v => bucket_merkle_root v
  | None => match leaves s !! key with
            | None => empty_leaf
            | Some h => h
            end
  end.

(** The folding loops of [fold], [root_value] and [child_value]: the
    value [v] of the subtree at level [lo] (levels count from the
    leaves, [level = D - depth]) is lifted through [cnt] levels along
    the bits of [path], the empty sibling at each level being the
    default subtree. *)
Fixpoint lift (path : N) (v : hash) (lo cnt : nat) : hash :=
  match cnt with
  | O => v
  | S c =>
      let v := lift path v lo c in
      let def := defaults (lo + c) in
      if bit_at path c then smt_node_hash def v else smt_node_hash v def
  end.

(** [scone-blockchain/src/smt.rs:241-255 Smt::fold] *)
Definition fold (s : Smt) (k : N) (from_depth : nat) : hash :=
  lift k (bucket_root s k) 0 (D - from_depth).

(** [self.nodes[&packed]]; the invariant of [SmtProofs.v] shows that
    every reference resolves. *)
Definition node_at (s : Smt) (packed : N) : BranchNode :=
  default (mkBranch (arr_zero 32) EMPTY EMPTY) (nodes s !! packed).

(** [scone-blockchain/src/smt.rs:257-281 Smt::root_value] *)
Definition root_value (s : Smt) : hash :=
  let repr := root_child s in
  if repr =? EMPTY then defaults D
  else if is_chain repr then fold s (chain_key repr) 0
  else
    let packed := node_packed repr in
    let '(d, p) := unpack packed in
    lift p (bn_hash (node_at s packed)) (D - d) d.

(** [scone-blockchain/src/smt.rs:283-307 Smt::child_value] *)
Definition child_value (s : Smt) (repr : N) (parent_depth : nat) : hash :=
  if repr =? EMPTY then defaults (D - 1 - parent_depth)
  else if is_chain repr then fold s (chain_key repr) (parent_depth + 1)
  else
    let packed := node_packed repr in
    let '(d, p) := unpack packed in
    lift p (bn_hash (node_at s packed)) (D - d) (d - (parent_depth + 1)).

(** The [while] loop of [locate_full]; depths strictly increase along
    it, so [D + 1] rounds are enough ([locate_loop_spec]). *)
Fixpoint locate_loop (fuel : nat) (s : Smt) (key : N)
    (stack : list (N * bool)) (slot : SlotRef) (repr : N)
    : list (N * bool) * SlotRef * N :=
  match fuel with
  | O => (stack, slot, repr)
  | S fuel =>
      if is_node repr then
        let packed := node_packed repr in
        let '(d, p) := unpack packed in
        if shr key (D - d) =? p then
          let bit := bit_at key (D - 1 - d) in
          locate_loop fuel s key (stack ++ [(packed, bit)]) (Child packed bit)
            (if bit then bn_right (node_at s packed) else bn_left (node_at s packed))
        else (stack, slot, repr)
      else (stack, slot, repr)
  end.

(** [scone-blockchain/src/smt.rs:318-345 Smt::locate_full] *)
Definition locate_full (s : Smt) (key : N) : list (N * bool) * SlotRef * N :=
  locate_loop (S D) s key [] Root (root_child s).

(** [scone-blockchain/src/smt.rs:309-316 Smt::locate] *)
Definition locate (s : Smt) (key : N) : SlotRef * N :=
  let '(_, slot, repr) := locate_full s key in (slot, repr).

(** [scone-blockchain/src/smt.rs:347-359 Smt::write_slot] *)
Definition write_slot (s : Smt) (slot : SlotRef) (val : N) : Smt :=
  match slot with
  | Root => with_root_child val s
  | Child parent bit =>
      with_nodes (alter (λ n,
        if bit then mkBranch (bn_hash n) (bn_left n) val
        else mkBranch (bn_hash n) val (bn_right n)) parent) s
  end.

(** The [for d in (0..v0_depth).rev()] loop of [recompute_from]: the
    last argument is the number of depths left. *)
Fixpoint recompute_loop (s : Smt) (key : N) (v : hash) (d : nat) : Smt * hash :=
  match d with
  | O => (s, v)
  | S d =>
      let bit := bit_at key (D - 1 - d) in
      let packed := pack d (shr key (D - d)) in
      match nodes s !! packed with
      | Some n =>
          let sib := if bit then bn_left n else bn_right n in
          let sib_val := child_value s sib d in
          let v := if bit then smt_node_hash sib_val v else smt_node_hash v sib_val in
          let s := with_nodes (alter (λ n, mkBranch v (bn_left n) (bn_right n)) packed) s in
          recompute_loop (push_dirty_node packed s) key v d
      | None =>
          let def := defaults (D - 1 - d) in
          let v := if bit then smt_node_hash def v else smt_node_hash v def in
          recompute_loop s key v d
      end
  end.

(** [scone-blockchain/src/smt.rs:369-403 Smt::recompute_from] *)
Definition recompute_from (s : Smt) (key : N) (v0 : hash) (v0_depth : nat) : Smt :=
  let '(s, v) := recompute_loop s key v0 v0_depth in
  with_root_hash (Some v) s.

(** [scone-blockchain/src/smt.rs:361-367 Smt::recompute] *)
Definition recompute (s : Smt) (key : N) : Smt :=
  recompute_from s key (bucket_root s key) D.

(** [Vec::insert] at the position [binary_search] reports for an
    absent element of a sorted vector. *)
Fixpoint insert_sorted (x : hash) (v : list hash) : list hash :=
  match v with
  | [] => [x]
  | y :: v => if bytes_ltb y x then y :: insert_sorted x v else x :: y :: v
  end.

(** The content half of [insert]: the new [leaves] and [buckets], or
    [None] when the leaf is already there ([touched == false]). *)
Definition insert_content (s : Smt) (key : N) (leaf : hash) : option Smt :=
  match buckets s !! key with
  | Some v =>
      if bool_decide (leaf ∈ v) then None
      else Some (with_content (leaves s) (<[key := insert_sorted leaf v]> (buckets s)) s)
  | None =>
      match leaves s !! key with
      | Some h =>
          if bool_decide (h = leaf) then None
          else Some (with_content (delete key (leaves s))
                       (<[key := merge_sort arr_le [h; leaf]]> (buckets s)) s)
      | None => Some (with_content (<[key := leaf]> (leaves s)) (buckets s) s)
      end
  end.

(** A new branch point at [np], and its reference in [slot]. *)
Definition add_branch (s : Smt) (slot : SlotRef) (np l r : N) : Smt :=
  let s := with_nodes <[np := mkBranch empty_leaf l r]> s in
  write_slot (push_dirty_node np s) slot (node_ref np).

(** The structural half of [insert]. *)
Definition insert_structure (s : Smt) (key : N) : Smt :=
  let '(slot, repr) := locate s key in
  if repr =? EMPTY then write_slot s slot (chain key)
  else if is_chain repr then
    let k := chain_key repr in
    if k =? key then s
    else
      let div := divergence_depth k key in
      let np := pack div (shr key (D - div)) in
      let '(l, r) := if bit_at k (D - 1 - div) then (chain key, chain k)
                     else (chain k, chain key) in
      add_branch s slot np l r
  else
    let '(d, p) := unpack (node_packed repr) in
    let q := shr key (D - d) in
    let b := N.to_nat (63 - leading_zeros64 (N.lxor q p)) in
    let div := (d - 1 - b)%nat in
    let np := pack div (shr key (D - div)) in
    let '(l, r) := if bit_at key (D - 1 - div) then (repr, chain key)
                   else (chain key, repr) in
    add_branch s slot np l r.

(** [scone-blockchain/src/smt.rs:405-496 Smt::insert] *)
Definition smt_insert (s : Smt) (key : N) (leaf : hash) : Smt :=
  match insert_content s key leaf with
  | None => s
  | Some s => recompute (insert_structure (push_dirty_leaf key s) key) key
  end.

(** The content half of [remove]: the new content and [key_emptied],
    or [None] when the leaf is absent. *)
Definition remove_content (s : Smt) (key : N) (leaf : hash) : option (Smt * bool) :=
  match buckets s !! key with
  | Some v =>
      if bool_decide (leaf ∈ v) then
        match list_difference v [leaf] with
        | [rest] => Some (with_content (<[key := rest]> (leaves s))
                            (delete key (buckets s)) s, false)
        | v => Some (with_content (leaves s) (<[key := v]> (buckets s)) s, false)
        end
      else None
  | None =>
      if bool_decide (leaves s !! key = Some leaf) then
        Some (with_content (delete key (leaves s)) (buckets s) s, true)
      else None
  end.

(** The walk up the ancestor stack (deepest first): degenerate nodes
    are removed until one carries a subtree to promote. *)
Fixpoint collapse (rstack : list (N * bool)) (s : Smt) (promoted : N) : Smt * N :=
  match rstack with
  | [] => (s, promoted)
  | (parent, bit) :: rstack =>
      if negb (promoted =? EMPTY) then (s, promoted)
      else
        let n := node_at s parent in
        let other := if bit then bn_left n else bn_right n in
        collapse rstack (with_nodes (delete parent) s) other
  end.

(** The structural half of [remove] after the last leaf of [key] is
    gone; [None] is the [unreachable!] panic. *)
Definition remove_structure (s : Smt) (key : N) : option Smt :=
  let '(stack, _, _) := locate_full s key in
  let '(s, promoted) := collapse (reverse stack) s EMPTY in
  if negb (promoted =? EMPTY) then
    match list_find (λ pb, is_Some (nodes s !! pb.1)) (reverse stack) with
    | Some (_, (p, b)) =>
        let s := write_slot s (Child p b) promoted in
        let d_p := (unpack p).1 in
        Some (recompute_from s key (child_value s promoted d_p) (d_p + 1))
    | None =>
        let s := with_root_child promoted s in
        Some (with_root_hash (Some (root_value s)) s)
    end
  else
    match stack with
    | [] => Some (with_root_hash None (with_root_child EMPTY s))
    | _ => None
    end.

(** [scone-blockchain/src/smt.rs:498-613 Smt::remove] *)
Definition smt_remove_opt (s : Smt) (key : N) (leaf : hash) : option Smt :=
  match remove_content s key leaf with
  | None => Some s
  | Some (s, key_emptied) =>
      let s := push_dirty_leaf key s in
      if key_emptied then remove_structure s key else Some (recompute s key)
  end.

(** [remove], the panic excluded by [smt_remove_total]. *)
Definition smt_remove (s : Smt) (key : N) (leaf : hash) : Smt :=
  default s (smt_remove_opt s key leaf).

(** [scone-blockchain/src/smt.rs:615-618 Smt::len] *)
Definition smt_len (s : Smt) : N :=
  N.of_nat (size (leaves s)) +
  foldr (λ v n, N.of_nat (length (v : list hash)) + n) 0 (map_to_list (buckets s)).*2.

(** [scone-blockchain/src/smt.rs:620-623 Smt::is_empty] *)
Definition smt_is_empty (s : Smt) : bool :=
  bool_decide (leaves s = ∅) && bool_decide (buckets s = ∅).

(** [scone-blockchain/src/smt.rs:625-633 Smt::root] *)
Definition smt_root (s : Smt) : hash :=
  match root_hash s with
  | Some h => h
  | None => defaults D
  end.

(** [scone-blockchain/src/smt.rs:637-644 Smt::take_dirty] *)
Definition take_dirty (s : Smt) : (list N * list N) * Smt :=
  ((dirty_nodes s, dirty_leaves s),
   mkSmt (leaves s) (buckets s) (nodes s) (root_child s) (root_hash s) [] []).

(** [scone-blockchain/src/smt.rs:663-670 Smt::leaf_entry] *)
Definition leaf_entry (s : Smt) (key : N) : option (hash * option (list hash)) :=
  match buckets s !! key with
  | Some v => Some (default (arr_zero 32) (head v), Some v)
  | None => (λ h, (h, None)) <$> leaves s !! key
  end.

(** [scone-blockchain/src/smt.rs:680-684 Smt::root_state] *)
Definition root_state (s : Smt) : N * option hash := (root_child s, root_hash s).

(** [scone-blockchain/src/smt.rs:686-689 Smt::restore_branch_node] *)
Definition restore_branch_node (s : Smt) (packed : N) (n : BranchNode) : Smt :=
  with_nodes <[packed := n]> s.

(** [scone-blockchain/src/smt.rs:691-701 Smt::restore_leaf] *)
Definition restore_leaf (s : Smt) (key : N) (h : hash) (bucket : option (list hash)) : Smt :=
  match bucket with
  | None => with_content (<[key := h]> (leaves s)) (buckets s) s
  | Some v => with_content (leaves s) (<[key := v]> (buckets s)) s
  end.

(** [scone-blockchain/src/smt.rs:703-707 Smt::restore_root] *)
Definition restore_root (s : Smt) (rc : N) (rh : option hash) : Smt :=
  with_root_hash rh (with_root_child rc s).
End smt.

(** [scone-blockchain/src/smt.rs:710-715 smt_key] *)
Definition smt_key (id : hash) : N := N.shiftr (be_val (take 8 id)) (64 - N.of_nat D).

(** [scone-blockchain/src/smt.rs:717-733 Smt::eq]: content equality, the
    persistence markers excluded. *)
#[global] Instance smt_equiv : Equiv Smt := λ s t,
  root_child s = root_child t ∧ root_hash s = root_hash t ∧
  leaves s = leaves t ∧ buckets s = buckets t ∧ nodes s = nodes t.

#[global] Instance smt_equivalence : Equivalence (≡@{Smt}).
Proof.
  split.
  - by intros s.
  - by intros s t (?&?&?&?&?).
  - intros s t u (H1&H2&H3&H4&H5) (?&?&?&?&?). repeat split; congruence.
Qed.

(** The same test as a boolean. *)
Definition smt_eqb (s t : Smt) : bool :=
  bool_decide (root_child s = root_child t) && bool_decide (root_hash s = root_hash t) &&
  bool_decide (leaves s = leaves t) && bool_decide (buckets s = buckets t) &&
  bool_decide (nodes s = nodes t).
