(* ===== verification/SmtRef.v ===== *)
(** * The reference tree and the canonical shape of the sparse Merkle tree

    [ref] is the reference commitment: the full binary Merkle tree of
    depth 40 over the (key → bucket) content, with no notion of branch
    points or chains.  [slot] and [branch] are the canonical compact
    shape of a key set.  [nodes_ok] says that a physical node map is
    that shape, with the reference hashes where a predicate holds; this
    file shows how it moves when a key is added or deleted and that
    [recompute_from] restores the hashes on a path.  The operations of
    [Smt.v] are verified with it in [SmtProofs.v]. *)

From S2P Require Import Prelude Bytes Crypto Smt.

(** ** Bit arithmetic of keys and tags *)

Lemma pow2_1_shiftl n : N.shiftl 1 n = 2 ^ n.
Proof. by rewrite N.shiftl_1_l. Qed.

Lemma shr_0 k : shr k 0 = k.
Proof. apply N.shiftr_0_r. Qed.

Lemma shr_shr k a b : shr (shr k a) b = shr k (a + b).
Proof. unfold shr. rewrite N.shiftr_shiftr. f_equal. lia. Qed.

Lemma shr_child k n : shr k n = 2 * shr k (S n) + N.b2n (bit_at k n).
Proof.
  rewrite <- Nat.add_1_r, <- shr_shr. unfold shr at 2, bit_at.
  rewrite <- N.div2_spec. rewrite (N.div2_odd (shr k n)) at 1.
  rewrite <- N.bit0_odd. unfold shr. by rewrite N.shiftr_spec'.
Qed.

Lemma shr_lt k n : k < 2 ^ N.of_nat D → (n ≤ D)%nat → shr k n < 2 ^ N.of_nat (D - n).
Proof.
  intros Hk Hn. unfold shr. rewrite N.shiftr_div_pow2.
  apply N.Div0.div_lt_upper_bound. rewrite <- N.pow_add_r.
  by replace (N.of_nat n + N.of_nat (D - n)) with (N.of_nat D) by lia.
Qed.

Lemma shr_D k : k < 2 ^ N.of_nat D → shr k D = 0.
Proof. intros Hk%(λ H, shr_lt _ D H (le_n D)). rewrite Nat.sub_diag in Hk. simpl in Hk. lia. Qed.

Lemma shr_mono k k' n m : (n ≤ m)%nat → shr k n = shr k' n → shr k m = shr k' m.
Proof.
  intros Hle E. replace m with (n + (m - n))%nat by lia. by rewrite <- !shr_shr, E.
Qed.

Lemma bit_at_shr k n m : bit_at (shr k n) m = bit_at k (n + m).
Proof. unfold bit_at, shr. rewrite N.shiftr_spec'. f_equal. lia. Qed.

(** A child prefix below [q]. *)
Definition child (q : N) (b : bool) : N := 2 * q + N.b2n b.

Lemma shr_child' k n : shr k n = child (shr k (S n)) (bit_at k n).
Proof. apply shr_child. Qed.

Lemma child_inj q q' b b' : child q b = child q' b' → q = q' ∧ b = b'.
Proof. unfold child. destruct b, b'; simpl; intros; split; (lia || done). Qed.

Lemma shr_S_iff k n q : shr k (S n) = q ↔ ∃ b, shr k n = child q b.
Proof.
  split.
  - intros <-. exists (bit_at k n). apply shr_child'.
  - intros [b Hb]. rewrite shr_child' in Hb. by apply child_inj in Hb as [? _].
Qed.

Lemma child_lt q b n : q < 2 ^ N.of_nat n → child q b < 2 ^ N.of_nat (S n).
Proof. rewrite Nat2N.inj_succ, N.pow_succ_r'. unfold child. destruct b; simpl; lia. Qed.

(** Tagged slots. *)
Lemma pack_eq d p : p < 2 ^ 40 → pack d p = N.of_nat d * 2 ^ 40 + p.
Proof. apply lor_add_small. Qed.

Lemma unpack_pack d p : p < 2 ^ 40 → unpack (pack d p) = (d, p).
Proof.
  intros Hp. unfold unpack. rewrite pack_eq by done.
  replace (N.shiftl 1 40 - 1) with (N.ones 40) by done.
  rewrite N.land_ones, N.shiftr_div_pow2. f_equal.
  - rewrite N.div_add_l by done. rewrite N.div_small by done. lia.
  - rewrite N.add_comm, N.Div0.mod_add. by apply N.mod_small.
Qed.

Lemma pack_inj d p d' p' :
  p < 2 ^ 40 → p' < 2 ^ 40 → pack d p = pack d' p' → d = d' ∧ p = p'.
Proof.
  intros Hp Hp' E. apply (f_equal unpack) in E. rewrite !unpack_pack in E by done.
  by injection E.
Qed.

Lemma pack_lt d p : (d ≤ D)%nat → p < 2 ^ 40 → pack d p < 2 ^ 62.
Proof. intros Hd Hp. rewrite pack_eq by done. unfold D in *. simpl. lia. Qed.

Section tags.
Context (x : N) (Hx : x < 2 ^ 62).

Lemma tag_bits i : 62 ≤ i → N.testbit x i = false.
Proof using Hx. by apply testbit_small. Qed.

Lemma CHAIN_BIT_spec i : N.testbit CHAIN_BIT i = (63 =? i).
Proof using. unfold CHAIN_BIT. rewrite pow2_1_shiftl. apply N.pow2_bits_eqb. Qed.
Lemma NODE_BIT_spec i : N.testbit NODE_BIT i = (62 =? i).
Proof using. unfold NODE_BIT. rewrite pow2_1_shiftl. apply N.pow2_bits_eqb. Qed.

Ltac tag_crush :=
  apply N.bits_inj; intros ?;
  match goal with |- N.testbit _ ?i = _ =>
    rewrite ?N.ldiff_spec, ?N.land_spec; unfold TAG_MASK, chain, node_ref;
    rewrite ?N.lor_spec, ?CHAIN_BIT_spec, ?NODE_BIT_spec, ?N.bits_0;
    destruct (N.eqb_spec 63 i), (N.eqb_spec 62 i);
    rewrite ?tag_bits by lia; rewrite ?andb_true_r, ?andb_false_r, ?orb_false_r;
    first [done | exfalso; lia]
  end.

Lemma is_chain_chain : is_chain (chain x) = true.
Proof using Hx.
  unfold is_chain. replace (N.land (chain x) CHAIN_BIT) with CHAIN_BIT; [done|]. tag_crush.
Qed.
Lemma is_node_chain : is_node (chain x) = false.
Proof using Hx.
  unfold is_node. replace (N.land (chain x) NODE_BIT) with 0; [done|]. tag_crush.
Qed.
Lemma chain_key_chain : chain_key (chain x) = x.
Proof using Hx. unfold chain_key. tag_crush. Qed.
Lemma is_node_node : is_node (node_ref x) = true.
Proof using Hx.
  unfold is_node. replace (N.land (node_ref x) NODE_BIT) with NODE_BIT; [done|]. tag_crush.
Qed.
Lemma is_chain_node : is_chain (node_ref x) = false.
Proof using Hx.
  unfold is_chain. replace (N.land (node_ref x) CHAIN_BIT) with 0; [done|]. tag_crush.
Qed.
Lemma node_packed_node : node_packed (node_ref x) = x.
Proof using Hx. unfold node_packed. tag_crush. Qed.

Lemma chain_nonempty : chain x ≠ EMPTY.
Proof using Hx. intros E. pose proof is_chain_chain as H. by rewrite E in H. Qed.
Lemma node_nonempty : node_ref x ≠ EMPTY.
Proof using Hx. intros E. pose proof is_node_node as H. by rewrite E in H. Qed.
End tags.

Lemma chain_inj x y : x < 2 ^ 62 → y < 2 ^ 62 → chain x = chain y → x = y.
Proof. intros Hx Hy E%(f_equal chain_key). by rewrite !chain_key_chain in E. Qed.
Lemma node_ref_inj x y : x < 2 ^ 62 → y < 2 ^ 62 → node_ref x = node_ref y → x = y.
Proof. intros Hx Hy E%(f_equal node_packed). by rewrite !node_packed_node in E. Qed.
Lemma chain_node x y : x < 2 ^ 62 → y < 2 ^ 62 → chain x ≠ node_ref y.
Proof. intros Hx Hy E%(f_equal is_chain). by rewrite is_chain_chain, is_chain_node in E. Qed.

Lemma key_lt_62 k : k < 2 ^ N.of_nat D → k < 2 ^ 62.
Proof. unfold D. simpl. lia. Qed.

(** ** The reference tree and the canonical shape *)

(** The content of a tree: key → sorted bucket of leaf hashes. *)
Notation content_map := (gmap N (list hash)).

(** Keys of the content fit in 40 bits. *)
Definition keys_ok (c : content_map) : Prop := ∀ k, is_Some (c !! k) → k < 2 ^ N.of_nat D.

(** Packed path of the branch point whose children are at level [n]. *)
Definition npack (n : nat) (q : N) : N := pack (D - 1 - n) q.

Section reference.
Context `{Crypto}.

Definition leaf_value (c : content_map) (k : N) : hash :=
  match c !! k with
  | None => empty_leaf
  | Some v => bucket_merkle_root v
  end.

(** The full binary Merkle tree: value of the subtree of the [2^n]
    keys with prefix [q]. *)
Fixpoint ref (c : content_map) (n : nat) (q : N) : hash :=
  match n with
  | O => leaf_value c q
  | S n => smt_node_hash (ref c n (child q false)) (ref c n (child q true))
  end.

(** The canonical child slot of that subtree. *)
Fixpoint slot (c : content_map) (n : nat) (q : N) : N :=
  match n with
  | O => match c !! q with Some _ => chain q | None => EMPTY end
  | S n =>
      let l := slot c n (child q false) in
      let r := slot c n (child q true) in
      if l =? EMPTY then r
      else if r =? EMPTY then l
      else node_ref (npack n q)
  end.

(** The canonical branch point at prefix [q], if there is one. *)
Definition branch (c : content_map) (n : nat) (q : N) : option BranchNode :=
  let l := slot c n (child q false) in
  let r := slot c n (child q true) in
  if (l =? EMPTY) || (r =? EMPTY) then None
  else Some (mkBranch (ref c (S n) q) l r).

(** *** What a slot says about the keys below it *)

Inductive slot_view (c : content_map) (n : nat) (q : N) : N → Prop :=
| view_empty :
    (∀ k, is_Some (c !! k) → shr k n ≠ q) → slot_view c n q EMPTY
| view_chain k :
    is_Some (c !! k) → shr k n = q →
    (∀ k', is_Some (c !! k') → shr k' n = q → k' = k) → slot_view c n q (chain k)
| view_node m p :
    (m < n)%nat → shr p (n - S m) = q → p < 2 ^ N.of_nat (D - S m) →
    slot c m (child p false) ≠ EMPTY → slot c m (child p true) ≠ EMPTY →
    (∀ k, is_Some (c !! k) → shr k n = q → shr k (S m) = p) →
    slot_view c n q (node_ref (npack m p)).

Section shape.
Context (c : content_map) (Hk : keys_ok c).

Lemma npack_lt n q : q < 2 ^ N.of_nat (D - S n) → npack n q < 2 ^ 62.
Proof using.
  intros Hq. apply pack_lt; [lia|]. eapply N.lt_le_trans; [done|].
  apply N.pow_le_mono_r; unfold D; lia.
Qed.

Lemma npack_small n q : q < 2 ^ N.of_nat (D - S n) → q < 2 ^ 40.
Proof using.
  intros Hq. eapply N.lt_le_trans; [done|]. apply N.pow_le_mono_r; unfold D; lia.
Qed.

Lemma npack_inj n q n' q' :
  (n < D)%nat → (n' < D)%nat →
  q < 2 ^ N.of_nat (D - S n) → q' < 2 ^ N.of_nat (D - S n') →
  npack n q = npack n' q' → n = n' ∧ q = q'.
Proof using.
  intros ? ? Hq%npack_small Hq'%npack_small E. apply pack_inj in E as [E ->]; [|done..].
  split; [lia|done].
Qed.

Lemma child_bound n q b :
  (n < D)%nat → q < 2 ^ N.of_nat (D - S n) → child q b < 2 ^ N.of_nat (D - n).
Proof using.
  intros ? Hq. replace (D - n)%nat with (S (D - S n)) by lia. by apply child_lt.
Qed.

Lemma view_empty_inv n q :
  slot_view c n q EMPTY → ∀ k, is_Some (c !! k) → shr k n ≠ q.
Proof using Hk.
  intros V. remember EMPTY as e eqn:E. destruct V as [|k' Hk'| m p].
  - done.
  - by apply chain_nonempty in E; [|apply key_lt_62, Hk].
  - by apply node_nonempty in E; [|apply npack_lt].
Qed.

(** Below a single-child level the slot is the child's. *)
Lemma view_lift n q b x :
  slot_view c n (child q (negb b)) EMPTY → slot_view c n (child q b) x →
  slot_view c (S n) q x.
Proof using Hk.
  intros Ve0 V. pose proof (view_empty_inv _ _ Ve0) as Ve.
  assert (∀ k, is_Some (c !! k) → shr k (S n) = q → shr k n = child q b) as Hdn.
  { intros k Hck [b' Hb]%shr_S_iff. destruct (decide (b' = b)) as [->|Hb']; [done|].
    exfalso. apply (Ve k Hck). rewrite Hb. f_equal. by destruct b, b'. }
  assert (∀ k, shr k n = child q b → shr k (S n) = q) as Hup.
  { intros k Hb. apply shr_S_iff. eauto. }
  destruct V as [Hno|k ? ? Hu|m p ? Hs ? ? ? Hu].
  - apply view_empty. intros k ? ?. apply (Hno k); [done|by apply Hdn].
  - apply view_chain; [done|by apply Hup|]. intros. apply Hu; [done|]. by apply Hdn.
  - apply view_node; [lia| |done..|].
    + replace (S n - S m)%nat with (S (n - S m)) by lia. apply shr_S_iff. eauto.
    + intros. apply Hu; [done|]. by apply Hdn.
Qed.

Lemma slot_spec n q :
  (n ≤ D)%nat → q < 2 ^ N.of_nat (D - n) → slot_view c n q (slot c n q).
Proof using Hk.
  revert q. induction n as [|n IH]; intros q Hn Hq; simpl.
  { destruct (c !! q) as [v|] eqn:E.
    - apply view_chain; [by eexists|apply shr_0|]. intros k' _. by rewrite shr_0.
    - apply view_empty. intros k' Hk'. rewrite shr_0. intros ->.
      rewrite E in Hk'. by destruct Hk'. }
  assert (∀ b, slot_view c n (child q b) (slot c n (child q b))) as V.
  { intros b. apply IH; [lia|]. apply child_bound; [lia|done]. }
  destruct (N.eqb_spec (slot c n (child q false)) EMPTY) as [El|El].
  { apply (view_lift n q true); [|done]. specialize (V false). by rewrite El in V. }
  destruct (N.eqb_spec (slot c n (child q true)) EMPTY) as [Er|Er].
  { apply (view_lift n q false); [|done]. specialize (V true). by rewrite Er in V. }
  apply view_node; [lia| |done..]. rewrite Nat.sub_diag. apply shr_0.
Qed.

Lemma slot_no_keys n q :
  (∀ k, is_Some (c !! k) → shr k n ≠ q) → slot c n q = EMPTY.
Proof using.
  revert q. induction n as [|n IH]; intros q Hno; simpl.
  { destruct (c !! q) eqn:E; [|done]. exfalso. apply (Hno q); [by eexists|apply shr_0]. }
  rewrite !IH; [done|..]; intros k Hck Hs; apply (Hno k Hck); apply shr_S_iff; eauto.
Qed.

Lemma slot_empty_iff n q :
  (n ≤ D)%nat → q < 2 ^ N.of_nat (D - n) →
  slot c n q = EMPTY ↔ ∀ k, is_Some (c !! k) → shr k n ≠ q.
Proof using Hk.
  intros Hn Hq. split; [|apply slot_no_keys].
  intros E. pose proof (slot_spec n q Hn Hq) as V. rewrite E in V. by apply view_empty_inv.
Qed.

(** *** Reference values *)

Lemma ref_no_keys n q :
  (∀ k, is_Some (c !! k) → shr k n ≠ q) → ref c n q = defaults n.
Proof using.
  revert q. induction n as [|n IH]; intros q Hno; simpl.
  { unfold leaf_value. destruct (c !! q) eqn:E; [|done].
    exfalso. apply (Hno q); [by eexists|apply shr_0]. }
  rewrite !IH; [done|..]; intros k Hck Hs; apply (Hno k Hck); apply shr_S_iff; eauto.
Qed.

(** A subtree whose keys all lie below one prefix is that prefix's
    value, lifted. *)
Lemma ref_lift lo cnt q :
  (∀ k, is_Some (c !! k) → shr k (lo + cnt) = shr q cnt → shr k lo = q) →
  ref c (lo + cnt) (shr q cnt) = lift q (ref c lo q) lo cnt.
Proof using.
  induction cnt as [|n IH]; intros Hall.
  { rewrite Nat.add_0_r, shr_0. done. }
  rewrite Nat.add_succ_r. simpl.
  assert (∀ b, b ≠ bit_at q n →
    ref c (lo + n) (child (shr q (S n)) b) = defaults (lo + n)) as Hoff.
  { intros b Hb. apply ref_no_keys. intros k Hck Hs. apply Hb.
    assert (shr k lo = q) as Hkq.
    { apply Hall; [done|]. rewrite Nat.add_succ_r. apply shr_S_iff. eauto. }
    rewrite <- shr_shr, Hkq, shr_child' in Hs. by apply child_inj in Hs as [_ ?]. }
  rewrite <- IH.
  2:{ intros k Hck Hs. apply Hall; [done|]. rewrite Nat.add_succ_r.
      apply shr_S_iff. exists (bit_at q n). by rewrite <- shr_child'. }
  rewrite (shr_child' q n). destruct (bit_at q n) eqn:Eb.
  - by rewrite (Hoff false).
  - by rewrite (Hoff true).
Qed.
Lemma slot_child_nonempty n q b :
  (n < D)%nat → q < 2 ^ N.of_nat (D - S n) →
  slot c n (child q b) ≠ EMPTY → slot c (S n) q ≠ EMPTY.
Proof using.
  intros Hn Hq Hne. simpl.
  destruct (N.eqb_spec (slot c n (child q false)) EMPTY) as [El|El].
  { destruct b; [done|by rewrite El in Hne]. }
  destruct (N.eqb_spec (slot c n (child q true)) EMPTY) as [Er|Er]; [done|].
  by apply node_nonempty, npack_lt.
Qed.

Lemma branch_None n q b :
  branch c n q = None → slot c n (child q b) ≠ EMPTY →
  slot c n (child q (negb b)) = EMPTY.
Proof using.
  unfold branch. intros Hb Hne.
  destruct (N.eqb_spec (slot c n (child q false)) EMPTY) as [El|El],
    (N.eqb_spec (slot c n (child q true)) EMPTY) as [Er|Er]; simpl in *; destruct b; done.
Qed.

Lemma branch_Some n q bn :
  branch c n q = Some bn →
  slot c n (child q false) ≠ EMPTY ∧ slot c n (child q true) ≠ EMPTY ∧
  bn = mkBranch (ref c (S n) q) (slot c n (child q false)) (slot c n (child q true)).
Proof using.
  unfold branch. intros Hb.
  destruct (N.eqb_spec (slot c n (child q false)) EMPTY) as [El|El],
    (N.eqb_spec (slot c n (child q true)) EMPTY) as [Er|Er]; simpl in *; naive_solver.
Qed.

Lemma slot_branch n q bn : branch c n q = Some bn → slot c (S n) q = node_ref (npack n q).
Proof using.
  intros (Hl & Hr & _)%branch_Some. simpl.
  apply N.eqb_neq in Hl, Hr. by rewrite Hl, Hr.
Qed.
End shape.

(** ** The physical node map *)

(** [ns] is the canonical node map of [c]; the cached hashes are the
    reference ones where [P] holds (a partial [recompute] has restored
    only some of them). *)
Definition nodes_ok (c : content_map) (ns : gmap N BranchNode)
    (P : nat → N → Prop) : Prop :=
  (∀ n q, (n < D)%nat → q < 2 ^ N.of_nat (D - S n) →
     match branch c n q with
     | None => ns !! npack n q = None
     | Some b => ∃ h, ns !! npack n q = Some (mkBranch h (bn_left b) (bn_right b)) ∧
                      (P n q → h = bn_hash b)
     end) ∧
  (∀ x b, ns !! x = Some b →
     ∃ n q, (n < D)%nat ∧ q < 2 ^ N.of_nat (D - S n) ∧ x = npack n q).

(** The content of a physical tree. *)
Definition content (s : Smt) : content_map :=
  buckets s ∪ ((λ h, [h]) <$> leaves s).

Lemma bucket_root_leaf_value s k : bucket_root s k = leaf_value (content s) k.
Proof.
  unfold bucket_root, leaf_value, content. rewrite lookup_union, lookup_fmap.
  destruct (buckets s !! k), (leaves s !! k); done.
Qed.

(** The value of a child slot covering [n] levels: [child_value] and
    [root_value] are the instances [n = D - 1 - parent_depth] and
    [n = D]. *)
Definition slot_value (s : Smt) (repr : N) (n : nat) : hash :=
  if repr =? EMPTY then defaults n
  else if is_chain repr then lift (chain_key repr) (bucket_root s (chain_key repr)) 0 n
  else
    let '(d, p) := unpack (node_packed repr) in
    lift p (bn_hash (node_at s (node_packed repr))) (D - d) (d - (D - n)).

Lemma child_value_slot_value s repr d :
  (d < D)%nat → child_value s repr d = slot_value s repr (D - 1 - d).
Proof.
  intros Hd. unfold child_value, slot_value, fold.
  destruct (repr =? EMPTY); [done|].
  destruct (is_chain repr).
  - by replace (D - (d + 1))%nat with (D - 1 - d)%nat by lia.
  - destruct (unpack _) as [d' p].
    by replace (D - (D - 1 - d))%nat with (d + 1)%nat by lia.
Qed.

Lemma root_value_slot_value s : root_value s = slot_value s (root_child s) D.
Proof.
  unfold root_value, slot_value, fold.
  destruct (_ =? EMPTY); [done|]. destruct (is_chain _); [done|].
  destruct (unpack _) as [d' p]. by rewrite Nat.sub_diag, Nat.sub_0_r.
Qed.

Lemma nodes_ok_weaken c ns (P Q : nat → N → Prop) :
  (∀ n q, (n < D)%nat → branch c n q ≠ None → Q n q → P n q) →
  nodes_ok c ns P → nodes_ok c ns Q.
Proof.
  intros HPQ [H1 H2]. split; [|done]. intros n q Hn Hq.
  specialize (H1 n q Hn Hq). specialize (HPQ n q Hn).
  destruct (branch c n q); [|done]. destruct H1 as (h & ? & ?). exists h. auto.
Qed.

Lemma nodes_ok_branch c ns P n q b :
  nodes_ok c ns P → (n < D)%nat → q < 2 ^ N.of_nat (D - S n) →
  branch c n q = Some b →
  ∃ h, ns !! npack n q = Some (mkBranch h (bn_left b) (bn_right b)) ∧
       (P n q → h = bn_hash b).
Proof. intros [H1 _] Hn Hq Hb. specialize (H1 n q Hn Hq). by rewrite Hb in H1. Qed.

Lemma unpack_npack n q :
  q < 2 ^ N.of_nat (D - S n) → unpack (npack n q) = ((D - 1 - n)%nat, q).
Proof. intros Hq. by apply unpack_pack, (npack_small n). Qed.

Lemma node_at_Some s x b : nodes s !! x = Some b → node_at s x = b.
Proof. unfold node_at. by intros ->. Qed.

Section recompute.
Context (c : content_map) (Hk : keys_ok c).

(** A slot below which the cached hashes are right has the reference value. *)
Lemma slot_value_ref s P n q :
  nodes_ok c (nodes s) P → (∀ k, bucket_root s k = leaf_value c k) →
  (n ≤ D)%nat → q < 2 ^ N.of_nat (D - n) →
  (∀ m p, (m < n)%nat → shr p (n - S m) = q → P m p) →
  slot_value s (slot c n q) n = ref c n q.
Proof using Hk.
  intros Hns Hbr Hn Hq HP. unfold slot_value.
  destruct (slot_spec c Hk n q Hn Hq) as [Hno|k Hck Hs Hu|m p Hm Hs Hp Hl Hr Hu].
  - by rewrite N.eqb_refl, ref_no_keys.
  - pose proof (key_lt_62 _ (Hk k Hck)) as Hkb.
    rewrite (proj2 (N.eqb_neq _ _) (chain_nonempty k Hkb)).
    rewrite is_chain_chain, chain_key_chain, Hbr by done. change (leaf_value c k) with (ref c 0 k).
    rewrite <- (ref_lift c 0 n k); simpl; [by rewrite Hs|].
    intros k' Hck' Hs'. rewrite shr_0. apply Hu; [done|congruence].
  - pose proof (npack_lt m p Hp) as Hpk.
    rewrite (proj2 (N.eqb_neq _ _) (node_nonempty _ Hpk)).
    rewrite is_chain_node, node_packed_node, unpack_npack by done.
    destruct (branch c m p) as [b|] eqn:Eb.
    2:{ exfalso. apply (branch_None c m p true) in Eb; done. }
    assert (m < D)%nat by lia.
    destruct (nodes_ok_branch c _ P m p b Hns) as (h & Hlk & Hh); [done..|].
    rewrite (node_at_Some _ _ _ Hlk). cbn [bn_hash]. rewrite Hh by (apply HP; done).
    apply branch_Some in Eb as (_ & _ & ->). cbn [bn_hash].
    replace (D - (D - 1 - m))%nat with (S m) by lia.
    replace (D - 1 - m - (D - n))%nat with (n - S m)%nat by lia.
    rewrite <- ref_lift; rewrite Hs; replace (S m + (n - S m))%nat with n by lia; done.
Qed.

(** Setting the hash of one branch point. *)
Lemma nodes_ok_set_hash ns P n q b :
  nodes_ok c ns P → (n < D)%nat → q < 2 ^ N.of_nat (D - S n) → branch c n q = Some b →
  nodes_ok c (alter (λ nd, mkBranch (bn_hash b) (bn_left nd) (bn_right nd)) (npack n q) ns)
    (λ n' q', P n' q' ∨ (n' = n ∧ q' = q)).
Proof using.
  intros Hns Hn Hq Hb. destruct (nodes_ok_branch c ns P n q b Hns) as (h & Hlk & _); [done..|].
  destruct Hns as [H1 H2]. split.
  - intros n' q' Hn' Hq'. specialize (H1 n' q' Hn' Hq').
    destruct (decide (npack n q = npack n' q')) as [E|E].
    + apply npack_inj in E as [<- <-]; [|done..]. rewrite Hb, lookup_alter_eq, Hlk.
      exists (bn_hash b). split; [reflexivity|done].
    + rewrite lookup_alter_ne by done. destruct (branch c n' q'); [|done].
      destruct H1 as (h' & ? & Hh'). exists h'. split; [done|]. intros [?|[-> ->]]; [auto|done].
  - intros x b' Hx. rewrite lookup_alter in Hx. case_decide; [|exact (H2 _ _ Hx)].
    by exists n, q.
Qed.

(** [recompute_from] restores the hashes on the path of [key]. *)
Lemma recompute_loop_spec key d s v :
  key < 2 ^ N.of_nat D → (d ≤ D)%nat →
  nodes_ok c (nodes s) (λ n q, q ≠ shr key (S n) ∨ (S n ≤ D - d)%nat) →
  (∀ k, bucket_root s k = leaf_value c k) →
  slot c (D - d) (shr key (D - d)) ≠ EMPTY →
  v = ref c (D - d) (shr key (D - d)) →
  let '(s', v') := recompute_loop s key v d in
  nodes_ok c (nodes s') (λ _ _, True) ∧ v' = ref c D 0 ∧
  leaves s' = leaves s ∧ buckets s' = buckets s ∧ root_child s' = root_child s.
Proof using Hk.
  intros Hkey. revert s v. induction d as [|d IH]; intros s v Hd Hns Hbr Hne Hv;
    cbn [recompute_loop].
  { rewrite Nat.sub_0_r in *. rewrite shr_D in * by done. repeat split; [|apply Hns|done..].
    intros n q Hn Hq. destruct Hns as [Hns _]. specialize (Hns n q Hn Hq).
    destruct (branch c n q); [|done]. destruct Hns as (h & ? & Hh).
    exists h. split; [done|]. intros _. apply Hh. right. lia. }
  remember (D - 1 - d)%nat as n eqn:En.
  replace (D - S d)%nat with n in * by lia. replace (D - d)%nat with (S n) by lia.
  set (q := shr key (S n)) in *. set (bit := bit_at key n) in *.
  assert (shr key n = child q bit) as Ekey by apply shr_child'.
  assert (q < 2 ^ N.of_nat (D - S n)) as Hq by (apply shr_lt; [done|lia]).
  assert (pack d q = npack n q) as -> by (unfold npack; f_equal; lia).
  rewrite Ekey in *.
  assert (slot c (S n) q ≠ EMPTY) as Hne' by (eapply slot_child_nonempty; [lia|done..]).
  destruct (branch c n q) as [b|] eqn:Eb.
  - destruct (nodes_ok_branch c _ _ n q b Hns) as (h & Hlk & _); [lia|done..|].
    rewrite Hlk. cbn [bn_left bn_right].
    assert (child_value s (if bit then bn_left b else bn_right b) d
            = ref c n (child q (negb bit))) as ->.
    { rewrite child_value_slot_value by lia. rewrite <- En.
      apply branch_Some in Eb as (_ & _ & ->). cbn [bn_left bn_right].
      replace (if bit then _ else _) with (slot c n (child q (negb bit))) by (by destruct bit).
      eapply slot_value_ref; [done|done|lia|apply child_bound; [lia|done]|].
      intros m p Hm Hp. left. intros ->. rewrite shr_shr in Hp.
      replace (S m + (n - S m))%nat with n in Hp by lia. rewrite Ekey in Hp.
      apply child_inj in Hp as [_ Hp]. by destruct bit. }
    assert ((if bit then smt_node_hash (ref c n (child q (negb bit))) v
             else smt_node_hash v (ref c n (child q (negb bit)))) = bn_hash b) as ->.
    { apply branch_Some in Eb as (_ & _ & ->). subst v. by destruct bit. }
    apply (nodes_ok_set_hash _ _ n q b) in Hns; [|lia|done..].
    match goal with |- context [recompute_loop ?s' key ?v' d] => specialize (IH s' v') end.
    apply IH; [lia| |done| |].
    + eapply nodes_ok_weaken; [|exact Hns]. intros n' q' _ _ [?|?]; [by left; left|].
      destruct (decide (n' = n)) as [->|]; [|left; right; lia].
      destruct (decide (q' = q)) as [->|]; [by right|left; by left].
    + by replace (D - d)%nat with (S n) by lia.
    + apply branch_Some in Eb as (_ & _ & ->). by replace (D - d)%nat with (S n) by lia.
  - assert (nodes s !! npack n q = None) as Hlk.
    { destruct Hns as [Hns _]. specialize (Hns n q). rewrite Eb in Hns. apply Hns; [lia|done]. }
    rewrite Hlk. pose proof (branch_None c n q bit Eb Hne) as Hsib.
    rewrite (slot_empty_iff c Hk) in Hsib by (lia || (apply child_bound; [lia|done])).
    apply ref_no_keys in Hsib. apply IH; [lia| |done| |].
    + eapply nodes_ok_weaken; [|exact Hns]. intros n' q' _ Hb' [?|?]; [by left|].
      destruct (decide (n' = n)) as [->|]; [|right; lia].
      left. fold q. by intros ->.
    + by replace (D - d)%nat with (S n) by lia.
    + replace (D - d)%nat with (S n) by lia. fold q. cbn [ref]. rewrite <- Hsib, Hv.
      by destruct bit.
Qed.
End recompute.

(** ** Changing one key

    [c] and [c'] differ at [key] only: everything off the path of
    [key] is unchanged. *)
Section off_path.
Context (c c' : content_map) (key : N).
Context (Hagree : ∀ k, k ≠ key → c' !! k = c !! k).

Lemma off_child n q b : shr key (S n) ≠ q → shr key n ≠ child q b.
Proof using. intros Hne E. apply Hne, shr_S_iff. eauto. Qed.

Lemma slot_off n q : shr key n ≠ q → slot c' n q = slot c n q.
Proof using Hagree.
  revert q. induction n as [|n IH]; intros q Hne; simpl.
  { rewrite Hagree; [done|]. rewrite shr_0 in Hne. congruence. }
  rewrite !IH; [done|by apply off_child..].
Qed.

Lemma ref_off n q : shr key n ≠ q → ref c' n q = ref c n q.
Proof using Hagree.
  revert q. induction n as [|n IH]; intros q Hne; simpl.
  { unfold leaf_value. rewrite Hagree; [done|]. rewrite shr_0 in Hne. congruence. }
  rewrite !IH; [done|by apply off_child..].
Qed.

Lemma branch_off n q : shr key (S n) ≠ q → branch c' n q = branch c n q.
Proof using Hagree.
  intros Hne. unfold branch. rewrite !slot_off by (by apply off_child). by rewrite ref_off.
Qed.

Lemma nodes_ok_path ns ns' :
  key < 2 ^ N.of_nat D →
  nodes_ok c ns (λ _ _, True) →
  (∀ n q, (n < D)%nat → q < 2 ^ N.of_nat (D - S n) → q ≠ shr key (S n) →
     ns' !! npack n q = ns !! npack n q) →
  (∀ n, (n < D)%nat →
     match branch c' n (shr key (S n)) with
     | None => ns' !! npack n (shr key (S n)) = None
     | Some b => ∃ h, ns' !! npack n (shr key (S n)) = Some (mkBranch h (bn_left b) (bn_right b))
     end) →
  (∀ x, is_Some (ns' !! x) → is_Some (ns !! x) ∨
     ∃ n, (n < D)%nat ∧ x = npack n (shr key (S n))) →
  nodes_ok c' ns' (λ n q, q ≠ shr key (S n)).
Proof using Hagree.
  intros Hkey [H1 H2] Hoff Hon Hdom. split.
  - intros n q Hn Hq. destruct (decide (q = shr key (S n))) as [->|Hne].
    + specialize (Hon n Hn). destruct (branch c' n _); [|done].
      destruct Hon as [h Hh]. exists h. by split.
    + rewrite branch_off by congruence. specialize (H1 n q Hn Hq).
      rewrite Hoff by done. destruct (branch c n q); [|done].
      destruct H1 as (h & ? & Hh). exists h. auto.
  - intros x b Hx. destruct (Hdom x) as [[b' Hb']|(n & Hn & ->)]; [by eexists|by eapply H2|].
    exists n, (shr key (S n)). split_and!; [done| |done]. apply shr_lt; [done|lia].
Qed.
End off_path.

(** *** Adding a key

    [m]: the level where [key] leaves the other keys; [t]: the level
    of the lowest branch point on its path ([D]: none). *)
Section add_key.
Context (c : content_map) (Hk : keys_ok c).
Context (key : N) (Hkey : key < 2 ^ N.of_nat D).
Context (v : list hash) (m t : nat) (Hmt : (m < t)%nat) (HtD : (t ≤ D)%nat).

Notation q j := (shr key (S j)).
Notation b j := (bit_at key j).
Notation on j := (shr key j).
Notation sib j := (child (q j) (negb (b j))).

Context (Hnone : ∀ j, (j < t)%nat → branch c j (q j) = None).
Context (Hm : slot c m (on m) = EMPTY).
Context (Hsib : slot c m (sib m) ≠ EMPTY).
Context (Htop : t = D ∨ ((t < D)%nat ∧ branch c t (q t) ≠ None)).

Let c' : content_map := <[key := v]> c.
Let r : N := slot c m (sib m).
Let np : N := npack m (q m).

Lemma add_fresh : c !! key = None.
Proof.
  apply eq_None_not_Some. intros Hs.
  rewrite (slot_empty_iff c Hk) in Hm by (lia || (apply shr_lt; [done|lia])).
  by apply (Hm key).
Qed.

Lemma add_agree k : k ≠ key → c' !! k = c !! k.
Proof. intros. unfold c'. by rewrite lookup_insert_ne. Qed.

Lemma q_lt j : (j < D)%nat → q j < 2 ^ N.of_nat (D - S j).
Proof. intros. apply shr_lt; [done|lia]. Qed.

Lemma np_lt : np < 2 ^ 62.
Proof. apply npack_lt, q_lt. lia. Qed.

Lemma slot_children (d : content_map) j :
  slot d (S j) (q j) =
    if slot d j (on j) =? EMPTY then slot d j (sib j)
    else if slot d j (sib j) =? EMPTY then slot d j (on j)
    else node_ref (npack j (q j)).
Proof.
  rewrite (shr_child' key j). cbn [slot]. destruct (b j); simpl negb; [|done].
  destruct (N.eqb_spec (slot d j (child (q j) false)) EMPTY),
    (N.eqb_spec (slot d j (child (q j) true)) EMPTY); congruence.
Qed.

Lemma branch_children (d : content_map) j :
  branch d j (q j) =
    if (slot d j (on j) =? EMPTY) || (slot d j (sib j) =? EMPTY) then None
    else Some (if b j then mkBranch (ref d (S j) (q j)) (slot d j (sib j)) (slot d j (on j))
               else mkBranch (ref d (S j) (q j)) (slot d j (on j)) (slot d j (sib j))).
Proof.
  rewrite (shr_child' key j). unfold branch. destruct (b j); simpl negb; [|done].
  by rewrite orb_comm.
Qed.

Lemma sib_off j : slot c' j (sib j) = slot c j (sib j).
Proof.
  apply (slot_off c c' key add_agree). rewrite shr_child'. intros [_ E]%child_inj.
  by destruct (b j).
Qed.

Lemma on_low j : (j ≤ m)%nat → slot c j (on j) = EMPTY.
Proof.
  intros Hj. apply slot_no_keys. intros k Hck Hs.
  rewrite (slot_empty_iff c Hk) in Hm by (lia || (apply shr_lt; [done|lia])).
  apply (Hm k Hck). by apply (shr_mono _ _ j).
Qed.

Lemma sib_low j : (j < m)%nat → slot c j (sib j) = EMPTY.
Proof.
  intros Hj. destruct (decide (slot c j (sib j) = EMPTY)) as [|Hne]; [done|].
  exfalso. apply slot_child_nonempty in Hne; [|lia|apply q_lt; lia].
  apply Hne. apply on_low. lia.
Qed.

Lemma on_mid j : (m < j ≤ t)%nat → slot c j (on j) = r.
Proof.
  clear Htop.
  induction j as [|j IH]; intros Hj; [lia|].
  rewrite slot_children. destruct (decide (j = m)) as [->|Hjm].
  { by rewrite Hm, N.eqb_refl. }
  rewrite IH by lia. pose proof (Hnone j ltac:(lia)) as Hb.
  rewrite branch_children, IH in Hb by lia.
  apply N.eqb_neq in Hsib. fold r in Hsib. rewrite Hsib in *.
  destruct (slot c j (sib j) =? EMPTY); [done|]. done.
Qed.

Lemma sib_mid j : (m < j < t)%nat → slot c j (sib j) = EMPTY.
Proof.
  intros Hj. pose proof (Hnone j ltac:(lia)) as Hb.
  rewrite branch_children, on_mid in Hb by lia.
  apply N.eqb_neq in Hsib. fold r in Hsib. rewrite Hsib in *.
  by destruct (N.eqb_spec (slot c j (sib j)) EMPTY).
Qed.

Lemma on_low' j : (j ≤ m)%nat → slot c' j (on j) = chain key.
Proof.
  induction j as [|j IH]; intros Hj.
  { simpl. rewrite shr_0. unfold c'. by rewrite lookup_insert_eq. }
  rewrite slot_children, IH, sib_off, sib_low by lia.
  by rewrite (proj2 (N.eqb_neq _ _) (chain_nonempty _ (key_lt_62 _ Hkey))).
Qed.

Lemma on_mid' j : (m < j ≤ t)%nat → slot c' j (on j) = node_ref np.
Proof.
  induction j as [|j IH]; intros Hj; [lia|].
  rewrite slot_children, sib_off. destruct (decide (j = m)) as [->|Hjm].
  { rewrite on_low' by done.
    rewrite (proj2 (N.eqb_neq _ _) (chain_nonempty _ (key_lt_62 _ Hkey))).
    by rewrite (proj2 (N.eqb_neq _ _) Hsib). }
  rewrite IH, sib_mid by lia.
  by rewrite (proj2 (N.eqb_neq _ _) (node_nonempty _ np_lt)).
Qed.

Lemma on_high' j : (t < j ≤ D)%nat → slot c' j (on j) = slot c j (on j).
Proof.
  induction j as [|j IH]; intros Hj; [lia|].
  rewrite !slot_children, sib_off. destruct (decide (j = t)) as [->|Hjt]; [|by rewrite IH by lia].
  destruct Htop as [->|[_ Hb]]; [lia|]. rewrite branch_children in Hb.
  rewrite on_mid' by lia. rewrite (proj2 (N.eqb_neq _ _) (node_nonempty _ np_lt)).
  destruct (slot c t (on t) =? EMPTY); [done|]. by destruct (slot c t (sib t) =? EMPTY).
Qed.

(** The slot that refers to the subtree at level [t]. *)
Definition path_slot : SlotRef :=
  if decide (t = D) then Root else Child (npack t (q t)) (b t).

Definition set_child (val : N) (n : BranchNode) : BranchNode :=
  if b t then mkBranch (bn_hash n) (bn_left n) val
  else mkBranch (bn_hash n) val (bn_right n).

(** [write_slot] at [path_slot], seen on the node map. *)
Definition put_ref (val : N) (ns : gmap N BranchNode) : gmap N BranchNode :=
  if decide (t = D) then ns else alter (set_child val) (npack t (q t)) ns.

Lemma nodes_write_slot s val :
  nodes (write_slot s path_slot val) = put_ref val (nodes s).
Proof. unfold path_slot, put_ref. by case_decide. Qed.

Lemma npack_q_inj j j' :
  (j < D)%nat → (j' < D)%nat → npack j (q j) = npack j' (q j') → j = j'.
Proof. intros ? ? E. apply npack_inj in E as [? _]; try done; by apply q_lt. Qed.

Lemma put_ref_ne val ns x : (t < D → x ≠ npack t (q t))%nat → put_ref val ns !! x = ns !! x.
Proof.
  intros Hx. unfold put_ref. case_decide as Et; [done|].
  rewrite lookup_alter_ne; [done|]. intros E. apply Hx; [lia|done].
Qed.

Lemma put_ref_is_Some val ns x : is_Some (put_ref val ns !! x) ↔ is_Some (ns !! x).
Proof.
  unfold put_ref. case_decide; [done|]. rewrite lookup_alter. case_decide; [|done].
  subst. by rewrite fmap_is_Some.
Qed.

Lemma put_ref_eq val ns : (t < D)%nat → put_ref val ns !! npack t (q t) = set_child val <$> ns !! npack t (q t).
Proof. intros Ht. unfold put_ref. rewrite decide_False by lia. apply lookup_alter_eq. Qed.

Lemma off_npack j n p :
  (j < D)%nat → (n < D)%nat → p < 2 ^ N.of_nat (D - S n) → p ≠ q n →
  npack n p ≠ npack j (q j).
Proof.
  intros Hj Hn Hp Hne E. apply npack_inj in E as [-> ->]; try done. by apply q_lt.
Qed.

(** The branch points on the path, before and after. *)
Lemma branch_new_low j : (j < t)%nat → j ≠ m → branch c' j (q j) = None.
Proof.
  intros Hj Hjm. rewrite branch_children, sib_off.
  destruct (decide (j < m)%nat).
  - by rewrite sib_low, N.eqb_refl, orb_true_r by lia.
  - by rewrite sib_mid, N.eqb_refl, orb_true_r by lia.
Qed.

Lemma branch_new_m :
  branch c' m (q m) = Some (mkBranch (ref c' (S m) (q m))
    (if b m then r else chain key) (if b m then chain key else r)).
Proof.
  rewrite branch_children, sib_off, on_low' by done.
  rewrite (proj2 (N.eqb_neq _ _) (chain_nonempty _ (key_lt_62 _ Hkey))).
  rewrite (proj2 (N.eqb_neq _ _) Hsib). simpl. by destruct (b m).
Qed.

Lemma branch_new_t bn :
  (t < D)%nat → branch c t (q t) = Some bn →
  branch c' t (q t) = Some (mkBranch (ref c' (S t) (q t))
    (bn_left (set_child (node_ref np) bn)) (bn_right (set_child (node_ref np) bn))) ∧
  set_child r bn = bn.
Proof.
  intros Ht Hb. rewrite branch_children in Hb |- *. rewrite sib_off, on_mid' by lia.
  rewrite on_mid in Hb by lia.
  rewrite (proj2 (N.eqb_neq _ _) (node_nonempty _ np_lt)).
  destruct (r =? EMPTY); [done|]. destruct (slot c t (sib t) =? EMPTY); [done|].
  simpl in *. injection Hb as <-. unfold set_child. by destruct (b t).
Qed.

Lemma branch_new_high j :
  (t < j < D)%nat →
  branch c' j (q j) =
    (λ bn, mkBranch (ref c' (S j) (q j)) (bn_left bn) (bn_right bn)) <$> branch c j (q j).
Proof.
  intros Hj. rewrite !branch_children, sib_off, on_high' by lia.
  destruct (_ || _); [done|]. by destruct (b j).
Qed.

(** [insert]'s new branch point. *)
Lemma add_nodes_ok ns h :
  nodes_ok c ns (λ _ _, True) →
  nodes_ok c'
    (put_ref (node_ref np)
      (<[np := mkBranch h (if b m then r else chain key) (if b m then chain key else r)]> ns))
    (λ n p, p ≠ shr key (S n)).
Proof.
  intros Hns. pose proof Hns as [H1 _].
  apply (nodes_ok_path c c' key add_agree ns); [done|done| | |].
  - intros n p Hn Hp Hne. rewrite put_ref_ne by (intros; by apply off_npack).
    rewrite lookup_insert_ne; [done|]. intros E. by eapply off_npack, eq_sym, E; [lia|..].
  - intros j Hj. specialize (H1 j (q j) Hj (q_lt j Hj)).
    destruct (decide (j = m)) as [->|Hjm].
    { rewrite branch_new_m. exists h. rewrite put_ref_ne; [by rewrite lookup_insert_eq|].
      intros Ht E%npack_q_inj; lia. }
    assert (np ≠ npack j (q j)) as Hnp by (intros E%npack_q_inj; lia).
    destruct (decide (j = t)) as [->|Hjt].
    { rewrite put_ref_eq, lookup_insert_ne by done.
      pose proof Htop as Ht0. pose proof branch_new_t as Hnt.
      destruct Ht0 as [?|[_ Hb]]; [lia|].
      destruct (branch c t (q t)) as [bn|] eqn:Eb; [|done].
      destruct (Hnt bn) as [-> _]; [done..|]. destruct H1 as (h' & -> & _).
      exists h'. unfold set_child. simpl. by destruct (b t). }
    rewrite put_ref_ne by (intros Ht E%npack_q_inj; lia). rewrite lookup_insert_ne by done.
    destruct (decide (j < t)%nat).
    + rewrite branch_new_low by lia. by rewrite Hnone in H1 by lia.
    + rewrite branch_new_high by lia. destruct (branch c j (q j)); simpl; [|done].
      destruct H1 as (h' & ? & _). eauto.
  - intros x. rewrite put_ref_is_Some, lookup_insert_is_Some'. intros [<-|?]; [|by left].
    right. exists m. split; [lia|done].
Qed.

(** [remove]'s collapsed branch point. *)
Lemma del_nodes_ok ns :
  nodes_ok c' ns (λ _ _, True) →
  nodes_ok c (put_ref r (delete np ns)) (λ n p, p ≠ shr key (S n)).
Proof.
  intros Hns. pose proof Hns as [H1 _].
  assert (∀ k, k ≠ key → c !! k = c' !! k) as Hag by (intros; by rewrite add_agree).
  apply (nodes_ok_path c' c key Hag ns); [done|done| | |].
  - intros n p Hn Hp Hne. rewrite put_ref_ne by (intros; by apply off_npack).
    rewrite lookup_delete_ne; [done|]. intros E. by eapply off_npack, eq_sym, E; [lia|..].
  - intros j Hj. specialize (H1 j (q j) Hj (q_lt j Hj)).
    destruct (decide (j = m)) as [->|Hjm].
    { rewrite Hnone by lia. rewrite put_ref_ne; [by rewrite lookup_delete_eq|].
      intros Ht E%npack_q_inj; lia. }
    assert (np ≠ npack j (q j)) as Hnp by (intros E%npack_q_inj; lia).
    destruct (decide (j = t)) as [->|Hjt].
    { rewrite put_ref_eq, lookup_delete_ne by done.
      pose proof Htop as Ht0. pose proof branch_new_t as Hnt.
      destruct Ht0 as [?|[_ Hb]]; [lia|].
      destruct (branch c t (q t)) as [bn|] eqn:Eb; [|done].
      destruct (Hnt bn) as [E1 E2]; [done..|]. rewrite E1 in H1.
      destruct H1 as (h' & -> & _). exists h'. simpl in *.
      unfold set_child in *. destruct bn. by destruct (b t); simpl in *; injection E2 as ->. }
    rewrite put_ref_ne by (intros Ht E%npack_q_inj; lia). rewrite lookup_delete_ne by done.
    destruct (decide (j < t)%nat).
    + rewrite Hnone by lia. by rewrite branch_new_low in H1 by lia.
    + rewrite branch_new_high in H1 by lia. destruct (branch c j (q j)); simpl in *; [|done].
      destruct H1 as (h' & ? & _). eauto.
  - intros x. rewrite put_ref_is_Some, lookup_delete_is_Some. intros [_ ?]. by left.
Qed.
End add_key.
End reference.
