(* ===== verification/SmtProofs.v ===== *)
(** * The operations of the sparse Merkle tree implement the reference

    The invariant [wf] says that the physical tree is the canonical
    shape of its content and that every cached hash is the reference
    hash.  [insert] and [remove] preserve it, act on the content as
    insertion and deletion of a leaf, and never reach the
    [unreachable!] of the code; the content determines the tree. *)

From S2P Require Import Prelude Bytes Crypto Commitment Smt SmtRef.

Section smt_ops.
Context `{Crypto}.

(** ** The descent *)

(** Levels of the branch points on the path of [key] below [n],
    highest first. *)
Fixpoint path_levels (c : content_map) (key : N) (n : nat) : list nat :=
  match n with
  | O => []
  | S n => match branch c n (shr key (S n)) with
           | Some _ => n :: path_levels c key n
           | None => path_levels c key n
           end
  end.

Lemma path_levels_skip c key m n :
  (m ≤ n)%nat → (∀ j, (m ≤ j < n)%nat → branch c j (shr key (S j)) = None) →
  path_levels c key n = path_levels c key m.
Proof.
  intros Hmn. induction Hmn as [|n Hmn IH]; intros Hno; [done|].
  cbn [path_levels]. rewrite Hno by lia. apply IH. intros. apply Hno. lia.
Qed.

Lemma path_levels_nil c key n :
  (∀ j, (j < n)%nat → branch c j (shr key (S j)) = None) → path_levels c key n = [].
Proof. intros Hno. rewrite (path_levels_skip c key 0 n); [done|lia|]. intros. apply Hno. lia. Qed.

(** The lowest level: no branch point on the path below it. *)
Lemma path_levels_last c key n ls t :
  path_levels c key n = ls ++ [t] →
  (t < n)%nat ∧ branch c t (shr key (S t)) ≠ None ∧
  ∀ j, (j < t)%nat → branch c j (shr key (S j)) = None.
Proof.
  revert ls. induction n as [|n IH]; intros ls E; cbn [path_levels] in E; [by destruct ls|].
  destruct (branch c n (shr key (S n))) as [bn|] eqn:Eb.
  2:{ apply IH in E as (? & ? & ?). split_and!; [lia|done..]. }
  destruct ls as [|x ls]; simpl in E; injection E as -> E.
  - split_and!; [lia|by rewrite Eb|]. clear Eb IH. revert E. induction t as [|t IH]; [lia|].
    cbn [path_levels]. destruct (branch c t _) eqn:Eb; [done|]. intros E j Hj.
    destruct (decide (j = t)) as [->|]; [done|]. apply IH; [done|lia].
  - apply IH in E as (? & ? & ?). split_and!; [lia|done..].
Qed.

Lemma path_levels_none c key n :
  path_levels c key n = [] → ∀ j, (j < n)%nat → branch c j (shr key (S j)) = None.
Proof.
  induction n as [|n IH]; cbn [path_levels]; [lia|].
  destruct (branch c n _) eqn:Eb; [done|]. intros E j Hj.
  destruct (decide (j = n)) as [->|]; [done|]. apply IH; [done|lia].
Qed.

(** The slot below the last level of a descent from level [n]. *)
Definition last_level (n : nat) (ls : list nat) : nat := default n (last ls).

Definition level_slot (key : N) (slot0 : SlotRef) (ls : list nat) : SlotRef :=
  match last ls with
  | None => slot0
  | Some t => Child (npack t (shr key (S t))) (bit_at key t)
  end.

Definition level_entry (key : N) (j : nat) : N * bool :=
  (npack j (shr key (S j)), bit_at key j).

(** A non-empty slot has a key below it; a branch point, two. *)
Lemma slot_key c n q : slot c n q ≠ EMPTY → ∃ k, is_Some (c !! k) ∧ shr k n = q.
Proof.
  revert q. induction n as [|n IH]; intros q; simpl.
  { destruct (c !! q) eqn:E; [|done]. intros _. exists q. by rewrite E, shr_0. }
  destruct (N.eqb_spec (slot c n (child q false)) EMPTY) as [|Hl].
  - intros (k & ? & ?)%IH. exists k. split; [done|]. apply shr_S_iff. eauto.
  - intros _. destruct (IH _ Hl) as (k & ? & ?). exists k. split; [done|]. apply shr_S_iff. eauto.
Qed.

Lemma branch_keys c n q bn b :
  branch c n q = Some bn → ∃ k, is_Some (c !! k) ∧ shr k n = child q b.
Proof. intros (Hl & Hr & _)%branch_Some. apply slot_key. by destruct b. Qed.

Section locate.
Context (c : content_map) (Hk : keys_ok c).
Context (key : N) (Hkey : key < 2 ^ N.of_nat D).

(** No branch point on the path where all the keys below agree on a
    lower prefix that is not a prefix of [key], or are one key. *)
Lemma no_branch_agree n m p :
  (m ≤ n)%nat →
  (∀ k, is_Some (c !! k) → shr k n = shr key n → shr k m = p) →
  (∀ j, (m ≤ j < n)%nat → branch c j (shr key (S j)) = None).
Proof.
  intros Hmn Hall j Hj. destruct (branch c j _) as [bn|] eqn:Eb; [|done]. exfalso.
  destruct (branch_keys c j _ bn false Eb) as (k0 & Hc0 & H0).
  destruct (branch_keys c j _ bn true Eb) as (k1 & Hc1 & H1).
  assert (∀ k b, is_Some (c !! k) → shr k j = child (shr key (S j)) b → shr k m = p) as Hup.
  { intros k b Hck E. apply Hall; [done|]. apply (shr_mono _ _ (S j)); [lia|].
    apply shr_S_iff. eauto. }
  assert (shr k0 j = shr k1 j) as E.
  { apply (shr_mono _ _ m); [lia|]. by rewrite (Hup k0 false), (Hup k1 true). }
  rewrite H0, H1 in E. by apply child_inj in E as [_ ?].
Qed.

Lemma no_branch_off n m p :
  (m ≤ n)%nat → p ≠ shr key m →
  (∀ k, is_Some (c !! k) → shr k n = shr key n → shr k m = p) →
  (∀ j, (j < n)%nat → branch c j (shr key (S j)) = None).
Proof.
  intros Hmn Hp Hall j Hj. destruct (decide (m ≤ j)%nat) as [|Hjm].
  { eapply no_branch_agree; [exact Hmn|done|lia]. }
  destruct (branch c j _) as [bn|] eqn:Eb; [|done]. exfalso.
  destruct (branch_keys c j _ bn false Eb) as (k0 & Hc0 & H0).
  assert (shr k0 (S j) = shr key (S j)) as E by (apply shr_S_iff; eauto).
  apply Hp. rewrite <- (Hall k0 Hc0); [apply (shr_mono _ _ (S j)); [lia|done]|].
  apply (shr_mono _ _ (S j)); [lia|done].
Qed.

(** The descent visits the branch points of the path, and stops at
    the slot of the level it has reached. *)
Lemma locate_loop_spec s P fuel n stack slot0 :
  nodes_ok c (nodes s) P → (n ≤ D)%nat → (n < fuel)%nat →
  let ls := path_levels c key n in
  locate_loop fuel s key stack slot0 (slot c n (shr key n)) =
    (stack ++ map (level_entry key) ls, level_slot key slot0 ls,
     slot c (last_level n ls) (shr key (last_level n ls))).
Proof using Hk Hkey.
  intros Hns. revert n stack slot0.
  induction fuel as [|fuel IH]; intros n stack slot0 Hn Hf ls; [lia|].
  assert (path_levels c key n = [] → is_node (slot c n (shr key n)) = false →
    locate_loop (S fuel) s key stack slot0 (slot c n (shr key n)) =
    (stack ++ map (level_entry key) ls, level_slot key slot0 ls,
     slot c (last_level n ls) (shr key (last_level n ls)))) as Hstop.
  { subst ls. intros -> Hnode. cbn [locate_loop]. rewrite Hnode. unfold level_slot, last_level.
    simpl. by rewrite app_nil_r. }
  assert (shr key n < 2 ^ N.of_nat (D - n)) as Hq by (by apply shr_lt).
  pose proof (slot_spec c Hk n _ Hn Hq) as V. remember (slot c n (shr key n)) as repr eqn:Er.
  destruct V as [Hno|k Hck Hs Hu|m p Hm Hs Hp Hl Hr Hu].
  - rewrite Er. rewrite Er in Hstop. apply Hstop; [|by rewrite <- Er].
    apply path_levels_nil, (no_branch_off n n (shr key n + 1)); [done|lia|].
    intros k Hck E. by destruct (Hno k Hck).
  - apply Hstop; [|by apply is_node_chain, key_lt_62, Hk].
    apply path_levels_nil. intros j Hj. eapply (no_branch_agree n 0 k); [lia| |lia].
    intros k' ? ?. rewrite shr_0. by apply Hu.
  - pose proof (npack_lt m p Hp) as Hpk. clear Hstop. cbn [locate_loop].
    rewrite is_node_node, node_packed_node, unpack_npack by done. cbv beta iota zeta.
    replace (D - (D - 1 - m))%nat with (S m) by lia.
    replace (D - 1 - (D - 1 - m))%nat with m by lia.
    assert (∀ j, (S m ≤ j < n)%nat → branch c j (shr key (S j)) = None) as Hskip.
    { intros j Hj. eapply (no_branch_agree n (S m) p); [lia|done|lia]. }
    destruct (N.eqb_spec (shr key (S m)) p) as [<-|Hne].
    + destruct (branch c m (shr key (S m))) as [bn|] eqn:Eb.
      2:{ exfalso. by apply (branch_None c m _ true) in Eb. }
      destruct (nodes_ok_branch c _ P m (shr key (S m)) bn Hns) as (h & Hlk & _); [lia|done..|].
      rewrite (node_at_Some _ _ _ Hlk). cbn [bn_left bn_right].
      assert ((if bit_at key m then bn_right bn else bn_left bn) = slot c m (shr key m)) as ->.
      { apply branch_Some in Eb as (_ & _ & ->). rewrite (shr_child' key m).
        by destruct (bit_at key m). }
      rewrite IH by lia.
      assert (ls = m :: path_levels c key m) as ->.
      { subst ls. rewrite (path_levels_skip c key (S m) n) by done. cbn [path_levels].
        by rewrite Eb. }
      unfold level_slot, last_level. cbn [map]. rewrite <- app_assoc. cbn [app].
      rewrite last_cons. destruct (last (path_levels c key m)); done.
    + assert (ls = []) as ->.
      { apply path_levels_nil. eapply (no_branch_off n (S m) p); [lia|done..]. }
      unfold level_slot, last_level. cbn [map last default]. by rewrite app_nil_r, Er.
Qed.

Lemma locate_full_spec s P :
  nodes_ok c (nodes s) P → root_child s = slot c D 0 →
  let ls := path_levels c key D in
  locate_full s key =
    (map (level_entry key) ls, level_slot key Root ls,
     slot c (last_level D ls) (shr key (last_level D ls))).
Proof.
  intros Hns Hr. unfold locate_full. rewrite Hr, <- (shr_D key) by done.
  by rewrite (locate_loop_spec s P) by (done || lia).
Qed.
End locate.

(** The level a descent ends at, and the slot that refers to it. *)
Lemma last_level_spec c key ls t :
  path_levels c key D = ls → last_level D ls = t →
  (t ≤ D)%nat ∧ (∀ j, (j < t)%nat → branch c j (shr key (S j)) = None) ∧
  (t = D ∨ (t < D)%nat ∧ branch c t (shr key (S t)) ≠ None) ∧
  level_slot key Root ls = path_slot key t.
Proof.
  intros E Ht. unfold last_level, level_slot, path_slot in *.
  destruct (last ls) as [t'|] eqn:El; simpl in Ht; subst t.
  - apply last_Some in El as [ls' ->]. apply path_levels_last in E as (? & ? & ?).
    rewrite decide_False by lia. split_and!; [lia|done|right; split; [lia|done]|done].
  - apply last_None in El as ->. rewrite decide_True by done.
    split_and!; [lia|by apply path_levels_none|by left|done].
Qed.

(** ** Changing a bucket in place *)

Lemma slot_dom c c' n q :
  (∀ k, is_Some (c !! k) ↔ is_Some (c' !! k)) → slot c' n q = slot c n q.
Proof.
  intros Hdom. revert q. induction n as [|n IH]; intros q; simpl; [|by rewrite !IH].
  specialize (Hdom q). destruct (c !! q), (c' !! q); try done.
  - by destruct (proj1 Hdom (mk_is_Some _ _ eq_refl)).
  - by destruct (proj2 Hdom (mk_is_Some _ _ eq_refl)).
Qed.

Lemma branch_dom c c' n q :
  (∀ k, is_Some (c !! k) ↔ is_Some (c' !! k)) →
  branch c' n q = (λ b, mkBranch (ref c' (S n) q) (bn_left b) (bn_right b)) <$> branch c n q.
Proof.
  intros Hdom. unfold branch. rewrite !(slot_dom c c') by done. by destruct (_ || _).
Qed.

Lemma nodes_ok_bucket c ns key v :
  key < 2 ^ N.of_nat D → is_Some (c !! key) → nodes_ok c ns (λ _ _, True) →
  nodes_ok (<[key := v]> c) ns (λ n q, q ≠ shr key (S n)).
Proof.
  intros Hkey Hs Hns. apply (nodes_ok_path c _ key) with (ns := ns); [|done..| |by left].
  - intros k Hne. by rewrite lookup_insert_ne.
  - intros n Hn. rewrite (branch_dom c).
    + pose proof Hns as [H1 _]. specialize (H1 n (shr key (S n)) Hn (shr_lt _ _ Hkey Hn)).
      destruct (branch c n _); simpl; [|done]. destruct H1 as (h & ? & _). eauto.
    + intros k. rewrite lookup_insert_is_Some'. destruct (decide (key = k)) as [<-|]; naive_solver.
Qed.

(** ** A key alone in its subtree *)

Lemma slot_only_key c key n :
  keys_ok c → key < 2 ^ N.of_nat D → (n ≤ D)%nat → is_Some (c !! key) →
  (∀ k, is_Some (c !! k) → shr k n = shr key n → k = key) →
  slot c n (shr key n) = chain key.
Proof.
  intros Hk Hkey Hn Hin Hu.
  destruct (slot_spec c Hk n _ Hn (shr_lt _ _ Hkey Hn)) as [Hno|k Hck Hs _|m p Hm Hs Hp Hl Hr _].
  - by destruct (Hno key Hin).
  - by rewrite (Hu k).
  - destruct (slot_key _ _ _ Hl) as (k0 & Hc0 & H0).
    destruct (slot_key _ _ _ Hr) as (k1 & Hc1 & H1).
    assert (∀ k b, is_Some (c !! k) → shr k m = child p b → k = key) as Hup.
    { intros k b Hck E. apply Hu; [done|]. rewrite <- Hs.
      replace n with (S m + (n - S m))%nat at 1 by lia. rewrite <- shr_shr. f_equal.
      apply shr_S_iff. eauto. }
    rewrite (Hup k0 false) in H0 by done. rewrite (Hup k1 true), H0 in H1 by done.
    by apply child_inj in H1 as [_ ?].
Qed.

Lemma singleton_only key (v : list hash) k :
  is_Some (({[key := v]} : content_map) !! k) → k = key.
Proof. intros [? [? _]%lookup_singleton_Some]. done. Qed.

Lemma nodes_ok_first key v :
  key < 2 ^ N.of_nat D → nodes_ok {[key := v]} ∅ (λ n q, q ≠ shr key (S n)).
Proof.
  intros Hkey. apply (nodes_ok_path ∅ _ key) with (ns := ∅); try done.
  - intros k Hne. by rewrite lookup_singleton_ne.
  - split; [|done]. intros n q _ _. unfold branch.
    by rewrite !slot_no_keys by (intros k; rewrite lookup_empty; by intros [??]).
  - intros n Hn. rewrite (no_branch_agree _ key Hkey D 0 key); [done|lia| |lia].
    intros k Hk _. rewrite shr_0. by eapply singleton_only.
  - by left.
Qed.

(** ** Where a key leaves the others *)

Lemma log2_lxor_spec a b :
  a ≠ b → let l := N.to_nat (N.log2 (N.lxor a b)) in
  bit_at a l = negb (bit_at b l) ∧ shr a (S l) = shr b (S l).
Proof.
  intros Hne l. assert (N.lxor a b ≠ 0) as Hx by (by intros ?%N.lxor_eq).
  pose proof (N.bit_log2 _ Hx) as Hb. rewrite N.lxor_spec in Hb.
  unfold bit_at, l. rewrite N2Nat.id. split.
  - by destruct (N.testbit a _), (N.testbit b _).
  - unfold shr. apply N.bits_inj. intros i. rewrite !N.shiftr_spec'.
    assert (N.testbit (N.lxor a b) (i + N.of_nat (S l)) = false) as E.
    { apply N.bits_above_log2. unfold l. lia. }
    rewrite N.lxor_spec in E. by apply xorb_eq in E.
Qed.

Lemma diverge c key m t k0 :
  keys_ok c → is_Some (c !! k0) → (m < t)%nat → (t ≤ D)%nat →
  shr k0 (S m) = shr key (S m) → bit_at k0 m = negb (bit_at key m) →
  (∀ k, is_Some (c !! k) → shr k t = shr key t → shr k m = shr k0 m) →
  slot c m (shr key m) = EMPTY ∧
  slot c m (child (shr key (S m)) (negb (bit_at key m))) ≠ EMPTY.
Proof.
  intros Hk Hk0 Hmt HtD HS Hb Hall.
  assert (shr k0 m = child (shr key (S m)) (negb (bit_at key m))) as E0.
  { by rewrite shr_child', HS, Hb. }
  split.
  - apply slot_no_keys. intros k Hck E. assert (shr k0 m = shr key m) as E'.
    { rewrite <- E. symmetry. apply Hall; [done|]. apply (shr_mono _ _ m); [lia|done]. }
    rewrite E0, (shr_child' key m) in E'. apply child_inj in E' as [_ ?].
    by destruct (bit_at key m).
  - rewrite <- E0. rewrite (slot_empty_iff c Hk) by (lia || (apply shr_lt; [by apply Hk|lia])).
    intros Hno. by apply (Hno k0).
Qed.

(** ** The structural half of [insert] *)

Lemma write_slot_content s slot val :
  leaves (write_slot s slot val) = leaves s ∧ buckets (write_slot s slot val) = buckets s.
Proof. by destruct slot. Qed.

Lemma root_child_write_slot s key t val :
  root_child (write_slot s (path_slot key t) val) = if decide (t = D) then val else root_child s.
Proof. unfold path_slot. by case_decide. Qed.

Definition struct_ok (c : content_map) (key : N) (s s' : Smt) : Prop :=
  nodes_ok c (nodes s') (λ n q, q ≠ shr key (S n)) ∧ root_child s' = slot c D 0 ∧
  leaves s' = leaves s ∧ buckets s' = buckets s.

Lemma log2_xor_64 a b :
  a ≠ b → a < 2 ^ 40 → b < 2 ^ 40 →
  63 - leading_zeros64 (N.lxor a b) = N.log2 (N.lxor a b) ∧ N.log2 (N.lxor a b) < 40.
Proof.
  intros Hne Ha Hb. assert (N.lxor a b ≠ 0) as Hx by (by intros ?%N.lxor_eq).
  assert (N.log2 (N.lxor a b) < 40) as Hl.
  { destruct (N.lt_ge_cases (N.log2 (N.lxor a b)) 40) as [|Hge]; [done|].
    pose proof (N.bit_log2 _ Hx) as E. rewrite N.lxor_spec in E.
    rewrite !(testbit_small _ 40) in E by done. done. }
  split; [|done]. unfold leading_zeros64. rewrite (proj2 (N.eqb_neq _ _) Hx). lia.
Qed.

Section insert_structure.
Context (c : content_map) (Hk : keys_ok c) (s : Smt).
Context (Hns : nodes_ok c (nodes s) (λ _ _, True)) (Hroot : root_child s = slot c D 0).
Context (key : N) (Hkey : key < 2 ^ N.of_nat D) (v : list hash).

Lemma add_branch_ok m t r np l' r' :
  (m < t)%nat → (t ≤ D)%nat →
  (∀ j, (j < t)%nat → branch c j (shr key (S j)) = None) →
  slot c m (shr key m) = EMPTY →
  slot c m (child (shr key (S m)) (negb (bit_at key m))) = r → r ≠ EMPTY →
  (t = D ∨ (t < D)%nat ∧ branch c t (shr key (S t)) ≠ None) →
  np = npack m (shr key (S m)) →
  l' = (if bit_at key m then r else chain key) →
  r' = (if bit_at key m then chain key else r) →
  struct_ok (<[key := v]> c) key s (add_branch s (path_slot key t) np l' r').
Proof.
  intros Hmt HtD Hnone Hm <- Hsib Htop -> -> ->. unfold add_branch, struct_ok.
  rewrite nodes_write_slot, root_child_write_slot.
  destruct (write_slot_content (push_dirty_node (npack m (shr key (S m))) (with_nodes
    <[npack m (shr key (S m)) := mkBranch empty_leaf
        (if bit_at key m then slot c m (child (shr key (S m)) (negb (bit_at key m))) else chain key)
        (if bit_at key m then chain key else slot c m (child (shr key (S m)) (negb (bit_at key m))))]> s))
    (path_slot key t) (node_ref (npack m (shr key (S m))))) as [-> ->].
  split_and!; [| |done..].
  - by apply add_nodes_ok.
  - rewrite <- (shr_D key) in * by done. case_decide as Et.
    + subst t. symmetry. eapply on_mid'; done.
    + rewrite (on_high' c Hk key Hkey v m t) by (done || lia). done.
Qed.

Context (t : nat) (HtD : (t ≤ D)%nat).
Context (Hnone : ∀ j, (j < t)%nat → branch c j (shr key (S j)) = None).
Context (Htop : t = D ∨ (t < D)%nat ∧ branch c t (shr key (S t)) ≠ None).

(** The slot [repr] at the end of the descent, under which all keys
    leave [key] at level [m], becomes one side of a branch point. *)
Lemma add_branch_at m k0 d np l r :
  is_Some (c !! k0) → (m < t)%nat →
  shr k0 (S m) = shr key (S m) → bit_at k0 m = negb (bit_at key m) →
  (∀ k, is_Some (c !! k) → shr k t = shr key t → shr k m = shr k0 m) →
  d = (D - 1 - m)%nat → np = pack d (shr key (D - d)) →
  l = (if bit_at key m then slot c t (shr key t) else chain key) →
  r = (if bit_at key m then chain key else slot c t (shr key t)) →
  struct_ok (<[key := v]> c) key s (add_branch s (path_slot key t) np l r).
Proof.
  intros Hk0 Hmt HS Hb Hall -> -> -> ->.
  destruct (diverge c key m t k0) as [Hm Hsib]; [done..|].
  assert (slot c t (shr key t) = slot c m (child (shr key (S m)) (negb (bit_at key m)))) as E
    by (eapply on_mid; done).
  eapply (add_branch_ok m t (slot c t (shr key t))); try done; [by rewrite E|].
  unfold npack. by replace (D - (D - 1 - m))%nat with (S m) by lia.
Qed.

Lemma insert_at_chain k :
  is_Some (c !! k) → shr k t = shr key t → k ≠ key →
  (∀ k', is_Some (c !! k') → shr k' t = shr key t → k' = k) →
  slot c t (shr key t) = chain k →
  let div := divergence_depth k key in
  struct_ok (<[key := v]> c) key s
    (let '(l, r) := if bit_at k (D - 1 - div) then (chain key, chain k)
                    else (chain k, chain key) in
     add_branch s (path_slot key t) (pack div (shr key (D - div))) l r).
Proof.
  intros Hck Hs Hne Hu Er div.
  destruct (log2_xor_64 k key) as [Hlz Hlt]; [done|by apply Hk|done|].
  destruct (log2_lxor_spec k key Hne) as [Hb HS]. set (m := N.to_nat (N.log2 (N.lxor k key))) in *.
  assert (m < D)%nat by (unfold m, D; lia).
  assert (div = (D - 1 - m)%nat) as -> by (unfold div, divergence_depth; by rewrite Hlz).
  replace (D - 1 - (D - 1 - m))%nat with m by lia.
  assert (m < t)%nat.
  { destruct (decide (m < t)%nat) as [|Hge]; [done|]. apply (shr_mono _ _ t m) in Hs; [|lia].
    rewrite (shr_child' k), (shr_child' key) in Hs. apply child_inj in Hs as [_ Hs].
    rewrite Hb in Hs. by destruct (bit_at key m). }
  assert (∀ k', is_Some (c !! k') → shr k' t = shr key t → shr k' m = shr k m) as Hall.
  { intros k' ? ?. by rewrite (Hu k'). }
  pose proof (add_branch_at m k (D - 1 - m) (pack (D - 1 - m) (shr key (D - (D - 1 - m))))
    (if bit_at key m then chain k else chain key)
    (if bit_at key m then chain key else chain k) Hck) as Hadd.
  rewrite Er in Hadd. replace (D - (D - 1 - m))%nat with (S m) in * by lia.
  rewrite Hb. destruct (bit_at key m); simpl; by apply Hadd.
Qed.

Lemma insert_at_node n p :
  (n < t)%nat → shr p (t - S n) = shr key t → p < 2 ^ N.of_nat (D - S n) →
  slot c n (child p false) ≠ EMPTY → shr key (S n) ≠ p →
  (∀ k, is_Some (c !! k) → shr k t = shr key t → shr k (S n) = p) →
  let repr := slot c t (shr key t) in
  let d := (D - 1 - n)%nat in
  let q := shr key (D - d) in
  let b := N.to_nat (63 - leading_zeros64 (N.lxor q p)) in
  let div := (d - 1 - b)%nat in
  struct_ok (<[key := v]> c) key s
    (let '(l, r) := if bit_at key (D - 1 - div) then (repr, chain key)
                    else (chain key, repr) in
     add_branch s (path_slot key t) (pack div (shr key (D - div))) l r).
Proof.
  intros Hnt Hp Hpb Hl Hne Hu repr d q b div.
  assert (q = shr key (S n)) as Eq by (unfold q, d; f_equal; lia).
  assert (q < 2 ^ N.of_nat (D - S n)) as Hqb by (rewrite Eq; apply shr_lt; [done|lia]).
  assert (2 ^ N.of_nat (D - S n) ≤ 2 ^ 40) as H40 by (apply N.pow_le_mono_r; unfold D; lia).
  rewrite <- Eq in Hne.
  destruct (log2_xor_64 q p) as [Hlz _]; [done|by eapply N.lt_le_trans..|].
  destruct (log2_lxor_spec q p Hne) as [Hb HS].
  assert (b = N.to_nat (N.log2 (N.lxor q p))) as Eb by (unfold b; by rewrite Hlz).
  rewrite <- Eb in Hb, HS. clearbody b. clear Hlz Eb Hpb Hqb H40.
  destruct (slot_key _ _ _ Hl) as (k0 & Hc0 & H0).
  assert (shr k0 (S n) = p) as H0p by (apply shr_S_iff; eauto).
  assert (shr q (t - S n) = shr key t) as Hqt by (rewrite Eq, shr_shr; f_equal; lia).
  assert (S n + b < t)%nat.
  { destruct (decide (S n + b < t)%nat) as [|Hge]; [done|]. exfalso.
    assert (shr q b = shr p b) as E.
    { replace b with ((t - S n) + (b - (t - S n)))%nat by lia.
      by rewrite <- !(shr_shr _ (t - S n)), Hp, Hqt. }
    rewrite (shr_child' q), (shr_child' p) in E. apply child_inj in E as [_ E].
    rewrite Hb in E. by destruct (bit_at p b). }
  assert (div = (D - 1 - (S n + b))%nat) as Ediv by (unfold div, d; lia).
  replace (D - 1 - div)%nat with (S n + b)%nat by lia.
  assert (shr k0 (S (S n + b)) = shr key (S (S n + b))) as HSm.
  { rewrite <- Nat.add_succ_r, <- !shr_shr, H0p, <- Eq. done. }
  assert (bit_at k0 (S n + b) = negb (bit_at key (S n + b))) as Hbm.
  { rewrite <- !bit_at_shr, H0p, <- Eq, Hb. by rewrite negb_involutive. }
  assert (∀ k, is_Some (c !! k) → shr k t = shr key t → shr k (S n + b) = shr k0 (S n + b)) as Hall.
  { intros k ? ?. rewrite <- !(shr_shr _ (S n)), H0p. by rewrite Hu. }
  pose proof (add_branch_at (S n + b) k0 div (pack div (shr key (D - div)))
    (if bit_at key (S n + b) then repr else chain key)
    (if bit_at key (S n + b) then chain key else repr) Hc0) as Hadd.
  destruct (bit_at key (S n + b)); by apply Hadd.
Qed.
End insert_structure.

Lemma nodes_ok_empty ns P : nodes_ok ∅ ns P → ns = ∅.
Proof.
  intros [H1 H2]. apply map_empty. intros x. destruct (ns !! x) as [b|] eqn:E; [|done].
  destruct (H2 x b E) as (n & q & Hn & Hq & ->). specialize (H1 n q Hn Hq).
  unfold branch in H1. rewrite !slot_no_keys in H1 by (intros k; rewrite lookup_empty; by intros [??]).
  simpl in H1. congruence.
Qed.

Lemma insert_first (c : content_map) s key v :
  key < 2 ^ N.of_nat D → c = ∅ → nodes_ok ∅ (nodes s) (λ _ _, True) →
  struct_ok (<[key := v]> c) key s (write_slot s (path_slot key D) (chain key)).
Proof.
  intros Hkey -> Hns%nodes_ok_empty. unfold struct_ok.
  rewrite nodes_write_slot, root_child_write_slot.
  destruct (write_slot_content s (path_slot key D) (chain key)) as [-> ->].
  rewrite insert_empty, decide_True by done. unfold put_ref. rewrite decide_True by done.
  rewrite Hns. split_and!; [by apply nodes_ok_first| |done..].
  rewrite <- (shr_D key) by done. symmetry. apply slot_only_key; [|done..| |].
  - intros k ->%singleton_only. done.
  - by rewrite lookup_singleton_eq.
  - intros k Hk _. by apply singleton_only in Hk.
Qed.

Section insert_new.
Context (c : content_map) (Hk : keys_ok c) (s : Smt).
Context (Hns : nodes_ok c (nodes s) (λ _ _, True)) (Hroot : root_child s = slot c D 0).
Context (key : N) (Hkey : key < 2 ^ N.of_nat D).

(** A new key: a branch point is added where it leaves the others,
    and the slot above refers to it; the first key takes the root. *)
Lemma insert_structure_new v :
  c !! key = None → struct_ok (<[key := v]> c) key s (insert_structure s key).
Proof.
  intros Hc. unfold insert_structure, locate. rewrite (locate_full_spec c Hk key Hkey s _ Hns Hroot).
  destruct (last_level_spec c key _ _ eq_refl eq_refl) as (HtD & Hnone & Htop & ->).
  set (t := last_level D (path_levels c key D)) in *. clearbody t.
  pose proof (slot_spec c Hk t _ HtD (shr_lt _ _ Hkey HtD)) as V.
  remember (slot c t (shr key t)) as repr eqn:Er. destruct V as [Hno|k Hck Hs Hu|n p Hn Hs Hp Hl Hr Hu].
  - rewrite N.eqb_refl. assert (t = D) as ->.
    { destruct Htop as [->|[Ht Hb]]; [done|]. exfalso.
      destruct (branch c t (shr key (S t))) as [bn|] eqn:Eb; [|done].
      destruct (branch_keys c t _ bn (bit_at key t) Eb) as (k & Hck & E).
      rewrite <- shr_child' in E. by apply (Hno k). }
    assert (c = ∅) as Ec.
    { apply map_empty. intros k. apply eq_None_not_Some. intros Hck.
      apply (Hno k Hck). by rewrite !shr_D by (done || by apply Hk). }
    apply insert_first; [done|done|by rewrite Ec in Hns].
  - pose proof (key_lt_62 _ (Hk _ Hck)) as Hb.
    rewrite (proj2 (N.eqb_neq _ _) (chain_nonempty k Hb)), is_chain_chain, chain_key_chain by done.
    destruct (N.eqb_spec k key) as [->|Hne]; [by rewrite Hc in Hck; destruct Hck|].
    by apply (insert_at_chain c Hk s Hns Hroot key Hkey v t HtD Hnone Htop).
  - pose proof (npack_lt n p Hp) as Hb.
    rewrite (proj2 (N.eqb_neq _ _) (node_nonempty _ Hb)), is_chain_node, node_packed_node by done.
    rewrite unpack_npack, Er by done. 
    apply (insert_at_node c Hk s Hns Hroot key Hkey v t HtD Hnone Htop n p); try done.
    intros E. rewrite <- E in *. specialize (Hnone n Hn).
    by apply (branch_None c n _ true) in Hnone.
Qed.

(** A known key: nothing changes. *)
Lemma insert_structure_old : is_Some (c !! key) → insert_structure s key = s.
Proof.
  intros Hin. unfold insert_structure, locate. rewrite (locate_full_spec c Hk key Hkey s _ Hns Hroot).
  destruct (last_level_spec c key _ _ eq_refl eq_refl) as (HtD & Hnone & _ & ->).
  set (t := last_level D (path_levels c key D)) in *. clearbody t.
  pose proof (slot_spec c Hk t _ HtD (shr_lt _ _ Hkey HtD)) as V.
  remember (slot c t (shr key t)) as repr eqn:Er. destruct V as [Hno|k Hck Hs Hu|n p Hn Hs Hp Hl Hr Hu].
  - by destruct (Hno key Hin).
  - pose proof (key_lt_62 _ (Hk _ Hck)) as Hb.
    rewrite (proj2 (N.eqb_neq _ _) (chain_nonempty k Hb)), is_chain_chain, chain_key_chain by done.
    by rewrite (Hu key), N.eqb_refl.
  - exfalso. rewrite <- (Hu key Hin eq_refl) in *. specialize (Hnone n Hn).
    by apply (branch_None c n _ true) in Hnone.
Qed.
End insert_new.

(** ** The invariant *)

Definition arr_lt (a b : hash) : Prop := bytes_lt a b.

(** The physical content: no key both in [leaves] and [buckets]; a
    bucket has at least two hashes, strictly increasing. *)
Record content_ok (s : Smt) : Prop := {
  ok_disj k : is_Some (leaves s !! k) → buckets s !! k = None;
  ok_bucket k v : buckets s !! k = Some v → (2 ≤ length v)%nat ∧ StronglySorted arr_lt v;
  ok_keys : keys_ok (content s) }.

Record wf (s : Smt) : Prop := {
  wf_content : content_ok s;
  wf_nodes : nodes_ok (content s) (nodes s) (λ _ _, True);
  wf_root : root_child s = slot (content s) D 0;
  wf_hash : root_hash s =
    if decide (content s = ∅) then None else Some (ref (content s) D 0) }.

(** The bucket of a key, empty when the key is absent. *)
Definition bucket_at (s : Smt) (k : N) : list hash := default [] (content s !! k).

Lemma content_lookup s k :
  content s !! k = match buckets s !! k with
                   | Some v => Some v
                   | None => (λ h, [h]) <$> leaves s !! k
                   end.
Proof.
  unfold content. rewrite lookup_union, lookup_fmap.
  destruct (buckets s !! k), (leaves s !! k); done.
Qed.

Lemma wf_new : wf smt_new.
Proof.
  assert (content smt_new = ∅) as E.
  { apply map_empty. intros k. by rewrite content_lookup. }
  assert (∀ n q, slot ∅ n q = EMPTY) as Es.
  { intros n q. apply slot_no_keys. intros k. rewrite lookup_empty. by intros [??]. }
  split; rewrite ?E.
  - split; [done..|]. rewrite E. intros k. rewrite lookup_empty. by intros [??].
  - split; [|done]. intros n q _ _. unfold branch. by rewrite !Es.
  - by rewrite Es.
  - by rewrite decide_True.
Qed.

(** *** Buckets *)

Definition bucket_add (x : hash) (v : list hash) : list hash :=
  if bool_decide (x ∈ v) then v else insert_sorted x v.

Lemma elem_of_insert_sorted x y v : y ∈ insert_sorted x v ↔ y = x ∨ y ∈ v.
Proof.
  induction v as [|z v IH]; simpl; [set_solver|]. destruct (bytes_ltb z x); set_solver.
Qed.

Lemma insert_sorted_sorted x v :
  x ∉ v → StronglySorted arr_lt v → StronglySorted arr_lt (insert_sorted x v).
Proof.
  intros Hx Hs. induction Hs as [|y v Hs IH Hall]; simpl; [by repeat constructor|].
  apply not_elem_of_cons in Hx as [Hne Hx]. destruct (bytes_ltb y x) eqn:E.
  - constructor; [by apply IH|]. apply Forall_forall. intros z [->|Hz]%elem_of_insert_sorted; [done|].
    by eapply (proj1 (Forall_forall _ _) Hall).
  - assert (arr_lt x y) as Hlt.
    { destruct (bytes_lt_total x y) as [|[->%arr_eq|Hl]]; [done..|].
      unfold bytes_lt in Hl. congruence. }
    constructor; [by constructor|]. constructor; [done|].
    eapply Forall_impl; [exact Hall|]. intros z Hz. exact (bytes_lt_trans _ _ _ Hlt Hz).
Qed.

Lemma length_insert_sorted x v : length (insert_sorted x v) = S (length v).
Proof. induction v as [|y v IH]; simpl; [done|]. destruct (bytes_ltb y x); simpl; by rewrite ?IH. Qed.

Lemma merge_sort_pair (x y : hash) :
  merge_sort arr_le [x; y] = insert_sorted y [x] ∨ x = y.
Proof.
  unfold merge_sort. simpl. destruct (decide (arr_le x y)) as [H1|H1].
  - unfold arr_le in H1. rewrite bytes_le_lt in H1. destruct H1 as [?%arr_eq|H1]; [by right|left].
    unfold bytes_lt in H1. by rewrite H1.
  - left. unfold arr_le in H1. rewrite bytes_le_lt in H1.
    unfold bytes_lt in H1. destruct (bytes_ltb x y); [by destruct H1; right|done].
Qed.

Lemma sorted_ext v w :
  StronglySorted arr_lt v → StronglySorted arr_lt w → (∀ x, x ∈ v ↔ x ∈ w) → v = w.
Proof.
  intros Hv Hw E.
  assert (∀ l, StronglySorted arr_lt l → NoDup l) as Hnd.
  { intros l. induction 1 as [|y l _ IH Hall]; constructor; [|done].
    intros Hin. eapply (bytes_lt_irrefl y). by eapply (proj1 (Forall_forall _ _) Hall). }
  apply (StronglySorted_unique_strong arr_lt); [|done..|by apply NoDup_Permutation; auto].
  intros x y _ _ H1 H2. by destruct (bytes_lt_asym x y).
Qed.

(** *** [insert] *)

#[local] Opaque D.

Lemma decide_content_insert (c : content_map) k v {A} (x y : A) :
  (if decide (<[k := v]> c = ∅) then x else y) = y.
Proof. rewrite decide_False; [done|]. apply insert_non_empty. Qed.

Lemma ref_root_nonempty c key n :
  keys_ok c → key < 2 ^ N.of_nat D → (n ≤ D)%nat → is_Some (c !! key) →
  slot c n (shr key n) ≠ EMPTY.
Proof.
  intros Hk Hkey Hn Hin. rewrite (slot_empty_iff c Hk) by (done || by apply shr_lt).
  intros Hno. by apply (Hno key).
Qed.

(** Rehashing the path of a present key restores the invariant. *)
Lemma recompute_ok s key :
  content_ok s → key < 2 ^ N.of_nat D → is_Some (content s !! key) →
  nodes_ok (content s) (nodes s) (λ n q, q ≠ shr key (S n)) →
  root_child s = slot (content s) D 0 →
  let s' := recompute s key in
  wf s' ∧ leaves s' = leaves s ∧ buckets s' = buckets s.
Proof.
  intros Hc Hkey Hin Hns Hr s'. unfold s', recompute, recompute_from. clear s'.
  pose proof (recompute_loop_spec (content s) (ok_keys _ Hc) key D s (bucket_root s key)) as Hspec.
  destruct (recompute_loop s key (bucket_root s key) D) as [s' v'].
  destruct Hspec as (Hn' & -> & El & Eb & Er); [done..| | | | |].
  - eapply nodes_ok_weaken; [|exact Hns]. intros n q _ _ [?|?]; [done|lia].
  - apply bucket_root_leaf_value.
  - rewrite Nat.sub_diag. apply ref_root_nonempty; (done || apply Hc || lia).
  - rewrite Nat.sub_diag, shr_0. apply bucket_root_leaf_value.
  - assert (content (with_root_hash (Some (ref (content s) D 0)) s') = content s) as Ec.
    { unfold content. simpl. by rewrite El, Eb. }
    split; [|done]. split; rewrite ?Ec; simpl; [|done|by rewrite Er|].
    + destruct Hc as [H1 H2 H3]. split; simpl; rewrite ?El, ?Eb; try done. by rewrite Ec.
    + rewrite decide_False; [done|]. intros E. rewrite E, lookup_empty in Hin. by destruct Hin.
Qed.

(** The content half. *)
Lemma content_with s l b k :
  content (with_content l b s) !! k =
    match b !! k with Some v => Some v | None => (λ h, [h]) <$> l !! k end.
Proof. by rewrite content_lookup. Qed.

Lemma keys_ok_insert c key v :
  keys_ok c → key < 2 ^ N.of_nat D → keys_ok (<[key := v]> c).
Proof. intros Hc Hkey k. rewrite lookup_insert_is_Some'. intros [<-|?]; auto. Qed.

(** Replacing the entry of one key, in [leaves] or in [buckets]. *)
Lemma content_ok_set s key v l b :
  content_ok s → key < 2 ^ N.of_nat D →
  (∀ k, k ≠ key → l !! k = leaves s !! k ∧ b !! k = buckets s !! k) →
  (b !! key = Some v ∧ l !! key = None ∧ (2 ≤ length v)%nat ∧ StronglySorted arr_lt v ∨
   b !! key = None ∧ ∃ h, l !! key = Some h ∧ v = [h]) →
  content_ok (with_content l b s) ∧
  content (with_content l b s) = <[key := v]> (content s).
Proof.
  intros Hc Hkey Hne Hat.
  assert (content (with_content l b s) = <[key := v]> (content s)) as Ec.
  { apply map_eq. intros k. rewrite content_with. destruct (decide (k = key)) as [->|Hk].
    - rewrite lookup_insert_eq. by destruct Hat as [[-> _]|(-> & h & -> & ->)].
    - rewrite lookup_insert_ne, content_lookup by done. by destruct (Hne k Hk) as [-> ->]. }
  split; [|done]. split; simpl; [| |rewrite Ec; apply keys_ok_insert; [by apply ok_keys|done]].
  - intros k. destruct (decide (k = key)) as [->|Hk].
    + destruct Hat as [(_ & -> & _)|(-> & _)]; [by intros [??]|done].
    + destruct (Hne k Hk) as [-> ->]. apply Hc.
  - intros k w. destruct (decide (k = key)) as [->|Hk].
    + by destruct Hat as [(-> & _ & ? & ?)|(-> & _)]; [intros [= <-]|].
    + destruct (Hne k Hk) as [_ ->]. apply Hc.
Qed.

Lemma bucket_at_sorted s k : content_ok s → StronglySorted arr_lt (bucket_at s k).
Proof.
  intros Hc. unfold bucket_at. rewrite content_lookup.
  destruct (buckets s !! k) as [v|] eqn:E; [by apply (ok_bucket s Hc) in E as [_ ?]|].
  destruct (leaves s !! k); simpl; repeat constructor.
Qed.

Lemma insert_content_spec s key leaf :
  content_ok s → key < 2 ^ N.of_nat D →
  match insert_content s key leaf with
  | None => leaf ∈ bucket_at s key
  | Some s' =>
      leaf ∉ bucket_at s key ∧ content_ok s' ∧
      content s' = <[key := insert_sorted leaf (bucket_at s key)]> (content s) ∧
      nodes s' = nodes s ∧ root_child s' = root_child s
  end.
Proof.
  intros Hc Hkey. pose proof (bucket_at_sorted s key Hc) as Hs. revert Hs.
  unfold insert_content, bucket_at. rewrite content_lookup.
  destruct (buckets s !! key) as [v|] eqn:Eb; [|destruct (leaves s !! key) as [h|] eqn:El]; simpl; intros Hs.
  - case_bool_decide as Hin; [done|].
    destruct (content_ok_set s key (insert_sorted leaf v) (leaves s)
      (<[key:=insert_sorted leaf v]> (buckets s))) as [? ?]; [done..| | |done].
    + intros k Hk. by rewrite lookup_insert_ne.
    + left. rewrite lookup_insert_eq, length_insert_sorted. destruct (ok_bucket s Hc _ _ Eb).
      split_and!; [done| |lia|by apply insert_sorted_sorted].
      apply eq_None_not_Some. intros ?%(ok_disj s Hc). congruence.
  - case_bool_decide as Hne; [set_solver|].
    assert (merge_sort arr_le [h; leaf] = insert_sorted leaf [h]) as E
      by (by destruct (merge_sort_pair h leaf)). rewrite E. 
    destruct (content_ok_set s key (insert_sorted leaf [h]) (delete key (leaves s))
      (<[key:=insert_sorted leaf [h]]> (buckets s))) as [? ?]; [done..| | |].
    + intros k Hk. by rewrite lookup_insert_ne, lookup_delete_ne.
    + left. rewrite lookup_insert_eq, length_insert_sorted, lookup_delete_eq.
      split_and!; [done..|simpl; lia|]. apply insert_sorted_sorted; [set_solver|done].
    + split; [set_solver|done].
  - destruct (content_ok_set s key [leaf] (<[key:=leaf]> (leaves s)) (buckets s)) as [? ?]; [done..| | |].
    + intros k Hk. by rewrite lookup_insert_ne.
    + right. rewrite lookup_insert_eq. eauto.
    + split; [set_solver|done].
Qed.

Lemma bucket_at_nil s k : content_ok s → bucket_at s k = [] → content s !! k = None.
Proof.
  intros Hc. unfold bucket_at. rewrite content_lookup.
  destruct (buckets s !! k) as [v|] eqn:E; simpl.
  - intros ->. apply (ok_bucket s Hc) in E as [? _]. simpl in *. lia.
  - by destruct (leaves s !! k).
Qed.

Lemma content_same s s' :
  leaves s' = leaves s → buckets s' = buckets s →
  content s' = content s ∧ (content_ok s → content_ok s').
Proof.
  intros El Eb. assert (content s' = content s) as Ec by (unfold content; by rewrite El, Eb).
  split; [done|]. intros [H1 H2 H3]. split; rewrite ?El, ?Eb, ?Ec; done.
Qed.

(** The new or enlarged bucket keeps the tree canonical. *)
Lemma insert_structure_ok c s key v :
  keys_ok c → nodes_ok c (nodes s) (λ _ _, True) → root_child s = slot c D 0 →
  key < 2 ^ N.of_nat D →
  struct_ok (<[key := v]> c) key s (insert_structure s key).
Proof.
  intros Hk Hns Hr Hkey. destruct (c !! key) as [w|] eqn:E; [|by apply insert_structure_new].
  rewrite (insert_structure_old c) by done. split_and!; [by apply nodes_ok_bucket| |done..].
  rewrite (slot_dom c); [done|]. intros k. rewrite lookup_insert_is_Some'.
  destruct (decide (key = k)) as [<-|]; naive_solver.
Qed.

Lemma smt_insert_spec s key leaf :
  wf s → key < 2 ^ N.of_nat D →
  let s' := smt_insert s key leaf in
  wf s' ∧ content s' = <[key := bucket_add leaf (bucket_at s key)]> (content s).
Proof.
  intros Hw Hkey. cbv zeta. unfold smt_insert. pose proof (wf_content _ Hw) as Hc.
  pose proof (insert_content_spec s key leaf Hc Hkey) as Hi. unfold bucket_add.
  destruct (insert_content s key leaf) as [s1|].
  2:{ rewrite bool_decide_eq_true_2 by done. split; [done|]. unfold bucket_at in *.
      destruct (content s !! key) eqn:E; [|by apply elem_of_nil in Hi]. by rewrite insert_id. }
  destruct Hi as (Hni & Hc1 & Ec & En & Er). rewrite bool_decide_eq_false_2 by done.
  set (s2 := push_dirty_leaf key s1).
  destruct (insert_structure_ok (content s) s2 key (insert_sorted leaf (bucket_at s key)))
    as (Hn & Hr & El & Eb); [by apply ok_keys| | |done|].
  { unfold s2. simpl. rewrite En. by apply wf_nodes. }
  { unfold s2. simpl. rewrite Er. by apply wf_root. }
  rewrite <- Ec in *. destruct (content_same s1 (insert_structure s2 key)) as [Ec3 Hc3]; [done..|].
  rewrite <- Ec3 in Hn, Hr.
  destruct (recompute_ok (insert_structure s2 key) key) as (Hw' & El' & Eb');
    [by apply Hc3|done| |done..|].
  - rewrite Ec3, Ec, lookup_insert_eq. by eexists.
  - split; [done|]. rewrite <- Ec3. by apply content_same.
Qed.

(** *** [remove] *)

Definition bucket_del (x : hash) (v : list hash) : list hash := list_difference v [x].

Definition content_del (c : content_map) (key : N) (v : list hash) : content_map :=
  match v with [] => delete key c | _ => <[key := v]> c end.

Lemma elem_of_bucket_del x y v : y ∈ bucket_del x v ↔ y ∈ v ∧ y ≠ x.
Proof. unfold bucket_del. rewrite list_elem_of_difference. set_solver. Qed.

Lemma bucket_del_sorted x v : StronglySorted arr_lt v → StronglySorted arr_lt (bucket_del x v).
Proof.
  induction 1 as [|y v Hs IH Hall]; unfold bucket_del; cbn [list_difference]; [constructor|].
  destruct (decide_rel _ y [x]); [done|]. constructor; [done|].
  apply Forall_forall. intros z [Hz _]%elem_of_bucket_del. by eapply (proj1 (Forall_forall _ _) Hall).
Qed.

Lemma bucket_del_self x : bucket_del x [x] = [].
Proof. unfold bucket_del. cbn [list_difference]. destruct (decide_rel _ _ _); set_solver. Qed.

Lemma bucket_del_absent x v : StronglySorted arr_lt v → x ∉ v → bucket_del x v = v.
Proof.
  intros Hs Hx. apply sorted_ext; [by apply bucket_del_sorted|done|].
  intros y. rewrite elem_of_bucket_del. naive_solver.
Qed.

Lemma insert_bucket_del x v :
  StronglySorted arr_lt v → x ∈ v → insert_sorted x (bucket_del x v) = v.
Proof.
  intros Hs Hx. apply sorted_ext; [|done|].
  - apply insert_sorted_sorted; [|by apply bucket_del_sorted]. rewrite elem_of_bucket_del. naive_solver.
  - intros y. rewrite elem_of_insert_sorted, elem_of_bucket_del.
    destruct (decide (y = x)) as [->|]; naive_solver.
Qed.

Lemma remove_content_spec s key leaf :
  content_ok s → key < 2 ^ N.of_nat D →
  match remove_content s key leaf with
  | None => leaf ∉ bucket_at s key
  | Some (s', emptied) =>
      leaf ∈ bucket_at s key ∧ content_ok s' ∧
      (if emptied then bucket_del leaf (bucket_at s key) = []
       else bucket_del leaf (bucket_at s key) ≠ []) ∧
      content s' = content_del (content s) key (bucket_del leaf (bucket_at s key)) ∧
      nodes s' = nodes s ∧ root_child s' = root_child s
  end.
Proof.
  intros Hc Hkey. unfold remove_content, bucket_at. rewrite content_lookup.
  destruct (buckets s !! key) as [v|] eqn:Eb; simpl.
  - destruct (ok_bucket s Hc _ _ Eb) as [Hl Hs].
    case_bool_decide as Hin; [|done]. fold (bucket_del leaf v).
    pose proof (insert_bucket_del leaf v Hs Hin) as Ei. apply (f_equal length) in Ei.
    rewrite length_insert_sorted in Ei. pose proof (bucket_del_sorted leaf v Hs) as Hs'.
    assert (leaves s !! key = None) as El
      by (apply eq_None_not_Some; intros ?%(ok_disj s Hc); congruence).
    destruct (bucket_del leaf v) as [|x [|y w]] eqn:Ed; simpl in Ei; [lia| |].
    + destruct (content_ok_set s key [x] (<[key:=x]> (leaves s)) (delete key (buckets s)))
        as [? ?]; [done..| | |done].
      * intros k Hk. by rewrite lookup_insert_ne, lookup_delete_ne.
      * right. rewrite lookup_insert_eq, lookup_delete_eq. eauto.
    + destruct (content_ok_set s key (x :: y :: w) (leaves s) (<[key:=x :: y :: w]> (buckets s)))
        as [? ?]; [done..| | |done].
      * intros k Hk. by rewrite lookup_insert_ne.
      * left. rewrite lookup_insert_eq. split_and!; [done..|simpl; lia|done].
  - case_bool_decide as Hin.
    + rewrite Hin. simpl. rewrite bucket_del_self.
      set (s' := with_content (delete key (leaves s)) (buckets s) s).
      assert (content s' = delete key (content s)) as Ec.
      { apply map_eq. intros k. unfold s'. rewrite content_with.
        destruct (decide (k = key)) as [->|Hk].
        - by rewrite Eb, !lookup_delete_eq.
        - rewrite !lookup_delete_ne, content_lookup by done. done. }
      split_and!; [set_solver| |done..]. split.
      * intros k. unfold s'. simpl. rewrite lookup_delete_is_Some. intros [_ ?]. by apply (ok_disj s Hc).
      * apply Hc.
      * rewrite Ec. intros k [_ ?]%lookup_delete_is_Some. by apply (ok_keys s Hc).
    + destruct (leaves s !! key); set_solver.
Qed.

(** The level before the lowest one. *)
Lemma path_levels_split c key n ls t rest :
  path_levels c key n = ls ++ t :: rest →
  (t < n)%nat ∧ branch c t (shr key (S t)) ≠ None ∧ path_levels c key t = rest.
Proof.
  revert ls. induction n as [|n IH]; intros ls E; cbn [path_levels] in E; [by destruct ls|].
  destruct (branch c n (shr key (S n))) as [bn|] eqn:Eb.
  2:{ apply IH in E as (? & ? & ?). split_and!; [lia|done..]. }
  destruct ls as [|x ls]; simpl in E; injection E as -> E.
  - split_and!; [lia|by rewrite Eb|done].
  - apply IH in E as (? & ? & ?). split_and!; [lia|done..].
Qed.

Lemma path_levels_head c key n m rest :
  path_levels c key n = m :: rest →
  (m < n)%nat ∧ ∀ j, (m < j < n)%nat → branch c j (shr key (S j)) = None.
Proof.
  induction n as [|n IH]; cbn [path_levels]; [done|].
  destruct (branch c n (shr key (S n))) as [bn|] eqn:Eb.
  - intros [= -> _]. split; [lia|]. intros. lia.
  - intros [? Hn]%IH. split; [lia|]. intros j Hj.
    destruct (decide (j = n)) as [->|]; [done|]. apply Hn. lia.
Qed.

Lemma path_levels_prev c key n ls m :
  path_levels c key n = ls ++ [m] →
  let t := last_level n ls in
  (m < t ≤ n)%nat ∧ (∀ j, (m < j < t)%nat → branch c j (shr key (S j)) = None) ∧
  (t = n ∨ (t < n)%nat ∧ branch c t (shr key (S t)) ≠ None).
Proof.
  intros E t. unfold t, last_level. destruct (last ls) as [t'|] eqn:El; simpl.
  - apply last_Some in El as [ls' ->]. rewrite <- app_assoc in E.
    apply path_levels_split in E as (? & ? & [? ?]%path_levels_head).
    split_and!; [lia|lia|done|]. right. done.
  - apply last_None in El as ->. apply path_levels_head in E as [? ?].
    split_and!; [lia|lia|done|]. by left.
Qed.

Lemma alone_below c key t :
  keys_ok c → key < 2 ^ N.of_nat D → (t ≤ D)%nat → is_Some (c !! key) →
  (∀ j, (j < t)%nat → branch c j (shr key (S j)) = None) →
  ∀ k, is_Some (c !! k) → shr k t = shr key t → k = key.
Proof.
  intros Hk Hkey HtD Hin Hnone k Hck Hs. destruct (decide (k = key)) as [|Hne]; [done|exfalso].
  destruct (log2_lxor_spec k key Hne) as [Hb HS].
  set (m := N.to_nat (N.log2 (N.lxor k key))) in *.
  assert (m < t)%nat as Hm.
  { destruct (decide (m < t)%nat) as [|Hge]; [done|exfalso]. apply (shr_mono _ _ t m) in Hs; [|lia].
    rewrite (shr_child' k), (shr_child' key) in Hs. apply child_inj in Hs as [_ Hs].
    rewrite Hb in Hs. by destruct (bit_at key m). }
  pose proof (Hnone m Hm) as Hn. rewrite branch_children in Hn.
  assert (slot c m (shr key m) ≠ EMPTY) as H1 by (apply ref_root_nonempty; (done || lia)).
  assert (slot c m (shr k m) ≠ EMPTY) as H2 by (apply ref_root_nonempty; (done || lia || by apply Hk)).
  rewrite (shr_child' k), HS, Hb in H2. apply N.eqb_neq in H1, H2. by rewrite H1, H2 in Hn.
Qed.

(** The lowest branch point [m] on the path of the key to delete, and
    the level [t] above it: what [SmtRef.v]'s [add_key] asks for. *)
Section remove_node.
Context (c : content_map) (Hk : keys_ok c) (key : N) (Hkey : key < 2 ^ N.of_nat D).
Context (v : list hash) (Hc : c !! key = None).

Let c' : content_map := <[key := v]> c.

Lemma del_keys : keys_ok c'.
Proof. by apply keys_ok_insert. Qed.

Lemma del_in : is_Some (c' !! key).
Proof. unfold c'. rewrite lookup_insert_eq. by eexists. Qed.

Lemma branch_mono j :
  (j < D)%nat → branch c' j (shr key (S j)) = None → branch c j (shr key (S j)) = None.
Proof.
  intros Hj Hb. destruct (branch c j _) as [bn|] eqn:Eb; [exfalso|done].
  assert (∀ b, slot c' j (child (shr key (S j)) b) ≠ EMPTY) as Hne.
  { intros b. destruct (branch_keys c j _ bn b Eb) as (k & Hck & <-).
    assert (is_Some (c' !! k)) by (unfold c'; apply lookup_insert_is_Some'; by right).
    apply ref_root_nonempty; [apply del_keys|by apply Hk|lia|done]. }
  unfold branch in Hb. pose proof (Hne false) as H1. pose proof (Hne true) as H2.
  apply N.eqb_neq in H1, H2. by rewrite H1, H2 in Hb.
Qed.

Context (m t : nat) (Hmt : (m < t)%nat) (HtD : (t ≤ D)%nat).
Context (Hm' : branch c' m (shr key (S m)) ≠ None).
Context (Hlow : ∀ j, (j < m)%nat → branch c' j (shr key (S j)) = None).
Context (Hmid : ∀ j, (m < j < t)%nat → branch c' j (shr key (S j)) = None).
Context (Htop' : t = D ∨ (t < D)%nat ∧ branch c' t (shr key (S t)) ≠ None).

Lemma del_agree k : k ≠ key → c' !! k = c !! k.
Proof. intros. unfold c'. by rewrite lookup_insert_ne. Qed.

Lemma del_sib j :
  slot c' j (child (shr key (S j)) (negb (bit_at key j))) =
  slot c j (child (shr key (S j)) (negb (bit_at key j))).
Proof.
  apply (slot_off c c' key del_agree). rewrite shr_child'. intros [_ E]%child_inj.
  by destruct (bit_at key j).
Qed.

Lemma del_m : slot c m (shr key m) = EMPTY.
Proof.
  apply slot_no_keys. intros k Hck E.
  assert (k = key) as ->; [|by rewrite Hc in Hck; destruct Hck].
  apply (alone_below c' key m del_keys Hkey ltac:(lia) del_in Hlow); [|done].
  unfold c'. apply lookup_insert_is_Some'. by right.
Qed.

Lemma del_msib : slot c m (child (shr key (S m)) (negb (bit_at key m))) ≠ EMPTY.
Proof.
  rewrite <- del_sib. intros E. apply Hm'. rewrite branch_children, E, N.eqb_refl.
  by rewrite orb_true_r.
Qed.

Lemma del_none j : (j < t)%nat → branch c j (shr key (S j)) = None.
Proof.
  intros Hj. destruct (decide (j = m)) as [->|Hjm].
  - by rewrite branch_children, del_m, N.eqb_refl.
  - apply branch_mono; [lia|]. destruct (decide (j < m)%nat); [auto|]. apply Hmid. lia.
Qed.

Lemma del_top : t = D ∨ (t < D)%nat ∧ branch c t (shr key (S t)) ≠ None.
Proof.
  destruct Htop' as [?|[Ht Hb]]; [by left|right]. split; [done|].
  rewrite branch_children in Hb |- *. rewrite del_sib in Hb.
  assert (slot c t (shr key t) ≠ EMPTY) as Hne.
  { rewrite (on_mid c key Hkey m t Hmt HtD del_none del_m del_msib t) by lia. apply del_msib. }
  apply N.eqb_neq in Hne. rewrite Hne.
  destruct (slot c t _ =? EMPTY); [|done]. by rewrite orb_true_r in Hb.
Qed.

(** The collapse and the promotion of the sibling subtree. *)
Context (s : Smt) (Hns : nodes_ok c' (nodes s) (λ _ _, True)).
Context (Hroot : root_child s = slot c' D 0).
Context (Hcs : content_ok s) (Hec : content s = c).

Notation r := (slot c m (child (shr key (S m)) (negb (bit_at key m)))).
Notation np := (npack m (shr key (S m))).
Notation s1 := (with_nodes (delete np) s).

Lemma collapse_spec rest :
  collapse (level_entry key m :: rest) s EMPTY = (s1, r).
Proof.
  cbn [collapse level_entry]. rewrite N.eqb_refl. cbn [negb].
  pose proof del_msib as Hne. apply N.eqb_neq in Hne.
  destruct (branch c' m (shr key (S m))) as [bn|] eqn:Eb; [|done].
  assert (shr key (S m) < 2 ^ N.of_nat (D - S m)) as Hq by (apply shr_lt; [done|lia]).
  destruct (nodes_ok_branch c' _ _ m _ bn Hns ltac:(lia) Hq Eb) as (h & Hlk & _).
  rewrite (node_at_Some _ _ _ Hlk). cbn [bn_left bn_right].
  assert ((if bit_at key m then bn_left bn else bn_right bn) = r) as ->.
  { rewrite <- del_sib. apply branch_Some in Eb as (_ & _ & ->). by destruct (bit_at key m). }
  destruct rest as [|[p b] rest]; cbn [collapse]; [done|].
  by rewrite Hne.
Qed.

Lemma del_slot_t : slot c t (shr key t) = r.
Proof. apply (on_mid c key Hkey m t Hmt HtD del_none del_m del_msib t). lia. Qed.

Lemma del_nodes : nodes_ok c (put_ref key t r (delete np (nodes s)))
  (λ n p, p ≠ shr key (S n) ∨ (S n ≤ t)%nat).
Proof.
  eapply nodes_ok_weaken.
  2:{ apply (del_nodes_ok c Hk key Hkey v m t Hmt HtD del_none del_m del_msib del_top _ Hns). }
  intros n q _ Hb [?|Hn] E; [done|]. subst q. by apply Hb, del_none.
Qed.

Lemma remove_below_root : (t < D)%nat →
  let s2 := write_slot s1 (path_slot key t) r in
  let d_p := (unpack (npack t (shr key (S t)))).1 in
  let s3 := recompute_from s2 key (child_value s2 r d_p) (d_p + 1) in
  wf s3 ∧ content s3 = content s.
Proof.
  intros Ht s2 d_p. assert (d_p = (D - 1 - t)%nat) as ->.
  { unfold d_p. rewrite unpack_npack; [done|]. apply shr_lt; [done|lia]. }
  unfold recompute_from.
  assert (nodes_ok c (nodes s2) (λ n p, p ≠ shr key (S n) ∨ (S n ≤ t)%nat)) as Hn.
  { unfold s2. rewrite nodes_write_slot. apply del_nodes. }
  destruct (write_slot_content s1 (path_slot key t) r) as [El Eb]. fold s2 in El, Eb.
  simpl in El, Eb. destruct (content_same s s2 El Eb) as [Ec Hc2].
  assert (∀ k, bucket_root s2 k = leaf_value c k) as Hbr.
  { intros k. by rewrite bucket_root_leaf_value, Ec, Hec. }
  pose proof (recompute_loop_spec c Hk key (D - 1 - t + 1) s2 (child_value s2 r (D - 1 - t)) Hkey) as Hspec.
  replace (D - (D - 1 - t + 1))%nat with t in Hspec by lia.
  destruct (recompute_loop s2 key _ _) as [s3 v3].
  destruct Hspec as (Hn3 & -> & El3 & Eb3 & Er3); [lia|done|done| | |].
  { rewrite del_slot_t. apply del_msib. }
  { rewrite child_value_slot_value by lia. replace (D - 1 - (D - 1 - t))%nat with t by lia.
    rewrite <- del_slot_t. eapply (slot_value_ref c Hk); [exact Hn|done|lia|by apply shr_lt|].
    intros n p Hnt _. right. lia. }
  assert (root_child s2 = slot c D 0) as Hr2.
  { unfold s2. rewrite root_child_write_slot, decide_False by lia. simpl. rewrite Hroot.
    rewrite <- (shr_D key) by done.
    apply (on_high' c Hk key Hkey v m t Hmt HtD del_none del_m del_msib del_top). lia. }
  rewrite El in El3. rewrite Eb in Eb3.
  destruct (content_same s (with_root_hash (Some (ref c D 0)) s3) El3 Eb3) as [Ec3 Hc3].
  split; [|done]. split; [by apply Hc3|rewrite Ec3, Hec; done| |].
  - rewrite Ec3, Hec. simpl. congruence.
  - rewrite Ec3, Hec. simpl. rewrite decide_False; [done|]. intros E.
    apply del_msib. rewrite E. apply slot_no_keys. intros k. rewrite lookup_empty. by intros [??].
Qed.

Lemma remove_at_root : t = D →
  let s2 := with_root_child r s1 in
  wf (with_root_hash (Some (root_value s2)) s2).
Proof.
  intros Et s2. assert (slot c D 0 = r) as Er by (rewrite <- del_slot_t, Et; by rewrite shr_D).
  assert (nodes_ok c (nodes s2) (λ _ _, True)) as Hn.
  { pose proof del_nodes as Hd. unfold put_ref in Hd. rewrite decide_True in Hd by done.
    eapply nodes_ok_weaken; [|exact Hd]. intros n q Hnd Hb _. right. lia. }
  assert (root_value s2 = ref c D 0) as ->.
  { rewrite root_value_slot_value. unfold s2 at 2. simpl. rewrite <- Er.
    eapply (slot_value_ref c Hk); try done.
    intros k. rewrite bucket_root_leaf_value. by rewrite <- Hec. }
  destruct (content_same s (with_root_hash (Some (ref c D 0)) s2)) as [Ec3 Hc3]; [done..|].
  split; [by apply Hc3|rewrite Ec3, Hec; done| |].
  - rewrite Ec3, Hec. done.
  - rewrite Ec3, Hec. simpl. rewrite decide_False; [done|]. intros E.
    apply del_msib. rewrite E. apply slot_no_keys. intros k. rewrite lookup_empty. by intros [??].
Qed.
End remove_node.

(** Deleting the only key empties the tree. *)
Lemma remove_last_key c key v s :
  keys_ok c → key < 2 ^ N.of_nat D → c !! key = None →
  nodes_ok (<[key := v]> c) (nodes s) (λ _ _, True) → content_ok s → content s = c →
  path_levels (<[key := v]> c) key D = [] →
  wf (with_root_hash None (with_root_child EMPTY s)).
Proof.
  intros Hk Hkey Hc Hns Hcs Hec El. pose proof (keys_ok_insert c key v Hk Hkey) as Hk'.
  assert (c = ∅) as Ec.
  { apply map_empty. intros k. apply eq_None_not_Some. intros Hck.
    assert (k = key) as ->; [|rewrite Hc in Hck; by destruct Hck].
    eapply (alone_below (<[key := v]> c) key D); try done.
    - rewrite lookup_insert_eq. by eexists.
    - by apply path_levels_none.
    - apply lookup_insert_is_Some'. by right.
    - rewrite !shr_D; [done..|]. by apply Hk. }
  set (s' := with_root_hash None (with_root_child EMPTY s)).
  destruct (content_same s s') as [Ec' Hc']; [done..|]. rewrite Hec, Ec in Ec'.
  assert (∀ n q, slot ∅ n q = EMPTY) as Es.
  { intros n q. apply slot_no_keys. intros k. rewrite lookup_empty. by intros [??]. }
  split; [by apply Hc'|rewrite Ec'..]; [|by rewrite Es|by rewrite decide_True].
  destruct Hns as [H1 H2]. split; [|done]. intros n q Hn Hq. specialize (H1 n q Hn Hq).
  assert (branch (<[key := v]> c) n q = None) as Eb.
  { destruct (branch (<[key := v]> c) n q) as [bn|] eqn:Eb; [exfalso|done].
    destruct (branch_keys _ _ _ bn false Eb) as (k0 & Hk0 & E0).
    destruct (branch_keys _ _ _ bn true Eb) as (k1 & Hk1 & E1).
    rewrite Ec, insert_empty in Hk0, Hk1. apply singleton_only in Hk0 as ->, Hk1 as ->.
    rewrite E0 in E1. by apply child_inj in E1 as [_ ?]. }
  rewrite Eb in H1. unfold branch. by rewrite !Es.
Qed.

(** The nearest surviving ancestor: the level above [m]. *)
Lemma find_survivor c' key (s : Smt) P ls m :
  nodes_ok c' (nodes s) P → key < 2 ^ N.of_nat D → (m < D)%nat →
  path_levels c' key D = ls ++ [m] →
  list_find (λ pb, is_Some (nodes (with_nodes (delete (npack m (shr key (S m)))) s) !! pb.1))
    (reverse (map (level_entry key) (ls ++ [m]))) =
  (λ t, (1%nat, level_entry key t)) <$> last ls.
Proof.
  intros Hns Hkey Hm El. rewrite map_app, reverse_app. cbn [map reverse rev_append app].
  simpl. rewrite decide_False.
  2:{ simpl. rewrite lookup_delete_eq. by intros [??]. }
  destruct (last ls) as [t|] eqn:Et; simpl; [|by apply last_None in Et as ->].
  apply last_Some in Et as [ls' ->]. rewrite map_app, reverse_app. simpl.
  rewrite <- app_assoc in El. apply path_levels_split in El as (Ht & Hb & [Hmt _]%path_levels_head).
  rewrite decide_True; [done|]. simpl.
  assert (∀ j, (j < D)%nat → shr key (S j) < 2 ^ N.of_nat (D - S j)) as Hq.
  { intros j Hj. apply shr_lt; [done|lia]. }
  rewrite lookup_delete_ne.
  - destruct (branch c' t (shr key (S t))) as [bn|] eqn:Eb; [|done].
    destruct (nodes_ok_branch c' _ _ t _ bn Hns Ht (Hq t Ht) Eb) as (h & -> & _). by eexists.
  - intros E. apply npack_inj in E as [-> _]; (lia || by apply Hq).
Qed.

(** Deleting the last leaf of a key restores the invariant, and the
    [unreachable!] is not reached. *)
Lemma remove_structure_ok c key v s :
  keys_ok c → key < 2 ^ N.of_nat D → c !! key = None →
  nodes_ok (<[key := v]> c) (nodes s) (λ _ _, True) →
  root_child s = slot (<[key := v]> c) D 0 → content_ok s → content s = c →
  ∃ s', remove_structure s key = Some s' ∧ wf s' ∧ content s' = content s.
Proof.
  intros Hk Hkey Hc Hns Hr Hcs Hec. pose proof (del_keys c Hk key Hkey v) as Hk'.
  unfold remove_structure. rewrite (locate_full_spec _ Hk' key Hkey s _ Hns Hr).
  destruct (path_levels (<[key := v]> c) key D) as [|m ls _] eqn:El using rev_ind.
  - simpl. eexists. split; [done|]. split; [|done]. by apply (remove_last_key c key v).
  - destruct (path_levels_last _ _ _ _ _ El) as (Hm & Hbm & Hlow).
    destruct (path_levels_prev _ _ _ _ _ El) as ([Hmt HtD] & Hmid & Htop).
    set (t := last_level D ls) in *.
    set (r := slot c m (child (shr key (S m)) (negb (bit_at key m)))).
    assert (collapse (reverse (map (level_entry key) (ls ++ [m]))) s EMPTY =
      (with_nodes (delete (npack m (shr key (S m)))) s, r)) as ->.
    { rewrite map_app, reverse_app.
      by eapply (collapse_spec c key Hkey v m t). }
    assert (r ≠ EMPTY) as Hne by (apply (del_msib c key v m Hbm)).
    rewrite (proj2 (N.eqb_neq _ _) Hne). cbn [negb].
    rewrite (find_survivor _ key s _ ls m Hns Hkey Hm El).
    unfold t, last_level in *. destruct (last ls) as [t'|] eqn:Et; cbn [fmap option_fmap option_map default] in *.
    + assert (t' < D)%nat as Ht.
      { apply last_Some in Et as [ls' ->]. rewrite <- app_assoc in El.
        by apply path_levels_split in El as [? _]. }
      eexists. split; [done|].
      pose proof (remove_below_root c Hk key Hkey v Hc m t' Hmt HtD Hbm Hlow Hmid Htop
        s Hns Hr Hcs Hec Ht) as Hw.
      unfold path_slot in Hw. rewrite decide_False in Hw by lia. exact Hw.
    + eexists. split; [done|]. split; [|done].
      by apply (remove_at_root c Hk key Hkey v Hc m D Hmt HtD Hbm Hlow Hmid (or_introl eq_refl) s Hns Hr Hcs Hec).
Qed.

Lemma smt_remove_spec s key leaf :
  wf s → key < 2 ^ N.of_nat D →
  ∃ s', smt_remove_opt s key leaf = Some s' ∧ wf s' ∧
    content s' = content_del (content s) key (bucket_del leaf (bucket_at s key)).
Proof.
  intros Hw Hkey. unfold smt_remove_opt. pose proof (wf_content _ Hw) as Hc.
  pose proof (remove_content_spec s key leaf Hc Hkey) as Hi.
  destruct (remove_content s key leaf) as [[s1 emptied]|].
  2:{ eexists. split; [done|]. split; [done|].
      rewrite bucket_del_absent by (done || by apply bucket_at_sorted). unfold bucket_at in *.
      destruct (content s !! key) as [v|] eqn:E; simpl; [|by rewrite delete_id].
      destruct v as [|x v]; simpl; [|by rewrite insert_id].
      pose proof (bucket_at_nil s key Hc) as Hn. unfold bucket_at in Hn. rewrite E in Hn.
      by specialize (Hn eq_refl). }
  destruct Hi as (Hin & Hc1 & Hem & Ec & En & Er).
  set (s2 := push_dirty_leaf key s1).
  assert (content_ok s2 ∧ content s2 = content s1) as [Hc2 Ec2] by (by split; [destruct Hc1|]).
  unfold bucket_at in *. destruct (content s !! key) as [w|] eqn:Ew; [|by apply elem_of_nil in Hin].
  simpl in *. destruct emptied.
  - rewrite Hem in Ec |- *. simpl in *.
    assert (<[key := w]> (content s2) = content s) as Ew2 by (by rewrite Ec2, Ec, insert_delete_id).
    destruct (remove_structure_ok (content s2) key w s2) as (s' & ? & ? & Ec').
    { by apply ok_keys. } { done. } { by rewrite Ec2, Ec, lookup_delete_eq. }
    { rewrite Ew2. unfold s2. simpl. rewrite En. by apply wf_nodes. }
    { rewrite Ew2. unfold s2. simpl. rewrite Er. by apply wf_root. }
    { done. } { done. }
    exists s'. split_and!; [done..|]. by rewrite Ec', Ec2.
  - assert (content_del (content s) key (bucket_del leaf w) = <[key := bucket_del leaf w]> (content s)) as Ed
      by (by destruct (bucket_del leaf w)).
    rewrite Ed in *. eexists. split; [done|].
    destruct (recompute_ok s2 key) as (Hw' & El' & Eb'); [done..| | | |].
    + rewrite Ec2, Ec, lookup_insert_eq. by eexists.
    + rewrite Ec2, Ec. unfold s2. simpl. rewrite En.
      apply nodes_ok_bucket; [done|by eexists|by apply wf_nodes].
    + rewrite Ec2, Ec. unfold s2. simpl. rewrite Er, (wf_root _ Hw). symmetry.
      apply slot_dom. intros k. rewrite lookup_insert_is_Some'.
      destruct (decide (key = k)) as [<-|]; [|naive_solver]. rewrite Ew. naive_solver.
    + split; [done|]. rewrite <- Ec, <- Ec2. by apply content_same.
Qed.

(** ** The tree as a set of leaves *)

(** [leaf] is committed under [key]. *)
Definition smt_has (s : Smt) (key : N) (leaf : hash) : Prop := leaf ∈ bucket_at s key.

Lemma smt_has_new key leaf : ¬ smt_has smt_new key leaf.
Proof. unfold smt_has, bucket_at. rewrite content_lookup. apply not_elem_of_nil. Qed.

Lemma smt_has_insert s key leaf k l :
  wf s → key < 2 ^ N.of_nat D →
  smt_has (smt_insert s key leaf) k l ↔ (k = key ∧ l = leaf) ∨ smt_has s k l.
Proof.
  intros Hw Hkey. destruct (smt_insert_spec s key leaf Hw Hkey) as [_ Ec].
  unfold smt_has, bucket_at in *. rewrite Ec. destruct (decide (k = key)) as [->|Hne].
  - rewrite lookup_insert_eq. simpl. unfold bucket_add. case_bool_decide.
    + naive_solver.
    + rewrite elem_of_insert_sorted. naive_solver.
  - rewrite lookup_insert_ne by done. naive_solver.
Qed.

Lemma smt_has_remove s key leaf k l :
  wf s → key < 2 ^ N.of_nat D →
  smt_has (smt_remove s key leaf) k l ↔ smt_has s k l ∧ ¬ (k = key ∧ l = leaf).
Proof.
  intros Hw Hkey. destruct (smt_remove_spec s key leaf Hw Hkey) as (s' & E & _ & Ec).
  unfold smt_remove. rewrite E. simpl. unfold smt_has, bucket_at in *. rewrite Ec.
  pose proof (elem_of_bucket_del leaf l (default [] (content s !! key))) as Hd.
  destruct (decide (k = key)) as [->|Hne].
  - destruct (bucket_del _ _); simpl; rewrite ?lookup_delete_eq, ?lookup_insert_eq; simpl; naive_solver.
  - destruct (bucket_del _ _); simpl; rewrite ?lookup_delete_ne, ?lookup_insert_ne by done; naive_solver.
Qed.

Lemma wf_insert s key leaf : wf s → key < 2 ^ N.of_nat D → wf (smt_insert s key leaf).
Proof. intros Hw Hkey. by apply smt_insert_spec. Qed.

Lemma wf_remove s key leaf : wf s → key < 2 ^ N.of_nat D → wf (smt_remove s key leaf).
Proof.
  intros Hw Hkey. destruct (smt_remove_spec s key leaf Hw Hkey) as (s' & E & ? & _).
  unfold smt_remove. by rewrite E.
Qed.

(** ** Canonicity *)

Lemma content_ok_inj s t :
  content_ok s → content_ok t → content s = content t → leaves s = leaves t ∧ buckets s = buckets t.
Proof.
  intros Hs Ht E.
  assert (∀ k, buckets s !! k = buckets t !! k ∧ leaves s !! k = leaves t !! k) as Hk.
  { intros k. pose proof (f_equal (λ c : content_map, c !! k) E) as Ek. simpl in Ek.
    rewrite !content_lookup in Ek.
    pose proof (ok_disj s Hs k) as Ds. pose proof (ok_disj t Ht k) as Dt.
    pose proof (ok_bucket s Hs k) as Bs. pose proof (ok_bucket t Ht k) as Bt.
    destruct (buckets s !! k) as [v|], (buckets t !! k) as [w|],
      (leaves s !! k) as [h|], (leaves t !! k) as [h'|]; simpl in Ek;
      repeat match goal with
      | H : is_Some (Some ?x) → _ |- _ => specialize (H (mk_is_Some _ _ eq_refl))
      | H : ∀ v, Some ?w = Some v → _ |- _ => destruct (H w eq_refl) as [? _]; clear H
      end; simplify_eq/=; try done; lia. }
  split; apply map_eq; intros k; apply Hk.
Qed.

Lemma nodes_ok_inj c ns ns' :
  nodes_ok c ns (λ _ _, True) → nodes_ok c ns' (λ _ _, True) → ns = ns'.
Proof.
  intros [H1 H2] [H1' H2']. apply map_eq. intros x.
  assert (is_Some (ns !! x) ∨ is_Some (ns' !! x) → ns !! x = ns' !! x) as Hx.
  { intros Hs. assert (∃ n q, (n < D)%nat ∧ q < 2 ^ N.of_nat (D - S n) ∧ x = npack n q)
      as (n & q & Hn & Hq & ->) by (destruct Hs as [[b E]|[b E]]; eauto).
    specialize (H1 n q Hn Hq). specialize (H1' n q Hn Hq).
    destruct (branch c n q) as [b|].
    - destruct H1 as (h & E & Eh), H1' as (h' & E' & Eh').
      rewrite Eh in E by done. rewrite Eh' in E' by done. congruence.
    - congruence. }
  destruct (ns !! x), (ns' !! x); try done; apply Hx; eauto.
Qed.

Lemma wf_content_inj s t : wf s → wf t → content s = content t → s ≡ t.
Proof.
  intros Hs Ht E. destruct (content_ok_inj s t) as [? ?]; [by apply wf_content..|done|].
  repeat split; try done.
  - by rewrite !wf_root, E.
  - by rewrite !wf_hash, E.
  - eapply nodes_ok_inj; [by apply wf_nodes|]. rewrite E. by apply wf_nodes.
Qed.

(** Trees with the same leaves are equal. *)
Lemma smt_has_inj s t : wf s → wf t → (∀ k l, smt_has s k l ↔ smt_has t k l) → s ≡ t.
Proof.
  intros Hs Ht E. apply wf_content_inj; [done..|]. apply map_eq. intros k.
  pose proof (wf_content _ Hs) as Cs. pose proof (wf_content _ Ht) as Ct.
  assert (bucket_at s k = bucket_at t k) as Eb.
  { apply sorted_ext; [by apply bucket_at_sorted..|]. apply E. }
  pose proof (bucket_at_nil s k Cs) as Ns. pose proof (bucket_at_nil t k Ct) as Nt.
  rewrite Eb in Ns. unfold bucket_at in *.
  destruct (content s !! k), (content t !! k); simpl in *; subst; try done;
    by rewrite Ns || by rewrite Nt.
Qed.

Lemma smt_equiv_has s t k l : s ≡ t → smt_has s k l ↔ smt_has t k l.
Proof.
  intros (_ & _ & E1 & E2 & _). unfold smt_has, bucket_at, content. by rewrite E1, E2.
Qed.

(** The promise to the state layer. *)
#[global] Instance smt_commitment :
  SetCommitment smt_new smt_insert smt_remove (λ k, k < 2 ^ N.of_nat D) := {|
  sc_wf := wf; sc_has := smt_has;
  sc_wf_empty := wf_new; sc_wf_insert := wf_insert; sc_wf_remove := wf_remove;
  sc_has_empty := smt_has_new; sc_has_insert := smt_has_insert;
  sc_has_remove := smt_has_remove; sc_canonical := smt_has_inj |}.

Lemma smt_root_ref s : wf s → smt_root s = ref (content s) D 0.
Proof.
  intros Hw. unfold smt_root. rewrite (wf_hash _ Hw). case_decide as E; [|done].
  rewrite E, ref_no_keys; [done|]. intros k. rewrite lookup_empty. by intros [??].
Qed.

#[global] Instance smt_root_proper : Proper ((≡) ==> (=)) smt_root.
Proof. intros s t (_ & E & _). unfold smt_root. by rewrite E. Qed.

(** ** Runs of operations *)

Inductive SmtOp := OpInsert (k : N) (l : hash) | OpRemove (k : N) (l : hash).

Definition op_key (o : SmtOp) : N := match o with OpInsert k _ | OpRemove k _ => k end.

Definition smt_step (s : Smt) (o : SmtOp) : option Smt :=
  match o with
  | OpInsert k l => Some (smt_insert s k l)
  | OpRemove k l => smt_remove_opt s k l
  end.

Definition smt_run (ops : list SmtOp) : option Smt :=
  foldl (λ o op, s ← o; smt_step s op) (Some smt_new) ops.

(** The abstract set of committed leaves. *)
Definition set_step (X : gset (N * hash)) (o : SmtOp) : gset (N * hash) :=
  match o with
  | OpInsert k l => {[(k, l)]} ∪ X
  | OpRemove k l => X ∖ {[(k, l)]}
  end.

Definition set_run (ops : list SmtOp) : gset (N * hash) := foldl set_step ∅ ops.

Definition run_ok (o : option Smt) (X : gset (N * hash)) : Prop :=
  ∃ s, o = Some s ∧ wf s ∧ ∀ k l, smt_has s k l ↔ (k, l) ∈ X.

Lemma run_ok_step s X o :
  wf s → (∀ k l, smt_has s k l ↔ (k, l) ∈ X) → op_key o < 2 ^ N.of_nat D →
  run_ok (smt_step s o) (set_step X o).
Proof.
  intros Hw HX Ho. destruct o as [k l|k l]; simpl in *.
  - eexists. split; [done|]. split; [by apply wf_insert|].
    intros k' l'. rewrite smt_has_insert, HX by done. set_solver.
  - destruct (smt_remove_spec s k l Hw Ho) as (s' & E & Hw' & _). exists s'. split_and!; [done..|].
    intros k' l'. assert (s' = smt_remove s k l) as -> by (unfold smt_remove; by rewrite E).
    rewrite smt_has_remove, HX by done. set_solver.
Qed.

Lemma run_ok_foldl ops o X :
  run_ok o X → Forall (λ o, op_key o < 2 ^ N.of_nat D) ops →
  run_ok (foldl (λ o op, s ← o; smt_step s op) o ops) (foldl set_step X ops).
Proof.
  intros Ho Hops. revert o X Ho. induction Hops as [|x ops Hx _ IH]; intros o X Ho; [done|].
  simpl. apply IH. destruct Ho as (s & -> & Hw & HX). by apply run_ok_step.
Qed.

Lemma smt_run_run_ok ops :
  Forall (λ o, op_key o < 2 ^ N.of_nat D) ops → run_ok (smt_run ops) (set_run ops).
Proof.
  apply run_ok_foldl. exists smt_new. split_and!; [done|apply wf_new|].
  intros k l. split; [intros Hh; by apply smt_has_new in Hh|set_solver].
Qed.

(** C5. The sparse Merkle tree refines a set of leaves: any sequence of
    insertions and removals of 40-bit keys runs without reaching the
    [unreachable!] branch, the leaves held are those of the set, and
    the cached root is the root of the full reference tree of depth
    40 over them. *)
Theorem smt_run_refines ops :
  Forall (λ o, op_key o < 2 ^ N.of_nat D) ops →
  ∃ s, smt_run ops = Some s ∧ smt_root s = ref (content s) D 0 ∧
       ∀ k l, l ∈ bucket_at s k ↔ (k, l) ∈ set_run ops.
Proof.
  intros (s & -> & Hw & HX)%smt_run_run_ok. exists s. split_and!; [done|by apply smt_root_ref|done].
Qed.

(** C15. History independence of the tree: two sequences of operations
    that leave the same set of leaves leave the same physical tree
    (branches, leaves, buckets, cached hashes), not only the same
    root. *)
Theorem smt_run_canonical ops ops' :
  Forall (λ o, op_key o < 2 ^ N.of_nat D) ops → Forall (λ o, op_key o < 2 ^ N.of_nat D) ops' →
  set_run ops = set_run ops' → smt_run ops ≡ smt_run ops'.
Proof.
  intros (s & -> & Hw & HX)%smt_run_run_ok (t & -> & Hw' & HX')%smt_run_run_ok E.
  constructor. apply smt_has_inj; [done..|]. intros k l. by rewrite HX, HX', E.
Qed.
End smt_ops.

(** ** Concrete runs *)

Module SmtScenario.
#[local] Existing Instance Toy.crypto.

Definition leaf (b : byte) : hash := arr_of 32 [b].
Definition ops : list SmtOp :=
  [OpInsert 5 (leaf x01); OpInsert 4 (leaf x02); OpInsert (2 ^ 39) (leaf x03);
   OpInsert 5 (leaf x04); OpRemove 4 (leaf x02)].
Definition ops' : list SmtOp :=
  [OpInsert (2 ^ 39) (leaf x03); OpInsert 5 (leaf x04); OpInsert 5 (leaf x01)].

Lemma ops_ok : Forall (λ o, op_key o < 2 ^ N.of_nat D) ops.
Proof. repeat constructor. Qed.
Lemma ops'_ok : Forall (λ o, op_key o < 2 ^ N.of_nat D) ops'.
Proof. repeat constructor. Qed.

Lemma smt_run_refines_witness :
  ∃ s, smt_run ops = Some s ∧ smt_root s = ref (content s) D 0 ∧
       ∀ k l, l ∈ bucket_at s k ↔ (k, l) ∈ set_run ops.
Proof. apply (smt_run_refines ops ops_ok). Defined.

Lemma smt_run_canonical_witness : smt_run ops ≡ smt_run ops'.
Proof.
  apply (smt_run_canonical ops ops' ops_ok ops'_ok).
  apply (bool_decide_eq_true_1 _). by vm_compute.
Defined.
End SmtScenario.
