(* ===== verification/SmtBinding.v ===== *)
(** * The root of the sparse Merkle tree binds its leaves

    Two well-formed trees with the same root hold the same leaves,
    unless two of the values hashed to compute the roots collide.  The
    preimages are listed by an executable function, so the hypothesis can
    be checked on a concrete tree. *)

From S2P Require Import Prelude Bytes Crypto Commitment Smt SmtRef SmtProofs.

Section binding.
Context `{Crypto}.

(** ** Buckets *)

(** The pairs one level of a bucket tree hashes. *)
Fixpoint bucket_pairs (level : list hash) : list (list byte) :=
  match level with
  | x :: y :: rest => (arr_list x ++ arr_list y) :: bucket_pairs rest
  | [x] => [arr_list x ++ arr_list x]
  | [] => []
  end.

Definition list_pair_ind {A} (P : list A → Prop) (H0 : P []) (H1 : ∀ x, P [x])
    (H2 : ∀ x y l, P l → P (x :: y :: l)) : ∀ l, P l :=
  fix go l := match l with [] => H0 | [x] => H1 x | x :: y :: l => H2 x y l (go l) end.

Lemma last_cons_2 {A} (x y : A) l : last (x :: y :: l) = match l with [] => Some y | _ => last l end.
Proof. by destruct l as [|z l]. Qed.

Lemma bucket_level_pairs level : bucket_level level = map blake3 (bucket_pairs level).
Proof.
  unfold bucket_level. induction level as [|x|x y l IH] using list_pair_ind; [done| |].
  - cbn. unfold hash256. cbn. by rewrite app_nil_r.
  - cbn [bucket_pairs map]. rewrite <- IH. change (Nat.even (length (x :: y :: l))) with (Nat.even (length l)).
    destruct (Nat.even (length l)) eqn:Ev.
    + cbn [chunks2 map]. unfold hash256 at 1. cbn [map concat]. by rewrite app_nil_r.
    + rewrite last_cons_2. destruct l as [|z l]; [done|]. destruct (last (z :: l)) as [w|] eqn:El; cbn [app chunks2 map];
        unfold hash256 at 1; cbn [map concat]; by rewrite app_nil_r.
Qed.

(** What a bucket hashes. *)
Fixpoint bucket_preimages (fuel : nat) (level : list hash) : list (list byte) :=
  match fuel with
  | O => []
  | S fuel =>
      if (1 <? length level)%nat then bucket_pairs level ++ bucket_preimages fuel (bucket_level level)
      else []
  end.

Lemma bucket_pair_elem p level : p ∈ bucket_pairs level →
  length p = 64%nat ∧ ∃ x rest, x ∈ level ∧ p = arr_list x ++ rest.
Proof.
  induction level as [|x|x y l IH] using list_pair_ind; cbn [bucket_pairs].
  - by intros ?%elem_of_nil.
  - intros ->%list_elem_of_singleton. rewrite length_app, !arr_length. split; [done|].
    eexists _, _. split; [by left|done].
  - intros [->|Hp]%elem_of_cons.
    + rewrite length_app, !arr_length. split; [done|]. eexists _, _. split; [by left|done].
    + destruct (IH Hp) as (? & z & rest & ? & ?). split; [done|]. exists z, rest.
      split; [by do 2 right|done].
Qed.

Lemma bucket_pairs_NoDup level : NoDup level → NoDup (bucket_pairs level).
Proof.
  induction level as [|x|x y l IH] using list_pair_ind; cbn [bucket_pairs].
  - constructor.
  - intros _. apply NoDup_singleton.
  - intros [Hx [Hy Hl]%NoDup_cons]%NoDup_cons. apply NoDup_cons. split; [|by apply IH].
    intros (_ & z & rest & Hz & E)%bucket_pair_elem. apply app_arr_inj in E as [-> _].
    apply Hx. by right.
Qed.

Lemma bucket_pairs_inj v w :
  NoDup v → NoDup w → bucket_pairs v = bucket_pairs w → v = w.
Proof.
  assert (∀ (x y z : hash) l, arr_list x ++ arr_list y = arr_list z ++ arr_list z → NoDup (x :: y :: l) → False) as Hdup.
  { intros x y z l [-> ->%arr_eq]%app_arr_inj [Hn _]%NoDup_cons. apply Hn. by left. }
  revert w. induction v as [|x|x y l IH] using list_pair_ind; intros [|x' [|y' l']] Hv Hw E; try done.
  - cbn in E. apply cons_inv in E as [[-> _]%app_arr_inj _]. done.
  - apply cons_inv in E as [E _]. destruct (Hdup x' y' x l'); done.
  - apply cons_inv in E as [E _]. destruct (Hdup x y x' l); done.
  - cbn [bucket_pairs] in E. apply cons_inv in E as [[-> ->%arr_eq]%app_arr_inj E].
    apply NoDup_cons in Hv as [_ [_ Hv]%NoDup_cons]. apply NoDup_cons in Hw as [_ [_ Hw]%NoDup_cons].
    by rewrite (IH l').
Qed.

Lemma map_blake3_inj (l l' : list (list byte)) :
  injective_on (l ++ l') → map blake3 l = map blake3 l' → l = l'.
Proof.
  revert l'. induction l as [|x l IH]; intros [|y l'] Hi E; try done. cbn in E. apply cons_inv in E as [Ex E].
  apply Hi in Ex; [|set_solver..]. rewrite Ex. f_equal. apply IH; [|done].
  eapply injective_on_sub; [|exact Hi]. set_solver.
Qed.

Lemma bucket_level_inj v w :
  NoDup v → NoDup w → injective_on (bucket_pairs v ++ bucket_pairs w) →
  bucket_level v = bucket_level w → v = w.
Proof.
  rewrite !bucket_level_pairs. intros Hv Hw Hi E%map_blake3_inj; [|done]. by apply bucket_pairs_inj.
Qed.

Lemma bucket_level_NoDup v : NoDup v → injective_on (bucket_pairs v) → NoDup (bucket_level v).
Proof.
  intros Hv Hi. rewrite bucket_level_pairs. apply (NoDup_fmap_2_strong blake3); [|by apply bucket_pairs_NoDup].
  intros x y Hx Hy. by apply Hi.
Qed.

Lemma bucket_level_nonempty v : v ≠ [] → bucket_level v ≠ [].
Proof. rewrite bucket_level_pairs. by destruct v as [|x [|y l]]. Qed.

Lemma bucket_level_elem v x : x ∈ bucket_level v → ∃ p, p ∈ bucket_pairs v ∧ x = blake3 p.
Proof. rewrite bucket_level_pairs. intros (p & -> & Hp)%list_elem_of_fmap. by exists p. Qed.

Lemma length_bucket_pairs v : length (bucket_pairs v) = ((length v + 1) / 2)%nat.
Proof.
  induction v as [|x|x y l IH] using list_pair_ind; [done..|]. cbn [bucket_pairs length].
  rewrite IH. replace (S (S (length l)) + 1)%nat with (length l + 1 + 1 * 2)%nat by lia.
  rewrite Nat.div_add by done. lia.
Qed.

Lemma bucket_level_shorter v : (1 < length v)%nat → (length (bucket_level v) < length v)%nat.
Proof.
  rewrite bucket_level_pairs, length_map, length_bucket_pairs. intros ?.
  apply Nat.Div0.div_lt_upper_bound. lia.
Qed.

(** A preimage of the bucket starts with a hash of the bucket or with
    the hash of another preimage. *)
Lemma bucket_preimage_elem fuel v p : p ∈ bucket_preimages fuel v →
  length p = 64%nat ∧ ∃ x rest, p = arr_list x ++ rest ∧
    (x ∈ v ∨ ∃ p', p' ∈ bucket_preimages fuel v ∧ x = blake3 p').
Proof.
  revert v. induction fuel as [|fuel IH]; intros v; cbn [bucket_preimages]; [by intros ?%elem_of_nil|].
  destruct (1 <? length v)%nat; [|by intros ?%elem_of_nil]. intros [Hp|Hp]%elem_of_app.
  - apply bucket_pair_elem in Hp as (? & x & rest & ? & ->). split; [done|]. exists x, rest.
    split; [done|by left].
  - destruct (IH _ Hp) as (Hl & x & rest & -> & Hx). split; [done|]. exists x, rest. split; [done|right].
    destruct Hx as [Hx|(p' & ? & ->)].
    + apply bucket_level_elem in Hx as (p' & ? & ->). exists p'. split; [apply elem_of_app; by left|done].
    + exists p'. split; [apply elem_of_app; by right|done].
Qed.

(** The loop ends with one hash. *)
Lemma bucket_loop_single fuel v :
  (length v ≤ fuel)%nat → v ≠ [] → ∃ r, bucket_loop fuel v = [r].
Proof.
  revert v. induction fuel as [|fuel IH]; intros v Hl Hne.
  { destruct v; [done|simpl in Hl; lia]. }
  cbn [bucket_loop]. destruct (Nat.ltb_spec 1 (length v)) as [Hg|Hg].
  - apply IH; [|by apply bucket_level_nonempty]. pose proof (bucket_level_shorter v Hg). lia.
  - destruct v as [|x [|y l]]; [done|by eexists|simpl in Hg; lia].
Qed.

Lemma bucket_loop_fuel fuel fuel' v :
  (length v ≤ fuel)%nat → (length v ≤ fuel')%nat → bucket_loop fuel v = bucket_loop fuel' v.
Proof.
  revert fuel' v. induction fuel as [|fuel IH]; intros [|fuel'] v Hl Hl'; cbn [bucket_loop]; try done;
    destruct (Nat.ltb_spec 1 (length v)) as [Hg|Hg]; try done; try lia.
  pose proof (bucket_level_shorter v Hg). apply IH; lia.
Qed.

Lemma bucket_loop_hashed fuel v r :
  (1 < length v)%nat → (length v ≤ fuel)%nat → bucket_loop fuel v = [r] →
  ∃ p, p ∈ bucket_preimages fuel v ∧ r = blake3 p.
Proof.
  revert v. induction fuel as [|fuel IH]; intros v Hg Hl; [lia|]. cbn [bucket_loop bucket_preimages].
  rewrite (proj2 (Nat.ltb_lt _ _) Hg). intros E. pose proof (bucket_level_shorter v Hg).
  destruct (decide (1 < length (bucket_level v))%nat) as [Hg'|Hg'].
  - destruct (IH _ Hg' ltac:(lia) E) as (p & Hp & ->). exists p. split; [apply elem_of_app; by right|done].
  - assert (bucket_level v = [r]) as El.
    { destruct fuel; [done|]. cbn [bucket_loop] in E. by rewrite (proj2 (Nat.ltb_nlt _ _) Hg') in E. }
    destruct (bucket_level_elem v r) as (p & Hp & ->); [rewrite El; by left|].
    exists p. split; [apply elem_of_app; by left|done].
Qed.

(** Some hash of the bucket is the hash of a pair. *)
Definition pair_in (v : list hash) (ps : list (list byte)) : Prop :=
  ∃ x p, x ∈ v ∧ p ∈ ps ∧ x = blake3 p.

Lemma pair_in_below v w fuel :
  injective_on (bucket_pairs v ++ bucket_preimages fuel (bucket_level w)) →
  pair_in (bucket_level v) (bucket_preimages fuel (bucket_level w)) →
  pair_in v (bucket_pairs w ++ bucket_preimages fuel (bucket_level w)).
Proof.
  intros Hi (x & p & Hx & Hp & E). apply bucket_level_elem in Hx as (q & Hq & ->).
  apply Hi in E as ->; [|set_solver..]. apply bucket_pair_elem in Hq as (_ & x & rest & Hx & ->).
  apply bucket_preimage_elem in Hp as (_ & y & rest' & E & Hy). apply app_arr_inj in E as [-> _].
  destruct Hy as [Hy|(p' & Hp' & ->)].
  - apply bucket_level_elem in Hy as (p' & Hp' & ->). exists (blake3 p'), p'. set_solver.
  - exists (blake3 p'), p'. set_solver.
Qed.

Lemma bucket_loop_inj fuel v w r :
  NoDup v → NoDup w → v ≠ [] → w ≠ [] → (length v ≤ fuel)%nat → (length w ≤ fuel)%nat →
  injective_on (bucket_preimages fuel v ++ bucket_preimages fuel w) →
  bucket_loop fuel v = [r] → bucket_loop fuel w = [r] →
  v = w ∨ pair_in v (bucket_preimages fuel w) ∨ pair_in w (bucket_preimages fuel v).
Proof.
  revert v w. induction fuel as [|fuel IH]; intros v w Hv Hw Nv Nw Lv Lw Hi Ev Ew.
  { destruct v; [done|simpl in Lv; lia]. }
  destruct (decide (1 < length v)%nat) as [Gv|Gv], (decide (1 < length w)%nat) as [Gw|Gw].
  - cbn [bucket_loop bucket_preimages] in *.
    rewrite (proj2 (Nat.ltb_lt _ _) Gv) in *. rewrite (proj2 (Nat.ltb_lt _ _) Gw) in *.
    pose proof (bucket_level_shorter v Gv). pose proof (bucket_level_shorter w Gw).
    destruct (IH (bucket_level v) (bucket_level w)) as [E|[Hp|Hp]]; try done; try lia.
    + apply bucket_level_NoDup; [done|]. fewer_preimages Hi.
    + apply bucket_level_NoDup; [done|]. fewer_preimages Hi.
    + by apply bucket_level_nonempty.
    + by apply bucket_level_nonempty.
    + fewer_preimages Hi.
    + left. apply bucket_level_inj; try done. fewer_preimages Hi.
    + right; left. apply pair_in_below; [|done]. fewer_preimages Hi.
    + right; right. apply pair_in_below; [|done]. fewer_preimages Hi.
  - right; right. destruct (bucket_loop_hashed _ _ _ Gv Lv Ev) as (p & Hp & ->).
    exists (blake3 p), p. split; [|done]. destruct w as [|y [|y' w]]; [done| |simpl in Gw; lia].
    cbn in Ew. injection Ew as ->. by left.
  - right; left. destruct (bucket_loop_hashed _ _ _ Gw Lw Ew) as (p & Hp & ->).
    exists (blake3 p), p. split; [|done]. destruct v as [|y [|y' v]]; [done| |simpl in Gv; lia].
    cbn in Ev. injection Ev as ->. by left.
  - left. destruct v as [|x [|x' v]], w as [|y [|y' w]]; try done; try (simpl in *; lia).
    cbn in Ev, Ew. congruence.
Qed.

(** The leaves of a bucket are hashes of long values, so none is the
    hash of a pair. *)
Definition hashed_from (P : list (list byte)) (v : list hash) : Prop :=
  ∀ x, x ∈ v → ∃ p, p ∈ P ∧ (64 < length p)%nat ∧ x = blake3 p.

Definition bucket_hashes (v : list hash) : list (list byte) := bucket_preimages (length v) v.

Lemma bucket_root_loop v : v ≠ [] → bucket_loop (length v) v = [bucket_merkle_root v].
Proof.
  intros Hne. destruct (bucket_loop_single (length v) v) as [r E]; [done..|].
  unfold bucket_merkle_root. destruct v as [|x [|y v]]; [done|done|]. by rewrite E.
Qed.

Lemma bucket_preimages_fuel fuel v : (length v ≤ fuel)%nat → bucket_preimages fuel v = bucket_hashes v.
Proof.
  unfold bucket_hashes. assert (∀ f f' u, (length u ≤ f)%nat → (length u ≤ f')%nat →
    bucket_preimages f u = bucket_preimages f' u) as Hf; [|intros; by apply Hf].
  induction f as [|f IH]; intros [|f'] u Hl Hl'; cbn [bucket_preimages]; try done;
    destruct (Nat.ltb_spec 1 (length u)) as [Hg|Hg]; try done; try lia.
  pose proof (bucket_level_shorter u Hg). f_equal. apply IH; lia.
Qed.

Lemma no_pair_in P v w :
  hashed_from P v → injective_on (P ++ bucket_hashes w) → ¬ pair_in v (bucket_hashes w).
Proof.
  intros Hv Hi (x & p & Hx & Hp & E). destruct (Hv x Hx) as (q & Hq & Hl & ->).
  apply Hi in E as ->; [|set_solver..]. apply bucket_preimage_elem in Hp as [? _]. lia.
Qed.

Lemma bucket_root_inj P v w :
  NoDup v → NoDup w → v ≠ [] → w ≠ [] → hashed_from P v → hashed_from P w →
  injective_on (P ++ bucket_hashes v ++ bucket_hashes w) →
  bucket_merkle_root v = bucket_merkle_root w → v = w.
Proof.
  intros Hv Hw Nv Nw Pv Pw Hi E. set (n := Nat.max (length v) (length w)).
  destruct (bucket_loop_inj n v w (bucket_merkle_root v)) as [?|[Hp|Hp]]; try done; try lia.
  - rewrite !bucket_preimages_fuel by lia. fewer_preimages Hi.
  - rewrite <- (bucket_root_loop v Nv). apply bucket_loop_fuel; lia.
  - rewrite E, <- (bucket_root_loop w Nw). apply bucket_loop_fuel; lia.
  - rewrite bucket_preimages_fuel in Hp by lia. destruct (no_pair_in P v w Pv); [|done]. fewer_preimages Hi.
  - rewrite bucket_preimages_fuel in Hp by lia. destruct (no_pair_in P w v Pw); [|done]. fewer_preimages Hi.
Qed.

(** No bucket has the value of an absent key. *)
Lemma bucket_root_not_empty P v :
  v ≠ [] → hashed_from P v → injective_on (P ++ [SMT_EMPTY_LEAF_TAG] ++ bucket_hashes v) →
  bucket_merkle_root v ≠ empty_leaf.
Proof.
  intros Nv Pv Hi E. unfold empty_leaf, hash256 in E. cbn [concat] in E. rewrite app_nil_r in E.
  destruct (decide (1 < length v)%nat) as [Gv|Gv].
  - destruct (bucket_loop_hashed _ _ _ Gv (le_n _) (bucket_root_loop v Nv)) as (p & Hp & Ep).
    rewrite Ep in E. apply Hi in E; [|set_solver..]. apply bucket_preimage_elem in Hp as [Hl _]. by rewrite E in Hl.
  - destruct v as [|x [|y v]]; [done| |simpl in Gv; lia]. cbn in E.
    destruct (Pv x ltac:(by left)) as (p & Hp & Hl & ->). apply Hi in E; [|set_solver..].
    rewrite E in Hl. cbn in Hl. lia.
Qed.

(** ** The tree *)

Definition node_bytes (l r : hash) : list byte := SMT_NODE_TAG ++ arr_list l ++ arr_list r.

Lemma smt_node_hash_eq l r : smt_node_hash l r = blake3 (node_bytes l r).
Proof. unfold smt_node_hash, hash256, node_bytes. cbn [concat]. by rewrite app_nil_r. Qed.

Lemma node_bytes_inj l r l' r' : node_bytes l r = node_bytes l' r' → l = l' ∧ r = r'.
Proof.
  unfold node_bytes. intros E%app_inv_head. apply app_arr_inj in E as [-> E]. split; [done|by apply arr_eq].
Qed.

Fixpoint default_preimages (n : nat) : list (list byte) :=
  match n with
  | O => [SMT_EMPTY_LEAF_TAG]
  | S n => let d := defaults n in node_bytes d d :: default_preimages n
  end.

Notation entry := (N * list hash)%type.
Definition side (n : nat) (b : bool) (l : list entry) : list entry :=
  filter (λ kv, bit_at kv.1 n = b) l.

(** The value of the subtree of [2^n] keys that holds the entries [l],
    and what is hashed for it, empty subtrees apart. *)
Fixpoint sparse (n : nat) (l : list entry) : hash * list (list byte) :=
  match l with
  | [] => (defaults n, [])
  | (_, v) :: _ =>
      match n with
      | O => (bucket_merkle_root v, bucket_hashes v)
      | S n =>
          let '(lv, lp) := sparse n (side n false l) in
          let '(rv, rp) := sparse n (side n true l) in
          (smt_node_hash lv rv, node_bytes lv rv :: lp ++ rp)
      end
  end.

Lemma default_preimages_node N n :
  (n < N)%nat → node_bytes (defaults n) (defaults n) ∈ default_preimages N.
Proof.
  induction N as [|N IH]; [lia|]. intros Hn. cbn [default_preimages]. apply elem_of_cons.
  destruct (decide (n = N)) as [->|]; [by left|]. right. apply IH. lia.
Qed.

Lemma default_preimages_leaf N : SMT_EMPTY_LEAF_TAG ∈ default_preimages N.
Proof. induction N as [|N IH]; [by left|by right]. Qed.

Lemma sparse_S N n l :
  (n < N)%nat →
  let a := sparse n (side n false l) in
  let b := sparse n (side n true l) in
  (sparse (S n) l).1 = smt_node_hash a.1 b.1 ∧
  ∀ p, p = node_bytes a.1 b.1 ∨ p ∈ a.2 ∨ p ∈ b.2 → p ∈ default_preimages N ++ (sparse (S n) l).2.
Proof.
  intros Hn. pose proof (default_preimages_node N n Hn) as Hd. destruct l as [|[k v] l].
  - destruct n; cbn [sparse side filter list_filter fst snd defaults default_preimages]; (split; [done|]);
      intros p [->|[Hp|Hp]]; try (by apply elem_of_nil in Hp); apply elem_of_app; left; exact Hd.
  - cbn [sparse]. destruct (sparse n (side n false ((k, v) :: l))) as [lv lp].
    destruct (sparse n (side n true ((k, v) :: l))) as [rv rp]. cbn [fst snd]. split; [done|]. set_solver.
Qed.

(** The entries below a prefix. *)
Record below (n : nat) (q : N) (l : list entry) : Prop := {
  bl_prefix k v : (k, v) ∈ l → shr k n = q;
  bl_keys : NoDup l.*1 }.

Lemma below_side n q b l : below (S n) q l → below n (child q b) (side n b l).
Proof.
  intros [Hp Hn]. split.
  - intros k v [Hb Hin]%list_elem_of_filter. rewrite shr_child', (Hp _ _ Hin). by cbn in Hb; rewrite Hb.
  - eapply sublist_NoDup; [exact Hn|]. apply fmap_sublist, sublist_filter.
Qed.

Lemma below_0 q l : below 0 q l → l = [] ∨ ∃ v, l = [(q, v)].
Proof.
  intros [Hp Hn]. destruct l as [|[k v] l]; [by left|right]. exists v.
  assert (k = q) as -> by (rewrite <- (Hp k v), shr_0; [done|by left]). f_equal.
  destruct l as [|[k' v'] l]; [done|]. exfalso. cbn in Hn. apply NoDup_cons in Hn as [Hn _].
  apply Hn. rewrite <- (Hp k' v'), shr_0 by (by do 2 left || by right; left). by left.
Qed.

Lemma sparse_ref c n q l :
  below n q l → (∀ k v, (k, v) ∈ l ↔ c !! k = Some v ∧ shr k n = q) → (sparse n l).1 = ref c n q.
Proof.
  revert q l. induction n as [|n IH]; intros q l Hb Hl.
  - destruct (below_0 q l Hb) as [->|[v ->]]; cbn [sparse ref fst]; unfold leaf_value.
    + destruct (c !! q) as [v|] eqn:E; [|done]. assert ((q, v) ∈ @nil entry) as Hin; [|by apply elem_of_nil in Hin].
      apply Hl. by rewrite shr_0.
    + assert (c !! q = Some v) as ->; [|done]. apply (Hl q v). by left.
  - destruct (sparse_S (S n) n l) as [-> _]; [lia|]. cbn [ref].
    assert (∀ b, (sparse n (side n b l)).1 = ref c n (child q b)) as Hside; [|by rewrite !Hside].
    intros b. apply IH; [by apply below_side|]. intros k v. unfold side. rewrite list_elem_of_filter, Hl. cbn [fst].
    rewrite (shr_child' k n). split.
    + intros (<- & ? & <-). done.
    + intros [? [E1 E2]%child_inj]. done.
Qed.

Definition buckets_ok (P : list (list byte)) (l : list entry) : Prop :=
  ∀ k v, (k, v) ∈ l → v ≠ [] ∧ NoDup v ∧ hashed_from P v.

Lemma buckets_ok_side P n b l : buckets_ok P l → buckets_ok P (side n b l).
Proof. intros Hl k v [_ Hin]%list_elem_of_filter. by eapply Hl. Qed.

Lemma sparse_inj P N n q l l' :
  (n ≤ N)%nat → below n q l → below n q l' → buckets_ok P l → buckets_ok P l' →
  injective_on (P ++ default_preimages N ++ (sparse n l).2 ++ (sparse n l').2) →
  (sparse n l).1 = (sparse n l').1 → ∀ k v, (k, v) ∈ l ↔ (k, v) ∈ l'.
Proof.
  revert q l l'. induction n as [|n IH]; intros q l l' HN Hb Hb' Hl Hl' Hi E.
  - pose proof (default_preimages_leaf N) as Hleaf.
    destruct (below_0 q l Hb) as [->|[v ->]], (below_0 q l' Hb') as [->|[v' ->]]; cbn [sparse fst snd defaults] in *.
    + done.
    + destruct (Hl' q v') as (? & _ & ?); [by left|]. exfalso.
      eapply bucket_root_not_empty; [done|done| |symmetry; exact E].
      eapply injective_on_sub; [|exact Hi]. set_solver.
    + destruct (Hl q v) as (? & _ & ?); [by left|]. exfalso.
      eapply bucket_root_not_empty; [done|done| |exact E].
      eapply injective_on_sub; [|exact Hi]. set_solver.
    + destruct (Hl q v) as (? & ? & ?); [by left|]. destruct (Hl' q v') as (? & ? & ?); [by left|].
      rewrite (bucket_root_inj P v v'); [done..| |done]. fewer_preimages Hi.
  - destruct (sparse_S N n l) as [E1 H1], (sparse_S N n l') as [E2 H2]; [lia..|].
    rewrite E1, E2, !smt_node_hash_eq in E.
    assert (∀ p, p ∈ default_preimages N ++ (sparse (S n) l).2 ∨ p ∈ default_preimages N ++ (sparse (S n) l').2 →
      p ∈ P ++ default_preimages N ++ (sparse (S n) l).2 ++ (sparse (S n) l').2) as Hin by set_solver.
    apply Hi in E; [|apply Hin; left; apply H1; by left|apply Hin; right; apply H2; by left].
    apply node_bytes_inj in E as [Ef Et].
    assert (∀ b k v, (k, v) ∈ side n b l ↔ (k, v) ∈ side n b l') as Hs.
    { intros b. apply (IH (child q b)); try (by apply below_side); try (by apply buckets_ok_side); [lia| |].
      - eapply injective_on_sub; [|exact Hi]. intros p. rewrite !elem_of_app.
        intros [Hp|[Hp|[Hp|Hp]]]; [by left|right; by left|..].
        + assert (p ∈ default_preimages N ++ (sparse (S n) l).2) as Hp'%elem_of_app
            by (apply H1; destruct b; auto). tauto.
        + assert (p ∈ default_preimages N ++ (sparse (S n) l').2) as Hp'%elem_of_app
            by (apply H2; destruct b; auto). tauto.
      - by destruct b. }
    intros k v. specialize (Hs (bit_at k n) k v). unfold side in Hs. rewrite !list_elem_of_filter in Hs. cbn [fst] in Hs.
    tauto.
Qed.

(** ** The root *)

(** What the root of a tree hashes. *)
Definition smt_preimages (s : Smt) : list (list byte) :=
  default_preimages D ++ (sparse D (map_to_list (content s))).2.
#[local] Strategy expand [smt_preimages].
#[local] Strategy opaque [sparse default_preimages].

Lemma content_below s : wf s → below D 0 (map_to_list (content s)).
Proof.
  intros Hs. split; [|apply NoDup_fst_map_to_list]. intros k v Hin%elem_of_map_to_list.
  apply shr_D, (ok_keys _ (wf_content _ Hs)). by eexists.
Qed.

Lemma smt_root_sparse s : wf s → smt_root s = (sparse D (map_to_list (content s))).1.
Proof.
  intros Hs. rewrite smt_root_ref by done. symmetry. apply sparse_ref; [by apply content_below|].
  intros k v. rewrite elem_of_map_to_list. split; [|by intros [? _]]. intros E. split; [done|].
  apply shr_D, (ok_keys _ (wf_content _ Hs)). by eexists.
Qed.

Lemma content_buckets_ok P s :
  wf s → (∀ k l, smt_has s k l → ∃ p, p ∈ P ∧ (64 < length p)%nat ∧ l = blake3 p) →
  buckets_ok P (map_to_list (content s)).
Proof.
  intros Hs HP k v Hin%elem_of_map_to_list. pose proof (wf_content _ Hs) as Hc.
  assert (bucket_at s k = v) as Eb by (unfold bucket_at; by rewrite Hin). split_and!.
  - intros ->. pose proof (bucket_at_nil s k Hc Eb). congruence.
  - rewrite <- Eb. pose proof (bucket_at_sorted s k Hc) as Hsort. clear -Hsort.
    induction Hsort as [|x v Hv IH Hx]; [constructor|]. apply NoDup_cons. split; [|done].
    intros Hin. rewrite Forall_forall in Hx. by apply (bytes_lt_irrefl x), Hx.
  - intros x Hx. apply (HP k). unfold smt_has. by rewrite Eb.
Qed.

(** Trees with the same root hold the same leaves. *)
Lemma smt_root_inj P s t :
  wf s → wf t →
  (∀ k l, smt_has s k l ∨ smt_has t k l → ∃ p, p ∈ P ∧ (64 < length p)%nat ∧ l = blake3 p) →
  injective_on (P ++ smt_preimages s ++ smt_preimages t) → smt_root s = smt_root t → s ≡ t.
Proof.
  intros Hs Ht HP Hi E. rewrite !smt_root_sparse in E by done. unfold smt_preimages in Hi. apply wf_content_inj; [done..|].
  apply map_eq. intros k. apply option_eq. intros v. rewrite <- !elem_of_map_to_list.
  refine (sparse_inj P D D 0 _ _ (le_n D) (content_below s Hs) (content_below t Ht) _ _ _ E k v).
  3:{ fewer_preimages Hi. }
  - apply content_buckets_ok; [exact Hs|]. intros k' l Hl. apply (HP k'). by left.
  - apply content_buckets_ok; [exact Ht|]. intros k' l Hl. apply (HP k'). by right.
Qed.
End binding.

#[global] Opaque smt_preimages.
