(* ===== verification/Names.v ===== *)
(** * Names, identifiers and network parameters ([scone-core])

    [error.rs], [name.rs], [id.rs], [owner.rs], [network.rs] and
    [consensus_params.rs].  A Rust [String] is its UTF-8 bytes.  The
    validated newtypes ([TldName], [DomainName]) are byte strings; the
    predicates [TldName_valid]/[DomainName_valid] are what their private
    constructors guarantee. *)

From S2P Require Import Prelude Bytes Crypto.

(** [scone-core/src/error.rs:13-55 SconeError]: the formatted messages
    are dropped. *)
Inductive SconeError :=
| InvalidName | InvalidTld | InvalidDomain | InvalidRecord | InvalidTransaction
| InvalidOwner | InvalidSequence (n : N) | InvalidFormat | InvalidProof | InvalidCheckpoint.

#[global] Instance SconeError_eq_dec : EqDecision SconeError.
Proof. solve_decision. Defined.

(** ** Labels *)

Definition HYPHEN : byte := x2d.
Definition DOT : byte := x2e.

Definition is_ascii_lowercase (b : byte) : bool := (97 <=? Byte.to_N b) && (Byte.to_N b <=? 122).
Definition is_ascii_digit (b : byte) : bool := (48 <=? Byte.to_N b) && (Byte.to_N b <=? 57).
Definition label_byte (b : byte) : bool :=
  is_ascii_lowercase b || is_ascii_digit b || byte_eqb b HYPHEN.

(** [scone-core/src/name.rs:54-61 is_ldh] *)
Definition is_ldh (label : list byte) : bool :=
  negb (bool_decide (head label = Some HYPHEN)) &&
  negb (bool_decide (last label = Some HYPHEN)) &&
  forallb label_byte label.

(** [scone-core/src/name.rs:14-19 TldName] *)
Definition TldName : Type := list byte.
Definition TldName_MAX_LEN : nat := 63.

(** [scone-core/src/name.rs:37-51 TldName::validate] *)
Definition TldName_validate (tld : list byte) : result SconeError unit :=
  if (length tld =? 0)%nat || (TldName_MAX_LEN <? length tld)%nat then Err InvalidTld
  else if negb (is_ldh tld) then Err InvalidTld
  else Ok tt.

(** [scone-core/src/name.rs:27-30 TldName::new] *)
Definition TldName_new (tld : list byte) : result SconeError TldName :=
  let? _ := TldName_validate tld in Ok tld.

Definition TldName_valid (tld : TldName) : Prop := TldName_validate tld = Ok tt.

(** ** Domain names *)

(** [str::split('.')] *)
Fixpoint split_dot (s : list byte) : list (list byte) :=
  match s with
  | [] => [[]]
  | b :: s =>
      if byte_eqb b DOT then [] :: split_dot s
      else match split_dot s with
           | [] => [[b]]
           | l :: ls => (b :: l) :: ls
           end
  end.

(** [str::rsplit_once('.')] *)
Fixpoint rsplit_once_dot (s : list byte) : option (list byte * list byte) :=
  match s with
  | [] => None
  | b :: s =>
      match rsplit_once_dot s with
      | Some (l, r) => Some (b :: l, r)
      | None => if byte_eqb b DOT then Some ([], s) else None
      end
  end.

(** [slice::split_last] *)
Definition split_last {A} (l : list A) : option (A * list A) :=
  match reverse l with [] => None | x :: r => Some (x, reverse r) end.

(** [scone-core/src/name.rs:90-96 DomainName] *)
Definition DomainName : Type := list byte.
Definition DomainName_MAX_LABEL_LEN : nat := 63.
Definition DomainName_MAX_TOTAL_LEN : nat := 253.

Definition check_label (label : list byte) : result SconeError unit :=
  if (length label =? 0)%nat then Err InvalidDomain
  else if (DomainName_MAX_LABEL_LEN <? length label)%nat then Err InvalidDomain
  else if negb (is_ldh label) then Err InvalidDomain
  else Ok tt.

Fixpoint check_labels (labels : list (list byte)) : result SconeError unit :=
  match labels with
  | [] => Ok tt
  | l :: ls => let? _ := check_label l in check_labels ls
  end.

(** [scone-core/src/name.rs:139-177 DomainName::validate] *)
Definition DomainName_validate (name : list byte) : result SconeError unit :=
  if (length name =? 0)%nat then Err InvalidDomain
  else if (DomainName_MAX_TOTAL_LEN <? length name)%nat then Err InvalidDomain
  else match split_last (split_dot name) with
       | None => Err InvalidDomain
       | Some (tld, labels) =>
           if (length labels =? 0)%nat then Err InvalidDomain
           else let? _ := TldName_validate tld in check_labels labels
       end.

(** [scone-core/src/name.rs:105-108 DomainName::new] *)
Definition DomainName_new (name : list byte) : result SconeError DomainName :=
  let? _ := DomainName_validate name in Ok name.

Definition DomainName_valid (name : DomainName) : Prop := DomainName_validate name = Ok tt.

(** [scone-core/src/name.rs:120-123 DomainName::labels] *)
Definition DomainName_labels (name : DomainName) : list (list byte) := split_dot name.
(** [scone-core/src/name.rs:125-128 DomainName::label_count] *)
Definition DomainName_label_count (name : DomainName) : nat := length (DomainName_labels name).

(** [scone-core/src/name.rs:130-137 DomainName::tld]; the [expect] is
    [domain_tld_valid]. *)
Definition DomainName_tld (name : DomainName) : TldName :=
  match rsplit_once_dot name with Some (_, tld) => tld | None => [] end.

(** ** Identifiers *)

(** The 32-byte identifier newtypes. *)
Notation DomainId := hash (only parsing).
Notation TldId := hash (only parsing).
Notation OwnerId := hash (only parsing).
Notation RecordHash := hash (only parsing).

(** [scone-core/src/id.rs:6-6 DOMAIN_ID_VERSION] *)
Definition DOMAIN_ID_VERSION : list byte := ascii "SCONE-DOMAIN-V1".
(** [scone-core/src/id.rs:83-83 TLD_ID_VERSION] *)
Definition TLD_ID_VERSION : list byte := ascii "SCONE-TLD-V1".
(** [scone-core/src/owner.rs:4-4 PUBKEY_REF_VERSION] *)
Definition PUBKEY_REF_VERSION : list byte := ascii "SCONE-PUBKEY-V1".
(** [scone-core/src/owner.rs:7-7 OWNER_ID_VERSION] *)
Definition OWNER_ID_VERSION : list byte := ascii "SCONE-OWNER-V1".

Section ids.
Context `{Crypto}.

(** [scone-core/src/id.rs:30-35 DomainId::from_name] *)
Definition DomainId_from_name (name : DomainName) : DomainId :=
  hash256 [DOMAIN_ID_VERSION; name].

(** [scone-core/src/id.rs:103-108 TldId::from_tld] *)
Definition TldId_from_tld (tld : TldName) : TldId := hash256 [TLD_ID_VERSION; tld].

(** [scone-core/src/owner.rs:19-24 PublicKeyRef::from_public_key] *)
Definition PublicKeyRef_from_public_key (encoded : list byte) : hash :=
  hash256 [PUBKEY_REF_VERSION; encoded].

(** [scone-core/src/owner.rs:46-51 OwnerId::from_public_key_ref] *)
Definition OwnerId_from_public_key_ref (r : hash) : OwnerId :=
  hash256 [OWNER_ID_VERSION; arr_list r].

(** [scone-core/src/transaction.rs:81-83 owner_of] *)
Definition owner_of (pk : PublicKey) : OwnerId :=
  OwnerId_from_public_key_ref (PublicKeyRef_from_public_key (arr_list pk)).
End ids.

(** ** Hexadecimal display *)

Definition hex_digit (n : N) : byte := byte_of_N (if n <? 10 then 48 + n else 87 + n).

(** [scone-core/src/id.rs:48-56 DomainId::to_hex] *)
Definition to_hex (id : hash) : list byte :=
  concat (map (λ b, [hex_digit (N.shiftr (Byte.to_N b) 4); hex_digit (N.land (Byte.to_N b) 0x0f)])
    (arr_list id)).

(** ** Networks *)

(** [scone-core/src/network.rs:25-25 MAX_NETWORK_ID_LEN] *)
Definition MAX_NETWORK_ID_LEN : nat := 16.

(** [scone-core/src/network.rs:32-36 NetworkId] *)
Record NetworkId := mkNetworkId { nid_bytes : arr 16; nid_len : N }.

#[global] Instance NetworkId_eq_dec : EqDecision NetworkId.
Proof. solve_decision. Defined.

(** [scone-core/src/network.rs:45-56 NetworkId::from_ascii] *)
Definition NetworkId_from_ascii (literal : list byte) : NetworkId :=
  mkNetworkId (arr_of 16 literal) (N.of_nat (length literal)).

(** [scone-core/src/network.rs:65-87 NetworkId::new] *)
Definition NetworkId_new (input : list byte) : result SconeError NetworkId :=
  if (length input =? 0)%nat || (MAX_NETWORK_ID_LEN <? length input)%nat then Err InvalidName
  else if negb (forallb label_byte input) then Err InvalidName
  else Ok (mkNetworkId (arr_of 16 input) (N.of_nat (length input))).

(** [scone-core/src/network.rs:91-93 NetworkId::as_bytes] *)
Definition NetworkId_as_bytes (n : NetworkId) : list byte :=
  take (N.to_nat (nid_len n)) (nid_bytes n).

(** [scone-core/src/consensus_params.rs:22-22 MIN_FINALITY_COMMITTEE_SIZE] *)
Definition MIN_FINALITY_COMMITTEE_SIZE : nat := 4.

(** [scone-core/src/consensus_params.rs:28-30 quorum_for] *)
Definition quorum_for (n : nat) : nat := ((2 * n) / 3 + 1)%nat.

(** [scone-core/src/consensus_params.rs:34-44 ConsensusParams] *)
Record ConsensusParams := mkConsensusParams {
  committee_size : nat;
  epoch_secs : N;
  recovery_max_epochs : N;
  epoch_min_blocks : N }.

(** [scone-core/src/consensus_params.rs:48-53 ConsensusParams::PRODUCTION] *)
Definition CP_PRODUCTION : ConsensusParams := mkConsensusParams 31 60 3 10.
(** [scone-core/src/consensus_params.rs:58-63 ConsensusParams::TESTNET] *)
Definition CP_TESTNET : ConsensusParams := mkConsensusParams 4 10 3 4.

(** [scone-core/src/network.rs:109-121 NetworkParams] *)
Record NetworkParams := mkNetworkParams {
  np_network_id : NetworkId;
  tld_pow_difficulty : N;
  domain_pow_difficulty : N;
  np_consensus : ConsensusParams }.

(** [scone-core/src/network.rs:40-42 NetworkId::TESTNET] *)
Definition NetworkId_TESTNET : NetworkId := NetworkId_from_ascii (ascii "scone-testnet").
Definition NetworkId_MAINNET : NetworkId := NetworkId_from_ascii (ascii "scone-mainnet").

(** [scone-core/src/network.rs:124-129 TESTNET] *)
Definition TESTNET : NetworkParams := mkNetworkParams NetworkId_TESTNET 8 4 CP_TESTNET.
(** [scone-core/src/network.rs:132-137 MAINNET] *)
Definition MAINNET : NetworkParams := mkNetworkParams NetworkId_MAINNET 24 20 CP_PRODUCTION.

(** [scone-core/src/network.rs:142-148 NetworkParams::by_name] *)
Definition NetworkParams_by_name (name : list byte) : option NetworkParams :=
  if bool_decide (name = ascii "testnet") then Some TESTNET
  else if bool_decide (name = ascii "mainnet") then Some MAINNET
  else None.

(** [scone-core/src/network.rs:152-158 NetworkParams::dir_name] *)
Definition NetworkParams_dir_name (p : NetworkParams) : list byte :=
  if bool_decide (np_network_id p = NetworkId_MAINNET) then ascii "mainnet" else ascii "testnet".

(** ** Splitting *)

(** [labels.join(".")] *)
Fixpoint join_dot (ls : list (list byte)) : list byte :=
  match ls with
  | [] => []
  | [l] => l
  | l :: ls => l ++ DOT :: join_dot ls
  end.

Lemma split_dot_nonempty s : split_dot s ≠ [].
Proof. destruct s as [|b s]; simpl; [done|]. destruct (byte_eqb b DOT); [done|]. by destruct (split_dot s). Qed.

Lemma byte_eqb_eq b c : byte_eqb b c = true ↔ b = c.
Proof. apply bool_decide_eq_true. Qed.

Lemma join_split_dot s : join_dot (split_dot s) = s.
Proof.
  induction s as [|b s IH]; [done|]. simpl. pose proof (split_dot_nonempty s) as Hne.
  destruct (byte_eqb b DOT) eqn:E.
  - apply byte_eqb_eq in E as ->. simpl. destruct (split_dot s); [done|]. by rewrite IH.
  - destruct (split_dot s) as [|l [|l' ls]]; [done|simpl in *; by rewrite IH|].
    simpl in *. by rewrite IH.
Qed.

Lemma split_dot_no_dot l s :
  DOT ∉ l → split_dot (l ++ s) =
    match split_dot s with [] => [l] | x :: xs => (l ++ x) :: xs end.
Proof.
  induction l as [|b l IH]; intros Hl; simpl.
  { pose proof (split_dot_nonempty s). by destruct (split_dot s). }
  apply not_elem_of_cons in Hl as [Hb Hl]. rewrite IH by done.
  destruct (byte_eqb b DOT) eqn:E; [by apply byte_eqb_eq in E|].
  pose proof (split_dot_nonempty s). by destruct (split_dot s).
Qed.

Lemma split_join_dot ls :
  ls ≠ [] → Forall (λ l, DOT ∉ l) ls → split_dot (join_dot ls) = ls.
Proof.
  intros Hne Hls. induction Hls as [|l ls Hl Hls IH]; [done|].
  destruct ls as [|l' ls].
  - simpl. rewrite <- (app_nil_r l) at 1. rewrite split_dot_no_dot by done. simpl. by rewrite app_nil_r.
  - change (join_dot (l :: l' :: ls)) with (l ++ DOT :: join_dot (l' :: ls)).
    rewrite split_dot_no_dot by done.
    change (split_dot (DOT :: join_dot (l' :: ls))) with ([] :: split_dot (join_dot (l' :: ls))).
    rewrite IH by done. by rewrite app_nil_r.
Qed.

Lemma split_last_Some {A} (l : list A) x r : split_last l = Some (x, r) ↔ l = r ++ [x].
Proof.
  unfold split_last. destruct (reverse l) as [|y r'] eqn:E.
  - split; [done|]. intros ->. by rewrite reverse_app in E.
  - apply (f_equal reverse) in E. rewrite reverse_involutive, reverse_cons in E. subst l.
    split; [naive_solver|]. intros [-> [= ->]]%app_inj_tail. done.
Qed.

Lemma split_last_nonempty {A} (l : list A) : l ≠ [] → is_Some (split_last l).
Proof.
  intros Hne. unfold split_last. destruct (reverse l) eqn:E; [|by eexists].
  apply (f_equal reverse) in E. rewrite reverse_involutive in E. done.
Qed.

(** The last label, seen from the right. *)
Lemma rsplit_split_dot s ls t :
  split_dot s = ls ++ [t] →
  rsplit_once_dot s = if decide (ls = []) then None else Some (join_dot ls, t).
Proof.
  revert ls t. induction s as [|b s IH]; intros ls t; simpl.
  { intros E. assert (ls = []) as -> by (destruct ls as [|? [|]]; simplify_eq/=; done).
    by rewrite decide_True. }
  pose proof (split_dot_nonempty s) as Hne.
  destruct (byte_eqb b DOT) eqn:E.
  - intros Es. destruct ls as [|l ls]; simpl in Es; [by destruct (split_dot s)|].
    injection Es as <- Es. rewrite (IH ls t Es).
    rewrite (decide_False (P := [] :: ls = [])) by done.
    apply byte_eqb_eq in E as ->. destruct (decide (ls = [])) as [->|Hls].
    + pose proof (join_split_dot s) as Ej. rewrite Es in Ej. simpl in Ej. by rewrite <- Ej.
    + by destruct ls.
  - destruct (split_dot s) as [|l ls'] eqn:Es; [done|]. intros E'.
    destruct ls as [|x ls]; simpl in E'.
    + injection E' as <- ->. rewrite (IH [] _ eq_refl). done.
    + injection E' as <- ->. rewrite (IH (l :: ls) t eq_refl), !decide_False by done.
      destruct ls; done.
Qed.

(** ** Validity *)

Lemma is_ldh_no_dot l : is_ldh l = true → DOT ∉ l.
Proof.
  unfold is_ldh. rewrite !andb_true_iff, forallb_forall. intros [_ Hall] Hin.
  apply list_elem_of_In, Hall in Hin. done.
Qed.

Lemma TldName_valid_iff t :
  TldName_valid t ↔ (1 ≤ length t ≤ 63)%nat ∧ is_ldh t = true.
Proof.
  unfold TldName_valid, TldName_validate, TldName_MAX_LEN.
  destruct (Nat.eqb_spec (length t) 0), (Nat.ltb_spec 63 (length t)); simpl; try (split; [done|lia]).
  destruct (is_ldh t); simpl; split; try done; [intros; split; [lia|done]|by intros [_ ?]].
Qed.

Lemma check_label_iff l : check_label l = Ok tt ↔ (1 ≤ length l ≤ 63)%nat ∧ is_ldh l = true.
Proof.
  unfold check_label, DomainName_MAX_LABEL_LEN.
  destruct (Nat.eqb_spec (length l) 0), (Nat.ltb_spec 63 (length l)); simpl; try (split; [done|lia]).
  destruct (is_ldh l); simpl; split; try done; [intros; split; [lia|done]|by intros [_ ?]].
Qed.

Lemma check_labels_iff ls :
  check_labels ls = Ok tt ↔ Forall (λ l, (1 ≤ length l ≤ 63)%nat ∧ is_ldh l = true) ls.
Proof.
  induction ls as [|l ls IH]; simpl; [done|].
  rewrite Forall_cons, <- IH, <- check_label_iff.
  destruct (check_label l) as [[]|]; simpl; naive_solver.
Qed.

Lemma DomainName_valid_spec name :
  DomainName_valid name ↔
    (length name ≤ 253)%nat ∧
    ∃ labels tld, labels ≠ [] ∧ split_dot name = labels ++ [tld] ∧ TldName_valid tld ∧
      Forall (λ l, (1 ≤ length l ≤ 63)%nat ∧ is_ldh l = true) labels.
Proof.
  unfold DomainName_valid, DomainName_validate, DomainName_MAX_TOTAL_LEN.
  destruct (Nat.eqb_spec (length name) 0) as [H0|H0].
  { split; [done|]. intros [_ (ls & t & Hne & E & _)]. destruct name; [|done].
    destruct ls as [|? [|]]; simplify_eq/=. }
  destruct (Nat.ltb_spec 253 (length name)); [split; [done|lia]|].
  destruct (split_last_nonempty (split_dot name) (split_dot_nonempty name)) as [[t ls] E].
  rewrite E. apply split_last_Some in E. rewrite E.
  split.
  - destruct (Nat.eqb_spec (length ls) 0) as [Hl|Hl]; [done|].
    rewrite rbind_Ok. intros ([] & Ht & Hls). split; [lia|]. exists ls, t.
    apply check_labels_iff in Hls. split_and!; [by destruct ls|done..].
  - intros [_ (ls' & t' & Hne & [-> [= ->]]%app_inj_tail & Ht & Hls%check_labels_iff)].
    destruct (Nat.eqb_spec (length ls') 0) as [Hl|Hl]; [by destruct ls'|].
    by rewrite Ht.
Qed.

(** The [expect] in [tld()] cannot fail, and the last label is a valid TLD. *)
Lemma domain_tld_valid name :
  DomainName_valid name →
  TldName_valid (DomainName_tld name) ∧ (2 ≤ DomainName_label_count name)%nat ∧
  ∃ pre, name = pre ++ DOT :: DomainName_tld name.
Proof.
  intros [_ (ls & t & Hne & E & Ht & _)]%DomainName_valid_spec.
  pose proof (rsplit_split_dot _ _ _ E) as Er. rewrite decide_False in Er by done.
  unfold DomainName_tld, DomainName_label_count, DomainName_labels. rewrite Er. split; [done|].
  split. { rewrite E, length_app. destruct ls; [done|simpl; lia]. }
  exists (join_dot ls). rewrite <- (join_split_dot name), E. clear -Hne.
  induction ls as [|l [|l' ls] IH]; [done..|].
  change (join_dot ((l :: l' :: ls) ++ [t])) with (l ++ DOT :: join_dot ((l' :: ls) ++ [t])).
  rewrite IH by done. change (join_dot (l :: l' :: ls)) with (l ++ DOT :: join_dot (l' :: ls)).
  by rewrite <- !app_assoc.
Qed.

(** ** Network identifiers *)

Lemma arr_of_id n (l : list byte) :
  (length l ≤ n)%nat → arr_list (arr_of n l) = l ++ replicate (n - length l) x00.
Proof.
  intros Hl. unfold arr_of. rewrite take_app, take_ge by done.
  rewrite take_replicate, Nat.min_l by lia.
  destruct (to_arr_is_Some n (l ++ replicate (n - length l) x00)) as (a & -> & E); [|exact E].
  rewrite length_app, length_replicate. lia.
Qed.

Lemma NetworkId_new_as_bytes s n :
  NetworkId_new s = Ok n → NetworkId_as_bytes n = s ∧ NetworkId_new (NetworkId_as_bytes n) = Ok n.
Proof.
  intros E. assert (NetworkId_as_bytes n = s) as Es; [|by rewrite Es].
  unfold NetworkId_new, MAX_NETWORK_ID_LEN in E.
  destruct (_ || _) eqn:Hlen; [done|]. destruct (negb _); [done|]. injection E as <-.
  unfold NetworkId_as_bytes. cbn [nid_bytes nid_len]. rewrite Nat2N.id.
  apply orb_false_iff in Hlen as [_ Hlen%Nat.ltb_ge].
  rewrite arr_of_id by done. by rewrite take_app_length.
Qed.

(** What the private constructors of [NetworkId] guarantee. *)
Definition NetworkId_valid (n : NetworkId) : Prop := NetworkId_new (NetworkId_as_bytes n) = Ok n.

Lemma NetworkId_valid_len n : NetworkId_valid n → (length (NetworkId_as_bytes n) ≤ 16)%nat.
Proof.
  unfold NetworkId_valid, NetworkId_new, MAX_NETWORK_ID_LEN. intros E.
  destruct (Nat.ltb_spec 16 (length (NetworkId_as_bytes n))); [|done].
  by rewrite orb_true_r in E.
Qed.

Lemma TESTNET_valid : NetworkId_valid NetworkId_TESTNET.
Proof. by vm_compute. Qed.
Lemma MAINNET_valid : NetworkId_valid NetworkId_MAINNET.
Proof. by vm_compute. Qed.
