(* ===== verification/Codec.v ===== *)
(** * The wire codec ([scone-protocol]: [error.rs], [limits.rs], [varint.rs], [codec.rs])

    [Encode::encode] appends to a buffer that the caller discards on an
    error: an encoder is the appended bytes or an error.  [Decode::decode]
    reads from the front of a slice it advances: a decoder returns the
    value and the rest.  [codec] packs the two with the invariant of the
    type; [Lawful] says that decoding inverts encoding, in both
    directions. *)

From S2P Require Import Prelude Bytes Crypto Names.

(** [scone-protocol/src/error.rs:15-52 ProtocolError] *)
Inductive ProtocolError :=
| Truncated
| InvalidVarint (what : string)
| IntegerOutOfRange (what : string)
| UnsupportedVersion (v : N)
| UnknownDiscriminant (kind : string) (value : N)
| LimitExceeded (what : string)
| InvalidUtf8
| InvalidTransactionKey
| TrailingBytes (n : nat)
| Validation (e : SconeError)
| NonCanonical (what : string).

#[global] Instance ProtocolError_eq_dec : EqDecision ProtocolError.
Proof. solve_decision. Defined.

(** [scone-protocol/src/limits.rs:9-39] *)
Definition MAX_NAME_LEN : nat := DomainName_MAX_TOTAL_LEN.
Definition MAX_TLD_LEN : nat := TldName_MAX_LEN.
Definition MAX_TXT_LEN : N := 4096.
Definition MAX_PROOF_LEN : N := 256.
Definition MAX_SIGNATURE_LEN : N := 128.
Definition MAX_RECORDS_PER_SET : N := 256.
Definition MAX_UNKNOWN_DATA : N := 4096.
Definition MAX_TXS_PER_BLOCK : N := 4096.
Definition MAX_CONSENSUS_LEN : N := 256.
Definition MAX_BLOCKS_PER_REQUEST : N := 128.
Definition PROTOCOL_VERSION : N := 1.

Definition blen (l : list byte) : N := N.of_nat (length l).

(** ** Encoders and decoders *)

Definition eresult : Type := result ProtocolError (list byte).
Definition parser (A : Type) : Type := list byte → result ProtocolError (A * list byte).

(** Encodings appended one after the other. *)
Fixpoint cat (l : list eresult) : eresult :=
  match l with
  | [] => Ok []
  | x :: l => let? a := x in let? b := cat l in Ok (a ++ b)
  end.

Definition pret {A} (a : A) : parser A := λ i, Ok (a, i).
Definition pfail {A} (e : ProtocolError) : parser A := λ _, Err e.
Definition pbind {A B} (p : parser A) (k : A → parser B) : parser B :=
  λ i, let? (a, i) := p i in k a i.
(** A fallible step that reads nothing. *)
Definition plift {A} (r : result ProtocolError A) : parser A := λ i, let? a := r in Ok (a, i).

Notation "'let*' x := p 'in' k" := (pbind p (λ x, k))
  (at level 200, x pattern, p at level 100, k at level 200, right associativity) : rust_scope.

(** ** Variable-length integers *)

(** [scone-protocol/src/varint.rs:19-19 MAX_VARINT_LEN] *)
Definition MAX_VARINT_LEN : nat := 10.

(** The loop of [put_u64]; ten rounds empty a [u64]. *)
Fixpoint put_u64_loop (fuel : nat) (v : N) : list byte :=
  match fuel with
  | O => []
  | S fuel =>
      let b := N.land v 0x7f in
      let v := N.shiftr v 7 in
      if v =? 0 then [byte_of_N b] else byte_of_N (N.lor b 0x80) :: put_u64_loop fuel v
  end.

(** [scone-protocol/src/varint.rs:22-33 put_u64] *)
Definition put_u64 (v : N) : list byte := put_u64_loop MAX_VARINT_LEN v.

Fixpoint take_u64_loop (fuel : nat) (i : nat) (value : N) (input : list byte)
    : result ProtocolError (N * list byte) :=
  match fuel with
  | O => Err (InvalidVarint "longer than 10 bytes")
  | S fuel =>
      match input with
      | [] => Err Truncated
      | b :: input =>
          let byte := Byte.to_N b in
          if N.land byte 0x80 =? 0 then
            if (i =? MAX_VARINT_LEN - 1)%nat && (1 <? byte) then Err (InvalidVarint "u64 overflow")
            else if (0 <? i)%nat && (byte =? 0) then Err (InvalidVarint "non-minimal encoding")
            else Ok (N.lor value (wrap64 (N.shiftl byte (N.of_nat (7 * i)))), input)
          else
            take_u64_loop fuel (S i)
              (N.lor value (wrap64 (N.shiftl (N.land byte 0x7f) (N.of_nat (7 * i))))) input
      end
  end.

(** [scone-protocol/src/varint.rs:42-61 take_u64] *)
Definition take_u64 : parser N := take_u64_loop MAX_VARINT_LEN 0 0.

(** ** Shared primitives *)

(** [scone-protocol/src/codec.rs:37-44 decode_complete] *)
Definition decode_complete {A} (p : parser A) (input : list byte) : result ProtocolError A :=
  let? (v, rest) := p input in
  if (0 <? length rest)%nat then Err (TrailingBytes (length rest)) else Ok v.

(** [scone-protocol/src/codec.rs:49-54 u64::encode] *)
Definition u64_encode (v : N) : eresult := Ok (put_u64 v).
(** [scone-protocol/src/codec.rs:56-60 u64::decode] *)
Definition u64_decode : parser N := take_u64.
(** [scone-protocol/src/codec.rs:62-67 u32::encode] *)
Definition u32_encode (v : N) : eresult := Ok (put_u64 v).
(** [scone-protocol/src/codec.rs:69-74 u32::decode] *)
Definition u32_decode : parser N :=
  let* v := take_u64 in
  if v <=? U32_MAX then pret v else pfail (IntegerOutOfRange "value exceeds u32").
(** [scone-protocol/src/codec.rs:76-81 u16::encode] *)
Definition u16_encode (v : N) : eresult := Ok (put_u64 v).
(** [scone-protocol/src/codec.rs:83-88 u16::decode] *)
Definition u16_decode : parser N :=
  let* v := take_u64 in
  if v <=? 0xffff then pret v else pfail (IntegerOutOfRange "value exceeds u16").

(** [scone-protocol/src/codec.rs:91-95 take_u8] *)
Definition take_u8 : parser byte := λ i,
  match i with [] => Err Truncated | b :: i => Ok (b, i) end.

(** [scone-protocol/src/codec.rs:98-110 put_bounded] *)
Definition put_bounded (bytes : list byte) (max : N) (what : string) : eresult :=
  if max <? blen bytes then Err (LimitExceeded what)
  else Ok (put_u64 (blen bytes) ++ bytes).

(** [scone-protocol/src/codec.rs:114-130 take_bytes] *)
Definition take_bytes (max : N) (what : string) : parser (list byte) :=
  let* len := take_u64 in
  if max <? len then pfail (LimitExceeded what)
  else λ i,
    if blen i <? len then Err Truncated
    else Ok (take (N.to_nat len) i, drop (N.to_nat len) i).

(** [std::str::from_utf8]: the well-formed byte sequences of the
    Unicode standard (table 3-7). *)
Definition in_range (lo hi : N) (b : byte) : bool := (lo <=? Byte.to_N b) && (Byte.to_N b <=? hi).
Definition utf8_second (a b : byte) : bool :=
  let n := Byte.to_N a in
  if n =? 0xe0 then in_range 0xa0 0xbf b
  else if n =? 0xed then in_range 0x80 0x9f b
  else if n =? 0xf0 then in_range 0x90 0xbf b
  else if n =? 0xf4 then in_range 0x80 0x8f b
  else in_range 0x80 0xbf b.

Fixpoint utf8_valid (s : list byte) : bool :=
  match s with
  | [] => true
  | a :: s1 =>
      if Byte.to_N a <? 0x80 then utf8_valid s1
      else if in_range 0xc2 0xdf a then
        match s1 with
        | b :: s2 => in_range 0x80 0xbf b && utf8_valid s2
        | _ => false
        end
      else if in_range 0xe0 0xef a then
        match s1 with
        | b :: c :: s3 => utf8_second a b && in_range 0x80 0xbf c && utf8_valid s3
        | _ => false
        end
      else if in_range 0xf0 0xf4 a then
        match s1 with
        | b :: c :: d :: s4 =>
            utf8_second a b && in_range 0x80 0xbf c && in_range 0x80 0xbf d && utf8_valid s4
        | _ => false
        end
      else false
  end.

Definition from_utf8 (b : list byte) : result ProtocolError (list byte) :=
  if utf8_valid b then Ok b else Err InvalidUtf8.

(** [scone-protocol/src/codec.rs:133-138 take_string] *)
Definition take_string (max : N) (what : string) : parser (list byte) :=
  let* b := take_bytes max what in plift (from_utf8 b).

(** [scone-protocol/src/codec.rs:141-143 put_array] *)
Definition put_array {n} (a : arr n) : eresult := Ok (arr_list a).

(** [scone-protocol/src/codec.rs:146-155 take_array] *)
Definition take_array (n : nat) : parser (arr n) := λ i,
  match split_arr n i with
  | None => Err Truncated
  | Some (a, rest) => Ok (a, rest)
  end.

(** ** Codecs and their laws *)

Record codec (A : Type) := mkCodec {
  enc : A → eresult;
  dec : parser A;
  cwf : A → Prop }.
Arguments mkCodec {A} _ _ _.
Arguments enc {A} _ _.
Arguments dec {A} _ _.
Arguments cwf {A} _ _.

(** Decoding inverts encoding, and a decoded input is the one encoding
    of the decoded value. *)
Class Lawful {A} (c : codec A) : Prop := {
  roundtrip a bs r : cwf c a → enc c a = Ok bs → dec c (bs ++ r) = Ok (a, r);
  canonical i a r : dec c i = Ok (a, r) → cwf c a ∧ ∃ bs, enc c a = Ok bs ∧ i = bs ++ r }.

Lemma cat_cons x l bs :
  cat (x :: l) = Ok bs ↔ ∃ a b, x = Ok a ∧ cat l = Ok b ∧ bs = a ++ b.
Proof. simpl. destruct x; simpl; [destruct (cat l); simpl|]; naive_solver. Qed.

Lemma cat_nil bs : cat [] = Ok bs ↔ bs = [].
Proof. simpl. naive_solver. Qed.

Lemma pbind_Ok {A B} (p : parser A) (k : A → parser B) i x :
  pbind p k i = Ok x ↔ ∃ a m, p i = Ok (a, m) ∧ k a m = Ok x.
Proof. unfold pbind. rewrite rbind_Ok. split; [intros ([a m] & ? & ?)|intros (a & m & ? & ?)]; eauto. Qed.

Lemma pbind_step {A B} (p : parser A) (k : A → parser B) i a m :
  p i = Ok (a, m) → pbind p k i = k a m.
Proof. unfold pbind. by intros ->. Qed.

Lemma plift_Ok {A} (r : result ProtocolError A) i (a : A) m :
  plift r i = Ok (a, m) ↔ r = Ok a ∧ m = i.
Proof. unfold plift. rewrite rbind_Ok. naive_solver. Qed.

Lemma pret_Ok {A} (a b : A) i m : pret a i = Ok (b, m) ↔ a = b ∧ i = m.
Proof. unfold pret. naive_solver. Qed.

Lemma pbind_dec {A B} (c : codec A) `{!Lawful c} (k : A → parser B) a bs r :
  cwf c a → enc c a = Ok bs → pbind (dec c) k (bs ++ r) = k a r.
Proof. intros. by apply pbind_step, roundtrip. Qed.

Lemma pbind_canonical {A B} (c : codec A) `{!Lawful c} (k : A → parser B) i x :
  pbind (dec c) k i = Ok x →
  ∃ a bs r, cwf c a ∧ enc c a = Ok bs ∧ i = bs ++ r ∧ k a r = Ok x.
Proof.
  intros (a & m & Hd & Hk)%pbind_Ok. destruct (canonical _ _ _ Hd) as (? & bs & ? & ->).
  exists a, bs, m. done.
Qed.

(** *** Integers *)

Lemma land_7f v : N.land v 0x7f = v mod 128.
Proof. replace 0x7f with (N.ones 7) by done. by rewrite N.land_ones. Qed.

Lemma land_80 b : (N.land (Byte.to_N b) 0x80 =? 0) = (Byte.to_N b <? 128).
Proof. by destruct b. Qed.

Lemma lor_80 b : b < 128 → N.lor b 0x80 = b + 128.
Proof. intros Hb. rewrite N.lor_comm. pose proof (lor_add_small 1 b 7 Hb) as E.
  change (N.shiftl 1 7) with 128 in E. rewrite E. change (2 ^ 7) with 128. lia. Qed.

Lemma byte_of_N_small v : v < 256 → Byte.to_N (byte_of_N v) = v.
Proof. intros. rewrite byte_to_N_of_N. by apply N.mod_small. Qed.

(** The next seven bits of a value under construction. *)
Lemma varint_acc acc x e :
  acc < 2 ^ e → x * 2 ^ e < U64 →
  N.lor acc (wrap64 (N.shiftl x e)) = acc + x * 2 ^ e.
Proof.
  intros Ha Hx. unfold wrap64. rewrite N.shiftl_mul_pow2, N.mod_small by done.
  pose proof (lor_add_small x acc e Ha) as E. rewrite N.shiftl_mul_pow2 in E.
  rewrite N.lor_comm, E. lia.
Qed.

Lemma pow_7S i : 2 ^ N.of_nat (7 * S i) = 128 * 2 ^ N.of_nat (7 * i).
Proof.
  replace (N.of_nat (7 * S i)) with (7 + N.of_nat (7 * i)) by lia.
  by rewrite N.pow_add_r.
Qed.

Lemma take_put_loop n i acc v r :
  (n + i = 10)%nat → acc < 2 ^ N.of_nat (7 * i) → v * 2 ^ N.of_nat (7 * i) < U64 →
  (i = 0%nat ∨ 0 < v) → (0 < n)%nat →
  take_u64_loop n i acc (put_u64_loop n v ++ r) = Ok (acc + v * 2 ^ N.of_nat (7 * i), r).
Proof.
  revert i acc v. induction n as [|n IH]; intros i acc v Hn Ha Hv H0 Hpos; [lia|].
  cbn [put_u64_loop]. rewrite land_7f, N.shiftr_div_pow2. change (2 ^ 7) with 128.
  pose proof (N.div_mod v 128 ltac:(done)) as Hdm. pose proof (N.mod_lt v 128 ltac:(done)) as Hm.
  set (d := v / 128) in *. set (m := v mod 128) in *. clearbody d m. subst v.
  set (e := N.of_nat (7 * i)) in *.
  assert (0 < 2 ^ e) as He by (apply N.neq_0_lt_0, N.pow_nonzero; done).
  destruct (N.eqb_spec d 0) as [Hz|Hz].
  - subst d. cbn [app take_u64_loop]. rewrite land_80, byte_of_N_small by lia.
    replace (128 * 0 + m) with m in * by lia. destruct (N.ltb_spec m 128); [|lia].
    assert (((i =? MAX_VARINT_LEN - 1)%nat && (1 <? m)) = false) as ->.
    { destruct (Nat.eqb_spec i (MAX_VARINT_LEN - 1)) as [Ei|]; [|done]. simpl.
      apply N.ltb_ge. unfold MAX_VARINT_LEN in Ei. simpl in Ei. subst i.
      change (2 ^ e) with (2 ^ 63) in Hv. unfold U64 in Hv. lia. }
    assert (((0 <? i)%nat && (m =? 0)) = false) as ->.
    { destruct H0 as [->|H0]; [done|]. rewrite (proj2 (N.eqb_neq m 0)) by lia. apply andb_false_r. }
    by rewrite varint_acc.
  - assert (i < 9)%nat as Hi.
    { destruct (decide (i < 9)%nat) as [|Hge]; [done|]. assert (i = 9)%nat as -> by lia.
      change (2 ^ e) with (2 ^ 63) in Hv. unfold U64 in Hv. lia. }
    cbn [app take_u64_loop]. rewrite land_80, lor_80, byte_of_N_small by lia.
    destruct (N.ltb_spec (m + 128) 128); [lia|]. rewrite land_7f.
    replace ((m + 128) mod 128) with m by (apply (N.mod_unique _ _ 1); lia).
    assert (m * 2 ^ e < U64) as Hm'.
    { eapply N.le_lt_trans; [|exact Hv]. apply N.mul_le_mono_r. lia. }
    rewrite varint_acc by done. pose proof (pow_7S i) as H7. fold e in H7 |- *.
    rewrite IH; rewrite ?H7; generalize dependent (2 ^ e); intros E **;
      [|lia|assert (m * E ≤ 127 * E) by (apply N.mul_le_mono_r; lia); lia|lia|right; lia|lia].
    do 2 f_equal. lia.
Qed.

Lemma take_put_u64 v r : v < U64 → take_u64 (put_u64 v ++ r) = Ok (v, r).
Proof.
  intros Hv. unfold take_u64, put_u64. rewrite take_put_loop; try done; [|lia|by left|unfold MAX_VARINT_LEN; lia].
  by rewrite N.mul_1_r.
Qed.

(** The bytes read are the encoding of the value. *)
Lemma take_loop_canonical n i acc inp v r :
  (n + i = 10)%nat → acc < 2 ^ N.of_nat (7 * i) →
  take_u64_loop n i acc inp = Ok (v, r) →
  ∃ x, v = acc + x * 2 ^ N.of_nat (7 * i) ∧ x * 2 ^ N.of_nat (7 * i) < U64 ∧
       (i = 0%nat ∨ 0 < x) ∧ inp = put_u64_loop n x ++ r.
Proof.
  revert i acc inp. induction n as [|n IH]; intros i acc inp Hn Ha E; [done|].
  cbn [take_u64_loop] in E. destruct inp as [|b inp]; [done|].
  rewrite land_80 in E. pose proof (byte_to_N_bounded b) as Hb.
  set (e := N.of_nat (7 * i)) in *.
  assert (0 < 2 ^ e) as He by (apply N.neq_0_lt_0, N.pow_nonzero; done).
  destruct (N.ltb_spec (Byte.to_N b) 128) as [Hlt|Hge].
  - destruct (_ && (1 <? _)) eqn:E1; [done|]. destruct (_ && (_ =? 0)) eqn:E2; [done|].
    assert (Byte.to_N b * 2 ^ e < U64) as Hx.
    { destruct (decide (i = 9)%nat) as [->|Hi].
      - apply N.ltb_ge in E1. change (2 ^ e) with (2 ^ 63). unfold U64. lia.
      - assert (2 ^ e ≤ 2 ^ 56) by (apply N.pow_le_mono_r; lia). unfold U64. nia. }
    rewrite varint_acc in E by done. injection E as <- <-.
    exists (Byte.to_N b). split_and!; [done..| |].
    + destruct i; [by left|right]. simpl in E2. apply N.eqb_neq in E2. lia.
    + cbn [put_u64_loop]. rewrite land_7f, N.shiftr_div_pow2, N.mod_small by done.
      rewrite N.div_small by done. simpl. by rewrite byte_of_N_to_N.
  - rewrite land_7f in E. set (x0 := Byte.to_N b mod 128) in *.
    assert (x0 = Byte.to_N b - 128) as Hx0.
    { unfold x0. symmetry. apply (N.mod_unique _ _ 1); lia. }
    clearbody x0.
    destruct (decide (i = 9)%nat) as [->|Hi].
    { assert (n = 0%nat) as -> by lia. done. }
    assert (x0 * 2 ^ e < U64) as Hx.
    { assert (2 ^ e ≤ 2 ^ 56) by (apply N.pow_le_mono_r; lia). unfold U64. nia. }
    assert (x0 * 2 ^ e ≤ 127 * 2 ^ e) as Hx7 by (apply N.mul_le_mono_r; lia).
    rewrite varint_acc in E by done. pose proof (pow_7S i) as H7. fold e in H7, E.
    apply IH in E as (x & -> & Hxb & [?|Hpos] & ->); [done| |lia|rewrite H7; lia].
    rewrite H7 in *. exists (x0 + 128 * x).
    assert (∃ K, U64 = K * (128 * 2 ^ e)) as [K HK].
    { exists (2 ^ (57 - e)). change 128 with (2 ^ 7). rewrite <- !N.pow_add_r. unfold U64. f_equal. lia. }
    assert ((x0 + 128 * x) * 2 ^ e < U64) as Hlt.
    { clear IH H7. rewrite HK in *. generalize dependent (2 ^ e). intros E **.
      assert (x < K) by (apply (N.mul_lt_mono_pos_r (128 * E)); lia).
      assert ((x + 1) * (128 * E) ≤ K * (128 * E)) by (apply N.mul_le_mono_r; lia). lia. }
    split_and!; [lia|done|right; lia|].
    cbn [put_u64_loop]. rewrite land_7f, N.shiftr_div_pow2. change (2 ^ 7) with 128.
    replace ((x0 + 128 * x) / 128) with x
      by (apply (N.div_unique _ _ _ x0); lia).
    replace ((x0 + 128 * x) mod 128) with x0
      by (apply (N.mod_unique _ _ x); lia).
    destruct (N.eqb_spec x 0); [lia|]. rewrite lor_80 by lia.
    replace (x0 + 128) with (Byte.to_N b) by lia. by rewrite byte_of_N_to_N.
Qed.

Lemma take_u64_canonical inp v r :
  take_u64 inp = Ok (v, r) → v < U64 ∧ inp = put_u64 v ++ r.
Proof.
  intros E. apply (take_loop_canonical 10 0 0) in E as (x & -> & Hx & _ & ->); [|lia|done].
  rewrite N.mul_1_r in Hx. rewrite N.add_0_l, N.mul_1_r. done.
Qed.

Definition u64_c : codec N := mkCodec u64_encode u64_decode (λ v, v < U64).
Definition u32_c : codec N := mkCodec u32_encode u32_decode (λ v, v ≤ U32_MAX).
Definition u16_c : codec N := mkCodec u16_encode u16_decode (λ v, v ≤ 0xffff).

#[global] Instance u64_lawful : Lawful u64_c.
Proof.
  split; simpl.
  - intros a bs r Hw [= <-]. by apply take_put_u64.
  - intros i a r [? ->]%take_u64_canonical. eauto.
Qed.

(** Integers narrower than [u64]. *)
Lemma narrow_lawful (max : N) (e : ProtocolError) :
  max < U64 →
  Lawful (mkCodec u64_encode (let* v := take_u64 in if v <=? max then pret v else pfail e)
    (λ v, v ≤ max)).
Proof.
  intros Hm. split; simpl.
  - intros a bs r Hw [= <-]. erewrite pbind_step by (apply take_put_u64; lia).
    by rewrite (proj2 (N.leb_le _ _) Hw).
  - intros i a r (v & m & [? ->]%take_u64_canonical & E)%pbind_Ok.
    destruct (N.leb_spec v max); [|done]. apply pret_Ok in E as [-> ->]. unfold u64_encode. eauto.
Qed.

#[global] Instance u32_lawful : Lawful u32_c.
Proof. by apply narrow_lawful. Qed.
#[global] Instance u16_lawful : Lawful u16_c.
Proof. by apply narrow_lawful. Qed.

(** *** Byte strings *)

Lemma take_bytes_put b max what bs r :
  max < U64 → put_bounded b max what = Ok bs → take_bytes max what (bs ++ r) = Ok (b, r).
Proof.
  intros Hm. unfold put_bounded, take_bytes. destruct (N.ltb_spec max (blen b)) as [|Hl]; [done|].
  intros [= <-]. rewrite <- app_assoc. erewrite pbind_step by (apply take_put_u64; lia).
  destruct (N.ltb_spec max (blen b)); [lia|].
  unfold blen in *. rewrite length_app, Nat2N.id. destruct (N.ltb_spec (N.of_nat (length b + length r)) (N.of_nat (length b))); [lia|].
  by rewrite take_app_length, drop_app_length.
Qed.

Lemma take_bytes_canonical i max what b r :
  take_bytes max what i = Ok (b, r) → ∃ bs, put_bounded b max what = Ok bs ∧ i = bs ++ r.
Proof.
  unfold take_bytes, put_bounded. intros (n & m & [Hn ->]%take_u64_canonical & E)%pbind_Ok.
  destruct (N.ltb_spec max n); [done|]. destruct (N.ltb_spec (blen m) n) as [|Hl]; [done|].
  injection E as <- <-. unfold blen in *. rewrite length_take, Nat.min_l, N2Nat.id by lia.
  destruct (N.ltb_spec max n); [lia|]. eexists. split; [done|]. by rewrite <- app_assoc, take_drop.
Qed.

Definition bounded_c (max : N) (what : string) : codec (list byte) :=
  mkCodec (λ b, put_bounded b max what) (take_bytes max what) (λ _, True).

Lemma bounded_lawful max what : max < U64 → Lawful (bounded_c max what).
Proof.
  intros Hm. split; simpl.
  - intros a bs r _ E. by apply take_bytes_put.
  - intros i a r E%take_bytes_canonical. done.
Qed.

Lemma utf8_valid_ascii s : forallb (λ b, Byte.to_N b <? 0x80) s = true → utf8_valid s = true.
Proof.
  induction s as [|b s IH]; [done|]. cbn [forallb utf8_valid]. intros [-> ?]%andb_true_iff. auto.
Qed.

(** A byte string validated after it is read: names, strings, keys. *)
Definition validated_c {A B} (c : codec A) (f : B → A) (g : A → result ProtocolError B)
    (wf : B → Prop) : codec B :=
  mkCodec (λ b, enc c (f b)) (let* a := dec c in plift (g a)) wf.

Lemma validated_lawful {A B} (c : codec A) `{!Lawful c} (f : B → A) g (wf : B → Prop) :
  (∀ b, wf b → cwf c (f b) ∧ g (f b) = Ok b) →
  (∀ a b, cwf c a → g a = Ok b → wf b ∧ f b = a) →
  Lawful (validated_c c f g wf).
Proof.
  intros Hf Hg. split; simpl.
  - intros b bs r Hw E. destruct (Hf b Hw) as [? Hgf]. rewrite (pbind_dec c _ (f b)) by done.
    unfold plift. by rewrite Hgf.
  - intros i b r (a & bs & r' & Ha & He & -> & Hp)%(pbind_canonical c).
    apply plift_Ok in Hp as [Hga ->]. destruct (Hg a b Ha Hga) as [? <-]. eauto.
Qed.

Definition string_c (max : N) (what : string) : codec (list byte) :=
  mkCodec (λ b, put_bounded b max what) (take_string max what) (λ s, utf8_valid s = true).

Lemma from_utf8_Ok a b : from_utf8 a = Ok b ↔ utf8_valid a = true ∧ b = a.
Proof. unfold from_utf8. destruct (utf8_valid a); naive_solver. Qed.

Lemma string_lawful max what : max < U64 → Lawful (string_c max what).
Proof.
  intros Hm. pose proof (bounded_lawful max what Hm).
  apply (validated_lawful (bounded_c max what) id from_utf8).
  - intros b Hb. split; [done|]. by apply from_utf8_Ok.
  - intros a b _ [? ->]%from_utf8_Ok. done.
Qed.

(** *** Fixed-size arrays *)

Definition array_c (n : nat) : codec (arr n) := mkCodec put_array (take_array n) (λ _, True).

#[global] Instance array_lawful n : Lawful (array_c n).
Proof.
  split; simpl.
  - intros a bs r _ [= <-]. unfold take_array. by rewrite split_arr_app.
  - intros i a r. unfold take_array. destruct (split_arr n i) as [[a' rest]|] eqn:E; [|done].
    intros [= -> ->]. apply split_arr_Some in E as ->. unfold put_array. eauto.
Qed.

(** *** Sequences

    The elements of a counted list, one after the other. *)

Fixpoint many {A} (p : parser A) (n : nat) : parser (list A) :=
  match n with
  | O => pret []
  | S n => let* a := p in let* l := many p n in pret (a :: l)
  end.

Lemma many_roundtrip {A} (c : codec A) `{!Lawful c} l bs r :
  Forall (cwf c) l → cat (map (enc c) l) = Ok bs → many (dec c) (length l) (bs ++ r) = Ok (l, r).
Proof.
  intros Hl. revert bs. induction Hl as [|a l Ha _ IH]; cbn [map many length]; intros bs E.
  { by apply cat_nil in E as ->. }
  apply cat_cons in E as (b & t & Eb & Et & ->). rewrite <- app_assoc, (pbind_dec c _ a) by done.
  by rewrite (pbind_step _ _ _ _ _ (IH t Et)).
Qed.

Lemma many_canonical {A} (c : codec A) `{!Lawful c} n i l r :
  many (dec c) n i = Ok (l, r) →
  Forall (cwf c) l ∧ length l = n ∧ ∃ bs, cat (map (enc c) l) = Ok bs ∧ i = bs ++ r.
Proof.
  revert i l. induction n as [|n IH]; intros i l; cbn [many].
  { intros [<- <-]%pret_Ok. split_and!; [constructor|done|]. by exists []. }
  intros (a & ba & m & Ha & Ea & -> & E)%(pbind_canonical c).
  apply pbind_Ok in E as (l' & m' & E & [<- <-]%pret_Ok).
  apply IH in E as (Hl & <- & bs & Eb & ->).
  split_and!; [by constructor|done|]. exists (ba ++ bs). split; [|by rewrite <- app_assoc].
  apply cat_cons. by exists ba, bs.
Qed.

(** ** Complete inputs *)

Lemma decode_complete_roundtrip {A} (c : codec A) `{!Lawful c} a bs :
  cwf c a → enc c a = Ok bs → decode_complete (dec c) bs = Ok a.
Proof.
  intros Hw He. unfold decode_complete. pose proof (roundtrip (c := c) a bs [] Hw He) as R.
  rewrite app_nil_r in R. by rewrite R.
Qed.

Lemma decode_complete_canonical {A} (c : codec A) `{!Lawful c} i a :
  decode_complete (dec c) i = Ok a → cwf c a ∧ enc c a = Ok i.
Proof.
  unfold decode_complete. intros ([v rest] & Hd & E)%rbind_Ok.
  destruct (Nat.ltb_spec 0 (length rest)) as [|Hl]; [done|]. injection E as ->.
  destruct rest; [|simpl in Hl; lia]. destruct (canonical (c := c) _ _ _ Hd) as (? & bs & ? & ->).
  by rewrite app_nil_r.
Qed.

(** An encoder is injective, also when followed by other data. *)
Lemma enc_inj {A} (c : codec A) `{!Lawful c} a b x y r s :
  cwf c a → cwf c b → enc c a = Ok x → enc c b = Ok y → x ++ r = y ++ s → a = b ∧ r = s.
Proof.
  intros Ha Hb Ex Ey E. pose proof (roundtrip (c := c) a x r Ha Ex) as R1.
  rewrite E, (roundtrip (c := c) b y s Hb Ey) in R1. by injection R1.
Qed.

(** ** Automation for product types

    A record is encoded field by field ([cat]) and decoded in the same
    order ([let*]). *)

Lemma cat_Ok x l a b : x = Ok a → cat l = Ok b → cat (x :: l) = Ok (a ++ b).
Proof. intros -> E. simpl in *. by rewrite E. Qed.

Lemma cat_nil_Ok : cat [] = Ok [].
Proof. done. Qed.

Ltac cat_inv H :=
  repeat (let a := fresh "b" in let t := fresh "t" in let Ha := fresh "He" in
          apply cat_cons in H as (a & t & Ha & H & ->));
  apply cat_nil in H; subst.

Ltac dec_step :=
  match goal with
  | He : enc ?c ?a = Ok ?b |- context [pbind (dec ?c) ?k (?b ++ ?r)] =>
      rewrite (pbind_dec c k a b r) by done
  end.

Ltac dec_inv H :=
  repeat match type of H with
  | pbind (dec ?c) _ _ = Ok _ => apply (pbind_canonical c) in H as (? & ? & ? & ? & ? & -> & H)
  end.

(** Reading back what was appended. *)
Ltac codec_read := rewrite <- ?app_assoc; cbn [app]; repeat dec_step.

(** Building the appended bytes. *)
Ltac codec_write :=
  eexists; split; [repeat (apply cat_Ok; [eassumption|]); apply cat_nil_Ok
                  |by rewrite <- ?app_assoc].
