(* ===== verification/Checkpoint.v ===== *)
(** * Checkpoints and committees ([scone-core/src/checkpoint.rs])

    The checkpoint signed by the committee, its quorum test and the
    deterministic committee draw, with the accountability results the
    quorum size gives. *)

From S2P Require Import Prelude Bytes Crypto Names Codec.

(** [scone-core/src/checkpoint.rs:45-45 CHECKPOINT_TAG] *)
Definition CHECKPOINT_TAG : list byte := ascii "SCONE-CKPT-V1".
(** [scone-core/src/checkpoint.rs:47-47 COMMITTEE_TAG] *)
Definition COMMITTEE_TAG : list byte := ascii "SCONE-COMMITTEE-V1".
(** [scone-core/src/checkpoint.rs:49-49 RECOVERY_TAG] *)
Definition RECOVERY_TAG : list byte := ascii "SCONE-RECOVERY-V1".
(** [scone-core/src/checkpoint.rs:51-51 SEED_TAG] *)
Definition SEED_TAG : list byte := ascii "SCONE-SEED-V1".
(** [scone-core/src/checkpoint.rs:58-58 GENESIS_CHECKPOINT_HASH] *)
Definition GENESIS_CHECKPOINT_HASH : hash := arr_zero 32.

(** [scone-core/src/checkpoint.rs:63-81 CheckpointData] *)
Record CheckpointData := mkCheckpointData {
  epoch : N;
  height : N;
  block_hash : hash;
  prev_checkpoint_hash : hash;
  state_root : hash;
  recovery : N }.

#[global] Instance CheckpointData_eq_dec : EqDecision CheckpointData.
Proof. solve_decision. Defined.

(** [scone-core/src/checkpoint.rs:111-116 Checkpoint] *)
Record Checkpoint := mkCheckpoint {
  data : CheckpointData;
  signatures : list (PublicKey * Signature) }.

#[global] Instance Checkpoint_eq_dec : EqDecision Checkpoint.
Proof. solve_decision. Defined.

(** The order of [(Hash, PublicKey)] pairs. *)
Definition rank_leb (a b : hash * PublicKey) : bool :=
  match bytes_cmp a.1 b.1 with
  | Lt => true
  | Eq => bytes_leb a.2 b.2
  | Gt => false
  end.
Definition rank_le (a b : hash * PublicKey) : Prop := rank_leb a b = true.
#[global] Instance rank_le_dec : RelDecision rank_le.
Proof. intros a b. unfold rank_le. apply _. Defined.

(** A [BTreeSet<PublicKey>] in iteration order: ascending, without
    duplicates. *)
Definition btree_set (l : list PublicKey) : list PublicKey := merge_sort arr_le (remove_dups l).

Section checkpoint.
Context `{Crypto}.

(** [scone-core/src/checkpoint.rs:89-99 CheckpointData::signing_bytes] *)
Definition signing_bytes (d : CheckpointData) : list byte :=
  CHECKPOINT_TAG ++ le_bytes 8 (epoch d) ++ le_bytes 8 (height d) ++ le_bytes 4 (recovery d) ++
  arr_list (block_hash d) ++ arr_list (prev_checkpoint_hash d) ++ arr_list (state_root d).

(** [scone-core/src/checkpoint.rs:104-106 CheckpointData::signing_hash] *)
Definition signing_hash (d : CheckpointData) : hash := hash256 [signing_bytes d].

(** [scone-core/src/checkpoint.rs:123-143 Checkpoint::hash]: the loop
    over [n] is the minimal varint. *)
Definition Checkpoint_hash (c : Checkpoint) : hash :=
  hash256 [arr_list (signing_hash (data c)) ++ put_u64 (N.of_nat (length (signatures c))) ++
           concat (map (λ ps, arr_list ps.1 ++ arr_list ps.2) (signatures c))].

(** The [for] loop of [verify_quorum]; [signers] are the keys seen. *)
Fixpoint quorum_loop (committee : list PublicKey) (msg : hash)
    (sigs : list (PublicKey * Signature)) (signers : gset PublicKey) (valid : nat) : nat :=
  match sigs with
  | [] => valid
  | (pk, sig) :: sigs =>
      if negb (bool_decide (pk ∈ committee)) then quorum_loop committee msg sigs signers valid
      else if bool_decide (pk ∈ signers) then quorum_loop committee msg sigs signers valid
      else quorum_loop committee msg sigs ({[pk]} ∪ signers)
             (if pk_verify pk (arr_list msg) sig then S valid else valid)
  end.

(** [scone-core/src/checkpoint.rs:150-167 Checkpoint::verify_quorum] *)
Definition verify_quorum (c : Checkpoint) (committee : list PublicKey) (quorum : nat) : bool :=
  (quorum <=? quorum_loop committee (signing_hash (data c)) (signatures c) ∅ 0)%nat.

(** [scone-core/src/checkpoint.rs:174-176 next_seed] *)
Definition next_seed (h : hash) : hash := hash256 [SEED_TAG; arr_list h].

(** [scone-core/src/checkpoint.rs:180-182 recovery_seed] *)
Definition recovery_seed (epoch_seed : hash) (k : N) : hash :=
  hash256 [RECOVERY_TAG; arr_list epoch_seed; le_bytes 4 k].

Definition rank (seed : hash) (pk : PublicKey) : hash * PublicKey :=
  (hash256 [COMMITTEE_TAG; arr_list seed; arr_list pk], pk).

(** [scone-core/src/checkpoint.rs:191-203 select_committee] *)
Definition select_committee (seed : hash) (eligible : list PublicKey) (size : nat)
    : list PublicKey :=
  (take size (merge_sort rank_le (map (rank seed) (btree_set eligible)))).*2.

(** ** The quorum count *)

(** [pk] is a committee member with a verified signature on [msg]. *)
Definition signed (committee : list PublicKey) (msg : hash)
    (sigs : list (PublicKey * Signature)) (pk : PublicKey) : Prop :=
  pk ∈ committee ∧ ∃ sig, (pk, sig) ∈ sigs ∧ pk_verify pk (arr_list msg) sig = true.

Lemma quorum_loop_signers committee msg sigs signers valid :
  ∃ l, NoDup l ∧ quorum_loop committee msg sigs signers valid = (valid + length l)%nat ∧
       ∀ pk, pk ∈ l → pk ∉ signers ∧ signed committee msg sigs pk.
Proof.
  revert signers valid. induction sigs as [|[pk sig] sigs IH]; intros signers valid; simpl.
  { exists []. split_and!; [constructor|simpl; lia|by intros pk ?%elem_of_nil]. }
  assert (∀ p, signed committee msg sigs p → signed committee msg ((pk, sig) :: sigs) p) as Hmono.
  { intros p (? & s & ? & ?). split; [done|]. exists s. split; [|done]. apply elem_of_cons. by right. }
  case_bool_decide as Hin; simpl.
  2:{ destruct (IH signers valid) as (l & ? & -> & Hl). exists l.
      split_and!; [done..|]. intros p Hp. destruct (Hl p Hp). auto. }
  case_bool_decide as Hs.
  { destruct (IH signers valid) as (l & ? & -> & Hl). exists l.
      split_and!; [done..|]. intros p Hp. destruct (Hl p Hp). auto. }
  destruct (pk_verify pk (arr_list msg) sig) eqn:E.
  - destruct (IH ({[pk]} ∪ signers) (S valid)) as (l & Hnd & -> & Hl). exists (pk :: l).
    split_and!; [|simpl; lia|].
    + constructor; [|done]. intros [Hpk _]%Hl. apply Hpk, elem_of_union. left. by apply elem_of_singleton.
    + intros p [->|Hp]%elem_of_cons.
      * split; [done|]. split; [done|]. exists sig. split; [|done]. apply elem_of_cons. by left.
      * destruct (Hl p Hp) as [Hu ?]. apply not_elem_of_union in Hu as [_ ?]. auto.
  - destruct (IH ({[pk]} ∪ signers) valid) as (l & Hnd & -> & Hl). exists l.
    split_and!; [done..|]. intros p Hp. destruct (Hl p Hp) as [Hu ?]. apply not_elem_of_union in Hu as [_ ?]. auto.
Qed.

Lemma verify_quorum_signers c committee quorum :
  verify_quorum c committee quorum = true →
  ∃ l, NoDup l ∧ (quorum ≤ length l)%nat ∧
       ∀ pk, pk ∈ l → signed committee (signing_hash (data c)) (signatures c) pk.
Proof.
  unfold verify_quorum. intros Hq%Nat.leb_le.
  destruct (quorum_loop_signers committee (signing_hash (data c)) (signatures c) ∅ 0)
    as (l & Hnd & E & Hl). rewrite E in Hq. exists l. split_and!; [done|lia|].
  intros pk Hpk. by apply Hl.
Qed.

(** Distinct valid signatures of members are all counted. *)
Lemma quorum_loop_complete committee msg sigs signers valid :
  NoDup sigs.*1 → (∀ pk, pk ∈ sigs.*1 → pk ∉ signers) →
  quorum_loop committee msg sigs signers valid =
    (valid + length (filter (λ ps, ps.1 ∈ committee ∧ pk_verify ps.1 (arr_list msg) ps.2 = true) sigs))%nat.
Proof.
  revert signers valid. induction sigs as [|[pk sig] sigs IH]; intros signers valid Hnd Hs; simpl; [lia|].
  apply NoDup_cons in Hnd as [Hpk Hnd]. simpl in Hs.
  rewrite filter_cons. simpl. case_bool_decide as Hin; simpl.
  2:{ rewrite decide_False by tauto. apply IH; [done|]. intros p Hp. apply Hs. by right. }
  rewrite bool_decide_eq_false_2 by (apply Hs; by left).
  rewrite IH; [|done|].
  - destruct (pk_verify pk (arr_list msg) sig) eqn:E.
    + rewrite decide_True by done. simpl. lia.
    + rewrite decide_False by (intros [_ ?]; congruence). done.
  - intros p Hp. rewrite not_elem_of_union, not_elem_of_singleton. split; [by intros ->|]. apply Hs. by right.
Qed.

(** ** Quorums intersect *)

Lemma length_remove_dups (l : list PublicKey) : (length (remove_dups l) ≤ length l)%nat.
Proof. induction l as [|x l IH]; simpl; [done|]. case_decide; simpl; lia. Qed.

Lemma nodup_intersection (l1 l2 com : list PublicKey) :
  NoDup l1 → NoDup l2 → (∀ p, p ∈ l1 → p ∈ com) → (∀ p, p ∈ l2 → p ∈ com) →
  ∃ l, NoDup l ∧ (length l1 + length l2 ≤ length com + length l)%nat ∧
       ∀ p, p ∈ l → p ∈ l1 ∧ p ∈ l2.
Proof.
  intros H1 H2 Hs1 Hs2.
  set (X1 := list_to_set l1 : gset PublicKey). set (X2 := list_to_set l2 : gset PublicKey).
  set (C := list_to_set com : gset PublicKey).
  exists (elements (X2 ∩ X1)). split_and!; [apply NoDup_elements| |].
  2:{ intros p. rewrite elem_of_elements, elem_of_intersection.
      unfold X1, X2. rewrite !elem_of_list_to_set. tauto. }
  assert (size X1 = length l1) as E1 by by apply size_list_to_set.
  assert (size X2 = length l2) as E2 by by apply size_list_to_set.
  assert (size C ≤ length com)%nat as EC.
  { assert (C ≡ list_to_set (remove_dups com)) as ->.
    { intros p. unfold C. by rewrite !elem_of_list_to_set, elem_of_remove_dups. }
    rewrite size_list_to_set by apply NoDup_remove_dups.
    apply length_remove_dups. }
  assert (size (X1 ∪ X2) ≤ size C)%nat as EU.
  { apply subseteq_size. intros p. unfold X1, X2, C.
    rewrite elem_of_union, !elem_of_list_to_set. intros [?|?]; auto. }
  rewrite size_union_alt, size_difference_alt in EU.
  assert (size (X2 ∩ X1) ≤ size X2)%nat by (apply subseteq_size; intros p; rewrite elem_of_intersection; tauto).
  change (length (elements (X2 ∩ X1))) with (size (X2 ∩ X1)). lia.
Qed.

Lemma quorum_for_overlap n : (n + (n / 3 + 1) ≤ 2 * quorum_for n)%nat.
Proof.
  unfold quorum_for. pose proof (Nat.div_mod_eq n 3) as E1. pose proof (Nat.mod_upper_bound n 3).
  pose proof (Nat.div_mod_eq (2 * n) 3) as E2. pose proof (Nat.mod_upper_bound (2 * n) 3). lia.
Qed.

(** Two quorums of one committee share more than a third of it. *)
Lemma quorum_intersection committee c1 c2 :
  verify_quorum c1 committee (quorum_for (length committee)) = true →
  verify_quorum c2 committee (quorum_for (length committee)) = true →
  ∃ l, NoDup l ∧ (length committee / 3 < length l)%nat ∧ ∀ pk, pk ∈ l →
    signed committee (signing_hash (data c1)) (signatures c1) pk ∧
    signed committee (signing_hash (data c2)) (signatures c2) pk.
Proof.
  intros (l1 & H1 & Hq1 & Hs1)%verify_quorum_signers (l2 & H2 & Hq2 & Hs2)%verify_quorum_signers.
  destruct (nodup_intersection l1 l2 committee) as (l & Hnd & Hlen & Hl); [done|done| | |].
  { intros p Hp. by apply Hs1. } { intros p Hp. by apply Hs2. }
  exists l. split_and!; [done| |].
  - pose proof (quorum_for_overlap (length committee)). lia.
  - intros pk Hpk. destruct (Hl pk Hpk). auto.
Qed.

(** ** The committee draw *)

#[local] Instance rank_le_trans : Transitive rank_le.
Proof.
  intros a b c. unfold rank_le, rank_leb.
  destruct (bytes_cmp a.1 b.1) eqn:E1, (bytes_cmp b.1 c.1) eqn:E2; try done.
  - rewrite (bytes_cmp_trans _ _ _ _ E1 E2). apply (transitivity (R := bytes_le)).
  - apply bytes_cmp_eq in E1. by rewrite E1, E2.
  - apply bytes_cmp_eq in E2. by rewrite <- E2, E1.
  - by rewrite (bytes_cmp_trans _ _ _ _ E1 E2).
Qed.

#[local] Instance rank_le_total : Total rank_le.
Proof.
  intros a b. unfold rank_le, rank_leb. rewrite (bytes_cmp_antisym a.1 b.1).
  destruct (bytes_cmp a.1 b.1); simpl; auto. apply (total bytes_le).
Qed.

#[local] Instance rank_le_antisymm : AntiSymm (=) rank_le.
Proof.
  intros [h k] [h' k']. unfold rank_le, rank_leb. simpl. rewrite (bytes_cmp_antisym h h').
  destruct (bytes_cmp h h') eqn:E; simpl; try done. intros H1 H2.
  apply bytes_cmp_eq in E. f_equal; [by apply arr_eq|]. apply arr_eq. by apply (anti_symm bytes_le).
Qed.

Lemma btree_set_ext l l' : (∀ pk, pk ∈ l ↔ pk ∈ l') → btree_set l = btree_set l'.
Proof.
  intros E. unfold btree_set. apply (StronglySorted_unique arr_le).
  1,2: apply StronglySorted_merge_sort; [|apply _]; apply _.
  rewrite !merge_sort_Permutation. apply NoDup_Permutation; [apply NoDup_remove_dups..|].
  intros pk. by rewrite !elem_of_remove_dups.
Qed.

Lemma elem_of_btree_set l pk : pk ∈ btree_set l ↔ pk ∈ l.
Proof. unfold btree_set. rewrite merge_sort_Permutation. apply elem_of_remove_dups. Qed.

Lemma NoDup_btree_set l : NoDup (btree_set l).
Proof. unfold btree_set. rewrite merge_sort_Permutation. apply NoDup_remove_dups. Qed.

Lemma rank_snd seed l : (map (rank seed) l).*2 = l.
Proof. rewrite <- list_fmap_compose. apply list_fmap_id. Qed.

Definition ranked (seed : hash) (eligible : list PublicKey) : list (hash * PublicKey) :=
  merge_sort rank_le (map (rank seed) (btree_set eligible)).

Lemma ranked_spec seed eligible :
  StronglySorted rank_le (ranked seed eligible) ∧ NoDup (ranked seed eligible).*2 ∧
  (∀ pk, pk ∈ (ranked seed eligible).*2 ↔ pk ∈ eligible) ∧
  (∀ x, x ∈ ranked seed eligible → x = rank seed x.2).
Proof.
  assert (ranked seed eligible ≡ₚ map (rank seed) (btree_set eligible)) as Hp
    by apply merge_sort_Permutation.
  split; [apply StronglySorted_merge_sort; apply _|]. split_and!.
  - rewrite Hp, rank_snd. apply NoDup_btree_set.
  - intros pk. rewrite Hp, rank_snd. apply elem_of_btree_set.
  - intros x. rewrite Hp. intros (pk & -> & _)%list_elem_of_fmap. done.
Qed.

(** The draw: distinct eligible keys, as many as asked for, of the
    lowest ranks; it depends on the set of eligible keys only. *)
Lemma select_committee_spec seed eligible size :
  let com := select_committee seed eligible size in
  NoDup com ∧ length com = Nat.min size (length (remove_dups eligible)) ∧
  (∀ pk, pk ∈ com → pk ∈ eligible) ∧
  (∀ pk pk', pk ∈ com → pk' ∈ eligible → pk' ∉ com → rank_le (rank seed pk) (rank seed pk')).
Proof.
  destruct (ranked_spec seed eligible) as (Hs & Hnd & Hel & Hr).
  unfold select_committee. fold (ranked seed eligible). cbv zeta.
  assert (∀ pk, pk ∈ (take size (ranked seed eligible)).*2 → pk ∈ (ranked seed eligible).*2) as Htk.
  { intros pk. rewrite <- (take_drop size (ranked seed eligible)) at 2.
    rewrite fmap_app, elem_of_app. by left. }
  split_and!.
  - rewrite <- (take_drop size (ranked seed eligible)), fmap_app, NoDup_app in Hnd. apply Hnd.
  - rewrite length_fmap, length_take. f_equal. unfold ranked.
    rewrite merge_sort_Permutation. rewrite length_map. unfold btree_set. by rewrite merge_sort_Permutation.
  - intros pk Hpk. by apply Hel, Htk.
  - intros pk pk' Hin Hel' Hout. apply Hel in Hel'.
    rewrite <- (take_drop size (ranked seed eligible)) in Hel'.
    rewrite fmap_app, elem_of_app in Hel'. destruct Hel' as [?|Hin']; [done|].
    apply list_elem_of_fmap in Hin as (x & -> & Hx), Hin' as (y & -> & Hy).
    rewrite <- (take_drop size (ranked seed eligible)) in Hs, Hr.
    rewrite <- (Hr x), <- (Hr y) by (apply elem_of_app; auto).
    by eapply StronglySorted_app_1_elem_of.
Qed.

Lemma select_committee_set seed e e' size :
  (∀ pk, pk ∈ e ↔ pk ∈ e') → select_committee seed e size = select_committee seed e' size.
Proof. intros E. unfold select_committee. by rewrite (btree_set_ext e e' E). Qed.

(** ** The signing preimage *)

Definition CheckpointData_wf (d : CheckpointData) : Prop :=
  epoch d < U64 ∧ height d < U64 ∧ recovery d ≤ U32_MAX.

Lemma signing_bytes_inj d d' :
  CheckpointData_wf d → CheckpointData_wf d' → signing_bytes d = signing_bytes d' → d = d'.
Proof.
  intros (He & Hh & Hr) (He' & Hh' & Hr') E. unfold signing_bytes in E.
  apply app_inv_head in E.
  apply app_inj_1 in E as [E1 E]; [|by rewrite !length_le_bytes].
  apply app_inj_1 in E as [E2 E]; [|by rewrite !length_le_bytes].
  apply app_inj_1 in E as [E3 E]; [|by rewrite !length_le_bytes].
  apply app_arr_inj in E as [E4 E]. apply app_arr_inj in E as [E5 E6%arr_eq].
  apply le_bytes_inj_64 in E1, E2; [|done..]. apply le_bytes_inj_32 in E3; [|done..].
  destruct d, d'. simpl in *. congruence.
Qed.
End checkpoint.
