(* ===== verification/Pow.v ===== *)
(** * Registration proof of work ([scone-core/src/pow.rs]) *)

From S2P Require Import Prelude Bytes Crypto Names.

(** [scone-core/src/pow.rs:41-41 POW_VERSION] *)
Definition POW_VERSION : list byte := ascii "SCONE-POW-V1".

(** [scone-core/src/pow.rs:48-53 CheckedPow] *)
Record CheckedPow := mkCheckedPow { nonce : N; difficulty : N }.

(** [u8::leading_zeros] *)
Definition leading_zeros8 (b : byte) : N :=
  if Byte.to_N b =? 0 then 8 else 7 - N.log2 (Byte.to_N b).

(** [scone-core/src/pow.rs:72-83 leading_zero_bits] *)
Fixpoint leading_zero_bits (d : list byte) : N :=
  match d with
  | [] => 0
  | b :: d => if Byte.to_N b =? 0 then 8 + leading_zero_bits d else leading_zeros8 b
  end.

Section pow.
Context `{Crypto}.

(** [scone-core/src/pow.rs:61-68 digest] *)
Definition pow_digest (network : NetworkId) (challenge : list byte) (nonce : N) : hash :=
  hash256 [POW_VERSION; NetworkId_as_bytes network; challenge; le_bytes 8 nonce].

(** [scone-core/src/pow.rs:92-111 check] *)
Definition pow_check (network : NetworkId) (challenge : list byte) (nonce difficulty : N)
    : result SconeError CheckedPow :=
  if 256 <? difficulty then Err InvalidProof
  else
    let d := pow_digest network challenge nonce in
    let zeros := leading_zero_bits d in
    if zeros <? difficulty then Err InvalidProof
    else Ok (mkCheckedPow nonce difficulty).

(** [scone-core/src/pow.rs:120-128 mine]: the loop, [None] when the
    rounds are used up ([mine_finds]). *)
Fixpoint mine_from (fuel : nat) (network : NetworkId) (challenge : list byte)
    (difficulty nonce : N) : option CheckedPow :=
  match fuel with
  | O => None
  | S fuel =>
      match pow_check network challenge nonce difficulty with
      | Ok checked => Some checked
      | Err _ => mine_from fuel network challenge difficulty (add64 nonce 1)
      end
  end.
Definition mine (fuel : nat) (network : NetworkId) (challenge : list byte) (difficulty : N)
    : option CheckedPow := mine_from fuel network challenge difficulty 0.

(** [scone-core/src/pow.rs:138-143 encode_proof] *)
Definition encode_proof (c : CheckedPow) : list byte :=
  le_bytes 8 (nonce c) ++ le_bytes 4 (difficulty c).

(** [scone-core/src/pow.rs:162-192 verify] *)
Definition pow_verify (network : NetworkId) (challenge proof : list byte) (expected : N)
    : result SconeError CheckedPow :=
  if negb (length proof =? 12)%nat then Err InvalidProof
  else
    let nonce := le_val (take 8 proof) in
    let difficulty := le_val (drop 8 proof) in
    if negb (difficulty =? expected) then Err InvalidProof
    else pow_check network challenge nonce expected.

(** ** Leading zero bits are a bound on the digest as an integer *)

Lemma be_val_cons b l : be_val (b :: l) = Byte.to_N b * 256 ^ N.of_nat (length l) + be_val l.
Proof.
  unfold be_val. rewrite reverse_cons. generalize (reverse l) (length_reverse l).
  intros r <-. induction r as [|x r IH]; simpl app; simpl le_val; simpl length.
  - simpl. lia.
  - rewrite IH, Nat2N.inj_succ, N.pow_succ_r'. lia.
Qed.

Lemma be_val_lt l : be_val l < 256 ^ N.of_nat (length l).
Proof. unfold be_val. rewrite <- (length_reverse l). apply le_val_lt. Qed.

Lemma pow_256 n : 256 ^ N.of_nat n = 2 ^ (8 * N.of_nat n).
Proof. change 256 with (2 ^ 8). by rewrite <- N.pow_mul_r. Qed.

Lemma leading_zeros8_spec b d :
  0 < Byte.to_N b → d ≤ leading_zeros8 b ↔ d ≤ 8 ∧ Byte.to_N b < 2 ^ (8 - d).
Proof.
  intros Hb. pose proof (byte_to_N_bounded b) as Hlt. unfold leading_zeros8.
  rewrite (proj2 (N.eqb_neq _ _)) by lia.
  assert (N.log2 (Byte.to_N b) < 8) as Hl by (by apply N.log2_lt_pow2).
  split.
  - intros Hd. split; [lia|]. apply N.log2_lt_pow2; lia.
  - intros [Hd Hx]. apply N.log2_lt_pow2 in Hx; lia.
Qed.

Lemma leading_zero_bits_spec l d :
  d ≤ leading_zero_bits l ↔
  d ≤ 8 * N.of_nat (length l) ∧ be_val l < 2 ^ (8 * N.of_nat (length l) - d).
Proof.
  revert d. induction l as [|b l IH]; intros d.
  { simpl. split; [intros ?; assert (d = 0) as -> by lia; done|lia]. }
  rewrite be_val_cons, pow_256. cbn [leading_zero_bits length].
  rewrite Nat2N.inj_succ. set (n := N.of_nat (length l)) in *.
  pose proof (be_val_lt l) as Hl. rewrite pow_256 in Hl. fold n in Hl.
  destruct (N.eqb_spec (Byte.to_N b) 0) as [->|Hb].
  - rewrite N.mul_0_l, N.add_0_l. destruct (N.le_gt_cases d 8) as [Hd|Hd].
    + split; [|lia]. intros _. split; [lia|]. eapply N.lt_le_trans; [exact Hl|].
      apply N.pow_le_mono_r; lia.
    + specialize (IH (d - 8)). replace (8 * N.succ n - d) with (8 * n - (d - 8)) by lia.
      split; [intros Hx|intros [Hx1 Hx2]].
      * destruct (proj1 IH) as [? ?]; [lia|]. split; [lia|done].
      * assert (d - 8 ≤ leading_zero_bits l) by (apply IH; split; [lia|done]). lia.
  - rewrite leading_zeros8_spec by lia. split.
    + intros [Hd Hx]. split; [lia|].
      replace (8 * N.succ n - d) with (8 - d + 8 * n) by lia. rewrite N.pow_add_r.
      assert ((Byte.to_N b + 1) * 2 ^ (8 * n) ≤ 2 ^ (8 - d) * 2 ^ (8 * n)) by (apply N.mul_le_mono_r; lia).
      lia.
    + intros [Hd Hx].
      assert (2 ^ (8 * n) ≤ Byte.to_N b * 2 ^ (8 * n) + be_val l) as Hge.
      { rewrite <- (N.mul_1_l (2 ^ (8 * n))) at 1. 
        assert (1 * 2 ^ (8 * n) ≤ Byte.to_N b * 2 ^ (8 * n)) by (apply N.mul_le_mono_r; lia). lia. }
      assert (d < 8) as Hd8.
      { destruct (N.lt_ge_cases d 8) as [|Hge8]; [done|exfalso].
        assert (2 ^ (8 * N.succ n - d) ≤ 2 ^ (8 * n)) by (apply N.pow_le_mono_r; lia). lia. }
      split; [lia|].
      replace (8 * N.succ n - d) with (8 - d + 8 * n) in Hx by lia. rewrite N.pow_add_r in Hx.
      apply (N.mul_lt_mono_pos_r (2 ^ (8 * n))); [apply N.neq_0_lt_0, N.pow_nonzero; done|]. lia.
Qed.

(** ** Checking and mining *)

Lemma pow_check_iff net ch n d c :
  pow_check net ch n d = Ok c ↔
    c = mkCheckedPow n d ∧ d ≤ 256 ∧ be_val (pow_digest net ch n) < 2 ^ (256 - d).
Proof.
  unfold pow_check. pose proof (leading_zero_bits_spec (pow_digest net ch n) d) as Hz.
  rewrite arr_length in Hz. change (8 * N.of_nat 32) with 256 in Hz.
  destruct (N.ltb_spec 256 d); [split; [done|lia]|].
  destruct (N.ltb_spec (leading_zero_bits (pow_digest net ch n)) d).
  - split; [done|]. intros (_ & ? & ?). assert (d ≤ leading_zero_bits (pow_digest net ch n)) by (by apply Hz). lia.
  - split; [intros [= <-]; split; [done|by apply Hz]|]. by intros [-> _].
Qed.

Lemma mine_from_finds fuel net ch d n k c :
  pow_check net ch k d = Ok c → (∀ j, n ≤ j < k → ¬ is_ok (pow_check net ch j d)) →
  n ≤ k → k < U64 → (N.to_nat (k - n) < fuel)%nat →
  mine_from fuel net ch d n = Some c.
Proof.
  revert n. induction fuel as [|fuel IH]; intros n Hc Hfirst Hn Hk Hf; [lia|].
  cbn [mine_from]. destruct (decide (n = k)) as [->|Hne]; [by rewrite Hc|].
  destruct (pow_check net ch n d) eqn:E; [exfalso; apply (Hfirst n); [lia|by rewrite E]|].
  rewrite add64_small by (unfold U64 in *; lia). apply IH; try done; [|lia|lia].
  intros j Hj. apply Hfirst. lia.
Qed.

Lemma mine_from_sound fuel net ch d n c :
  mine_from fuel net ch d n = Some c → pow_check net ch (nonce c) d = Ok c.
Proof.
  revert n. induction fuel as [|fuel IH]; intros n; [done|]. cbn [mine_from].
  destruct (pow_check net ch n d) as [c'|] eqn:E; [|apply IH].
  intros [= <-]. pose proof E as E'. apply pow_check_iff in E' as [-> _]. done.
Qed.

(** The payload is the encoding of what it proves. *)
Lemma pow_verify_iff net ch proof d c :
  d ≤ U32_MAX →
  pow_verify net ch proof d = Ok c ↔
    proof = encode_proof c ∧ difficulty c = d ∧ nonce c < U64 ∧ d ≤ 256 ∧
    be_val (pow_digest net ch (nonce c)) < 2 ^ (256 - d).
Proof.
  intros Hd. unfold pow_verify, encode_proof. split.
  - destruct (Nat.eqb_spec (length proof) 12) as [Hl|]; [|done]. cbn [negb].
    destruct (N.eqb_spec (le_val (drop 8 proof)) d) as [Hdiff|]; [|done]. cbn [negb].
    rewrite pow_check_iff. intros (-> & Hd' & Hb). cbn [nonce difficulty]. split_and!; try done.
    + transitivity (take 8 proof ++ drop 8 proof); [by rewrite take_drop|].
      apply (f_equal2 app); symmetry.
      * apply le_bytes_le_val_n. rewrite length_take. lia.
      * rewrite <- Hdiff. apply le_bytes_le_val_n. rewrite length_drop. lia.
    + pose proof (le_val_lt (take 8 proof)) as Hlt. rewrite length_take, Hl in Hlt. exact Hlt.
  - intros (-> & <- & Hn & Hd' & Hb).
    rewrite length_app, !length_le_bytes. cbn [Nat.add Nat.eqb negb].
    rewrite take_app_length', drop_app_length' by (by rewrite length_le_bytes).
    rewrite le_val_le_bytes_32, le_val_le_bytes_64, N.eqb_refl by done. cbn [negb].
    apply pow_check_iff. destruct c. done.
Qed.
End pow.
