(* ===== verification/Tx.v ===== *)
(** * Transactions ([scone-core/src/transaction.rs])

    The ten signed transaction kinds, their constructors (the owner and
    the identifiers are recomputed, never taken from the caller) and
    their pure invariants. *)

From S2P Require Import Prelude Bytes Crypto Names Checkpoint.

(** [scone-core/src/transaction.rs:45-45 Proof] *)
Definition Proof_ : Type := list byte.

Section owner_binding.
Context `{Crypto}.

(** [scone-core/src/transaction.rs:87-94 check_owner_binding] *)
Definition check_owner_binding (owner : OwnerId) (pk : PublicKey) : result SconeError unit :=
  if negb (arr_eqb owner (owner_of pk)) then Err InvalidOwner else Ok tt.
End owner_binding.

(** [scone-core/src/transaction.rs:105-123 RegisterDomain] *)
Record RegisterDomain := mkRegisterDomain {
  rd_network : NetworkId;
  rd_name : DomainName;
  rd_domain_id : DomainId;
  rd_owner : OwnerId;
  rd_timestamp : N;
  rd_proof : Proof_;
  rd_public_key : PublicKey;
  rd_signature : Signature }.
#[global] Instance RegisterDomain_eq_dec : EqDecision RegisterDomain.
Proof. solve_decision. Defined.

(** [scone-core/src/transaction.rs:208-222 UpdateDomain] *)
Record UpdateDomain := mkUpdateDomain {
  ud_network : NetworkId;
  ud_domain_id : DomainId;
  ud_owner : OwnerId;
  ud_sequence : N;
  ud_record_hash : RecordHash;
  ud_public_key : PublicKey;
  ud_signature : Signature }.
#[global] Instance UpdateDomain_eq_dec : EqDecision UpdateDomain.
Proof. solve_decision. Defined.

(** [scone-core/src/transaction.rs:306-325 RegisterTld] *)
Record RegisterTld := mkRegisterTld {
  rt_network : NetworkId;
  rt_name : TldName;
  rt_tld_id : TldId;
  rt_owner : OwnerId;
  rt_timestamp : N;
  rt_proof : Proof_;
  rt_public_key : PublicKey;
  rt_signature : Signature }.
#[global] Instance RegisterTld_eq_dec : EqDecision RegisterTld.
Proof. solve_decision. Defined.

(** [scone-core/src/transaction.rs:408-422 TransferTld] *)
Record TransferTld := mkTransferTld {
  tt_network : NetworkId;
  tt_tld_id : TldId;
  tt_owner : OwnerId;
  tt_new_owner : OwnerId;
  tt_public_key : PublicKey;
  tt_signature : Signature }.
#[global] Instance TransferTld_eq_dec : EqDecision TransferTld.
Proof. solve_decision. Defined.

(** [scone-core/src/transaction.rs:480-493 TransferDomain] *)
Record TransferDomain := mkTransferDomain {
  td_network : NetworkId;
  td_domain_id : DomainId;
  td_owner : OwnerId;
  td_new_owner : OwnerId;
  td_public_key : PublicKey;
  td_signature : Signature }.
#[global] Instance TransferDomain_eq_dec : EqDecision TransferDomain.
Proof. solve_decision. Defined.

(** [scone-core/src/transaction.rs:556-567 RevokeTld] *)
Record RevokeTld := mkRevokeTld {
  rv_network : NetworkId;
  rv_tld_id : TldId;
  rv_owner : OwnerId;
  rv_public_key : PublicKey;
  rv_signature : Signature }.
#[global] Instance RevokeTld_eq_dec : EqDecision RevokeTld.
Proof. solve_decision. Defined.

(** [scone-core/src/transaction.rs:619-633 SetTldOpen] *)
Record SetTldOpen := mkSetTldOpen {
  so_network : NetworkId;
  so_tld_id : TldId;
  so_owner : OwnerId;
  so_open : bool;
  so_public_key : PublicKey;
  so_signature : Signature }.
#[global] Instance SetTldOpen_eq_dec : EqDecision SetTldOpen.
Proof. solve_decision. Defined.

(** [scone-core/src/transaction.rs:690-706 AssignDomain] *)
Record AssignDomain := mkAssignDomain {
  ad_network : NetworkId;
  ad_name : DomainName;
  ad_domain_id : DomainId;
  ad_owner : OwnerId;
  ad_assignee : OwnerId;
  ad_public_key : PublicKey;
  ad_signature : Signature }.
#[global] Instance AssignDomain_eq_dec : EqDecision AssignDomain.
Proof. solve_decision. Defined.

(** [scone-core/src/transaction.rs:773-786 RenewDomain] *)
Record RenewDomain := mkRenewDomain {
  rn_network : NetworkId;
  rn_domain_id : DomainId;
  rn_owner : OwnerId;
  rn_valid_until : N;
  rn_public_key : PublicKey;
  rn_signature : Signature }.
#[global] Instance RenewDomain_eq_dec : EqDecision RenewDomain.
Proof. solve_decision. Defined.

(** [scone-core/src/transaction.rs:863-881 SlashTx] *)
Record SlashTx := mkSlashTx {
  sl_network : NetworkId;
  sl_offender : PublicKey;
  sl_evidence_a : CheckpointData;
  sl_sig_a : Signature;
  sl_evidence_b : CheckpointData;
  sl_sig_b : Signature;
  sl_public_key : PublicKey;
  sl_signature : Signature }.
#[global] Instance SlashTx_eq_dec : EqDecision SlashTx.
Proof. solve_decision. Defined.

(** [scone-core/src/transaction.rs:983-1004 Transaction] *)
Inductive Transaction :=
| TxRegisterDomain (tx : RegisterDomain)
| TxUpdateDomain (tx : UpdateDomain)
| TxRegisterTld (tx : RegisterTld)
| TxTransferTld (tx : TransferTld)
| TxRevokeTld (tx : RevokeTld)
| TxSetTldOpen (tx : SetTldOpen)
| TxAssignDomain (tx : AssignDomain)
| TxRenewDomain (tx : RenewDomain)
| TxTransferDomain (tx : TransferDomain)
| TxSlash (tx : SlashTx).
#[global] Instance Transaction_eq_dec : EqDecision Transaction.
Proof. solve_decision. Defined.

Section transactions.
Context `{Crypto}.

(** [scone-core/src/transaction.rs:159-177 RegisterDomain::register_domain_on] *)
Definition register_domain_on (network : NetworkId) (name : DomainName) (timestamp : N) (proof : Proof_) (public_key : PublicKey) (signature : Signature) : RegisterDomain :=
  mkRegisterDomain network name (DomainId_from_name name) (owner_of public_key) timestamp proof public_key signature.

(** [scone-core/src/transaction.rs:138-153 RegisterDomain::register_domain_signed] *)
Definition register_domain_signed (name : DomainName) (timestamp : N) (proof : Proof_) (public_key : PublicKey) (signature : Signature) : RegisterDomain :=
  register_domain_on NetworkId_TESTNET name timestamp proof public_key signature.

(** [scone-core/src/transaction.rs:190-199 RegisterDomain::validate] *)
Definition RegisterDomain_validate (tx : RegisterDomain) : result SconeError unit :=
  let? _ := check_owner_binding (rd_owner tx) (rd_public_key tx) in
  if negb (arr_eqb (rd_domain_id tx) (DomainId_from_name (rd_name tx))) then Err InvalidDomain
  else Ok tt.

(** [scone-core/src/transaction.rs:251-268 UpdateDomain::update_domain_on] *)
Definition update_domain_on (network : NetworkId) (domain_id : DomainId) (sequence : N) (record_hash : RecordHash) (public_key : PublicKey) (signature : Signature) : UpdateDomain :=
  mkUpdateDomain network domain_id (owner_of public_key) sequence record_hash public_key signature.

(** [scone-core/src/transaction.rs:230-245 UpdateDomain::update_domain_signed] *)
Definition update_domain_signed (domain_id : DomainId) (sequence : N) (record_hash : RecordHash) (public_key : PublicKey) (signature : Signature) : UpdateDomain :=
  update_domain_on NetworkId_TESTNET domain_id sequence record_hash public_key signature.

(** [scone-core/src/transaction.rs:277-282 UpdateDomain::validate] *)
Definition UpdateDomain_validate (tx : UpdateDomain) : result SconeError unit :=
  if ud_sequence tx =? 0 then Err (InvalidSequence 0)
  else check_owner_binding (ud_owner tx) (ud_public_key tx).

(** [scone-core/src/transaction.rs:357-375 RegisterTld::register_tld_on] *)
Definition register_tld_on (network : NetworkId) (name : TldName) (timestamp : N) (proof : Proof_) (public_key : PublicKey) (signature : Signature) : RegisterTld :=
  mkRegisterTld network name (TldId_from_tld name) (owner_of public_key) timestamp proof public_key signature.

(** [scone-core/src/transaction.rs:335-350 RegisterTld::register_tld_signed] *)
Definition register_tld_signed (name : TldName) (timestamp : N) (proof : Proof_) (public_key : PublicKey) (signature : Signature) : RegisterTld :=
  register_tld_on NetworkId_TESTNET name timestamp proof public_key signature.

(** [scone-core/src/transaction.rs:385-394 RegisterTld::validate] *)
Definition RegisterTld_validate (tx : RegisterTld) : result SconeError unit :=
  let? _ := check_owner_binding (rt_owner tx) (rt_public_key tx) in
  if negb (arr_eqb (rt_tld_id tx) (TldId_from_tld (rt_name tx))) then Err InvalidTld
  else Ok tt.

(** [scone-core/src/transaction.rs:443-458 TransferTld::transfer_tld_on] *)
Definition transfer_tld_on (network : NetworkId) (tld_id : TldId) (new_owner : OwnerId) (public_key : PublicKey) (signature : Signature) : TransferTld :=
  mkTransferTld network tld_id (owner_of public_key) new_owner public_key signature.

(** [scone-core/src/transaction.rs:430-437 TransferTld::transfer_tld_signed] *)
Definition transfer_tld_signed (tld_id : TldId) (new_owner : OwnerId) (public_key : PublicKey) (signature : Signature) : TransferTld :=
  transfer_tld_on NetworkId_TESTNET tld_id new_owner public_key signature.

(** [scone-core/src/transaction.rs:466-468 TransferTld::validate] *)
Definition TransferTld_validate (tx : TransferTld) : result SconeError unit :=
  check_owner_binding (tt_owner tx) (tt_public_key tx).

(** [scone-core/src/transaction.rs:520-535 TransferDomain::transfer_domain_on] *)
Definition transfer_domain_on (network : NetworkId) (domain_id : DomainId) (new_owner : OwnerId) (public_key : PublicKey) (signature : Signature) : TransferDomain :=
  mkTransferDomain network domain_id (owner_of public_key) new_owner public_key signature.

(** [scone-core/src/transaction.rs:501-514 TransferDomain::transfer_domain_signed] *)
Definition transfer_domain_signed (domain_id : DomainId) (new_owner : OwnerId) (public_key : PublicKey) (signature : Signature) : TransferDomain :=
  transfer_domain_on NetworkId_TESTNET domain_id new_owner public_key signature.

(** [scone-core/src/transaction.rs:543-545 TransferDomain::validate] *)
Definition TransferDomain_validate (tx : TransferDomain) : result SconeError unit :=
  check_owner_binding (td_owner tx) (td_public_key tx).

(** [scone-core/src/transaction.rs:583-596 RevokeTld::revoke_tld_on] *)
Definition revoke_tld_on (network : NetworkId) (tld_id : TldId) (public_key : PublicKey) (signature : Signature) : RevokeTld :=
  mkRevokeTld network tld_id (owner_of public_key) public_key signature.

(** [scone-core/src/transaction.rs:575-577 RevokeTld::revoke_tld_signed] *)
Definition revoke_tld_signed (tld_id : TldId) (public_key : PublicKey) (signature : Signature) : RevokeTld :=
  revoke_tld_on NetworkId_TESTNET tld_id public_key signature.

(** [scone-core/src/transaction.rs:604-606 RevokeTld::validate] *)
Definition RevokeTld_validate (tx : RevokeTld) : result SconeError unit :=
  check_owner_binding (rv_owner tx) (rv_public_key tx).

(** [scone-core/src/transaction.rs:654-669 SetTldOpen::set_tld_open_on] *)
Definition set_tld_open_on (network : NetworkId) (tld_id : TldId) (open : bool) (public_key : PublicKey) (signature : Signature) : SetTldOpen :=
  mkSetTldOpen network tld_id (owner_of public_key) open public_key signature.

(** [scone-core/src/transaction.rs:641-648 SetTldOpen::set_tld_open_signed] *)
Definition set_tld_open_signed (tld_id : TldId) (open : bool) (public_key : PublicKey) (signature : Signature) : SetTldOpen :=
  set_tld_open_on NetworkId_TESTNET tld_id open public_key signature.

(** [scone-core/src/transaction.rs:677-679 SetTldOpen::validate] *)
Definition SetTldOpen_validate (tx : SetTldOpen) : result SconeError unit :=
  check_owner_binding (so_owner tx) (so_public_key tx).

(** [scone-core/src/transaction.rs:728-744 AssignDomain::assign_domain_on] *)
Definition assign_domain_on (network : NetworkId) (name : DomainName) (assignee : OwnerId) (public_key : PublicKey) (signature : Signature) : AssignDomain :=
  mkAssignDomain network name (DomainId_from_name name) (owner_of public_key) assignee public_key signature.

(** [scone-core/src/transaction.rs:715-722 AssignDomain::assign_domain_signed] *)
Definition assign_domain_signed (name : DomainName) (assignee : OwnerId) (public_key : PublicKey) (signature : Signature) : AssignDomain :=
  assign_domain_on NetworkId_TESTNET name assignee public_key signature.

(** [scone-core/src/transaction.rs:754-763 AssignDomain::validate] *)
Definition AssignDomain_validate (tx : AssignDomain) : result SconeError unit :=
  let? _ := check_owner_binding (ad_owner tx) (ad_public_key tx) in
  if negb (arr_eqb (ad_domain_id tx) (DomainId_from_name (ad_name tx))) then Err InvalidDomain
  else Ok tt.

(** [scone-core/src/transaction.rs:813-828 RenewDomain::renew_domain_on] *)
Definition renew_domain_on (network : NetworkId) (domain_id : DomainId) (valid_until : N) (public_key : PublicKey) (signature : Signature) : RenewDomain :=
  mkRenewDomain network domain_id (owner_of public_key) valid_until public_key signature.

(** [scone-core/src/transaction.rs:794-807 RenewDomain::renew_domain_signed] *)
Definition renew_domain_signed (domain_id : DomainId) (valid_until : N) (public_key : PublicKey) (signature : Signature) : RenewDomain :=
  renew_domain_on NetworkId_TESTNET domain_id valid_until public_key signature.

(** [scone-core/src/transaction.rs:836-838 RenewDomain::validate] *)
Definition RenewDomain_validate (tx : RenewDomain) : result SconeError unit :=
  check_owner_binding (rn_owner tx) (rn_public_key tx).

(** [scone-core/src/transaction.rs:913-933 SlashTx::slash_on] *)
Definition slash_on (network : NetworkId) (offender : PublicKey) (evidence_a : CheckpointData)
    (sig_a : Signature) (evidence_b : CheckpointData) (sig_b : Signature)
    (public_key : PublicKey) (signature : Signature) : SlashTx :=
  mkSlashTx network offender evidence_a sig_a evidence_b sig_b public_key signature.

(** [scone-core/src/transaction.rs:888-907 SlashTx::slash_signed] *)
Definition slash_signed (offender : PublicKey) (evidence_a : CheckpointData)
    (sig_a : Signature) (evidence_b : CheckpointData) (sig_b : Signature)
    (public_key : PublicKey) (signature : Signature) : SlashTx :=
  slash_on NetworkId_TESTNET offender evidence_a sig_a evidence_b sig_b public_key signature.

(** [scone-core/src/transaction.rs:946-957 SlashTx::verify_evidence] *)
Definition verify_evidence (tx : SlashTx) : bool :=
  let a := sl_evidence_a tx in
  let b := sl_evidence_b tx in
  if negb (epoch a =? epoch b) ||
     negb (arr_eqb (prev_checkpoint_hash a) (prev_checkpoint_hash b)) then false
  else
    let msg_a := signing_hash a in
    let msg_b := signing_hash b in
    if arr_eqb msg_a msg_b then false
    else pk_verify (sl_offender tx) (arr_list msg_a) (sl_sig_a tx) &&
         pk_verify (sl_offender tx) (arr_list msg_b) (sl_sig_b tx).

(** [scone-core/src/transaction.rs:970-977 SlashTx::validate] *)
Definition SlashTx_validate (tx : SlashTx) : result SconeError unit :=
  if negb (verify_evidence tx) then Err InvalidCheckpoint else Ok tt.

(** [scone-core/src/transaction.rs:1009-1022 Transaction::network] *)
Definition tx_network (tx : Transaction) : NetworkId :=
  match tx with
  | TxRegisterDomain tx => rd_network tx
  | TxUpdateDomain tx => ud_network tx
  | TxRegisterTld tx => rt_network tx
  | TxTransferTld tx => tt_network tx
  | TxRevokeTld tx => rv_network tx
  | TxSetTldOpen tx => so_network tx
  | TxAssignDomain tx => ad_network tx
  | TxRenewDomain tx => rn_network tx
  | TxTransferDomain tx => td_network tx
  | TxSlash tx => sl_network tx
  end.

(** [scone-core/src/transaction.rs:1026-1042 Transaction::owner] *)
Definition tx_owner (tx : Transaction) : OwnerId :=
  match tx with
  | TxRegisterDomain tx => rd_owner tx
  | TxUpdateDomain tx => ud_owner tx
  | TxRegisterTld tx => rt_owner tx
  | TxTransferTld tx => tt_owner tx
  | TxRevokeTld tx => rv_owner tx
  | TxSetTldOpen tx => so_owner tx
  | TxAssignDomain tx => ad_owner tx
  | TxRenewDomain tx => rn_owner tx
  | TxTransferDomain tx => td_owner tx
  | TxSlash tx => owner_of (sl_public_key tx)
  end.

(** [scone-core/src/transaction.rs:1045-1058 Transaction::public_key] *)
Definition tx_public_key (tx : Transaction) : PublicKey :=
  match tx with
  | TxRegisterDomain tx => rd_public_key tx
  | TxUpdateDomain tx => ud_public_key tx
  | TxRegisterTld tx => rt_public_key tx
  | TxTransferTld tx => tt_public_key tx
  | TxRevokeTld tx => rv_public_key tx
  | TxSetTldOpen tx => so_public_key tx
  | TxAssignDomain tx => ad_public_key tx
  | TxRenewDomain tx => rn_public_key tx
  | TxTransferDomain tx => td_public_key tx
  | TxSlash tx => sl_public_key tx
  end.

(** [scone-core/src/transaction.rs:1061-1074 Transaction::signature] *)
Definition tx_signature (tx : Transaction) : Signature :=
  match tx with
  | TxRegisterDomain tx => rd_signature tx
  | TxUpdateDomain tx => ud_signature tx
  | TxRegisterTld tx => rt_signature tx
  | TxTransferTld tx => tt_signature tx
  | TxRevokeTld tx => rv_signature tx
  | TxSetTldOpen tx => so_signature tx
  | TxAssignDomain tx => ad_signature tx
  | TxRenewDomain tx => rn_signature tx
  | TxTransferDomain tx => td_signature tx
  | TxSlash tx => sl_signature tx
  end.

(** [scone-core/src/transaction.rs:1091-1104 Transaction::validate] *)
Definition tx_validate (tx : Transaction) : result SconeError unit :=
  match tx with
  | TxRegisterDomain tx => RegisterDomain_validate tx
  | TxUpdateDomain tx => UpdateDomain_validate tx
  | TxRegisterTld tx => RegisterTld_validate tx
  | TxTransferTld tx => TransferTld_validate tx
  | TxRevokeTld tx => RevokeTld_validate tx
  | TxSetTldOpen tx => SetTldOpen_validate tx
  | TxAssignDomain tx => AssignDomain_validate tx
  | TxRenewDomain tx => RenewDomain_validate tx
  | TxTransferDomain tx => TransferDomain_validate tx
  | TxSlash tx => SlashTx_validate tx
  end.

(** ** Invariants *)

Lemma check_owner_binding_Ok o pk : check_owner_binding o pk = Ok tt ↔ o = owner_of pk.
Proof.
  unfold check_owner_binding, arr_eqb. case_bool_decide; simpl; split; done.
Qed.

Lemma arr_eqb_eq {n} (a b : arr n) : arr_eqb a b = true ↔ a = b.
Proof. apply bool_decide_eq_true. Qed.

Lemma verify_evidence_iff tx :
  verify_evidence tx = true ↔
    epoch (sl_evidence_a tx) = epoch (sl_evidence_b tx) ∧
    prev_checkpoint_hash (sl_evidence_a tx) = prev_checkpoint_hash (sl_evidence_b tx) ∧
    signing_hash (sl_evidence_a tx) ≠ signing_hash (sl_evidence_b tx) ∧
    pk_verify (sl_offender tx) (arr_list (signing_hash (sl_evidence_a tx))) (sl_sig_a tx) = true ∧
    pk_verify (sl_offender tx) (arr_list (signing_hash (sl_evidence_b tx))) (sl_sig_b tx) = true.
Proof.
  unfold verify_evidence. destruct (N.eqb_spec (epoch (sl_evidence_a tx)) (epoch (sl_evidence_b tx)));
    simpl; [|naive_solver].
  unfold arr_eqb. case_bool_decide; simpl; [|naive_solver]. case_bool_decide; [naive_solver|].
  rewrite andb_true_iff. tauto.
Qed.

(** The identifiers a validated transaction carries are derived. *)
Lemma RegisterDomain_validate_Ok t :
  RegisterDomain_validate t = Ok tt ↔
    rd_owner t = owner_of (rd_public_key t) ∧ rd_domain_id t = DomainId_from_name (rd_name t).
Proof.
  unfold RegisterDomain_validate. rewrite rbind_Ok. split.
  - intros ([] & ?%check_owner_binding_Ok & E). split; [done|]. apply arr_eqb_eq.
    by destruct (arr_eqb _ _).
  - intros [?%check_owner_binding_Ok ->]. exists tt. split; [done|].
    by rewrite (proj2 (arr_eqb_eq _ _) eq_refl).
Qed.

Lemma RegisterTld_validate_Ok t :
  RegisterTld_validate t = Ok tt ↔
    rt_owner t = owner_of (rt_public_key t) ∧ rt_tld_id t = TldId_from_tld (rt_name t).
Proof.
  unfold RegisterTld_validate. rewrite rbind_Ok. split.
  - intros ([] & ?%check_owner_binding_Ok & E). split; [done|]. apply arr_eqb_eq.
    by destruct (arr_eqb _ _).
  - intros [?%check_owner_binding_Ok ->]. exists tt. split; [done|].
    by rewrite (proj2 (arr_eqb_eq _ _) eq_refl).
Qed.

Lemma AssignDomain_validate_Ok t :
  AssignDomain_validate t = Ok tt ↔
    ad_owner t = owner_of (ad_public_key t) ∧ ad_domain_id t = DomainId_from_name (ad_name t).
Proof.
  unfold AssignDomain_validate. rewrite rbind_Ok. split.
  - intros ([] & ?%check_owner_binding_Ok & E). split; [done|]. apply arr_eqb_eq.
    by destruct (arr_eqb _ _).
  - intros [?%check_owner_binding_Ok ->]. exists tt. split; [done|].
    by rewrite (proj2 (arr_eqb_eq _ _) eq_refl).
Qed.

(** A validated transaction declares the identity of its signer. *)
Lemma tx_validate_owner tx :
  tx_validate tx = Ok tt → tx_owner tx = owner_of (tx_public_key tx).
Proof.
  destruct tx as [t|t|t|t|t|t|t|t|t|t]; cbn [tx_validate tx_owner tx_public_key]; intros E.
  4-6,8,9: by apply check_owner_binding_Ok.
  - by apply RegisterDomain_validate_Ok in E as [? _].
  - unfold UpdateDomain_validate in E. destruct (_ =? 0); [done|]. by apply check_owner_binding_Ok.
  - by apply RegisterTld_validate_Ok in E as [? _].
  - by apply AssignDomain_validate_Ok in E as [? _].
  - done.
Qed.

(** Accountability: where two checkpoints of one epoch and parent both
    reach the quorum of a committee, more than a third of it can be
    slashed, whoever reports. *)
Lemma conflicting_quorums_slashable committee c1 c2 net pk sig :
  verify_quorum c1 committee (quorum_for (length committee)) = true →
  verify_quorum c2 committee (quorum_for (length committee)) = true →
  epoch (data c1) = epoch (data c2) →
  prev_checkpoint_hash (data c1) = prev_checkpoint_hash (data c2) →
  signing_hash (data c1) ≠ signing_hash (data c2) →
  ∃ l, NoDup l ∧ (length committee / 3 < length l)%nat ∧ ∀ o, o ∈ l →
    o ∈ committee ∧ ∃ sa sb, (o, sa) ∈ signatures c1 ∧ (o, sb) ∈ signatures c2 ∧
      SlashTx_validate (slash_on net o (data c1) sa (data c2) sb pk sig) = Ok tt.
Proof.
  intros Hq1 Hq2 He Hp Hne.
  destruct (quorum_intersection committee c1 c2 Hq1 Hq2) as (l & Hnd & Hl & Hs).
  exists l. split_and!; [done..|]. intros o Ho.
  destruct (Hs o Ho) as [[Hin (sa & Ha & Hva)] [_ (sb & Hb & Hvb)]]. split; [done|].
  exists sa, sb. split_and!; [done..|]. unfold SlashTx_validate.
  assert (verify_evidence (slash_on net o (data c1) sa (data c2) sb pk sig) = true) as ->; [|done].
  by apply verify_evidence_iff.
Qed.
End transactions.
