(* ===== verification/Wire.v ===== *)
(** * Wire format of identifiers and transactions
    ([scone-protocol]: [ids.rs], [transaction.rs])

    Every encoder validates first, every decoder validates last; a
    decoded transaction is the only one with its bytes. *)

From S2P Require Import Prelude Bytes Crypto Names Codec Checkpoint Tx.

(** ** Names ([ids.rs]) *)

(** [scone-protocol/src/ids.rs:38-47 NetworkId::encode] *)
Definition NetworkId_encode (n : NetworkId) : eresult :=
  put_bounded (NetworkId_as_bytes n) (N.of_nat MAX_NETWORK_ID_LEN) "network id length".

(** [scone-protocol/src/ids.rs:49-59 NetworkId::decode] *)
Definition NetworkId_decode : parser NetworkId :=
  let* bytes := take_bytes (N.of_nat MAX_NETWORK_ID_LEN) "network id length" in
  plift (let? text := from_utf8 bytes in map_err Validation (NetworkId_new text)).

(** [scone-protocol/src/ids.rs:64-73 TldName::encode] *)
Definition TldName_encode (t : TldName) : eresult :=
  put_bounded t (N.of_nat MAX_TLD_LEN) "TLD length".

(** [scone-protocol/src/ids.rs:75-81 TldName::decode] *)
Definition TldName_decode : parser TldName :=
  let* bytes := take_bytes (N.of_nat MAX_TLD_LEN) "TLD length" in
  plift (let? name := from_utf8 bytes in map_err Validation (TldName_new name)).

(** [scone-protocol/src/ids.rs:86-95 DomainName::encode] *)
Definition DomainName_encode (n : DomainName) : eresult :=
  put_bounded n (N.of_nat MAX_NAME_LEN) "domain name length".

(** [scone-protocol/src/ids.rs:97-103 DomainName::decode] *)
Definition DomainName_decode : parser DomainName :=
  let* bytes := take_bytes (N.of_nat MAX_NAME_LEN) "domain name length" in
  plift (let? name := from_utf8 bytes in map_err Validation (DomainName_new name)).

Definition NetworkId_c : codec NetworkId := mkCodec NetworkId_encode NetworkId_decode NetworkId_valid.
Definition TldName_c : codec TldName := mkCodec TldName_encode TldName_decode TldName_valid.
Definition DomainName_c : codec DomainName :=
  mkCodec DomainName_encode DomainName_decode DomainName_valid.

(** [scone-protocol/src/ids.rs:12-33 impl_fixed_id]: raw bytes. *)
Definition id_c : codec hash := array_c 32.

(** ** Transaction fields *)

(** [scone-protocol/src/transaction.rs:81-90 Proof::encode] *)
Definition Proof_encode (p : Proof_) : eresult := put_bounded p MAX_PROOF_LEN "proof length".
(** [scone-protocol/src/transaction.rs:92-98 Proof::decode] *)
Definition Proof_decode : parser Proof_ := take_bytes MAX_PROOF_LEN "proof length".
Definition Proof_c : codec Proof_ := mkCodec Proof_encode Proof_decode (λ _, True).

(** [scone-protocol/src/transaction.rs:119-124 Signature::encode] *)
Definition Signature_encode (s : Signature) : eresult := put_array s.
(** [scone-protocol/src/transaction.rs:126-130 Signature::decode] *)
Definition Signature_decode : parser Signature := take_array 64.
Definition Signature_c : codec Signature := mkCodec Signature_encode Signature_decode (λ _, True).

(** [scone-protocol/src/transaction.rs:248-253 bool::encode] *)
Definition bool_encode (b : bool) : eresult := Ok [byte_of_N (N.b2n b)].
(** [scone-protocol/src/transaction.rs:255-265 bool::decode] *)
Definition bool_decode : parser bool :=
  let* b := take_u8 in
  match b with
  | x00 => pret false
  | x01 => pret true
  | _ => pfail (NonCanonical "boolean must be exactly 0x00 or 0x01")
  end.
Definition bool_c : codec bool := mkCodec bool_encode bool_decode (λ _, True).

(** ** Checkpoint bodies ([checkpoint.rs]) *)

(** [scone-protocol/src/checkpoint.rs:48-48 CHECKPOINT_DATA_LEN] *)
Definition CHECKPOINT_DATA_LEN : nat := 116.

(** [scone-protocol/src/checkpoint.rs:57-69 CheckpointData::encode] *)
Definition CheckpointData_encode (d : CheckpointData) : eresult :=
  Ok (le_bytes 8 (epoch d) ++ le_bytes 8 (height d) ++ le_bytes 4 (recovery d) ++
      arr_list (block_hash d) ++ arr_list (prev_checkpoint_hash d) ++ arr_list (state_root d)).

(** [scone-protocol/src/checkpoint.rs:71-83 CheckpointData::decode] *)
Definition CheckpointData_decode : parser CheckpointData :=
  let* body := take_array CHECKPOINT_DATA_LEN in
  pret (mkCheckpointData
    (le_val (slice 0 8 body)) (le_val (slice 8 16 body))
    (arr_of 32 (slice 20 52 body)) (arr_of 32 (slice 52 84 body)) (arr_of 32 (slice 84 116 body))
    (le_val (slice 16 20 body))).

Definition CheckpointData_c : codec CheckpointData :=
  mkCodec CheckpointData_encode CheckpointData_decode CheckpointData_wf.

(** ** Transactions *)

(** [scone-protocol/src/transaction.rs:49-70 tx_type] *)
Definition REGISTER_DOMAIN : byte := x21.
Definition UPDATE_DOMAIN : byte := x52.
Definition REGISTER_TLD : byte := x93.
Definition TRANSFER_TLD : byte := x47.
Definition REVOKE_TLD : byte := x6b.
Definition SET_TLD_OPEN : byte := xb8.
Definition ASSIGN_DOMAIN : byte := xd4.
Definition RENEW_DOMAIN : byte := x3c.
Definition TRANSFER_DOMAIN : byte := xe2.
Definition SLASH : byte := x15.

(** [scone-protocol/src/transaction.rs:73-73 TX_FORMAT_VERSION] *)
Definition TX_FORMAT_VERSION : byte := x01.
(** [scone-protocol/src/transaction.rs:76-76 TX_SIG_PREFIX] *)
Definition TX_SIG_PREFIX : list byte := ascii "SCONE-TX-SIG-V1".

(** [scone-protocol/src/transaction.rs:579-727 UnsignedTransaction] *)
Inductive UnsignedTransaction :=
| UnRegisterDomain (network : NetworkId) (name : DomainName) (domain_id : DomainId) (owner : OwnerId) (timestamp : N) (proof : Proof_) (public_key : PublicKey)
| UnUpdateDomain (network : NetworkId) (domain_id : DomainId) (owner : OwnerId) (sequence : N) (record_hash : RecordHash) (public_key : PublicKey)
| UnRegisterTld (network : NetworkId) (name : TldName) (tld_id : TldId) (owner : OwnerId) (timestamp : N) (proof : Proof_) (public_key : PublicKey)
| UnTransferTld (network : NetworkId) (tld_id : TldId) (owner : OwnerId) (new_owner : OwnerId) (public_key : PublicKey)
| UnRevokeTld (network : NetworkId) (tld_id : TldId) (owner : OwnerId) (public_key : PublicKey)
| UnSetTldOpen (network : NetworkId) (tld_id : TldId) (owner : OwnerId) (open : bool) (public_key : PublicKey)
| UnAssignDomain (network : NetworkId) (name : DomainName) (domain_id : DomainId) (owner : OwnerId) (assignee : OwnerId) (public_key : PublicKey)
| UnRenewDomain (network : NetworkId) (domain_id : DomainId) (owner : OwnerId) (valid_until : N) (public_key : PublicKey)
| UnTransferDomain (network : NetworkId) (domain_id : DomainId) (owner : OwnerId) (new_owner : OwnerId) (public_key : PublicKey)
| UnSlash (network : NetworkId) (offender : PublicKey) (evidence_a : CheckpointData) (sig_a : Signature) (evidence_b : CheckpointData) (sig_b : Signature) (public_key : PublicKey).

Section wire.
Context `{Crypto}.

(** [scone-protocol/src/transaction.rs:103-108 PublicKey::encode] *)
Definition PublicKey_encode (pk : PublicKey) : eresult := put_array pk.
(** [scone-protocol/src/transaction.rs:110-115 PublicKey::decode] *)
Definition PublicKey_decode : parser PublicKey :=
  let* bytes := take_array 32 in plift (ok_or (PublicKey_from_bytes bytes) InvalidTransactionKey).
Definition PublicKey_c : codec PublicKey :=
  mkCodec PublicKey_encode PublicKey_decode (λ pk, vk_valid pk = true).

(** [scone-protocol/src/transaction.rs:140-154 RegisterDomain::encode] *)
Definition RegisterDomain_encode (tx : RegisterDomain) : eresult :=
  let? _ := map_err Validation (RegisterDomain_validate tx) in
  cat [
    enc NetworkId_c (rd_network tx); enc DomainName_c (rd_name tx); enc id_c (rd_domain_id tx);
    enc id_c (rd_owner tx); enc u64_c (rd_timestamp tx); enc Proof_c (rd_proof tx);
    enc PublicKey_c (rd_public_key tx); enc Signature_c (rd_signature tx)].

(** [scone-protocol/src/transaction.rs:156-171 RegisterDomain::decode] *)
Definition RegisterDomain_decode : parser RegisterDomain :=
  let* network := dec NetworkId_c in
  let* name := dec DomainName_c in
  let* domain_id := dec id_c in
  let* owner := dec id_c in
  let* timestamp := dec u64_c in
  let* proof := dec Proof_c in
  let* public_key := dec PublicKey_c in
  let* signature := dec Signature_c in
  let tx := mkRegisterDomain network name domain_id owner timestamp proof public_key signature in
  plift (let? _ := map_err Validation (RegisterDomain_validate tx) in Ok tx).

Definition RegisterDomain_wf (tx : RegisterDomain) : Prop :=
  cwf NetworkId_c (rd_network tx) ∧ cwf DomainName_c (rd_name tx) ∧
  cwf id_c (rd_domain_id tx) ∧ cwf id_c (rd_owner tx) ∧ cwf u64_c (rd_timestamp tx) ∧
  cwf Proof_c (rd_proof tx) ∧ cwf PublicKey_c (rd_public_key tx) ∧
  cwf Signature_c (rd_signature tx) ∧
  RegisterDomain_validate tx = Ok tt.
Definition RegisterDomain_c : codec RegisterDomain := mkCodec RegisterDomain_encode RegisterDomain_decode RegisterDomain_wf.

(** [scone-protocol/src/transaction.rs:181-193 RegisterTld::encode] *)
Definition RegisterTld_encode (tx : RegisterTld) : eresult :=
  let? _ := map_err Validation (RegisterTld_validate tx) in
  cat [
    enc NetworkId_c (rt_network tx); enc TldName_c (rt_name tx); enc id_c (rt_tld_id tx);
    enc id_c (rt_owner tx); enc u64_c (rt_timestamp tx); enc Proof_c (rt_proof tx);
    enc PublicKey_c (rt_public_key tx); enc Signature_c (rt_signature tx)].

(** [scone-protocol/src/transaction.rs:195-210 RegisterTld::decode] *)
Definition RegisterTld_decode : parser RegisterTld :=
  let* network := dec NetworkId_c in
  let* name := dec TldName_c in
  let* tld_id := dec id_c in
  let* owner := dec id_c in
  let* timestamp := dec u64_c in
  let* proof := dec Proof_c in
  let* public_key := dec PublicKey_c in
  let* signature := dec Signature_c in
  let tx := mkRegisterTld network name tld_id owner timestamp proof public_key signature in
  plift (let? _ := map_err Validation (RegisterTld_validate tx) in Ok tx).

Definition RegisterTld_wf (tx : RegisterTld) : Prop :=
  cwf NetworkId_c (rt_network tx) ∧ cwf TldName_c (rt_name tx) ∧ cwf id_c (rt_tld_id tx) ∧
  cwf id_c (rt_owner tx) ∧ cwf u64_c (rt_timestamp tx) ∧ cwf Proof_c (rt_proof tx) ∧
  cwf PublicKey_c (rt_public_key tx) ∧ cwf Signature_c (rt_signature tx) ∧
  RegisterTld_validate tx = Ok tt.
Definition RegisterTld_c : codec RegisterTld := mkCodec RegisterTld_encode RegisterTld_decode RegisterTld_wf.

(** [scone-protocol/src/transaction.rs:216-227 UpdateDomain::encode] *)
Definition UpdateDomain_encode (tx : UpdateDomain) : eresult :=
  let? _ := map_err Validation (UpdateDomain_validate tx) in
  cat [
    enc NetworkId_c (ud_network tx); enc id_c (ud_domain_id tx); enc id_c (ud_owner tx);
    enc u64_c (ud_sequence tx); enc id_c (ud_record_hash tx);
    enc PublicKey_c (ud_public_key tx); enc Signature_c (ud_signature tx)].

(** [scone-protocol/src/transaction.rs:229-243 UpdateDomain::decode] *)
Definition UpdateDomain_decode : parser UpdateDomain :=
  let* network := dec NetworkId_c in
  let* domain_id := dec id_c in
  let* owner := dec id_c in
  let* sequence := dec u64_c in
  let* record_hash := dec id_c in
  let* public_key := dec PublicKey_c in
  let* signature := dec Signature_c in
  let tx := mkUpdateDomain network domain_id owner sequence record_hash public_key signature in
  plift (let? _ := map_err Validation (UpdateDomain_validate tx) in Ok tx).

Definition UpdateDomain_wf (tx : UpdateDomain) : Prop :=
  cwf NetworkId_c (ud_network tx) ∧ cwf id_c (ud_domain_id tx) ∧ cwf id_c (ud_owner tx) ∧
  cwf u64_c (ud_sequence tx) ∧ cwf id_c (ud_record_hash tx) ∧
  cwf PublicKey_c (ud_public_key tx) ∧ cwf Signature_c (ud_signature tx) ∧
  UpdateDomain_validate tx = Ok tt.
Definition UpdateDomain_c : codec UpdateDomain := mkCodec UpdateDomain_encode UpdateDomain_decode UpdateDomain_wf.

(** [scone-protocol/src/transaction.rs:270-280 TransferTld::encode] *)
Definition TransferTld_encode (tx : TransferTld) : eresult :=
  let? _ := map_err Validation (TransferTld_validate tx) in
  cat [
    enc NetworkId_c (tt_network tx); enc id_c (tt_tld_id tx); enc id_c (tt_owner tx);
    enc id_c (tt_new_owner tx); enc PublicKey_c (tt_public_key tx);
    enc Signature_c (tt_signature tx)].

(** [scone-protocol/src/transaction.rs:282-295 TransferTld::decode] *)
Definition TransferTld_decode : parser TransferTld :=
  let* network := dec NetworkId_c in
  let* tld_id := dec id_c in
  let* owner := dec id_c in
  let* new_owner := dec id_c in
  let* public_key := dec PublicKey_c in
  let* signature := dec Signature_c in
  let tx := mkTransferTld network tld_id owner new_owner public_key signature in
  plift (let? _ := map_err Validation (TransferTld_validate tx) in Ok tx).

Definition TransferTld_wf (tx : TransferTld) : Prop :=
  cwf NetworkId_c (tt_network tx) ∧ cwf id_c (tt_tld_id tx) ∧ cwf id_c (tt_owner tx) ∧
  cwf id_c (tt_new_owner tx) ∧ cwf PublicKey_c (tt_public_key tx) ∧
  cwf Signature_c (tt_signature tx) ∧
  TransferTld_validate tx = Ok tt.
Definition TransferTld_c : codec TransferTld := mkCodec TransferTld_encode TransferTld_decode TransferTld_wf.

(** [scone-protocol/src/transaction.rs:300-310 TransferDomain::encode] *)
Definition TransferDomain_encode (tx : TransferDomain) : eresult :=
  let? _ := map_err Validation (TransferDomain_validate tx) in
  cat [
    enc NetworkId_c (td_network tx); enc id_c (td_domain_id tx); enc id_c (td_owner tx);
    enc id_c (td_new_owner tx); enc PublicKey_c (td_public_key tx);
    enc Signature_c (td_signature tx)].

(** [scone-protocol/src/transaction.rs:312-325 TransferDomain::decode] *)
Definition TransferDomain_decode : parser TransferDomain :=
  let* network := dec NetworkId_c in
  let* domain_id := dec id_c in
  let* owner := dec id_c in
  let* new_owner := dec id_c in
  let* public_key := dec PublicKey_c in
  let* signature := dec Signature_c in
  let tx := mkTransferDomain network domain_id owner new_owner public_key signature in
  plift (let? _ := map_err Validation (TransferDomain_validate tx) in Ok tx).

Definition TransferDomain_wf (tx : TransferDomain) : Prop :=
  cwf NetworkId_c (td_network tx) ∧ cwf id_c (td_domain_id tx) ∧ cwf id_c (td_owner tx) ∧
  cwf id_c (td_new_owner tx) ∧ cwf PublicKey_c (td_public_key tx) ∧
  cwf Signature_c (td_signature tx) ∧
  TransferDomain_validate tx = Ok tt.
Definition TransferDomain_c : codec TransferDomain := mkCodec TransferDomain_encode TransferDomain_decode TransferDomain_wf.

(** [scone-protocol/src/transaction.rs:330-339 RevokeTld::encode] *)
Definition RevokeTld_encode (tx : RevokeTld) : eresult :=
  let? _ := map_err Validation (RevokeTld_validate tx) in
  cat [
    enc NetworkId_c (rv_network tx); enc id_c (rv_tld_id tx); enc id_c (rv_owner tx);
    enc PublicKey_c (rv_public_key tx); enc Signature_c (rv_signature tx)].

(** [scone-protocol/src/transaction.rs:341-353 RevokeTld::decode] *)
Definition RevokeTld_decode : parser RevokeTld :=
  let* network := dec NetworkId_c in
  let* tld_id := dec id_c in
  let* owner := dec id_c in
  let* public_key := dec PublicKey_c in
  let* signature := dec Signature_c in
  let tx := mkRevokeTld network tld_id owner public_key signature in
  plift (let? _ := map_err Validation (RevokeTld_validate tx) in Ok tx).

Definition RevokeTld_wf (tx : RevokeTld) : Prop :=
  cwf NetworkId_c (rv_network tx) ∧ cwf id_c (rv_tld_id tx) ∧ cwf id_c (rv_owner tx) ∧
  cwf PublicKey_c (rv_public_key tx) ∧ cwf Signature_c (rv_signature tx) ∧
  RevokeTld_validate tx = Ok tt.
Definition RevokeTld_c : codec RevokeTld := mkCodec RevokeTld_encode RevokeTld_decode RevokeTld_wf.

(** [scone-protocol/src/transaction.rs:358-368 SetTldOpen::encode] *)
Definition SetTldOpen_encode (tx : SetTldOpen) : eresult :=
  let? _ := map_err Validation (SetTldOpen_validate tx) in
  cat [
    enc NetworkId_c (so_network tx); enc id_c (so_tld_id tx); enc id_c (so_owner tx);
    enc bool_c (so_open tx); enc PublicKey_c (so_public_key tx);
    enc Signature_c (so_signature tx)].

(** [scone-protocol/src/transaction.rs:370-383 SetTldOpen::decode] *)
Definition SetTldOpen_decode : parser SetTldOpen :=
  let* network := dec NetworkId_c in
  let* tld_id := dec id_c in
  let* owner := dec id_c in
  let* open := dec bool_c in
  let* public_key := dec PublicKey_c in
  let* signature := dec Signature_c in
  let tx := mkSetTldOpen network tld_id owner open public_key signature in
  plift (let? _ := map_err Validation (SetTldOpen_validate tx) in Ok tx).

Definition SetTldOpen_wf (tx : SetTldOpen) : Prop :=
  cwf NetworkId_c (so_network tx) ∧ cwf id_c (so_tld_id tx) ∧ cwf id_c (so_owner tx) ∧
  cwf bool_c (so_open tx) ∧ cwf PublicKey_c (so_public_key tx) ∧
  cwf Signature_c (so_signature tx) ∧
  SetTldOpen_validate tx = Ok tt.
Definition SetTldOpen_c : codec SetTldOpen := mkCodec SetTldOpen_encode SetTldOpen_decode SetTldOpen_wf.

(** [scone-protocol/src/transaction.rs:391-402 AssignDomain::encode] *)
Definition AssignDomain_encode (tx : AssignDomain) : eresult :=
  let? _ := map_err Validation (AssignDomain_validate tx) in
  cat [
    enc NetworkId_c (ad_network tx); enc DomainName_c (ad_name tx); enc id_c (ad_domain_id tx);
    enc id_c (ad_owner tx); enc id_c (ad_assignee tx); enc PublicKey_c (ad_public_key tx);
    enc Signature_c (ad_signature tx)].

(** [scone-protocol/src/transaction.rs:404-418 AssignDomain::decode] *)
Definition AssignDomain_decode : parser AssignDomain :=
  let* network := dec NetworkId_c in
  let* name := dec DomainName_c in
  let* domain_id := dec id_c in
  let* owner := dec id_c in
  let* assignee := dec id_c in
  let* public_key := dec PublicKey_c in
  let* signature := dec Signature_c in
  let tx := mkAssignDomain network name domain_id owner assignee public_key signature in
  plift (let? _ := map_err Validation (AssignDomain_validate tx) in Ok tx).

Definition AssignDomain_wf (tx : AssignDomain) : Prop :=
  cwf NetworkId_c (ad_network tx) ∧ cwf DomainName_c (ad_name tx) ∧
  cwf id_c (ad_domain_id tx) ∧ cwf id_c (ad_owner tx) ∧ cwf id_c (ad_assignee tx) ∧
  cwf PublicKey_c (ad_public_key tx) ∧ cwf Signature_c (ad_signature tx) ∧
  AssignDomain_validate tx = Ok tt.
Definition AssignDomain_c : codec AssignDomain := mkCodec AssignDomain_encode AssignDomain_decode AssignDomain_wf.

(** [scone-protocol/src/transaction.rs:423-433 RenewDomain::encode] *)
Definition RenewDomain_encode (tx : RenewDomain) : eresult :=
  let? _ := map_err Validation (RenewDomain_validate tx) in
  cat [
    enc NetworkId_c (rn_network tx); enc id_c (rn_domain_id tx); enc id_c (rn_owner tx);
    enc u64_c (rn_valid_until tx); enc PublicKey_c (rn_public_key tx);
    enc Signature_c (rn_signature tx)].

(** [scone-protocol/src/transaction.rs:435-448 RenewDomain::decode] *)
Definition RenewDomain_decode : parser RenewDomain :=
  let* network := dec NetworkId_c in
  let* domain_id := dec id_c in
  let* owner := dec id_c in
  let* valid_until := dec u64_c in
  let* public_key := dec PublicKey_c in
  let* signature := dec Signature_c in
  let tx := mkRenewDomain network domain_id owner valid_until public_key signature in
  plift (let? _ := map_err Validation (RenewDomain_validate tx) in Ok tx).

Definition RenewDomain_wf (tx : RenewDomain) : Prop :=
  cwf NetworkId_c (rn_network tx) ∧ cwf id_c (rn_domain_id tx) ∧ cwf id_c (rn_owner tx) ∧
  cwf u64_c (rn_valid_until tx) ∧ cwf PublicKey_c (rn_public_key tx) ∧
  cwf Signature_c (rn_signature tx) ∧
  RenewDomain_validate tx = Ok tt.
Definition RenewDomain_c : codec RenewDomain := mkCodec RenewDomain_encode RenewDomain_decode RenewDomain_wf.

(** [scone-protocol/src/transaction.rs:461-473 SlashTx::encode] *)
Definition SlashTx_encode (tx : SlashTx) : eresult :=
  let? _ := map_err Validation (SlashTx_validate tx) in
  cat [
    enc NetworkId_c (sl_network tx); enc PublicKey_c (sl_offender tx);
    enc CheckpointData_c (sl_evidence_a tx); enc Signature_c (sl_sig_a tx);
    enc CheckpointData_c (sl_evidence_b tx); enc Signature_c (sl_sig_b tx);
    enc PublicKey_c (sl_public_key tx); enc Signature_c (sl_signature tx)].

(** [scone-protocol/src/transaction.rs:475-490 SlashTx::decode] *)
Definition SlashTx_decode : parser SlashTx :=
  let* network := dec NetworkId_c in
  let* offender := dec PublicKey_c in
  let* evidence_a := dec CheckpointData_c in
  let* sig_a := dec Signature_c in
  let* evidence_b := dec CheckpointData_c in
  let* sig_b := dec Signature_c in
  let* public_key := dec PublicKey_c in
  let* signature := dec Signature_c in
  let tx := mkSlashTx network offender evidence_a sig_a evidence_b sig_b public_key signature in
  plift (let? _ := map_err Validation (SlashTx_validate tx) in Ok tx).

Definition SlashTx_wf (tx : SlashTx) : Prop :=
  cwf NetworkId_c (sl_network tx) ∧ cwf PublicKey_c (sl_offender tx) ∧
  cwf CheckpointData_c (sl_evidence_a tx) ∧ cwf Signature_c (sl_sig_a tx) ∧
  cwf CheckpointData_c (sl_evidence_b tx) ∧ cwf Signature_c (sl_sig_b tx) ∧
  cwf PublicKey_c (sl_public_key tx) ∧ cwf Signature_c (sl_signature tx) ∧
  SlashTx_validate tx = Ok tt.
Definition SlashTx_c : codec SlashTx := mkCodec SlashTx_encode SlashTx_decode SlashTx_wf.

(** [scone-protocol/src/transaction.rs:492-547 Transaction::encode] *)
Definition Transaction_encode (tx : Transaction) : eresult :=
  match tx with
  | TxRegisterDomain tx => cat [Ok [REGISTER_DOMAIN; TX_FORMAT_VERSION]; enc RegisterDomain_c tx]
  | TxUpdateDomain tx => cat [Ok [UPDATE_DOMAIN; TX_FORMAT_VERSION]; enc UpdateDomain_c tx]
  | TxRegisterTld tx => cat [Ok [REGISTER_TLD; TX_FORMAT_VERSION]; enc RegisterTld_c tx]
  | TxTransferTld tx => cat [Ok [TRANSFER_TLD; TX_FORMAT_VERSION]; enc TransferTld_c tx]
  | TxRevokeTld tx => cat [Ok [REVOKE_TLD; TX_FORMAT_VERSION]; enc RevokeTld_c tx]
  | TxSetTldOpen tx => cat [Ok [SET_TLD_OPEN; TX_FORMAT_VERSION]; enc SetTldOpen_c tx]
  | TxAssignDomain tx => cat [Ok [ASSIGN_DOMAIN; TX_FORMAT_VERSION]; enc AssignDomain_c tx]
  | TxRenewDomain tx => cat [Ok [RENEW_DOMAIN; TX_FORMAT_VERSION]; enc RenewDomain_c tx]
  | TxTransferDomain tx => cat [Ok [TRANSFER_DOMAIN; TX_FORMAT_VERSION]; enc TransferDomain_c tx]
  | TxSlash tx => cat [Ok [SLASH; TX_FORMAT_VERSION]; enc SlashTx_c tx]
  end.

(** [scone-protocol/src/transaction.rs:549-575 Transaction::decode] *)
Definition Transaction_decode : parser Transaction :=
  let* disc := take_u8 in
  let* version := take_u8 in
  if negb (byte_eqb version TX_FORMAT_VERSION) then pfail (UnsupportedVersion (Byte.to_N version))
  else if byte_eqb disc REGISTER_DOMAIN then let* tx := dec RegisterDomain_c in pret (TxRegisterDomain tx)
  else if byte_eqb disc UPDATE_DOMAIN then let* tx := dec UpdateDomain_c in pret (TxUpdateDomain tx)
  else if byte_eqb disc REGISTER_TLD then let* tx := dec RegisterTld_c in pret (TxRegisterTld tx)
  else if byte_eqb disc TRANSFER_TLD then let* tx := dec TransferTld_c in pret (TxTransferTld tx)
  else if byte_eqb disc REVOKE_TLD then let* tx := dec RevokeTld_c in pret (TxRevokeTld tx)
  else if byte_eqb disc SET_TLD_OPEN then let* tx := dec SetTldOpen_c in pret (TxSetTldOpen tx)
  else if byte_eqb disc ASSIGN_DOMAIN then let* tx := dec AssignDomain_c in pret (TxAssignDomain tx)
  else if byte_eqb disc RENEW_DOMAIN then let* tx := dec RenewDomain_c in pret (TxRenewDomain tx)
  else if byte_eqb disc TRANSFER_DOMAIN then let* tx := dec TransferDomain_c in pret (TxTransferDomain tx)
  else if byte_eqb disc SLASH then let* tx := dec SlashTx_c in pret (TxSlash tx)
  else pfail (UnknownDiscriminant "transaction" (Byte.to_N disc)).

Definition Transaction_wf (tx : Transaction) : Prop :=
  match tx with
  | TxRegisterDomain tx => cwf RegisterDomain_c tx
  | TxUpdateDomain tx => cwf UpdateDomain_c tx
  | TxRegisterTld tx => cwf RegisterTld_c tx
  | TxTransferTld tx => cwf TransferTld_c tx
  | TxRevokeTld tx => cwf RevokeTld_c tx
  | TxSetTldOpen tx => cwf SetTldOpen_c tx
  | TxAssignDomain tx => cwf AssignDomain_c tx
  | TxRenewDomain tx => cwf RenewDomain_c tx
  | TxTransferDomain tx => cwf TransferDomain_c tx
  | TxSlash tx => cwf SlashTx_c tx
  end.
Definition Transaction_c : codec Transaction :=
  mkCodec Transaction_encode Transaction_decode Transaction_wf.

(** [scone-protocol/src/transaction.rs:729-811 UnsignedTransaction::from] *)
Definition UnsignedTransaction_from (tx : Transaction) : UnsignedTransaction :=
  match tx with
  | TxRegisterDomain tx =>
      UnRegisterDomain (rd_network tx) (rd_name tx) (rd_domain_id tx) (rd_owner tx) (rd_timestamp tx)
        (rd_proof tx) (rd_public_key tx)
  | TxUpdateDomain tx =>
      UnUpdateDomain (ud_network tx) (ud_domain_id tx) (ud_owner tx) (ud_sequence tx) (ud_record_hash tx)
        (ud_public_key tx)
  | TxRegisterTld tx =>
      UnRegisterTld (rt_network tx) (rt_name tx) (rt_tld_id tx) (rt_owner tx) (rt_timestamp tx)
        (rt_proof tx) (rt_public_key tx)
  | TxTransferTld tx =>
      UnTransferTld (tt_network tx) (tt_tld_id tx) (tt_owner tx) (tt_new_owner tx) (tt_public_key tx)
  | TxRevokeTld tx =>
      UnRevokeTld (rv_network tx) (rv_tld_id tx) (rv_owner tx) (rv_public_key tx)
  | TxSetTldOpen tx =>
      UnSetTldOpen (so_network tx) (so_tld_id tx) (so_owner tx) (so_open tx) (so_public_key tx)
  | TxAssignDomain tx =>
      UnAssignDomain (ad_network tx) (ad_name tx) (ad_domain_id tx) (ad_owner tx) (ad_assignee tx)
        (ad_public_key tx)
  | TxRenewDomain tx =>
      UnRenewDomain (rn_network tx) (rn_domain_id tx) (rn_owner tx) (rn_valid_until tx) (rn_public_key tx)
  | TxTransferDomain tx =>
      UnTransferDomain (td_network tx) (td_domain_id tx) (td_owner tx) (td_new_owner tx) (td_public_key tx)
  | TxSlash tx =>
      UnSlash (sl_network tx) (sl_offender tx) (sl_evidence_a tx) (sl_sig_a tx) (sl_evidence_b tx)
        (sl_sig_b tx) (sl_public_key tx)
  end.

(** [scone-protocol/src/transaction.rs:813-982 UnsignedTransaction::encode] *)
Definition UnsignedTransaction_encode (u : UnsignedTransaction) : eresult :=
  match u with
  | UnRegisterDomain network name domain_id owner timestamp proof public_key =>
      cat [Ok [REGISTER_DOMAIN; TX_FORMAT_VERSION];
           enc NetworkId_c network; enc DomainName_c name; enc id_c domain_id; enc id_c owner;
           enc u64_c timestamp; enc Proof_c proof; enc PublicKey_c public_key]
  | UnUpdateDomain network domain_id owner sequence record_hash public_key =>
      cat [Ok [UPDATE_DOMAIN; TX_FORMAT_VERSION];
           enc NetworkId_c network; enc id_c domain_id; enc id_c owner; enc u64_c sequence;
           enc id_c record_hash; enc PublicKey_c public_key]
  | UnRegisterTld network name tld_id owner timestamp proof public_key =>
      cat [Ok [REGISTER_TLD; TX_FORMAT_VERSION];
           enc NetworkId_c network; enc TldName_c name; enc id_c tld_id; enc id_c owner;
           enc u64_c timestamp; enc Proof_c proof; enc PublicKey_c public_key]
  | UnTransferTld network tld_id owner new_owner public_key =>
      cat [Ok [TRANSFER_TLD; TX_FORMAT_VERSION];
           enc NetworkId_c network; enc id_c tld_id; enc id_c owner; enc id_c new_owner;
           enc PublicKey_c public_key]
  | UnRevokeTld network tld_id owner public_key =>
      cat [Ok [REVOKE_TLD; TX_FORMAT_VERSION];
           enc NetworkId_c network; enc id_c tld_id; enc id_c owner; enc PublicKey_c public_key]
  | UnSetTldOpen network tld_id owner open public_key =>
      cat [Ok [SET_TLD_OPEN; TX_FORMAT_VERSION];
           enc NetworkId_c network; enc id_c tld_id; enc id_c owner; enc bool_c open;
           enc PublicKey_c public_key]
  | UnAssignDomain network name domain_id owner assignee public_key =>
      cat [Ok [ASSIGN_DOMAIN; TX_FORMAT_VERSION];
           enc NetworkId_c network; enc DomainName_c name; enc id_c domain_id; enc id_c owner;
           enc id_c assignee; enc PublicKey_c public_key]
  | UnRenewDomain network domain_id owner valid_until public_key =>
      cat [Ok [RENEW_DOMAIN; TX_FORMAT_VERSION];
           enc NetworkId_c network; enc id_c domain_id; enc id_c owner; enc u64_c valid_until;
           enc PublicKey_c public_key]
  | UnTransferDomain network domain_id owner new_owner public_key =>
      cat [Ok [TRANSFER_DOMAIN; TX_FORMAT_VERSION];
           enc NetworkId_c network; enc id_c domain_id; enc id_c owner; enc id_c new_owner;
           enc PublicKey_c public_key]
  | UnSlash network offender evidence_a sig_a evidence_b sig_b public_key =>
      cat [Ok [SLASH; TX_FORMAT_VERSION];
           enc NetworkId_c network; enc PublicKey_c offender; enc CheckpointData_c evidence_a;
           enc Signature_c sig_a; enc CheckpointData_c evidence_b; enc Signature_c sig_b;
           enc PublicKey_c public_key]
  end.

(** [scone-protocol/src/transaction.rs:984-1077 UnsignedTransaction::decode] *)
Definition UnsignedTransaction_decode : parser UnsignedTransaction :=
  let* disc := take_u8 in
  let* version := take_u8 in
  if negb (byte_eqb version TX_FORMAT_VERSION) then pfail (UnsupportedVersion (Byte.to_N version))
  else if byte_eqb disc REGISTER_DOMAIN then
    let* network := dec NetworkId_c in
    let* name := dec DomainName_c in
    let* domain_id := dec id_c in
    let* owner := dec id_c in
    let* timestamp := dec u64_c in
    let* proof := dec Proof_c in
    let* public_key := dec PublicKey_c in
    pret (UnRegisterDomain network name domain_id owner timestamp proof public_key)
  else if byte_eqb disc UPDATE_DOMAIN then
    let* network := dec NetworkId_c in
    let* domain_id := dec id_c in
    let* owner := dec id_c in
    let* sequence := dec u64_c in
    let* record_hash := dec id_c in
    let* public_key := dec PublicKey_c in
    pret (UnUpdateDomain network domain_id owner sequence record_hash public_key)
  else if byte_eqb disc REGISTER_TLD then
    let* network := dec NetworkId_c in
    let* name := dec TldName_c in
    let* tld_id := dec id_c in
    let* owner := dec id_c in
    let* timestamp := dec u64_c in
    let* proof := dec Proof_c in
    let* public_key := dec PublicKey_c in
    pret (UnRegisterTld network name tld_id owner timestamp proof public_key)
  else if byte_eqb disc TRANSFER_TLD then
    let* network := dec NetworkId_c in
    let* tld_id := dec id_c in
    let* owner := dec id_c in
    let* new_owner := dec id_c in
    let* public_key := dec PublicKey_c in
    pret (UnTransferTld network tld_id owner new_owner public_key)
  else if byte_eqb disc REVOKE_TLD then
    let* network := dec NetworkId_c in
    let* tld_id := dec id_c in
    let* owner := dec id_c in
    let* public_key := dec PublicKey_c in
    pret (UnRevokeTld network tld_id owner public_key)
  else if byte_eqb disc SET_TLD_OPEN then
    let* network := dec NetworkId_c in
    let* tld_id := dec id_c in
    let* owner := dec id_c in
    let* open := dec bool_c in
    let* public_key := dec PublicKey_c in
    pret (UnSetTldOpen network tld_id owner open public_key)
  else if byte_eqb disc ASSIGN_DOMAIN then
    let* network := dec NetworkId_c in
    let* name := dec DomainName_c in
    let* domain_id := dec id_c in
    let* owner := dec id_c in
    let* assignee := dec id_c in
    let* public_key := dec PublicKey_c in
    pret (UnAssignDomain network name domain_id owner assignee public_key)
  else if byte_eqb disc RENEW_DOMAIN then
    let* network := dec NetworkId_c in
    let* domain_id := dec id_c in
    let* owner := dec id_c in
    let* valid_until := dec u64_c in
    let* public_key := dec PublicKey_c in
    pret (UnRenewDomain network domain_id owner valid_until public_key)
  else if byte_eqb disc TRANSFER_DOMAIN then
    let* network := dec NetworkId_c in
    let* domain_id := dec id_c in
    let* owner := dec id_c in
    let* new_owner := dec id_c in
    let* public_key := dec PublicKey_c in
    pret (UnTransferDomain network domain_id owner new_owner public_key)
  else if byte_eqb disc SLASH then
    let* network := dec NetworkId_c in
    let* offender := dec PublicKey_c in
    let* evidence_a := dec CheckpointData_c in
    let* sig_a := dec Signature_c in
    let* evidence_b := dec CheckpointData_c in
    let* sig_b := dec Signature_c in
    let* public_key := dec PublicKey_c in
    pret (UnSlash network offender evidence_a sig_a evidence_b sig_b public_key)
  else pfail (UnknownDiscriminant "transaction" (Byte.to_N disc)).

Definition UnsignedTransaction_wf (u : UnsignedTransaction) : Prop :=
  match u with
  | UnRegisterDomain network name domain_id owner timestamp proof public_key =>
      cwf NetworkId_c network ∧ cwf DomainName_c name ∧ cwf id_c domain_id ∧ cwf id_c owner ∧
      cwf u64_c timestamp ∧ cwf Proof_c proof ∧ cwf PublicKey_c public_key
  | UnUpdateDomain network domain_id owner sequence record_hash public_key =>
      cwf NetworkId_c network ∧ cwf id_c domain_id ∧ cwf id_c owner ∧ cwf u64_c sequence ∧
      cwf id_c record_hash ∧ cwf PublicKey_c public_key
  | UnRegisterTld network name tld_id owner timestamp proof public_key =>
      cwf NetworkId_c network ∧ cwf TldName_c name ∧ cwf id_c tld_id ∧ cwf id_c owner ∧
      cwf u64_c timestamp ∧ cwf Proof_c proof ∧ cwf PublicKey_c public_key
  | UnTransferTld network tld_id owner new_owner public_key =>
      cwf NetworkId_c network ∧ cwf id_c tld_id ∧ cwf id_c owner ∧ cwf id_c new_owner ∧
      cwf PublicKey_c public_key
  | UnRevokeTld network tld_id owner public_key =>
      cwf NetworkId_c network ∧ cwf id_c tld_id ∧ cwf id_c owner ∧ cwf PublicKey_c public_key
  | UnSetTldOpen network tld_id owner open public_key =>
      cwf NetworkId_c network ∧ cwf id_c tld_id ∧ cwf id_c owner ∧ cwf bool_c open ∧
      cwf PublicKey_c public_key
  | UnAssignDomain network name domain_id owner assignee public_key =>
      cwf NetworkId_c network ∧ cwf DomainName_c name ∧ cwf id_c domain_id ∧ cwf id_c owner ∧
      cwf id_c assignee ∧ cwf PublicKey_c public_key
  | UnRenewDomain network domain_id owner valid_until public_key =>
      cwf NetworkId_c network ∧ cwf id_c domain_id ∧ cwf id_c owner ∧ cwf u64_c valid_until ∧
      cwf PublicKey_c public_key
  | UnTransferDomain network domain_id owner new_owner public_key =>
      cwf NetworkId_c network ∧ cwf id_c domain_id ∧ cwf id_c owner ∧ cwf id_c new_owner ∧
      cwf PublicKey_c public_key
  | UnSlash network offender evidence_a sig_a evidence_b sig_b public_key =>
      cwf NetworkId_c network ∧ cwf PublicKey_c offender ∧ cwf CheckpointData_c evidence_a ∧
      cwf Signature_c sig_a ∧ cwf CheckpointData_c evidence_b ∧ cwf Signature_c sig_b ∧
      cwf PublicKey_c public_key
  end.
Definition UnsignedTransaction_c : codec UnsignedTransaction :=
  mkCodec UnsignedTransaction_encode UnsignedTransaction_decode UnsignedTransaction_wf.

(** [scone-protocol/src/transaction.rs:1094-1099 signing_payload] *)
Definition signing_payload (tx : Transaction) : eresult :=
  let? e := enc UnsignedTransaction_c (UnsignedTransaction_from tx) in Ok (TX_SIG_PREFIX ++ e).

(** ** The codecs are lawful *)

#[global] Instance id_lawful : Lawful id_c.
Proof. apply array_lawful. Qed.
#[global] Instance Signature_lawful : Lawful Signature_c.
Proof. apply (array_lawful 64). Qed.
#[global] Instance Proof_lawful : Lawful Proof_c.
Proof. by apply bounded_lawful. Qed.

#[global] Instance bool_lawful : Lawful bool_c.
Proof.
  split; simpl.
  - by intros [] bs r _ [= <-].
  - intros [|b i] a r; [done|]. unfold bool_decode, pbind. simpl.
    destruct b; try done; intros [= <- <-]; (split; [done|]); eexists; by split.
Qed.

#[global] Instance PublicKey_lawful : Lawful PublicKey_c.
Proof.
  apply (validated_lawful (array_c 32) id (λ b, ok_or (PublicKey_from_bytes b) InvalidTransactionKey)).
  - intros pk Hpk. split; [done|]. unfold PublicKey_from_bytes, id. by rewrite Hpk.
  - intros a b _ E%ok_or_Ok. unfold PublicKey_from_bytes in E.
    destruct (vk_valid a) eqn:Hv; [|done]. injection E as <-. done.
Qed.

(** A name read from the wire is checked as UTF-8 and by [scone-core]. *)
Lemma name_lawful {A} (max : N) what (f : A → list byte) (new : list byte → result SconeError A)
    (wf : A → Prop) :
  max < U64 →
  (∀ a, wf a → utf8_valid (f a) = true ∧ new (f a) = Ok a) →
  (∀ b a, new b = Ok a → wf a ∧ f a = b) →
  Lawful (mkCodec (λ a, put_bounded (f a) max what)
    (let* bytes := take_bytes max what in
     plift (let? text := from_utf8 bytes in map_err Validation (new text))) wf).
Proof.
  intros Hm Hf Hg. pose proof (bounded_lawful max what Hm).
  apply (validated_lawful (bounded_c max what) f
    (λ b, let? text := from_utf8 b in map_err Validation (new text))).
  - intros a [Hu Hn]%Hf. split; [done|]. apply rbind_Ok. exists (f a).
    split; [by apply from_utf8_Ok|]. by apply map_err_Ok.
  - intros b a _ (t & [_ ->]%from_utf8_Ok & E%map_err_Ok)%rbind_Ok. by apply Hg.
Qed.

Lemma label_byte_ascii b : label_byte b = true → Byte.to_N b <? 0x80 = true.
Proof. by destruct b. Qed.

Lemma label_utf8 s : forallb label_byte s = true → utf8_valid s = true.
Proof.
  intros Hs. apply utf8_valid_ascii. rewrite forallb_forall in Hs |- *.
  intros b Hb. by apply label_byte_ascii, Hs.
Qed.

Lemma is_ldh_bytes l : is_ldh l = true → forallb label_byte l = true.
Proof. by intros [_ ?]%andb_true_iff. Qed.

#[global] Instance NetworkId_lawful : Lawful NetworkId_c.
Proof.
  apply (name_lawful _ _ NetworkId_as_bytes NetworkId_new); [done| |].
  - intros n Hn. split; [|done]. apply label_utf8. unfold NetworkId_valid, NetworkId_new in Hn.
    destruct (_ || _); [done|]. by destruct (forallb label_byte (NetworkId_as_bytes n)).
  - intros b n [E1 E2]%NetworkId_new_as_bytes. done.
Qed.

#[global] Instance TldName_lawful : Lawful TldName_c.
Proof.
  apply (name_lawful _ _ id TldName_new); [done| |]; unfold id, TldName_new.
  - intros t Ht. split; [|by rewrite Ht]. apply TldName_valid_iff in Ht as [_ Ht].
    by apply label_utf8, is_ldh_bytes.
  - intros b t ([] & Hv & [= ->])%rbind_Ok. done.
Qed.

Lemma DomainName_utf8 n : DomainName_valid n → utf8_valid n = true.
Proof.
  intros [_ (ls & t & _ & E & [_ Ht]%TldName_valid_iff & Hls)]%DomainName_valid_spec.
  apply utf8_valid_ascii, forallb_forall. rewrite <- (join_split_dot n), E.
  assert (Forall (λ l, is_ldh l = true) (ls ++ [t])) as Hall.
  { apply Forall_app. split; [|by constructor]. eapply Forall_impl; [exact Hls|]. by intros ? [_ ?]. }
  clear -Hall. induction Hall as [|l ls' Hl Hls IH]; [done|]. intros b Hb.
  assert (In b l ∨ b = DOT ∨ In b (join_dot ls')) as [?|[->|?]]; [| |done|by apply IH].
  { destruct ls'; [by left|]. change (join_dot (l :: l0 :: ls')) with (l ++ DOT :: join_dot (l0 :: ls')) in Hb.
    apply in_app_or in Hb as [?|[<-|?]]; auto. }
  apply is_ldh_bytes in Hl. rewrite forallb_forall in Hl. by apply label_byte_ascii, Hl.
Qed.

#[global] Instance DomainName_lawful : Lawful DomainName_c.
Proof.
  apply (name_lawful _ _ id DomainName_new); [done| |]; unfold id, DomainName_new.
  - intros t Ht. split; [by apply DomainName_utf8|by rewrite Ht].
  - intros b t ([] & Hv & [= ->])%rbind_Ok. done.
Qed.

(** *** Checkpoint bodies *)

Lemma slice_skip lo hi (a l : list byte) :
  (length a ≤ lo)%nat → slice lo hi (a ++ l) = slice (lo - length a) (hi - length a) l.
Proof.
  intros Ha. unfold slice. rewrite drop_app_ge by done.
  by replace (hi - length a - (lo - length a))%nat with (hi - lo)%nat by lia.
Qed.

Lemma slice_head hi (a l : list byte) : length a = hi → slice 0 hi (a ++ l) = a.
Proof. intros <-. unfold slice. rewrite Nat.sub_0_r. apply take_app_length. Qed.

Lemma slice_slice lo mid hi (l : list byte) :
  (lo ≤ mid ≤ hi)%nat → slice lo mid l ++ slice mid hi l = slice lo hi l.
Proof.
  intros Hm. unfold slice. rewrite <- (take_drop (mid - lo) (take (hi - lo) (drop lo l))).
  rewrite take_take, Nat.min_l by lia. f_equal. rewrite skipn_firstn_comm, drop_drop.
  f_equal; [lia|f_equal; lia].
Qed.

Lemma length_slice lo hi (l : list byte) : (hi ≤ length l)%nat → length (slice lo hi l) = (hi - lo)%nat.
Proof. intros Hl. unfold slice. rewrite length_take, length_drop. lia. Qed.

Lemma slice_all (l : list byte) : slice 0 (length l) l = l.
Proof. unfold slice. rewrite Nat.sub_0_r. apply firstn_all. Qed.

Lemma arr_of_arr (a : hash) : arr_of 32 a = a.
Proof.
  apply arr_eq. rewrite arr_of_id by (by rewrite arr_length).
  rewrite arr_length. by rewrite app_nil_r.
Qed.

Lemma arr_of_length (l : list byte) : length l = 32%nat → arr_list (arr_of 32 l) = l.
Proof. intros Hl. rewrite arr_of_id by lia. rewrite Hl. by rewrite app_nil_r. Qed.

#[global] Instance CheckpointData_lawful : Lawful CheckpointData_c.
Proof.
  split; cbn [enc dec cwf CheckpointData_c].
  - intros d bs r (He & Hh & Hr) Ebs%Ok_inj. unfold CheckpointData_decode.
    destruct (to_arr_is_Some CHECKPOINT_DATA_LEN bs) as (body & _ & Eb).
    { rewrite <- Ebs. by rewrite !length_app, !length_le_bytes, !arr_length. }
    rewrite <- Eb. erewrite pbind_step by (apply (roundtrip (c := array_c _)); done).
    unfold pret. rewrite Eb, <- Ebs. clear Eb Ebs. destruct d as [e h bh ph sr rc].
    cbn [epoch height recovery block_hash prev_checkpoint_hash state_root] in *.
    repeat match goal with |- context [slice ?lo ?hi (?a ++ ?l)] =>
      rewrite (slice_skip lo hi a l) by (rewrite ?length_le_bytes, ?arr_length; lia);
      rewrite ?length_le_bytes, ?arr_length; cbn [Nat.sub] end.
    rewrite !slice_head by (rewrite ?length_le_bytes, ?arr_length; done).
    rewrite !arr_of_arr, !le_val_le_bytes_64, le_val_le_bytes_32 by done.
    do 3 f_equal. rewrite <- (app_nil_r (arr_list sr)), slice_head by apply arr_length. apply arr_of_arr.
  - intros i d r (body & m & Hb & E)%pbind_Ok. apply pret_Ok in E as [<- <-].
    apply (canonical (c := array_c _)) in Hb as (_ & bs & [= <-] & ->).
    assert (length body = 116%nat) as Hl by apply arr_length.
    unfold CheckpointData_wf, CheckpointData_encode. cbn [epoch height recovery block_hash prev_checkpoint_hash state_root].
    split.
    + pose proof (le_val_lt (slice 0 8 body)) as H1. pose proof (le_val_lt (slice 8 16 body)) as H2.
      pose proof (le_val_lt (slice 16 20 body)) as H3.
      rewrite (length_slice 0 8) in H1 by lia. rewrite (length_slice 8 16) in H2 by lia.
      rewrite (length_slice 16 20) in H3 by lia. unfold U32_MAX.
      split_and!; [exact H1|exact H2|].
      change (256 ^ N.of_nat (20 - 16)) with (2 ^ 32) in H3. lia.
    + eexists. split; [done|]. f_equal.
      rewrite !le_bytes_le_val_n, !arr_of_length by (rewrite length_slice; lia).
      rewrite !slice_slice by lia. by rewrite <- Hl, slice_all.
Qed.

(** *** Transactions *)

Ltac struct_roundtrip c e d w :=
  let t := fresh "t" in let bs := fresh "bs" in let r := fresh "r" in
  let Hw := fresh "Hw" in let E := fresh "E" in let Hv := fresh "Hv" in
  intros t bs r Hw E; cbn [cwf enc dec c] in Hw, E |- *; unfold w in Hw; unfold e in E; unfold d;
  repeat match type of Hw with _ ∧ _ => let Hf := fresh "Hf" in destruct Hw as [Hf Hw] end;
  rewrite Hw in E; cbn [map_err rbind] in E; cat_inv E; codec_read;
  match type of Hw with ?V t = _ =>
    assert (plift (let? _ := map_err Validation (V t) in Ok t) r = Ok (t, r)) as Hv
      by (unfold plift; by rewrite Hw)
  end;
  destruct t; exact Hv.

Ltac struct_canonical c e d w :=
  let i := fresh "i" in let t := fresh "t" in let r := fresh "r" in
  let E := fresh "E" in let Hv := fresh "Hv" in
  intros i t r E; cbn [cwf enc dec c] in E |- *; unfold d in E; dec_inv E;
  apply plift_Ok in E as [E ->]; apply rbind_Ok in E as ([] & Hv & E);
  apply map_err_Ok in Hv; apply Ok_inj in E; subst t;
  split; [unfold w; repeat (split; [assumption|]); exact Hv|];
  unfold e; rewrite Hv; cbn [map_err rbind]; codec_write.

#[global] Instance RegisterDomain_lawful : Lawful RegisterDomain_c.
Proof.
  split.
  - struct_roundtrip RegisterDomain_c RegisterDomain_encode RegisterDomain_decode RegisterDomain_wf.
  - struct_canonical RegisterDomain_c RegisterDomain_encode RegisterDomain_decode RegisterDomain_wf.
Qed.
#[global] Instance RegisterTld_lawful : Lawful RegisterTld_c.
Proof.
  split.
  - struct_roundtrip RegisterTld_c RegisterTld_encode RegisterTld_decode RegisterTld_wf.
  - struct_canonical RegisterTld_c RegisterTld_encode RegisterTld_decode RegisterTld_wf.
Qed.
#[global] Instance UpdateDomain_lawful : Lawful UpdateDomain_c.
Proof.
  split.
  - struct_roundtrip UpdateDomain_c UpdateDomain_encode UpdateDomain_decode UpdateDomain_wf.
  - struct_canonical UpdateDomain_c UpdateDomain_encode UpdateDomain_decode UpdateDomain_wf.
Qed.
#[global] Instance TransferTld_lawful : Lawful TransferTld_c.
Proof.
  split.
  - struct_roundtrip TransferTld_c TransferTld_encode TransferTld_decode TransferTld_wf.
  - struct_canonical TransferTld_c TransferTld_encode TransferTld_decode TransferTld_wf.
Qed.
#[global] Instance TransferDomain_lawful : Lawful TransferDomain_c.
Proof.
  split.
  - struct_roundtrip TransferDomain_c TransferDomain_encode TransferDomain_decode TransferDomain_wf.
  - struct_canonical TransferDomain_c TransferDomain_encode TransferDomain_decode TransferDomain_wf.
Qed.
#[global] Instance RevokeTld_lawful : Lawful RevokeTld_c.
Proof.
  split.
  - struct_roundtrip RevokeTld_c RevokeTld_encode RevokeTld_decode RevokeTld_wf.
  - struct_canonical RevokeTld_c RevokeTld_encode RevokeTld_decode RevokeTld_wf.
Qed.
#[global] Instance SetTldOpen_lawful : Lawful SetTldOpen_c.
Proof.
  split.
  - struct_roundtrip SetTldOpen_c SetTldOpen_encode SetTldOpen_decode SetTldOpen_wf.
  - struct_canonical SetTldOpen_c SetTldOpen_encode SetTldOpen_decode SetTldOpen_wf.
Qed.
#[global] Instance AssignDomain_lawful : Lawful AssignDomain_c.
Proof.
  split.
  - struct_roundtrip AssignDomain_c AssignDomain_encode AssignDomain_decode AssignDomain_wf.
  - struct_canonical AssignDomain_c AssignDomain_encode AssignDomain_decode AssignDomain_wf.
Qed.
#[global] Instance RenewDomain_lawful : Lawful RenewDomain_c.
Proof.
  split.
  - struct_roundtrip RenewDomain_c RenewDomain_encode RenewDomain_decode RenewDomain_wf.
  - struct_canonical RenewDomain_c RenewDomain_encode RenewDomain_decode RenewDomain_wf.
Qed.
#[global] Instance SlashTx_lawful : Lawful SlashTx_c.
Proof.
  split.
  - struct_roundtrip SlashTx_c SlashTx_encode SlashTx_decode SlashTx_wf.
  - struct_canonical SlashTx_c SlashTx_encode SlashTx_decode SlashTx_wf.
Qed.


Lemma take_u8_Ok i b m : take_u8 i = Ok (b, m) ↔ i = b :: m.
Proof. destruct i; simpl; naive_solver. Qed.

Ltac byte_tests :=
  repeat match goal with |- context [byte_eqb ?a ?b] =>
    let v := eval vm_compute in (byte_eqb a b) in change (byte_eqb a b) with v end;
  cbn [negb].

(** The bytes before the payload: discriminator and format version. *)
Ltac tagged_read :=
  rewrite <- ?app_assoc; cbn [app];
  repeat (erewrite pbind_step by (by apply take_u8_Ok)); byte_tests; repeat dec_step.

#[global] Instance Transaction_lawful : Lawful Transaction_c.
Proof.
  split; cbn [cwf enc dec Transaction_c].
  - intros tx bs r Hw E. unfold Transaction_decode, Transaction_encode, Transaction_wf in *.
    destruct tx; cat_inv E; apply Ok_inj in He; subst; tagged_read; done.
  - intros i tx r E. unfold Transaction_decode in E.
    apply pbind_Ok in E as (disc & i1 & ->%take_u8_Ok & E).
    apply pbind_Ok in E as (version & i2 & ->%take_u8_Ok & E).
    destruct (byte_eqb version TX_FORMAT_VERSION) eqn:Ev; [|done]. apply byte_eqb_eq in Ev as ->.
    cbn [negb] in E.
    repeat match type of E with (if byte_eqb disc ?k then _ else _) _ = _ =>
      let Ed := fresh "Ed" in
      destruct (byte_eqb disc k) eqn:Ed;
      [apply byte_eqb_eq in Ed as ->; dec_inv E; apply pret_Ok in E as [<- ->];
       split; [done|]; unfold Transaction_encode;
       eexists; split; [apply cat_Ok; [reflexivity|]; apply cat_Ok; [eassumption|]; apply cat_nil_Ok
                       |by rewrite app_nil_r]|]
    end.
    done.
Qed.

#[global] Instance UnsignedTransaction_lawful : Lawful UnsignedTransaction_c.
Proof.
  split; cbn [cwf enc dec UnsignedTransaction_c].
  - intros u bs r Hw E. unfold UnsignedTransaction_decode, UnsignedTransaction_encode, UnsignedTransaction_wf in *.
    destruct u; repeat match type of Hw with _ ∧ _ => let Hf := fresh "Hf" in destruct Hw as [Hf Hw] end;
      cat_inv E; apply Ok_inj in He; subst; tagged_read; done.
  - intros i u r E. unfold UnsignedTransaction_decode in E.
    apply pbind_Ok in E as (disc & i1 & ->%take_u8_Ok & E).
    apply pbind_Ok in E as (version & i2 & ->%take_u8_Ok & E).
    destruct (byte_eqb version TX_FORMAT_VERSION) eqn:Ev; [|done]. apply byte_eqb_eq in Ev as ->.
    cbn [negb] in E.
    repeat match type of E with (if byte_eqb disc ?k then _ else _) _ = _ =>
      let Ed := fresh "Ed" in
      destruct (byte_eqb disc k) eqn:Ed;
      [apply byte_eqb_eq in Ed as ->; dec_inv E; apply pret_Ok in E as [<- ->];
       split; [unfold UnsignedTransaction_wf; repeat (split; [done|]); done|];
       unfold UnsignedTransaction_encode;
       eexists; split; [apply cat_Ok; [reflexivity|]; repeat (apply cat_Ok; [eassumption|]); apply cat_nil_Ok
                       |by rewrite <- ?app_assoc]|]
    end.
    done.
Qed.

(** ** What a signature covers *)

Lemma UnsignedTransaction_from_wf tx :
  Transaction_wf tx → UnsignedTransaction_wf (UnsignedTransaction_from tx).
Proof.
  destruct tx; cbn [Transaction_wf UnsignedTransaction_wf UnsignedTransaction_from cwf
    RegisterDomain_c UpdateDomain_c RegisterTld_c TransferTld_c RevokeTld_c SetTldOpen_c
    AssignDomain_c RenewDomain_c TransferDomain_c SlashTx_c];
  unfold RegisterDomain_wf, UpdateDomain_wf, RegisterTld_wf, TransferTld_wf, RevokeTld_wf,
    SetTldOpen_wf, AssignDomain_wf, RenewDomain_wf, TransferDomain_wf, SlashTx_wf; tauto.
Qed.

(** The payload determines every field but the signature. *)
Lemma signing_payload_inj tx tx' p :
  Transaction_wf tx → Transaction_wf tx' →
  signing_payload tx = Ok p → signing_payload tx' = Ok p →
  UnsignedTransaction_from tx = UnsignedTransaction_from tx'.
Proof.
  intros Hw%UnsignedTransaction_from_wf Hw'%UnsignedTransaction_from_wf.
  unfold signing_payload. intros (e & He & <-%Ok_inj)%rbind_Ok (e' & He' & Ep%Ok_inj)%rbind_Ok.
  apply app_inv_head in Ep.
  apply (enc_inj UnsignedTransaction_c _ _ e e' [] []); try done. by rewrite Ep.
Qed.

Lemma UnsignedTransaction_from_inj tx tx' :
  UnsignedTransaction_from tx = UnsignedTransaction_from tx' →
  tx_signature tx = tx_signature tx' → tx = tx'.
Proof.
  destruct tx as [[]|[]|[]|[]|[]|[]|[]|[]|[]|[]], tx' as [[]|[]|[]|[]|[]|[]|[]|[]|[]|[]];
    try done; cbn; intros [=] ?; subst; done.
Qed.
End wire.
