(* ===== verification/State.v ===== *)
(** * The chain state ([scone-blockchain]: [state.rs], [state_backend.rs],
    [error.rs], the leaf encodings and the validator pool of [finality.rs])

    The state is the record of the code: a byte-level key-value backend
    and the derived structures maintained beside it.  A transaction
    handler runs in the state-and-error monad [M], whose store is the
    state and the undo journal: a handler that fails keeps the mutations
    it made before failing.

    The counters ([domain_count], [tld_count], the owner reference
    counts) count entries held in memory, at least 33 bytes each, so they
    stay below [2^64]; they are plain numbers here. *)

From S2P Require Import Prelude Bytes Crypto Smt Names Icann Codec Checkpoint Pow Tx Wire.

(** [scone-blockchain/src/error.rs:15-178 BlockchainError]: the
    formatted messages are dropped. *)
Inductive BlockchainError :=
| UnknownParent | ParentNotTip | BlockPruned (height : N)
| InvalidHeight (expected got : N) | InvalidVersion (v : N) | MerkleMismatch
| TooManyTransactions (n : nat) | DomainAlreadyRegistered | TldAlreadyRegistered
| UnknownTld | UnknownDomain | NotOwner | ErrInvalidSequence (expected got : N)
| UnsupportedTransaction (what : string) | WrongNetwork (tx chain : NetworkId)
| TldClosed | NotTldOwner | RenewalNotExtending (current proposed : N)
| RenewalExceedsTerm (max proposed : N) | Consensus | InvalidProducer
| IcannTldReserved (tld : list byte) | OwnerKeyMismatch | InvalidSignature
| Core (e : SconeError) | Protocol (e : ProtocolError) | ErrSigner | TxReplay
| SlashOffenderNotInPool.

#[global] Instance BlockchainError_eq_dec : EqDecision BlockchainError.
Proof. solve_decision. Defined.

(** ** Entries *)

(** [scone-blockchain/src/state.rs:49-49 DOMAIN_TERM_SECS] *)
Definition DOMAIN_TERM_SECS : N := 365 * 24 * 3600.
(** [scone-blockchain/src/state.rs:56-56 DOMAIN_GRACE_SECS] *)
Definition DOMAIN_GRACE_SECS : N := 30 * 24 * 3600.
(** [scone-blockchain/src/state.rs:60-60 DOMAIN_MAX_HORIZON_SECS] *)
Definition DOMAIN_MAX_HORIZON_SECS : N := 3 * 365 * 24 * 3600.

(** [scone-blockchain/src/state.rs:67-82 DomainState] *)
Record DomainState := mkDomainState {
  ds_owner : OwnerId;
  ds_sequence : N;
  ds_record_hash : option RecordHash;
  ds_registered_at : N;
  ds_valid_until : N }.

#[global] Instance DomainState_eq_dec : EqDecision DomainState.
Proof. solve_decision. Defined.

(** [scone-blockchain/src/state.rs:85-94 TldState] *)
Record TldState := mkTldState { ts_owner : OwnerId; ts_open : bool }.

#[global] Instance TldState_eq_dec : EqDecision TldState.
Proof. solve_decision. Defined.

(** [scone-blockchain/src/state.rs:101-101 DOMAIN_ENTRY_LEN] *)
Definition DOMAIN_ENTRY_LEN : nat := 32 + 8 + 32 + 8 + 8.
(** [scone-blockchain/src/state.rs:137-137 TLD_ENTRY_LEN] *)
Definition TLD_ENTRY_LEN : nat := 32 + 1.

Definition u8_of_bool (b : bool) : byte := if b then x01 else x00.

(** [scone-blockchain/src/state.rs:103-114 encode_domain_entry] *)
Definition encode_domain_entry (st : DomainState) : list byte :=
  arr_list (ds_owner st) ++ le_bytes 8 (ds_sequence st) ++
  match ds_record_hash st with
  | Some rh => arr_list rh
  | None => arr_list (arr_zero 32)
  end ++
  le_bytes 8 (ds_registered_at st) ++ le_bytes 8 (ds_valid_until st).

(** [scone-blockchain/src/state.rs:116-133 decode_domain_entry] *)
Definition decode_domain_entry (bytes : list byte) : option DomainState :=
  if negb (length bytes =? DOMAIN_ENTRY_LEN)%nat then None
  else
    let owner := arr_of 32 (slice 0 32 bytes) in
    let sequence := le_val (slice 32 40 bytes) in
    let record_hash := arr_of 32 (slice 40 72 bytes) in
    let all_zero := forallb (λ b, byte_eqb b x00) (slice 40 72 bytes) in
    let registered_at := le_val (slice 72 80 bytes) in
    let valid_until := le_val (slice 80 88 bytes) in
    Some (mkDomainState owner sequence (if all_zero then None else Some record_hash)
            registered_at valid_until).

(** [scone-blockchain/src/state.rs:139-144 encode_tld_entry] *)
Definition encode_tld_entry (st : TldState) : list byte :=
  arr_list (ts_owner st) ++ [u8_of_bool (ts_open st)].

(** [scone-blockchain/src/state.rs:146-154 decode_tld_entry] *)
Definition decode_tld_entry (bytes : list byte) : option TldState :=
  if negb (length bytes =? TLD_ENTRY_LEN)%nat then None
  else Some (mkTldState (arr_of 32 (slice 0 32 bytes))
               (negb (byte_eqb (nth 32 bytes x00) x00))).

(** [scone-blockchain/src/state.rs:156-162 TldState::claimed_by] *)
Definition claimed_by (owner : OwnerId) : TldState := mkTldState owner false.

(** ** The backend *)

(** [scone-blockchain/src/state_backend.rs:135-137 MemoryBackend]: the
    ordered map from the raw identifiers to the entry bytes. *)
Definition MemoryBackend : Type := gmap hash (list byte).

(** [scone-blockchain/src/state_backend.rs:148-150 MemoryBackend::get] *)
Definition backend_get (b : MemoryBackend) (key : hash) : option (list byte) := b !! key.
(** [scone-blockchain/src/state_backend.rs:152-154 MemoryBackend::put] *)
Definition backend_put (key : hash) (value : list byte) (b : MemoryBackend) : MemoryBackend :=
  <[key := value]> b.
(** [scone-blockchain/src/state_backend.rs:156-158 MemoryBackend::delete] *)
Definition backend_delete (key : hash) (b : MemoryBackend) : MemoryBackend := delete key b.
(** [scone-blockchain/src/state_backend.rs:164-166 MemoryBackend::len] *)
Definition backend_len (b : MemoryBackend) : nat := size b.

(** [scone-blockchain/src/state_backend.rs:172-174 domain_key] *)
Definition domain_key (id : DomainId) : hash := id.
(** [scone-blockchain/src/state_backend.rs:178-180 tld_key] *)
Definition tld_key (id : TldId) : hash := id.

(** ** The state *)

(** [scone-blockchain/src/state.rs:183-246 ChainState] *)
Record ChainState := mkChainState {
  cs_network : NetworkParams;
  cs_backend : MemoryBackend;
  cs_domain_count : N;
  cs_tld_count : N;
  cs_owner_keys : gmap OwnerId PublicKey;
  cs_owner_refcounts : gmap OwnerId N;
  cs_expirations : gmap N (gset DomainId);
  cs_grace : gmap DomainId (N * OwnerId);
  cs_smt : Smt;
  cs_banned : gset PublicKey }.

(** [scone-blockchain/src/state.rs:260-311 UndoEntry] *)
Inductive UndoEntry :=
| UndoRegisterDomain (domain : DomainId) (consumed_grace : option (N * OwnerId))
| UndoUpdateDomain (domain : DomainId) (prior : DomainState)
| UndoRegisterTld (tld : TldId)
| UndoMutateTld (tld : TldId) (prior : TldState)
| UndoRevokeTld (tld : TldId) (prior : TldState)
| UndoRenewDomain (domain : DomainId) (prior : DomainState)
| UndoTransferDomain (domain : DomainId) (prior : DomainState)
| UndoExpireDomain (domain : DomainId) (prior : DomainState)
| LearnOwnerKey (owner : OwnerId)
| BanAnchor (offender : PublicKey).

(** [scone-blockchain/src/state.rs:321-324 UndoLog] *)
Definition UndoLog : Type := list UndoEntry.
Definition UndoLog_default : UndoLog := [].

(** Field updates. *)
Definition with_backend (f : MemoryBackend → MemoryBackend) (s : ChainState) : ChainState :=
  mkChainState (cs_network s) (f (cs_backend s)) (cs_domain_count s) (cs_tld_count s)
    (cs_owner_keys s) (cs_owner_refcounts s) (cs_expirations s) (cs_grace s) (cs_smt s)
    (cs_banned s).
Definition with_domain_count (f : N → N) (s : ChainState) : ChainState :=
  mkChainState (cs_network s) (cs_backend s) (f (cs_domain_count s)) (cs_tld_count s)
    (cs_owner_keys s) (cs_owner_refcounts s) (cs_expirations s) (cs_grace s) (cs_smt s)
    (cs_banned s).
Definition with_tld_count (f : N → N) (s : ChainState) : ChainState :=
  mkChainState (cs_network s) (cs_backend s) (cs_domain_count s) (f (cs_tld_count s))
    (cs_owner_keys s) (cs_owner_refcounts s) (cs_expirations s) (cs_grace s) (cs_smt s)
    (cs_banned s).
Definition with_owner_keys (f : gmap OwnerId PublicKey → gmap OwnerId PublicKey)
    (s : ChainState) : ChainState :=
  mkChainState (cs_network s) (cs_backend s) (cs_domain_count s) (cs_tld_count s)
    (f (cs_owner_keys s)) (cs_owner_refcounts s) (cs_expirations s) (cs_grace s) (cs_smt s)
    (cs_banned s).
Definition with_owner_refcounts (f : gmap OwnerId N → gmap OwnerId N) (s : ChainState) : ChainState :=
  mkChainState (cs_network s) (cs_backend s) (cs_domain_count s) (cs_tld_count s)
    (cs_owner_keys s) (f (cs_owner_refcounts s)) (cs_expirations s) (cs_grace s) (cs_smt s)
    (cs_banned s).
Definition with_expirations (f : gmap N (gset DomainId) → gmap N (gset DomainId))
    (s : ChainState) : ChainState :=
  mkChainState (cs_network s) (cs_backend s) (cs_domain_count s) (cs_tld_count s)
    (cs_owner_keys s) (cs_owner_refcounts s) (f (cs_expirations s)) (cs_grace s) (cs_smt s)
    (cs_banned s).
Definition with_grace (f : gmap DomainId (N * OwnerId) → gmap DomainId (N * OwnerId))
    (s : ChainState) : ChainState :=
  mkChainState (cs_network s) (cs_backend s) (cs_domain_count s) (cs_tld_count s)
    (cs_owner_keys s) (cs_owner_refcounts s) (cs_expirations s) (f (cs_grace s)) (cs_smt s)
    (cs_banned s).
Definition with_smt (f : Smt → Smt) (s : ChainState) : ChainState :=
  mkChainState (cs_network s) (cs_backend s) (cs_domain_count s) (cs_tld_count s)
    (cs_owner_keys s) (cs_owner_refcounts s) (cs_expirations s) (cs_grace s) (f (cs_smt s))
    (cs_banned s).
Definition with_banned (f : gset PublicKey → gset PublicKey) (s : ChainState) : ChainState :=
  mkChainState (cs_network s) (cs_backend s) (cs_domain_count s) (cs_tld_count s)
    (cs_owner_keys s) (cs_owner_refcounts s) (cs_expirations s) (cs_grace s) (cs_smt s)
    (f (cs_banned s)).

(** [scone-blockchain/src/state.rs:335-348 ChainState::for_network] *)
Definition for_network (network : NetworkParams) : ChainState :=
  mkChainState network ∅ 0 0 ∅ ∅ ∅ ∅ smt_new ∅.
(** [scone-blockchain/src/state.rs:328-331 ChainState::new] *)
Definition ChainState_new : ChainState := for_network TESTNET.

(** [scone-blockchain/src/state.rs:358-360 ChainState::len] *)
Definition cs_len (s : ChainState) : N := cs_domain_count s.
(** [scone-blockchain/src/state.rs:364-366 ChainState::is_empty] *)
Definition cs_is_empty (s : ChainState) : bool := cs_domain_count s =? 0.
(** [scone-blockchain/src/state.rs:371-375 ChainState::domain] *)
Definition cs_domain (s : ChainState) (domain : DomainId) : option DomainState :=
  backend_get (cs_backend s) (domain_key domain) ≫= decode_domain_entry.
(** [scone-blockchain/src/state.rs:379-383 ChainState::tld] *)
Definition cs_tld (s : ChainState) (tld : TldId) : option TldState :=
  backend_get (cs_backend s) (tld_key tld) ≫= decode_tld_entry.
(** [scone-blockchain/src/state.rs:387-389 ChainState::tld_len] *)
Definition cs_tld_len (s : ChainState) : N := cs_tld_count s.
(** [scone-blockchain/src/state.rs:393-395 ChainState::tld_is_empty] *)
Definition cs_tld_is_empty (s : ChainState) : bool := cs_tld_count s =? 0.
(** [scone-blockchain/src/state.rs:400-402 ChainState::is_banned] *)
Definition is_banned (s : ChainState) (key : PublicKey) : bool :=
  bool_decide (key ∈ cs_banned s).

(** ** Bounded indexes *)

(** [scone-blockchain/src/state.rs:408-410 ChainState::put_domain_entry] *)
Definition put_domain_entry (id : DomainId) (st : DomainState) : ChainState → ChainState :=
  with_backend (backend_put (domain_key id) (encode_domain_entry st)).
(** [scone-blockchain/src/state.rs:412-414 ChainState::remove_domain_entry] *)
Definition remove_domain_entry (id : DomainId) : ChainState → ChainState :=
  with_backend (backend_delete (domain_key id)).
(** [scone-blockchain/src/state.rs:416-418 ChainState::put_tld_entry] *)
Definition put_tld_entry (id : TldId) (st : TldState) : ChainState → ChainState :=
  with_backend (backend_put (tld_key id) (encode_tld_entry st)).
(** [scone-blockchain/src/state.rs:420-422 ChainState::remove_tld_entry] *)
Definition remove_tld_entry (id : TldId) : ChainState → ChainState :=
  with_backend (backend_delete (tld_key id)).

Definition refcounts_acquire (owner : OwnerId) (m : gmap OwnerId N) : gmap OwnerId N :=
  <[owner := default 0 (m !! owner) + 1]> m.
Definition refcounts_release (owner : OwnerId) (m : gmap OwnerId N) : gmap OwnerId N :=
  match m !! owner with
  | None => m
  | Some n =>
      let left := n - 1 in
      if left =? 0 then delete owner m else <[owner := left]> m
  end.
Definition queue_insert (until : N) (domain : DomainId) (q : gmap N (gset DomainId))
    : gmap N (gset DomainId) :=
  <[until := default ∅ (q !! until) ∪ {[domain]}]> q.
Definition queue_remove (until : N) (domain : DomainId) (q : gmap N (gset DomainId))
    : gmap N (gset DomainId) :=
  match q !! until with
  | None => q
  | Some set =>
      let set := set ∖ {[domain]} in
      if bool_decide (set = ∅) then delete until q else <[until := set]> q
  end.

(** [scone-blockchain/src/state.rs:429-431 ChainState::owner_acquire] *)
Definition owner_acquire (owner : OwnerId) : ChainState → ChainState :=
  with_owner_refcounts (refcounts_acquire owner).
(** [scone-blockchain/src/state.rs:437-448 ChainState::owner_release] *)
Definition owner_release (owner : OwnerId) : ChainState → ChainState :=
  with_owner_refcounts (refcounts_release owner).
(** [scone-blockchain/src/state.rs:453-455 ChainState::expiration_enqueue] *)
Definition expiration_enqueue (until : N) (domain : DomainId) : ChainState → ChainState :=
  with_expirations (queue_insert until domain).
(** [scone-blockchain/src/state.rs:461-469 ChainState::expiration_dequeue] *)
Definition expiration_dequeue (until : N) (domain : DomainId) : ChainState → ChainState :=
  with_expirations (queue_remove until domain).

(** ** The transaction monad *)

(** Handlers run over the state and the journal; [Err] keeps both. *)
Definition M (A : Type) : Type :=
  ChainState * UndoLog → (ChainState * UndoLog) * result BlockchainError A.

Definition mret_ {A} (a : A) : M A := λ σ, (σ, Ok a).
Definition throw {A} (e : BlockchainError) : M A := λ σ, (σ, Err e).
Definition mbind_ {A B} (m : M A) (k : A → M B) : M B := λ σ,
  match m σ with
  | (σ, Ok a) => k a σ
  | (σ, Err e) => (σ, Err e)
  end.
(** [self.f()] *)
Definition reads {A} (f : ChainState → A) : M A := λ σ, (σ, Ok (f σ.1)).
(** A mutation of [self]. *)
Definition updates (f : ChainState → ChainState) : M unit := λ σ, ((f σ.1, σ.2), Ok tt).
(** [journal.entries.push(e)] *)
Definition journals (e : UndoEntry) : M unit := λ σ, ((σ.1, σ.2 ++ [e]), Ok tt).
Definition lift {A} (r : result BlockchainError A) : M A := λ σ, (σ, r).
(** [let Some(x) = o else { return Err(e) }] *)
Definition some_or {A} (o : option A) (e : BlockchainError) : M A := lift (ok_or o e).
(** [if c { return Err(e) }] *)
Definition reject_if (c : bool) (e : BlockchainError) : M unit :=
  if c then throw e else mret_ tt.

Notation "'do!' x := m 'in' k" := (mbind_ m (λ x, k))
  (at level 200, x pattern, m at level 100, k at level 200, right associativity) : rust_scope.
Notation "'run!' m ; k" := (mbind_ m (λ _, k))
  (at level 200, m at level 100, k at level 200, right associativity) : rust_scope.

Section state.
Context `{Crypto}.

(** ** State commitment *)

(** [scone-blockchain/src/finality.rs:330-346 domain_leaf_v2] *)
Definition domain_leaf_v2 (id : DomainId) (st : DomainState) : hash :=
  hash256 [ascii "SCONE-LEAF-DOM-V2" ++ arr_list id ++ arr_list (ds_owner st) ++
    be_bytes 8 (ds_sequence st) ++ be_bytes 8 (ds_registered_at st) ++
    be_bytes 8 (ds_valid_until st) ++
    match ds_record_hash st with
    | Some rh => arr_list rh
    | None => arr_list (arr_zero 32)
    end].

(** [scone-blockchain/src/finality.rs:350-357 tld_leaf_v2] *)
Definition tld_leaf_v2 (id : TldId) (st : TldState) : hash :=
  hash256 [ascii "SCONE-LEAF-TLD-V2" ++ arr_list id ++ arr_list (ts_owner st) ++
    [u8_of_bool (ts_open st)]].

(** [scone-blockchain/src/state.rs:476-478 ChainState::smt_domain_leaf] *)
Definition smt_domain_leaf := domain_leaf_v2.
(** [scone-blockchain/src/state.rs:482-484 ChainState::smt_tld_leaf] *)
Definition smt_tld_leaf := tld_leaf_v2.

(** [scone-blockchain/src/state.rs:489-500 ChainState::smt_put_domain] *)
Definition smt_put_domain (id : DomainId) (old : option DomainState) (new : DomainState)
    : ChainState → ChainState :=
  with_smt (λ t,
    let key := smt_key id in
    let t := match old with
             | Some prior => smt_remove t key (smt_domain_leaf id prior)
             | None => t
             end in
    smt_insert t key (smt_domain_leaf id new)).

(** [scone-blockchain/src/state.rs:503-506 ChainState::smt_remove_domain] *)
Definition smt_remove_domain (id : DomainId) (st : DomainState) : ChainState → ChainState :=
  with_smt (λ t, smt_remove t (smt_key id) (smt_domain_leaf id st)).

(** [scone-blockchain/src/state.rs:509-518 ChainState::smt_put_tld] *)
Definition smt_put_tld (id : TldId) (old new : TldState) : ChainState → ChainState :=
  with_smt (λ t,
    let key := smt_key id in
    smt_insert (smt_remove t key (smt_tld_leaf id old)) key (smt_tld_leaf id new)).

(** [scone-blockchain/src/state.rs:521-524 ChainState::smt_insert_tld] *)
Definition smt_insert_tld (id : TldId) (st : TldState) : ChainState → ChainState :=
  with_smt (λ t, smt_insert t (smt_key id) (smt_tld_leaf id st)).

(** [scone-blockchain/src/state.rs:527-530 ChainState::smt_remove_tld] *)
Definition smt_remove_tld (id : TldId) (st : TldState) : ChainState → ChainState :=
  with_smt (λ t, smt_remove t (smt_key id) (smt_tld_leaf id st)).

(** [scone-blockchain/src/state.rs:545-551 ChainState::state_root_smt] *)
Definition state_root_smt (s : ChainState) : hash :=
  hash256 [ascii "SCONE-STATE-SMT-V1" ++ arr_list (smt_root (cs_smt s))].

(** [scone-blockchain/src/state.rs:574-584 ChainState::restore_domain] *)
Definition restore_domain (domain : DomainId) (state : DomainState) (s : ChainState)
    : ChainState * result BlockchainError unit :=
  if is_Some_dec (cs_domain s domain) then (s, Err DomainAlreadyRegistered)
  else
    let s := smt_put_domain domain None state s in
    let s := put_domain_entry domain state s in
    let s := with_domain_count (λ n, n + 1) s in
    let s := expiration_enqueue (ds_valid_until state) domain s in
    let s := owner_acquire (ds_owner state) s in
    (s, Ok tt).

(** [scone-blockchain/src/state.rs:593-602 ChainState::restore_tld] *)
Definition restore_tld (tld : TldId) (state : TldState) (s : ChainState)
    : ChainState * result BlockchainError unit :=
  if is_Some_dec (cs_tld s tld) then (s, Err TldAlreadyRegistered)
  else
    let s := smt_insert_tld tld state s in
    let s := put_tld_entry tld state s in
    let s := with_tld_count (λ n, n + 1) s in
    let s := owner_acquire (ts_owner state) s in
    (s, Ok tt).

(** [scone-blockchain/src/finality.rs:379-389 ChainState::eligible_validators]:
    the keys of the reference counts in any order, then [sort]. *)
Definition eligible_validators (s : ChainState) : list PublicKey :=
  merge_sort arr_le
    (filter (λ pk, pk ∉ cs_banned s)
       (omap (λ owner, cs_owner_keys s !! owner)
          (elements (dom (cs_owner_refcounts s))))).

(** ** Transaction rules *)

(** [scone-blockchain/src/state.rs:998-1011 ChainState::ensure_domain_free] *)
Definition ensure_domain_free (domain : DomainId) (now : N) (claimant : OwnerId)
    (s : ChainState) : result BlockchainError unit :=
  if is_Some_dec (cs_domain s domain) then Err DomainAlreadyRegistered
  else
    match cs_grace s !! domain with
    | Some (expired_at, lapsed_owner) =>
        if (now <? sat_add64 expired_at DOMAIN_GRACE_SECS) &&
           negb (arr_eqb claimant lapsed_owner)
        then Err DomainAlreadyRegistered
        else Ok tt
    | None => Ok tt
    end.

(** The vacant-entry insertion of a signer's key, journaled. *)
Definition learn_owner_key (owner : OwnerId) (pk : PublicKey) : M unit :=
  do! keys := reads cs_owner_keys in
  match keys !! owner with
  | Some _ => mret_ tt
  | None =>
      run! updates (with_owner_keys <[owner := pk]>);
      journals (LearnOwnerKey owner)
  end.

(** The registration shared by [RegisterDomain] and [AssignDomain]. *)
Definition create_domain (domain : DomainId) (owner : OwnerId) (now valid_until : N) : M unit :=
  do! grace := reads cs_grace in
  let consumed_grace := grace !! domain in
  run! updates (with_grace (delete domain));
  let new_state := mkDomainState owner 0 None now valid_until in
  run! updates (smt_put_domain domain None new_state);
  run! updates (put_domain_entry domain new_state);
  run! updates (with_domain_count (λ n, n + 1));
  run! updates (expiration_enqueue valid_until domain);
  run! updates (owner_acquire owner);
  journals (UndoRegisterDomain domain consumed_grace).

Definition core {A} (r : result SconeError A) : M A := lift (map_err Core r).

(** [scone-blockchain/src/state.rs:678-732 ChainState::apply_journaled_at (RegisterDomain)] *)
Definition apply_register_domain (register : RegisterDomain) (now : N) : M unit :=
  let tld_id := TldId_from_tld (DomainName_tld (rd_name register)) in
  do! tld := reads (λ s, cs_tld s tld_id) in
  do! tld := some_or tld UnknownTld in
  run! reject_if (negb (ts_open tld)) TldClosed;
  do! free := reads (ensure_domain_free (rd_domain_id register) now (rd_owner register)) in
  run! lift free;
  let challenge := DOMAIN_ID_VERSION ++ rd_name register in
  do! params := reads cs_network in
  run! core (pow_verify (np_network_id params) challenge (rd_proof register)
              (domain_pow_difficulty params));
  let valid_until := add64 now DOMAIN_TERM_SECS in
  run! learn_owner_key (rd_owner register) (rd_public_key register);
  create_domain (rd_domain_id register) (rd_owner register) now valid_until.

(** [scone-blockchain/src/state.rs:733-773 ChainState::apply_journaled_at (UpdateDomain)] *)
Definition apply_update_domain (update : UpdateDomain) : M unit :=
  do! state := reads (λ s, cs_domain s (ud_domain_id update)) in
  do! state := some_or state UnknownDomain in
  run! reject_if (negb (arr_eqb (ds_owner state) (ud_owner update))) NotOwner;
  run! learn_owner_key (ud_owner update) (ud_public_key update);
  do! expected := some_or (checked_add64 (ds_sequence state) 1)
                    (ErrInvalidSequence U64_MAX (ud_sequence update)) in
  run! reject_if (negb (ud_sequence update =? expected))
        (ErrInvalidSequence expected (ud_sequence update));
  let id := ud_domain_id update in
  let next := mkDomainState (ds_owner state) expected (Some (ud_record_hash update))
                (ds_registered_at state) (ds_valid_until state) in
  run! journals (UndoUpdateDomain id state);
  run! updates (smt_put_domain id (Some state) next);
  updates (put_domain_entry id next).

(** [scone-blockchain/src/state.rs:774-822 ChainState::apply_journaled_at (RegisterTld)] *)
Definition apply_register_tld (register_tld : RegisterTld) : M unit :=
  do! taken := reads (λ s, cs_tld s (rt_tld_id register_tld)) in
  run! reject_if (bool_decide (is_Some taken)) TldAlreadyRegistered;
  run! reject_if (is_icann_tld (rt_name register_tld)) (IcannTldReserved (rt_name register_tld));
  let challenge := TLD_ID_VERSION ++ rt_name register_tld in
  do! params := reads cs_network in
  run! core (pow_verify (np_network_id params) challenge (rt_proof register_tld)
              (tld_pow_difficulty params));
  run! learn_owner_key (rt_owner register_tld) (rt_public_key register_tld);
  let new_tld := mkTldState (rt_owner register_tld) false in
  run! updates (smt_insert_tld (rt_tld_id register_tld) new_tld);
  run! updates (put_tld_entry (rt_tld_id register_tld) new_tld);
  run! updates (with_tld_count (λ n, n + 1));
  run! updates (owner_acquire (ts_owner new_tld));
  journals (UndoRegisterTld (rt_tld_id register_tld)).

(** [let Some(state) = self.tld(id) else ..; if state.owner != owner ..] *)
Definition owned_tld (id : TldId) (owner : OwnerId) : M TldState :=
  do! state := reads (λ s, cs_tld s id) in
  do! state := some_or state UnknownTld in
  run! reject_if (negb (arr_eqb (ts_owner state) owner)) NotTldOwner;
  mret_ state.

(** [let Some(state) = self.domain(id) else ..; if state.owner != owner ..] *)
Definition owned_domain (id : DomainId) (owner : OwnerId) : M DomainState :=
  do! state := reads (λ s, cs_domain s id) in
  do! state := some_or state UnknownDomain in
  run! reject_if (negb (arr_eqb (ds_owner state) owner)) NotOwner;
  mret_ state.

(** [scone-blockchain/src/state.rs:823-839 ChainState::apply_journaled_at (TransferTld)] *)
Definition apply_transfer_tld (transfer : TransferTld) : M unit :=
  do! prior := owned_tld (tt_tld_id transfer) (tt_owner transfer) in
  let tld := tt_tld_id transfer in
  let next := mkTldState (tt_new_owner transfer) (ts_open prior) in
  run! journals (UndoMutateTld tld prior);
  run! updates (smt_put_tld tld prior next);
  run! updates (put_tld_entry tld next);
  run! updates (owner_release (ts_owner prior));
  updates (owner_acquire (ts_owner next)).

(** [scone-blockchain/src/state.rs:840-856 ChainState::apply_journaled_at (RevokeTld)] *)
Definition apply_revoke_tld (revoke : RevokeTld) : M unit :=
  do! prior := owned_tld (rv_tld_id revoke) (rv_owner revoke) in
  run! updates (smt_remove_tld (rv_tld_id revoke) prior);
  run! updates (remove_tld_entry (rv_tld_id revoke));
  run! updates (with_tld_count (λ n, n - 1));
  run! updates (owner_release (ts_owner prior));
  journals (UndoRevokeTld (rv_tld_id revoke) prior).

(** [scone-blockchain/src/state.rs:857-870 ChainState::apply_journaled_at (SetTldOpen)] *)
Definition apply_set_tld_open (set_open : SetTldOpen) : M unit :=
  do! prior := owned_tld (so_tld_id set_open) (so_owner set_open) in
  let tld := so_tld_id set_open in
  let next := mkTldState (ts_owner prior) (so_open set_open) in
  run! journals (UndoMutateTld tld prior);
  run! updates (smt_put_tld tld prior next);
  updates (put_tld_entry tld next).

(** [scone-blockchain/src/state.rs:871-901 ChainState::apply_journaled_at (AssignDomain)] *)
Definition apply_assign_domain (assign : AssignDomain) (now : N) : M unit :=
  let tld_id := TldId_from_tld (DomainName_tld (ad_name assign)) in
  do! _ := owned_tld tld_id (ad_owner assign) in
  do! free := reads (ensure_domain_free (ad_domain_id assign) now (ad_assignee assign)) in
  run! lift free;
  create_domain (ad_domain_id assign) (ad_assignee assign) now (add64 now DOMAIN_TERM_SECS).

(** [scone-blockchain/src/state.rs:902-934 ChainState::apply_journaled_at (RenewDomain)] *)
Definition apply_renew_domain (renew : RenewDomain) (now : N) : M unit :=
  do! prior := owned_domain (rn_domain_id renew) (rn_owner renew) in
  run! reject_if (rn_valid_until renew <=? ds_valid_until prior)
        (RenewalNotExtending (ds_valid_until prior) (rn_valid_until renew));
  let max := sat_add64 now DOMAIN_MAX_HORIZON_SECS in
  run! reject_if (max <? rn_valid_until renew) (RenewalExceedsTerm max (rn_valid_until renew));
  let domain := rn_domain_id renew in
  let next := mkDomainState (ds_owner prior) (ds_sequence prior) (ds_record_hash prior)
                (ds_registered_at prior) (rn_valid_until renew) in
  run! updates (expiration_dequeue (ds_valid_until prior) domain);
  run! updates (expiration_enqueue (ds_valid_until next) domain);
  run! journals (UndoRenewDomain domain prior);
  run! updates (smt_put_domain domain (Some prior) next);
  updates (put_domain_entry domain next).

(** [scone-blockchain/src/state.rs:935-954 ChainState::apply_journaled_at (TransferDomain)] *)
Definition apply_transfer_domain (transfer : TransferDomain) : M unit :=
  do! prior := owned_domain (td_domain_id transfer) (td_owner transfer) in
  let domain := td_domain_id transfer in
  let next := mkDomainState (td_new_owner transfer) (ds_sequence prior) (ds_record_hash prior)
                (ds_registered_at prior) (ds_valid_until prior) in
  run! journals (UndoTransferDomain domain prior);
  run! updates (smt_put_domain domain (Some prior) next);
  run! updates (put_domain_entry domain next);
  run! updates (owner_release (ds_owner prior));
  updates (owner_acquire (ds_owner next)).

(** [scone-blockchain/src/state.rs:955-990 ChainState::apply_journaled_at (Slash)] *)
Definition apply_slash (slash : SlashTx) : M unit :=
  do! pool := reads eligible_validators in
  run! reject_if (bool_decide (sl_offender slash ∉ pool)) SlashOffenderNotInPool;
  do! banned := reads cs_banned in
  if bool_decide (sl_offender slash ∈ banned) then mret_ tt
  else
    run! updates (with_banned (λ b, b ∪ {[sl_offender slash]}));
    journals (BanAnchor (sl_offender slash)).

(** [scone-blockchain/src/state.rs:662-993 ChainState::apply_journaled_at] *)
Definition apply_journaled_at (tx : Transaction) (now : N) : M unit :=
  run! core (tx_validate tx);
  do! params := reads cs_network in
  run! reject_if (bool_decide (tx_network tx ≠ np_network_id params))
        (WrongNetwork (tx_network tx) (np_network_id params));
  match tx with
  | TxRegisterDomain register => apply_register_domain register now
  | TxUpdateDomain update => apply_update_domain update
  | TxRegisterTld register_tld => apply_register_tld register_tld
  | TxTransferTld transfer => apply_transfer_tld transfer
  | TxRevokeTld revoke => apply_revoke_tld revoke
  | TxSetTldOpen set_open => apply_set_tld_open set_open
  | TxAssignDomain assign => apply_assign_domain assign now
  | TxRenewDomain renew => apply_renew_domain renew now
  | TxTransferDomain transfer => apply_transfer_domain transfer
  | TxSlash slash => apply_slash slash
  end.

(** ** Garbage collection *)

(** The body of the inner loop for one identifier of a drained slot. *)
Definition gc_id (now : N) (acc : (ChainState * UndoLog) * list DomainId) (id : DomainId)
    : (ChainState * UndoLog) * list DomainId :=
  let '((s, journal), expired) := acc in
  match cs_domain s id with
  | None => acc
  | Some prior =>
      if now <? ds_valid_until prior then
        ((expiration_enqueue (ds_valid_until prior) id s, journal), expired)
      else
        let s := remove_domain_entry id s in
        let s := smt_remove_domain id prior s in
        let s := with_domain_count (λ n, n - 1) s in
        let s := owner_release (ds_owner prior) s in
        let s := with_grace <[id := (ds_valid_until prior, ds_owner prior)]> s in
        ((s, journal ++ [UndoExpireDomain id prior]), expired ++ [id])
  end.

(** One slot: the set is taken out of the queue, then drained in
    ascending order. *)
Definition gc_slot (now : N) (acc : (ChainState * UndoLog) * list DomainId) (until : N)
    : (ChainState * UndoLog) * list DomainId :=
  let '((s, journal), expired) := acc in
  let ids := merge_sort arr_le (elements (default ∅ (cs_expirations s !! until))) in
  let s := with_expirations (delete until) s in
  fold_left (gc_id now) ids ((s, journal), expired).

(** [self.expirations.range(..=now)] *)
Definition due_slots (now : N) (s : ChainState) : list N :=
  merge_sort N.le (filter (λ u, u ≤ now) (elements (dom (cs_expirations s)))).

(** [scone-blockchain/src/state.rs:1031-1077 ChainState::gc_expired_journaled] *)
Definition gc_expired_journaled (now : N) (s : ChainState) (journal : UndoLog)
    : (ChainState * UndoLog) * list DomainId :=
  fold_left (gc_slot now) (due_slots now s) ((s, journal), []).

(** ** Rollback *)

Definition undo_entry (s : ChainState) (e : UndoEntry) : ChainState :=
  match e with
  | UndoRegisterDomain domain consumed_grace =>
      let s :=
        match cs_domain s domain with
        | Some state =>
            let s := smt_remove_domain domain state s in
            let s := remove_domain_entry domain s in
            let s := with_domain_count (λ n, n - 1) s in
            let s := expiration_dequeue (ds_valid_until state) domain s in
            owner_release (ds_owner state) s
        | None => s
        end in
      match consumed_grace with
      | Some entry => with_grace <[domain := entry]> s
      | None => s
      end
  | UndoUpdateDomain domain prior =>
      let s :=
        match cs_domain s domain with
        | Some current => smt_put_domain domain (Some current) prior s
        | None => s
        end in
      put_domain_entry domain prior s
  | UndoRegisterTld tld =>
      match cs_tld s tld with
      | Some state =>
          let s := smt_remove_tld tld state s in
          let s := remove_tld_entry tld s in
          let s := with_tld_count (λ n, n - 1) s in
          owner_release (ts_owner state) s
      | None => s
      end
  | UndoMutateTld tld prior =>
      let s :=
        match cs_tld s tld with
        | Some current =>
            let s := smt_put_tld tld current prior s in
            owner_acquire (ts_owner prior) (owner_release (ts_owner current) s)
        | None => s
        end in
      put_tld_entry tld prior s
  | UndoRevokeTld tld prior =>
      let s := smt_insert_tld tld prior s in
      let s := put_tld_entry tld prior s in
      let s := with_tld_count (λ n, n + 1) s in
      owner_acquire (ts_owner prior) s
  | UndoRenewDomain domain prior =>
      let s :=
        match cs_domain s domain with
        | Some current =>
            let s := smt_put_domain domain (Some current) prior s in
            expiration_dequeue (ds_valid_until current) domain s
        | None => s
        end in
      put_domain_entry domain prior (expiration_enqueue (ds_valid_until prior) domain s)
  | UndoTransferDomain domain prior =>
      let s :=
        match cs_domain s domain with
        | Some current =>
            let s := smt_put_domain domain (Some current) prior s in
            owner_release (ds_owner current) s
        | None => s
        end in
      put_domain_entry domain prior (owner_acquire (ds_owner prior) s)
  | UndoExpireDomain domain prior =>
      let s := with_grace (delete domain) s in
      let s := smt_put_domain domain None prior s in
      let s := put_domain_entry domain prior s in
      let s := with_domain_count (λ n, n + 1) s in
      let s := expiration_enqueue (ds_valid_until prior) domain s in
      owner_acquire (ds_owner prior) s
  | LearnOwnerKey owner => with_owner_keys (delete owner) s
  | BanAnchor offender => with_banned (λ b, b ∖ {[offender]}) s
  end.

(** [scone-blockchain/src/state.rs:1088-1169 ChainState::rollback] *)
Definition rollback (s : ChainState) (journal : UndoLog) : ChainState :=
  fold_left undo_entry (rev journal) s.

(** [scone-blockchain/src/state.rs:613-622 ChainState::apply] *)
Definition apply (tx : Transaction) (s : ChainState) : ChainState * result BlockchainError unit :=
  match apply_journaled_at tx 0 (s, UndoLog_default) with
  | ((s, _), Ok tt) => (s, Ok tt)
  | ((s, journal), Err e) => (rollback s journal, Err e)
  end.

(** ** Signature validation ([validate.rs]) *)

(** [scone-blockchain/src/validate.rs:24-26 owner_from_public_key] *)
Definition owner_from_public_key (pk : PublicKey) : OwnerId :=
  OwnerId_from_public_key_ref (PublicKeyRef_from_public_key (arr_list pk)).

(** [scone-blockchain/src/validate.rs:42-57 validate_transaction] *)
Definition validate_transaction (tx : Transaction) : result BlockchainError unit :=
  if negb (arr_eqb (tx_owner tx) (owner_from_public_key (tx_public_key tx)))
  then Err OwnerKeyMismatch
  else
    let? _ := map_err Core (tx_validate tx) in
    let? payload := map_err Protocol (signing_payload tx) in
    if negb (pk_verify (tx_public_key tx) payload (tx_signature tx)) then Err InvalidSignature
    else Ok tt.
End state.
