(* ===== verification/Blocks.v ===== *)
(** * Blocks, commitments and producers
    ([scone-protocol]: [block.rs], [checkpoint.rs]; [scone-blockchain]:
    [txid.rs], [block_hash.rs], [merkle.rs], [genesis.rs], [producer.rs],
    [builder.rs], [consensus.rs])

    The block container and the checkpoint envelope with their codecs,
    the transaction and block identifiers, the Merkle commitment of a
    transaction list, the genesis block of a network, the signed
    producer payload and the block builder. *)

From S2P Require Import Prelude Bytes Crypto Names Codec Checkpoint Tx Wire State.

(** ** Data *)

(** The newtypes over 32 bytes ([block.rs], [txid.rs]). *)
Notation BlockHash := hash (only parsing).
Notation MerkleRoot := hash (only parsing).
Notation TxId := hash (only parsing).

(** [scone-protocol/src/block.rs:96-114 BlockHeader] *)
Record BlockHeader := mkBlockHeader {
  bh_version : N;
  bh_height : N;
  bh_prev_hash : BlockHash;
  bh_tx_root : MerkleRoot;
  bh_timestamp : N;
  bh_consensus : list byte }.

(** [scone-protocol/src/block.rs:170-174 Block] *)
Record Block := mkBlock {
  bk_header : BlockHeader;
  bk_transactions : list Transaction }.

#[global] Instance BlockHeader_eq_dec : EqDecision BlockHeader.
Proof. solve_decision. Defined.

(** [scone-protocol/src/block.rs:116-127 check_version] *)
Definition check_version (version : N) : result ProtocolError unit :=
  if (version =? 0) || (PROTOCOL_VERSION <? version) then Err (UnsupportedVersion version)
  else if version <? PROTOCOL_VERSION then Err (UnsupportedVersion version)
  else Ok tt.

(** [scone-protocol/src/block.rs:129-144 BlockHeader::encode] *)
Definition BlockHeader_encode (h : BlockHeader) : eresult :=
  let? _ := check_version (bh_version h) in
  cat [
    enc u32_c (bh_version h); enc u64_c (bh_height h); enc id_c (bh_prev_hash h);
    enc id_c (bh_tx_root h); enc u64_c (bh_timestamp h);
    enc (bounded_c MAX_CONSENSUS_LEN "consensus length") (bh_consensus h)].

(** [scone-protocol/src/block.rs:146-160 BlockHeader::decode] *)
Definition BlockHeader_decode : parser BlockHeader :=
  let* version := dec u32_c in
  let* _ := plift (check_version version) in
  let* height := dec u64_c in
  let* prev_hash := dec id_c in
  let* tx_root := dec id_c in
  let* timestamp := dec u64_c in
  let* consensus := dec (bounded_c MAX_CONSENSUS_LEN "consensus length") in
  pret (mkBlockHeader version height prev_hash tx_root timestamp consensus).

Definition BlockHeader_wf (h : BlockHeader) : Prop :=
  bh_version h ≤ U32_MAX ∧ bh_height h < U64 ∧ bh_timestamp h < U64.
Definition BlockHeader_c : codec BlockHeader :=
  mkCodec BlockHeader_encode BlockHeader_decode BlockHeader_wf.

Section blocks.
Context `{Crypto}.

(** [scone-protocol/src/block.rs:176-188 Block::encode] *)
Definition Block_encode (b : Block) : eresult :=
  if MAX_TXS_PER_BLOCK <? N.of_nat (length (bk_transactions b))
  then Err (LimitExceeded "transaction count")
  else cat (enc BlockHeader_c (bk_header b)
            :: enc u64_c (N.of_nat (length (bk_transactions b)))
            :: map (enc Transaction_c) (bk_transactions b)).

(** [scone-protocol/src/block.rs:190-206 Block::decode] *)
Definition Block_decode : parser Block :=
  let* header := dec BlockHeader_c in
  let* count := dec u64_c in
  if MAX_TXS_PER_BLOCK <? count then pfail (LimitExceeded "transaction count")
  else
    let* transactions := many (dec Transaction_c) (N.to_nat count) in
    pret (mkBlock header transactions).

Definition Block_wf (b : Block) : Prop :=
  BlockHeader_wf (bk_header b) ∧ Forall Transaction_wf (bk_transactions b).
Definition Block_c : codec Block := mkCodec Block_encode Block_decode Block_wf.

(** ** The checkpoint envelope *)

(** [scone-protocol/src/checkpoint.rs:45-45 CHECKPOINT_WIRE_TAG] *)
Definition CHECKPOINT_WIRE_TAG : list byte := ascii "SCONE-CKPT-V1".
(** [scone-protocol/src/checkpoint.rs:53-53 MAX_CHECKPOINT_SIGNERS] *)
Definition MAX_CHECKPOINT_SIGNERS : N := 64.

Definition unsorted_signers : ProtocolError :=
  NonCanonical "checkpoint signatures must be sorted by pk, no duplicates".

(** [bytes <= p] against the previous key, if any. *)
Definition not_after (prev : option (arr 32)) (b : arr 32) : bool :=
  match prev with Some p => bytes_leb b p | None => false end.

(** The [for] loop of [Checkpoint::encode]. *)
Fixpoint signers_encode (prev : option (arr 32)) (sigs : list (PublicKey * Signature)) : eresult :=
  match sigs with
  | [] => Ok []
  | (pk, sig) :: sigs =>
      if not_after prev pk then Err unsorted_signers
      else cat [put_array pk; put_array sig; signers_encode (Some pk) sigs]
  end.

(** [scone-protocol/src/checkpoint.rs:85-118 Checkpoint::encode] *)
Definition Checkpoint_encode (c : Checkpoint) : eresult :=
  let? body := enc CheckpointData_c (data c) in
  if MAX_CHECKPOINT_SIGNERS <? N.of_nat (length (signatures c))
  then Err (LimitExceeded "checkpoint signers")
  else cat [Ok (CHECKPOINT_WIRE_TAG ++ body); enc u64_c (N.of_nat (length (signatures c)));
            signers_encode None (signatures c)].

(** The [for] loop of [Checkpoint::decode]. *)
Fixpoint signers_decode (n : nat) (prev : option (arr 32)) : parser (list (PublicKey * Signature)) :=
  match n with
  | O => pret []
  | S n =>
      let* pk_bytes := dec (array_c 32) in
      let* sig_bytes := dec (array_c 64) in
      if not_after prev pk_bytes then pfail unsorted_signers
      else
        let* pk := plift (ok_or (PublicKey_from_bytes pk_bytes) InvalidTransactionKey) in
        let* rest := signers_decode n (Some pk_bytes) in
        pret ((pk, sig_bytes) :: rest)
  end.

(** [scone-protocol/src/checkpoint.rs:120-156 Checkpoint::decode] *)
Definition Checkpoint_decode : parser Checkpoint :=
  let* tag := dec (array_c 13) in
  if negb (bool_decide (arr_list tag = CHECKPOINT_WIRE_TAG)) then pfail (NonCanonical "bad checkpoint tag")
  else
    let* data := dec CheckpointData_c in
    let* count := dec u64_c in
    if MAX_CHECKPOINT_SIGNERS <? count then pfail (LimitExceeded "checkpoint signers")
    else λ i,
      if blen i <? count * 96 then Err Truncated
      else (let* signatures := signers_decode (N.to_nat count) None in
            pret (mkCheckpoint data signatures)) i.

Definition Checkpoint_wf (c : Checkpoint) : Prop :=
  CheckpointData_wf (data c) ∧ Forall (λ ps, vk_valid ps.1 = true) (signatures c).
Definition Checkpoint_c : codec Checkpoint :=
  mkCodec Checkpoint_encode Checkpoint_decode Checkpoint_wf.

(** ** Identifiers *)

(** [scone-blockchain/src/txid.rs:9-9 TX_ID_VERSION] *)
Definition TX_ID_VERSION : list byte := ascii "SCONE-TX-V1".

(** [scone-blockchain/src/txid.rs:52-55 transaction_id] *)
Definition transaction_id (tx : Transaction) : result BlockchainError TxId :=
  let? encoded := map_err Protocol (enc Transaction_c tx) in
  Ok (hash256 [TX_ID_VERSION; encoded]).

(** [scone-blockchain/src/block_hash.rs:9-9 BLOCK_HASH_VERSION] *)
Definition BLOCK_HASH_VERSION : list byte := ascii "SCONE-BLOCK-V1".

(** [scone-blockchain/src/block_hash.rs:29-35 block_hash]; the field
    [block_hash] of a checkpoint keeps the short name. *)
Definition header_hash (h : BlockHeader) : result BlockchainError BlockHash :=
  let? encoded := map_err Protocol (enc BlockHeader_c h) in
  Ok (hash256 [BLOCK_HASH_VERSION; encoded]).

(** ** The Merkle commitment *)

(** [scone-blockchain/src/merkle.rs:24-24 MERKLE_VERSION] *)
Definition MERKLE_VERSION : list byte := ascii "SCONE-MERKLE-V1".
(** [scone-blockchain/src/merkle.rs:27-27 EMPTY_ROOT_LABEL] *)
Definition EMPTY_ROOT_LABEL : list byte := ascii "EMPTY".

(** [scone-blockchain/src/merkle.rs:35-37 leaf_hash] *)
Definition leaf_hash (txid : TxId) : hash := hash256 [MERKLE_VERSION; [x00]; arr_list txid].
(** [scone-blockchain/src/merkle.rs:39-41 node_hash] *)
Definition node_hash (left right : hash) : hash :=
  hash256 [MERKLE_VERSION; [x01]; arr_list left; arr_list right].

(** [scone-blockchain/src/merkle.rs:54-61 merkle_root]: one level from the previous one. *)
Fixpoint next_level (level : list hash) : list hash :=
  match level with
  | l :: r :: rest => node_hash l r :: next_level rest
  | [l] => [node_hash l l]
  | [] => []
  end.

(** [scone-blockchain/src/merkle.rs:53-63 merkle_root]: the outer loop; the length of
    the level is enough fuel. *)
Fixpoint merkle_loop (fuel : nat) (level : list hash) : list hash :=
  match fuel with
  | O => level
  | S fuel => if (1 <? length level)%nat then merkle_loop fuel (next_level level) else level
  end.

(** [scone-blockchain/src/merkle.rs:47-64 merkle_root] *)
Definition merkle_root (txids : list TxId) : MerkleRoot :=
  match txids with
  | [] => hash256 [MERKLE_VERSION; EMPTY_ROOT_LABEL]
  | _ =>
      let level := map leaf_hash txids in
      default (arr_zero 32) (head (merkle_loop (length level) level))
  end.

(** [Iterator::collect] into a [Result]. *)
Fixpoint collect {E A B} (f : A → result E B) (l : list A) : result E (list B) :=
  match l with
  | [] => Ok []
  | a :: l => let? b := f a in let? bs := collect f l in Ok (b :: bs)
  end.

(** [scone-blockchain/src/merkle.rs:73-76 tx_root] *)
Definition tx_root (transactions : list Transaction) : result BlockchainError MerkleRoot :=
  let? txids := collect transaction_id transactions in Ok (merkle_root txids).

(** ** Genesis *)

(** [scone-blockchain/src/genesis.rs:11-11 GENESIS_TIMESTAMP] *)
Definition GENESIS_TIMESTAMP : N := 0.

(** [scone-blockchain/src/genesis.rs:36-50 genesis_of] *)
Definition genesis_of (params : NetworkParams) : Block :=
  mkBlock
    (mkBlockHeader PROTOCOL_VERSION 0 (arr_zero 32) (merkle_root []) GENESIS_TIMESTAMP
       (NetworkId_as_bytes (np_network_id params)))
    [].

(** ** Signed blocks *)

(** [scone-blockchain/src/producer.rs:36-36 BLOCK_SIGN_TAG] *)
Definition BLOCK_SIGN_TAG : list byte := ascii "SCONE-BLOCK-V2".
(** [scone-blockchain/src/producer.rs:39-39 PRODUCER_PAYLOAD_LEN] *)
Definition PRODUCER_PAYLOAD_LEN : nat := 14 + 32 + 64.

(** [scone-blockchain/src/producer.rs:42-48 ProducerPayload] *)
Record ProducerPayload := mkProducerPayload { pp_producer : PublicKey; pp_signature : Signature }.

(** [scone-blockchain/src/producer.rs:51-58 encode_producer_payload] *)
Definition encode_producer_payload (producer : PublicKey) (signature : Signature) : list byte :=
  BLOCK_SIGN_TAG ++ arr_list producer ++ arr_list signature.

(** [scone-blockchain/src/producer.rs:62-80 decode_producer_payload] *)
Definition decode_producer_payload (bytes : list byte) : option ProducerPayload :=
  if negb (length bytes =? PRODUCER_PAYLOAD_LEN)%nat then None
  else if negb (bool_decide (take 14 bytes = BLOCK_SIGN_TAG)) then None
  else
    let pk : arr 32 := arr_of 32 (slice 14 46 bytes) in
    let sig : arr 64 := arr_of 64 (drop 46 bytes) in
    match PublicKey_from_bytes pk with
    | None => None
    | Some producer => Some (mkProducerPayload producer sig)
    end.

(** [BlockHeader { consensus, ..h }] *)
Definition set_consensus (h : BlockHeader) (consensus : list byte) : BlockHeader :=
  mkBlockHeader (bh_version h) (bh_height h) (bh_prev_hash h) (bh_tx_root h) (bh_timestamp h)
    consensus.

(** [scone-blockchain/src/producer.rs:87-94 producer_signing_hash] *)
Definition producer_signing_hash (header : BlockHeader) : option hash :=
  to_option (header_hash (set_consensus header [])).

(** [scone-blockchain/src/producer.rs:97-103 sign_block_hash] *)
Definition sign_block_hash (sk : SigningKey) (signing_hash : hash) : Signature :=
  sk_sign sk (BLOCK_SIGN_TAG ++ arr_list signing_hash).

(** [scone-blockchain/src/producer.rs:107-113 verify_block_producer] *)
Definition verify_block_producer (payload : ProducerPayload) (signing_hash : hash) : bool :=
  pk_verify (pp_producer payload) (BLOCK_SIGN_TAG ++ arr_list signing_hash) (pp_signature payload).

(** ** The block builder *)

(** [scone-blockchain/src/builder.rs:17-25 BlockBuilder] *)
Record BlockBuilder := mkBlockBuilder {
  bb_prev_hash : BlockHash;
  bb_height : N;
  bb_timestamp : N;
  bb_consensus : list byte;
  bb_producer : option SigningKey;
  bb_transactions : list Transaction }.

(** [scone-blockchain/src/builder.rs:30-40 BlockBuilder::after] *)
Definition builder_after (parent_height : N) (prev_hash : BlockHash) : BlockBuilder :=
  mkBlockBuilder prev_hash (add64 parent_height 1) 0 [] None [].

(** [scone-blockchain/src/builder.rs:43-47 BlockBuilder::with_timestamp] *)
Definition with_timestamp (timestamp : N) (b : BlockBuilder) : BlockBuilder :=
  mkBlockBuilder (bb_prev_hash b) (bb_height b) timestamp (bb_consensus b) (bb_producer b)
    (bb_transactions b).

(** [scone-blockchain/src/builder.rs:55-59 BlockBuilder::with_consensus] *)
Definition with_consensus (consensus : list byte) (b : BlockBuilder) : BlockBuilder :=
  mkBlockBuilder (bb_prev_hash b) (bb_height b) (bb_timestamp b) consensus (bb_producer b)
    (bb_transactions b).

(** [scone-blockchain/src/builder.rs:64-68 BlockBuilder::with_producer] *)
Definition with_producer (sk : SigningKey) (b : BlockBuilder) : BlockBuilder :=
  mkBlockBuilder (bb_prev_hash b) (bb_height b) (bb_timestamp b) (bb_consensus b) (Some sk)
    (bb_transactions b).

(** [scone-blockchain/src/builder.rs:76-84 BlockBuilder::push_tx] *)
Definition push_tx (b : BlockBuilder) (tx : Transaction) : result BlockchainError BlockBuilder :=
  if MAX_TXS_PER_BLOCK <=? N.of_nat (length (bb_transactions b))
  then Err (TooManyTransactions (length (bb_transactions b) + 1))
  else Ok (mkBlockBuilder (bb_prev_hash b) (bb_height b) (bb_timestamp b) (bb_consensus b)
             (bb_producer b) (bb_transactions b ++ [tx])).

(** [scone-blockchain/src/builder.rs:113-141 BlockBuilder::build]: the
    [expect] on the signing hash is not reached for an unencodable
    header, see [build_signing_hash]. *)
Definition build (b : BlockBuilder) : result BlockchainError Block :=
  let? tx_root := tx_root (bb_transactions b) in
  let header := mkBlockHeader PROTOCOL_VERSION (bb_height b) (bb_prev_hash b) tx_root
                  (bb_timestamp b) (bb_consensus b) in
  let? header :=
    match bb_producer b with
    | None => Ok header
    | Some sk =>
        let sh := default (arr_zero 32) (producer_signing_hash header) in
        let sig := sign_block_hash sk sh in
        let header := set_consensus header (encode_producer_payload (sk_public_key sk) sig) in
        let? _ := header_hash header in Ok header
    end in
  let? _ := header_hash header in
  Ok (mkBlock header (bb_transactions b)).

(** The [for] loop of [build_with]. *)
Fixpoint push_txs (b : BlockBuilder) (txs : list Transaction) : result BlockchainError BlockBuilder :=
  match txs with
  | [] => Ok b
  | tx :: txs => let? b := push_tx b tx in push_txs b txs
  end.

(** [scone-blockchain/src/builder.rs:106-111 BlockBuilder::build_with] *)
Definition build_with (b : BlockBuilder) (txs : list Transaction) : result BlockchainError Block :=
  let? b := push_txs b txs in build b.
End blocks.

(** ** Consensus hooks *)

(** [scone-blockchain/src/consensus.rs:29-46 Consensus] *)
Class Consensus := {
  validate_header : BlockHeader → result BlockchainError unit;
  validate_tx : Transaction → result BlockchainError unit }.

(** [scone-blockchain/src/consensus.rs:52-63 PermissiveConsensus] *)
#[global] Instance PermissiveConsensus : Consensus := {|
  validate_header _ := Ok tt;
  validate_tx _ := Ok tt |}.
