(* ===== verification/Signer.v ===== *)
(** * The signer's state ([scone-blockchain]: [signer.rs])

    A node that signs checkpoints keeps, per key, the last context it
    signed, and writes it to a file before it releases a signature; a
    file it cannot read disables signing.  The file system is modelled by
    what a reader sees and by what survives a power loss. *)

From S2P Require Import Prelude Bytes Crypto Codec Checkpoint Tx Wire State Blocks.

(** [scone-blockchain/src/signer.rs:30-30 SIGNER_TAG] *)
Definition SIGNER_TAG : list byte := ascii "SCONE-SIGNER-V1".
(** [scone-blockchain/src/signer.rs:32-32 RECORD_LEN] *)
Definition RECORD_LEN : nat := 15 + 32 + 32 + 8 + 8.

(** [scone-blockchain/src/signer.rs:38-43 SignedContext] *)
Record SignedContext := mkSignedContext {
  sc_signer : PublicKey;
  sc_signing_hash : hash;
  sc_epoch : N;
  sc_height : N }.

(** [scone-blockchain/src/signer.rs:46-58 SignedContext::to_bytes] *)
Definition SignedContext_to_bytes (c : SignedContext) : list byte :=
  SIGNER_TAG ++ arr_list (sc_signer c) ++ arr_list (sc_signing_hash c) ++
  le_bytes 8 (sc_epoch c) ++ le_bytes 8 (sc_height c).

(** What [fs::read] reports. *)
Inductive ReadError := NotFound | Unreadable.

(** What becomes of [atomic_write]: it fails before the target is
    replaced, or the target is replaced and the directory is synced or
    not (its result is ignored). *)
Inductive WriteOutcome := WriteFails | Renamed (synced : bool).

(** The state file: as read now, and as found after a power loss. *)
Record Disk := mkDisk { dk_visible : option (list byte); dk_durable : option (list byte) }.

(** [scone-blockchain/src/signer.rs:224-238 atomic_write]: the new
    content is synced before it replaces the target. *)
Definition atomic_write (data : list byte) (o : WriteOutcome) (d : Disk) : Disk * bool :=
  match o with
  | WriteFails => (d, false)
  | Renamed synced => (mkDisk (Some data) (if synced then Some data else dk_durable d), true)
  end.

(** [fs::read] when the file can be read. *)
Definition read_file (content : option (list byte)) : result ReadError (list byte) :=
  ok_or content NotFound.

(** [scone-blockchain/src/signer.rs:101-107 SignerGuard]; the path is constant. *)
Record SignerGuard := mkSignerGuard { sg_last : gmap PublicKey SignedContext; sg_sealed : bool }.

(** The order of [sort_by_key(|c| c.signer)]. *)
Definition by_signer (a b : SignedContext) : Prop := arr_le (sc_signer a) (sc_signer b).
#[global] Instance by_signer_dec : RelDecision by_signer.
Proof. intros a b. unfold by_signer. apply _. Defined.

Section signer.
Context `{Crypto}.

(** [scone-blockchain/src/signer.rs:60-95 SignedContext::from_bytes] *)
Definition SignedContext_from_bytes (b : list byte) : result BlockchainError SignedContext :=
  if negb (length b =? RECORD_LEN)%nat || negb (bool_decide (take 15 b = SIGNER_TAG)) then Err ErrSigner
  else
    let? signer := ok_or (PublicKey_from_bytes (arr_of 32 (slice 15 47 b))) ErrSigner in
    Ok (mkSignedContext signer (arr_of 32 (slice 47 79 b)) (le_val (slice 79 87 b)) (le_val (slice 87 95 b))).

(** The loop of [load]: [None] is a bad record. *)
Fixpoint load_records (records : list (list byte)) (last : gmap PublicKey SignedContext)
    : option (gmap PublicKey SignedContext) :=
  match records with
  | [] => Some last
  | chunk :: records =>
      match SignedContext_from_bytes chunk with
      | Ok ctx => load_records records (<[sc_signer ctx := ctx]> last)
      | Err _ => None
      end
  end.

(** [scone-blockchain/src/signer.rs:112-161 SignerGuard::load] *)
Definition load (data : result ReadError (list byte)) : SignerGuard :=
  match data with
  | Err NotFound => mkSignerGuard ∅ false
  | Err Unreadable => mkSignerGuard ∅ true
  | Ok data =>
      if bool_decide (data = []) || negb (length data mod RECORD_LEN =? 0)%nat
      then mkSignerGuard ∅ true
      else
        match load_records (chunks (length data) RECORD_LEN data) ∅ with
        | Some last => mkSignerGuard last false
        | None => mkSignerGuard ∅ true
        end
  end.

(** [scone-blockchain/src/signer.rs:165-181 SignerGuard::may_sign] *)
Definition may_sign (g : SignerGuard) (signer : PublicKey) (d : CheckpointData)
    : result BlockchainError unit :=
  if sg_sealed g then Err ErrSigner
  else
    match sg_last g !! signer with
    | Some ctx =>
        let h := signing_hash d in
        if (epoch d <? sc_epoch ctx) ||
           (epoch d =? sc_epoch ctx) && negb (arr_eqb h (sc_signing_hash ctx))
        then Err ErrSigner
        else Ok tt
    | None => Ok tt
    end.

(** The content [persist] writes. *)
Definition state_file (last : gmap PublicKey SignedContext) : list byte :=
  concat (map SignedContext_to_bytes (merge_sort by_signer (map_to_list last).*2)).

(** [scone-blockchain/src/signer.rs:211-219 SignerGuard::persist] *)
Definition persist (g : SignerGuard) (o : WriteOutcome) (d : Disk) : Disk * bool :=
  atomic_write (state_file (sg_last g)) o d.

(** [scone-blockchain/src/signer.rs:187-207 SignerGuard::authorize] *)
Definition authorize (g : SignerGuard) (sk : SigningKey) (d : CheckpointData) (o : WriteOutcome) (disk : Disk)
    : SignerGuard * Disk * result BlockchainError Signature :=
  let pk := sk_public_key sk in
  match may_sign g pk d with
  | Err e => (g, disk, Err e)
  | Ok _ =>
      let h := signing_hash d in
      let sig := sk_sign sk (arr_list h) in
      let g := mkSignerGuard (<[pk := mkSignedContext pk h (epoch d) (height d)]> (sg_last g)) (sg_sealed g) in
      let '(disk, written) := persist g o disk in
      if written then (g, disk, Ok sig) else (g, disk, Err ErrSigner)
  end.
End signer.
