(* ===== verification/BlocksProps.v ===== *)
(** * Properties of blocks and commitments

    Codec laws of headers, blocks and checkpoint envelopes; what a block
    hash and a Merkle root commit to; producer payloads and the block
    builder. *)

From S2P Require Import Prelude Bytes Crypto Names Codec Checkpoint Tx Wire State Blocks.

Lemma check_version_Ok v : check_version v = Ok tt ↔ v = PROTOCOL_VERSION.
Proof.
  unfold check_version. destruct (N.eqb_spec v 0) as [->|]; [done|]. simpl.
  destruct (N.ltb_spec PROTOCOL_VERSION v); [split; [done|lia]|].
  destruct (N.ltb_spec v PROTOCOL_VERSION); [split; [done|lia]|]. split; [lia|done].
Qed.

(** ** Headers and blocks *)

#[global] Instance consensus_lawful : Lawful (bounded_c MAX_CONSENSUS_LEN "consensus length").
Proof. by apply bounded_lawful. Qed.

#[global] Instance BlockHeader_lawful : Lawful BlockHeader_c.
Proof.
  split; cbn [cwf enc dec BlockHeader_c].
  - intros h bs r (Hv & Hh & Ht) ([] & Ev & E)%rbind_Ok. cat_inv E. unfold BlockHeader_decode.
    codec_read. rewrite Ev. erewrite pbind_step by done. codec_read. by destruct h.
  - intros i h r E. unfold BlockHeader_decode in E.
    apply (pbind_canonical u32_c) in E as (v & bv & m & Hv & Ev & -> & E).
    apply pbind_Ok in E as ([] & m' & [Ec ->]%plift_Ok & E). dec_inv E. apply pret_Ok in E as [<- ->].
    split; [by split_and!|]. unfold BlockHeader_encode.
    cbn [bh_version bh_height bh_prev_hash bh_tx_root bh_timestamp bh_consensus].
    rewrite Ec. cbn [rbind]. codec_write.
Qed.

(** A header that can be encoded. *)
Definition header_ok (h : BlockHeader) : Prop :=
  bh_version h = PROTOCOL_VERSION ∧ bh_height h < U64 ∧ bh_timestamp h < U64 ∧
  blen (bh_consensus h) ≤ MAX_CONSENSUS_LEN.

Lemma put_bounded_Ok b max what : (∃ bs, put_bounded b max what = Ok bs) ↔ blen b ≤ max.
Proof.
  unfold put_bounded. destruct (N.ltb_spec max (blen b)); split; try lia; [by intros [? ?]|by eexists].
Qed.

Lemma BlockHeader_encodes h :
  header_ok h ↔ BlockHeader_wf h ∧ ∃ bs, BlockHeader_encode h = Ok bs.
Proof.
  unfold header_ok, BlockHeader_wf. split.
  - intros (Hv & Hh & Ht & Hc). rewrite Hv. split_and!; [done..|]. unfold BlockHeader_encode.
    rewrite (proj2 (check_version_Ok _) Hv). cbn [rbind].
    apply put_bounded_Ok with (what := "consensus length"%string) in Hc as [bs Hc].
    eexists. repeat (apply cat_Ok; [done|]). apply cat_nil_Ok.
  - intros [(? & ? & ?) [bs ([] & Ev%check_version_Ok & E)%rbind_Ok]]. cat_inv E.
    split_and!; [done..|]. apply (put_bounded_Ok _ _ "consensus length"). by eexists.
Qed.

Section blocks.
Context `{Crypto}.

#[global] Instance Block_lawful : Lawful Block_c.
Proof.
  split; cbn [cwf enc dec Block_c].
  - intros b bs r [Hh Ht] E. unfold Block_encode in E. unfold Block_decode.
    destruct (N.ltb_spec MAX_TXS_PER_BLOCK (N.of_nat (length (bk_transactions b)))) as [|Hl]; [done|].
    apply cat_cons in E as (hb & t & Eh & E & ->).
    apply cat_cons in E as (cb & tb & Ec & Et & ->). rewrite <- !app_assoc.
    rewrite (pbind_dec BlockHeader_c _ (bk_header b)) by done.
    rewrite (pbind_dec u64_c _ (N.of_nat (length (bk_transactions b)))); [|change (N.of_nat (length (bk_transactions b)) < U64); unfold MAX_TXS_PER_BLOCK, U64 in *; lia|done].
    destruct (N.ltb_spec MAX_TXS_PER_BLOCK (N.of_nat (length (bk_transactions b)))) as [|_]; [lia|].
    rewrite Nat2N.id. rewrite (pbind_step _ _ _ _ _ (many_roundtrip Transaction_c _ _ r Ht Et)).
    by destruct b.
  - intros i b r E. unfold Block_decode in E.
    apply (pbind_canonical BlockHeader_c) in E as (h & hb & m & Hh & Eh & -> & E).
    apply (pbind_canonical u64_c) in E as (n & nb & m' & Hn & En & -> & E).
    destruct (N.ltb_spec MAX_TXS_PER_BLOCK n) as [|Hl]; [done|].
    apply pbind_Ok in E as (ts & m & (Ht & Hlen & tb & Et & ->)%(many_canonical Transaction_c) & E).
    apply pret_Ok in E as [<- ->]. split; [by split|].
    unfold Block_encode. cbn [bk_header bk_transactions]. rewrite Hlen, N2Nat.id.
    destruct (N.ltb_spec MAX_TXS_PER_BLOCK n) as [|_]; [lia|].
    eexists. split; [apply cat_Ok; [exact Eh|]; apply cat_Ok; [exact En|exact Et]|].
    by rewrite <- !app_assoc.
Qed.

(** What the wire can carry. *)
Definition block_ok (b : Block) : Prop :=
  header_ok (bk_header b) ∧ N.of_nat (length (bk_transactions b)) ≤ MAX_TXS_PER_BLOCK ∧
  Forall (λ tx, Transaction_wf tx ∧ ∃ bs, Transaction_encode tx = Ok bs) (bk_transactions b).

Lemma cat_map_Ok {A} (f : A → eresult) l :
  (∃ bs, cat (map f l) = Ok bs) ↔ Forall (λ a, ∃ bs, f a = Ok bs) l.
Proof.
  induction l as [|a l IH]; cbn [map].
  { split; [constructor|by exists []]. }
  rewrite Forall_cons, <- IH. split.
  - intros (bs & (b & t & ? & ? & _)%cat_cons). eauto.
  - intros [[b Hb] [t Ht]]. exists (b ++ t). by apply cat_Ok.
Qed.

Lemma Block_encodes b : block_ok b ↔ Block_wf b ∧ ∃ bs, Block_encode b = Ok bs.
Proof.
  unfold block_ok, Block_wf, Block_encode. rewrite BlockHeader_encodes.
  destruct (N.ltb_spec MAX_TXS_PER_BLOCK (N.of_nat (length (bk_transactions b)))) as [|Hl].
  { split; [intros (_ & ? & _); lia|intros (_ & bs & ?); done]. }
  rewrite Forall_and. split.
  - intros ([Hh [hb Eh]] & _ & Ht & Et). split; [done|].
    apply cat_map_Ok in Et as [tb Et]. eexists.
    apply cat_Ok; [exact Eh|]. apply cat_Ok; [done|exact Et].
  - intros ([Hh Ht] & bs & E). apply cat_cons in E as (hb & t & Eh & E & ->).
    apply cat_cons in E as (cb & tb & _ & Et & ->). split_and!; [done|by eexists|done..|].
    apply cat_map_Ok. by eexists.
Qed.

(** C23. The block codec: the bytes a node accepts as a block are
    exactly the encodings of the blocks within the limits (current
    version, 64-bit height and time, bounded consensus payload, at most
    4096 well-formed transactions), one encoding per block. *)
Theorem block_codec b bs :
  (block_ok b ↔ Block_wf b ∧ ∃ bs, Block_encode b = Ok bs) ∧
  (decode_complete Block_decode bs = Ok b ↔ block_ok b ∧ Block_encode b = Ok bs).
Proof.
  split; [apply Block_encodes|]. split.
  - intros E. destruct (@decode_complete_canonical _ Block_c Block_lawful bs b E) as [Hw Eb].
    split; [|done]. apply Block_encodes. split; [done|by eexists].
  - intros [[Hw _]%Block_encodes E]. by apply (@decode_complete_roundtrip _ Block_c Block_lawful b bs).
Qed.

(** ** Checkpoint envelopes *)

(** Strictly increasing keys, above [prev]. *)
Fixpoint strictly_sorted (prev : option (arr 32)) (l : list PublicKey) : Prop :=
  match l with
  | [] => True
  | pk :: l => not_after prev pk = false ∧ strictly_sorted (Some pk) l
  end.

Lemma not_after_lt prev pk : not_after (Some prev) pk = false ↔ bytes_lt prev pk.
Proof.
  unfold not_after, bytes_lt, bytes_leb, bytes_ltb. rewrite (bytes_cmp_antisym prev pk).
  by destruct (bytes_cmp prev pk).
Qed.

Lemma strictly_sorted_tail prev l : strictly_sorted prev l → strictly_sorted None l.
Proof. destruct l; [done|]. by intros [_ ?]. Qed.

Lemma strictly_sorted_NoDup l : strictly_sorted None l → NoDup l ∧ StronglySorted arr_le l.
Proof.
  assert (∀ p l, strictly_sorted (Some p) l → Forall (bytes_lt p) (map arr_list l)) as Hf.
  { intros p l'. revert p. induction l' as [|q l' IH]; intros p; simpl; [constructor|].
    intros [Hq%not_after_lt Hs]. constructor; [done|]. eapply Forall_impl; [by apply IH|].
    intros x Hx. unfold bytes_lt, bytes_ltb in *.
    destruct (bytes_cmp p q) eqn:E1; try done. destruct (bytes_cmp q x) eqn:E2; try done.
    by rewrite (bytes_cmp_trans _ _ _ _ E1 E2). }
  induction l as [|p l IH]; [by split; constructor|]. intros [_ Hs].
  destruct (IH (strictly_sorted_tail _ _ Hs)) as [Hnd Hso]. apply Hf in Hs.
  rewrite Forall_map, Forall_forall in Hs. split.
  - constructor; [|done]. intros Hin. by apply (bytes_lt_irrefl p), (Hs p).
  - constructor; [done|]. apply Forall_forall. intros q Hq. apply bytes_le_lt. right. by apply Hs.
Qed.

Lemma signers_encode_Ok prev sigs :
  (∃ bs, signers_encode prev sigs = Ok bs) ↔ strictly_sorted prev sigs.*1.
Proof.
  revert prev. induction sigs as [|[pk sig] sigs IH]; intros prev; simpl; [split; [done|by eexists]|].
  destruct (not_after prev pk); [split; [by intros [? ?]|by intros [? _]]|].
  rewrite <- IH. split.
  - intros [bs E]. split; [done|]. destruct (signers_encode (Some pk) sigs); [by eexists|done].
  - intros [_ [bs E]]. rewrite E. by eexists.
Qed.

Lemma signers_encode_cons prev pk sig sigs bs :
  signers_encode prev ((pk, sig) :: sigs) = Ok bs ↔
  not_after prev pk = false ∧ ∃ t, signers_encode (Some pk) sigs = Ok t ∧
  bs = arr_list pk ++ arr_list sig ++ t.
Proof.
  cbn [signers_encode]. destruct (not_after prev pk); [naive_solver|]. split.
  - intros E. cat_inv E. apply Ok_inj in He, He0. subst. split; [done|].
    eexists. split; [done|]. by rewrite app_nil_r.
  - intros (_ & t & Et & ->). rewrite <- (app_nil_r t).
    apply cat_Ok; [done|]. apply cat_Ok; [done|]. apply cat_Ok; [done|]. apply cat_nil_Ok.
Qed.

Lemma length_signers_encode prev sigs bs :
  signers_encode prev sigs = Ok bs → length bs = (96 * length sigs)%nat.
Proof.
  revert prev bs. induction sigs as [|[pk sig] sigs IH]; intros prev bs.
  { by intros [= <-]. }
  intros (_ & t & Et%IH & ->)%signers_encode_cons.
  rewrite !length_app, !arr_length, Et. cbn [length]. lia.
Qed.

Lemma signers_roundtrip prev sigs bs r :
  Forall (λ ps, vk_valid ps.1 = true) sigs → signers_encode prev sigs = Ok bs →
  signers_decode (length sigs) prev (bs ++ r) = Ok (sigs, r).
Proof.
  intros Hv. revert prev bs. induction Hv as [|[pk sig] sigs Hpk _ IH]; intros prev bs.
  { by intros [= <-]. }
  intros (Hn & t & Et & ->)%signers_encode_cons. cbn [length signers_decode].
  rewrite <- !app_assoc. rewrite (pbind_dec (array_c 32) _ pk) by done.
  rewrite (pbind_dec (array_c 64) _ sig) by done. rewrite Hn.
  unfold PublicKey_from_bytes. simpl in Hpk. rewrite Hpk.
  rewrite (pbind_step _ _ _ pk (t ++ r)) by done.
  by rewrite (pbind_step _ _ _ _ _ (IH _ _ Et)).
Qed.

Lemma signers_canonical n prev i sigs r :
  signers_decode n prev i = Ok (sigs, r) →
  Forall (λ ps, vk_valid ps.1 = true) sigs ∧ length sigs = n ∧
  ∃ bs, signers_encode prev sigs = Ok bs ∧ i = bs ++ r.
Proof.
  revert prev i sigs. induction n as [|n IH]; intros prev i sigs E; cbn [signers_decode] in E.
  { apply pret_Ok in E as [<- ->]. split_and!; [constructor|done|]. by exists []. }
  apply (pbind_canonical (array_c 32)) in E as (pk & b1 & m1 & _ & E1 & -> & E).
  apply (pbind_canonical (array_c 64)) in E as (sig & b2 & m2 & _ & E2 & -> & E).
  destruct (not_after prev pk) eqn:Hn; [done|].
  apply pbind_Ok in E as (pk' & m & [Epk ->]%plift_Ok & E). apply ok_or_Ok in Epk.
  unfold PublicKey_from_bytes in Epk. destruct (vk_valid pk) eqn:Hv; [|done]. injection Epk as <-.
  apply pbind_Ok in E as (rest & m & E & [<- ->]%pret_Ok).
  apply IH in E as (Hr & <- & bs & Eb & ->).
  split_and!; [by constructor|done|]. apply Ok_inj in E1, E2. subst b1 b2.
  eexists. split; [apply signers_encode_cons; split; [done|]; eexists; split; [exact Eb|done]|].
  by rewrite <- !app_assoc.
Qed.

#[global] Instance Checkpoint_lawful : Lawful Checkpoint_c.
Proof.
  split; cbn [cwf enc dec Checkpoint_c].
  - intros c bs r [Hd Hs] (body & Eb & E)%rbind_Ok. unfold Checkpoint_decode.
    destruct (N.ltb_spec MAX_CHECKPOINT_SIGNERS (N.of_nat (length (signatures c)))) as [|Hl]; [done|].
    cat_inv E. apply Ok_inj in He. subst. rewrite <- !app_assoc.
    destruct (to_arr_is_Some 13 CHECKPOINT_WIRE_TAG eq_refl) as (tag & _ & Etag). rewrite <- Etag.
    rewrite (pbind_dec (array_c 13) _ tag) by done. rewrite bool_decide_eq_true_2 by done. cbn [negb].
    rewrite (pbind_dec CheckpointData_c _ (data c)) by done.
    rewrite (pbind_dec u64_c _ (N.of_nat (length (signatures c)))) by (done || change (N.of_nat (length (signatures c)) < U64); unfold MAX_CHECKPOINT_SIGNERS, U64 in *; lia).
    destruct (N.ltb_spec MAX_CHECKPOINT_SIGNERS (N.of_nat (length (signatures c)))) as [|_]; [lia|].
    pose proof (length_signers_encode _ _ _ He1) as Hlen. cbn [app].
    destruct (N.ltb_spec (blen (b1 ++ r)) (N.of_nat (length (signatures c)) * 96)) as [Hbl|_].
    { unfold blen in Hbl. rewrite length_app in Hbl. lia. }
    rewrite Nat2N.id. rewrite (pbind_step _ _ _ _ _ (signers_roundtrip _ _ _ r Hs He1)).
    by destruct c.
  - intros i c r E. unfold Checkpoint_decode in E.
    apply (pbind_canonical (array_c 13)) in E as (tag & b1 & m1 & _ & E1 & -> & E).
    case_bool_decide as Etag; [|done]. cbn [negb] in E.
    apply (pbind_canonical CheckpointData_c) in E as (d & b2 & m2 & Hd & E2 & -> & E).
    apply (pbind_canonical u64_c) in E as (n & b3 & m3 & Hn & E3 & -> & E).
    destruct (N.ltb_spec MAX_CHECKPOINT_SIGNERS n) as [|Hl]; [done|]. cbv beta in E.
    destruct (blen m3 <? n * 96); [done|].
    apply pbind_Ok in E as (sigs & m & (Hs & Hlen & bs & Eb & ->)%signers_canonical & E).
    apply pret_Ok in E as [<- ->]. split; [by split|]. unfold Checkpoint_encode. cbn [data signatures].
    rewrite E2, Hlen, N2Nat.id. cbn [rbind].
    destruct (N.ltb_spec MAX_CHECKPOINT_SIGNERS n) as [|_]; [lia|].
    apply Ok_inj in E1. cbn in E1. subst b1. rewrite Etag.
    eexists. split.
    { apply cat_Ok; [done|]. apply cat_Ok; [exact E3|]. apply cat_Ok; [exact Eb|]. apply cat_nil_Ok. }
    by rewrite <- !app_assoc.
Qed.

(** The checkpoint codec: the bytes accepted as a checkpoint are
    exactly the encodings of the checkpoints with valid keys, at most 64
    signatures and keys in strictly increasing order, so no signer
    appears twice; one encoding per checkpoint. *)
Theorem checkpoint_codec c bs :
  decode_complete Checkpoint_decode bs = Ok c ↔
  Checkpoint_wf c ∧ (length (signatures c) ≤ 64)%nat ∧ strictly_sorted None (signatures c).*1 ∧
  NoDup (signatures c).*1 ∧ Checkpoint_encode c = Ok bs.
Proof.
  split.
  - intros E. destruct (@decode_complete_canonical _ Checkpoint_c Checkpoint_lawful bs c E) as [Hw Ec].
    split; [done|]. pose proof Ec as E'. cbn [enc Checkpoint_c] in E'. apply rbind_Ok in E' as (body & _ & E').
    destruct (N.ltb_spec MAX_CHECKPOINT_SIGNERS (N.of_nat (length (signatures c)))) as [|Hl]; [done|].
    cat_inv E'. assert (strictly_sorted None (signatures c).*1) as Hs by (apply signers_encode_Ok; by eexists).
    split_and!; [unfold MAX_CHECKPOINT_SIGNERS in Hl; lia|done|by apply strictly_sorted_NoDup|done].
  - intros (Hw & _ & _ & _ & E). by apply (@decode_complete_roundtrip _ Checkpoint_c Checkpoint_lawful c bs).
Qed.

(** ** What Merkle roots hash *)

Definition leaf_preimage (txid : TxId) : list byte := MERKLE_VERSION ++ [x00] ++ arr_list txid.
Definition node_preimage (l r : hash) : list byte := MERKLE_VERSION ++ [x01] ++ arr_list l ++ arr_list r.

Lemma leaf_hash_eq t : leaf_hash t = blake3 (leaf_preimage t).
Proof. unfold leaf_hash, hash256, leaf_preimage. simpl. by rewrite app_nil_r. Qed.
Lemma node_hash_eq l r : node_hash l r = blake3 (node_preimage l r).
Proof. unfold node_hash, hash256, node_preimage. simpl. by rewrite app_nil_r. Qed.

Lemma leaf_preimage_inj t t' : leaf_preimage t = leaf_preimage t' → t = t'.
Proof. unfold leaf_preimage. intros E%app_inv_head. injection E as E. by apply arr_eq. Qed.

Lemma node_preimage_inj l r l' r' : node_preimage l r = node_preimage l' r' → l = l' ∧ r = r'.
Proof.
  unfold node_preimage. intros E%app_inv_head. injection E as E.
  apply app_arr_inj in E as [-> E]. split; [done|by apply arr_eq].
Qed.

(** What [merkle_loop] hashes. *)
Fixpoint level_preimages (level : list hash) : list (list byte) :=
  match level with
  | l :: r :: rest => node_preimage l r :: level_preimages rest
  | [l] => [node_preimage l l]
  | [] => []
  end.
Fixpoint loop_preimages (fuel : nat) (level : list hash) : list (list byte) :=
  match fuel with
  | O => []
  | S fuel =>
      if (1 <? length level)%nat then level_preimages level ++ loop_preimages fuel (next_level level)
      else []
  end.
Definition merkle_preimages (txids : list TxId) : list (list byte) :=
  map leaf_preimage txids ++ loop_preimages (length txids) (map leaf_hash txids).

(** ** The Merkle tree *)

(** Two elements at a time. *)
Lemma pair_ind {A} (P : list A → Prop) :
  P [] → (∀ x, P [x]) → (∀ x y l, P l → P (x :: y :: l)) → ∀ l, P l.
Proof.
  intros H0 H1 H2 l. assert (P l ∧ ∀ x, P (x :: l)) as [? _]; [|done].
  induction l as [|y l [IH1 IH2]]; [by split|]. split; [apply IH2|]. intros x. by apply H2.
Qed.

Lemma length_next_level level : length (next_level level) = ((length level + 1) / 2)%nat.
Proof.
  induction level as [| |x y l IH] using pair_ind; [done..|]. cbn [next_level length].
  rewrite IH. replace (S (S (length l)) + 1)%nat with (length l + 1 + 1 * 2)%nat by lia.
  rewrite Nat.div_add by done. lia.
Qed.

Lemma next_level_shorter level : (1 < length level)%nat → (length (next_level level) < length level)%nat.
Proof. rewrite length_next_level. intros Hl. apply Nat.Div0.div_lt_upper_bound. lia. Qed.

Lemma next_level_nonempty level : level ≠ [] → next_level level ≠ [].
Proof. by destruct level as [|x [|y l]]. Qed.

(** The loop ends with one hash: a level as long as the fuel is enough. *)
Lemma merkle_loop_single fuel level :
  (length level ≤ fuel)%nat → level ≠ [] → ∃ r, merkle_loop fuel level = [r].
Proof.
  revert level. induction fuel as [|fuel IH]; intros level Hl Hne.
  { destruct level; [done|simpl in Hl; lia]. }
  cbn [merkle_loop]. destruct (Nat.ltb_spec 1 (length level)) as [Hg|Hg].
  - apply IH; [|by apply next_level_nonempty]. pose proof (next_level_shorter level Hg). lia.
  - destruct level as [|x [|y l]]; [done|by eexists|simpl in Hg; lia].
Qed.

Lemma merkle_loop_fuel fuel fuel' level :
  (length level ≤ fuel)%nat → (length level ≤ fuel')%nat →
  merkle_loop fuel level = merkle_loop fuel' level.
Proof.
  revert fuel' level. induction fuel as [|fuel IH]; intros [|fuel'] level Hl Hl'; cbn [merkle_loop]; try done;
    destruct (Nat.ltb_spec 1 (length level)) as [Hg|Hg]; try done; try lia.
  pose proof (next_level_shorter level Hg). apply IH; lia.
Qed.

Lemma next_level_inj a b :
  length a = length b → injective_on (level_preimages a ++ level_preimages b) →
  next_level a = next_level b → a = b.
Proof.
  assert (∀ l r l' r' p q, injective_on (node_preimage l r :: p ++ node_preimage l' r' :: q) →
    node_hash l r = node_hash l' r' → l = l' ∧ r = r') as Hn.
  { intros l r l' r' p q Hi E. rewrite !node_hash_eq in E. apply node_preimage_inj, Hi; [set_solver..|done]. }
  revert b. induction a as [|x|x y l IH] using pair_ind; intros [|x' [|y' l']] Hlen Hi E; try done.
  - apply cons_inv in E as [E _]. by destruct (Hn x x x' x' [] [] Hi E) as [-> _].
  - cbn [next_level level_preimages app] in E, Hi. apply cons_inv in E as [E El].
    apply Hn with (p := level_preimages l) (q := level_preimages l') in E as [-> ->]; [|exact Hi].
    rewrite (IH l'); [done|by injection Hlen| |done].
    fewer_preimages Hi.
Qed.

Lemma merkle_loop_inj fuel a b :
  length a = length b → injective_on (loop_preimages fuel a ++ loop_preimages fuel b) →
  merkle_loop fuel a = merkle_loop fuel b → a = b.
Proof.
  revert a b. induction fuel as [|fuel IH]; intros a b Hlen Hi E; [done|].
  cbn [merkle_loop loop_preimages] in *. rewrite <- Hlen in *.
  destruct (1 <? length a)%nat; [|done].
  apply next_level_inj; [done| |].
  - fewer_preimages Hi.
  - apply IH; [by rewrite !length_next_level, Hlen| |done].
    fewer_preimages Hi.
Qed.

Lemma merkle_root_nonempty l :
  l ≠ [] → merkle_loop (length l) (map leaf_hash l) = [merkle_root l].
Proof.
  intros Hne. destruct (merkle_loop_single (length l) (map leaf_hash l)) as [r Er].
  { by rewrite length_map. } { by destruct l. }
  unfold merkle_root. destruct l; [done|]. rewrite length_map, Er. done.
Qed.

(** For lists of one length, the root determines the ordered list. *)
Lemma merkle_root_inj l l' :
  length l = length l' → injective_on (merkle_preimages l ++ merkle_preimages l') →
  merkle_root l = merkle_root l' → l = l'.
Proof.
  intros Hlen Hi E. destruct (decide (l = [])) as [->|Hne]; [by destruct l'|].
  assert (l' ≠ []) as Hne' by (by intros ->; destruct l).
  assert (map leaf_hash l = map leaf_hash l') as El.
  { apply (merkle_loop_inj (length l)).
    - by rewrite !length_map.
    - unfold merkle_preimages in Hi. rewrite <- Hlen in Hi. fewer_preimages Hi.
    - rewrite merkle_root_nonempty by done. by rewrite Hlen, merkle_root_nonempty, E by done. }
  assert (injective_on (map leaf_preimage l ++ map leaf_preimage l')) as Hj.
  { unfold merkle_preimages in Hi. fewer_preimages Hi. }
  clear -Hlen El Hj. revert l' Hlen El Hj. induction l as [|t l IH]; intros [|t' l'] Hlen El Hj; try done.
  cbn [map] in El, Hj. apply cons_inv in El as [Et El]. f_equal.
  - rewrite !leaf_hash_eq in Et. apply leaf_preimage_inj, Hj; [set_solver..|done].
  - apply IH; [by injection Hlen|done|]. fewer_preimages Hj.
Qed.

(** ** What a block hash commits to *)

Definition header_preimage (h : BlockHeader) : list (list byte) :=
  match BlockHeader_encode h with Ok e => [BLOCK_HASH_VERSION ++ e] | Err _ => [] end.
Definition tx_preimage (tx : Transaction) : list (list byte) :=
  match Transaction_encode tx with Ok e => [TX_ID_VERSION ++ e] | Err _ => [] end.
Definition block_preimages (b : Block) : list (list byte) :=
  header_preimage (bk_header b) ++ concat (map tx_preimage (bk_transactions b)) ++
  match collect transaction_id (bk_transactions b) with Ok ids => merkle_preimages ids | Err _ => [] end.

Lemma transaction_id_Ok tx id :
  transaction_id tx = Ok id ↔ ∃ e, Transaction_encode tx = Ok e ∧ id = blake3 (TX_ID_VERSION ++ e).
Proof.
  unfold transaction_id. rewrite rbind_Ok. setoid_rewrite map_err_Ok.
  change (enc Transaction_c tx) with (Transaction_encode tx).
  unfold hash256. simpl. setoid_rewrite app_nil_r. naive_solver.
Qed.

Lemma header_hash_Ok h x :
  header_hash h = Ok x ↔ ∃ e, BlockHeader_encode h = Ok e ∧ x = blake3 (BLOCK_HASH_VERSION ++ e).
Proof.
  unfold header_hash. rewrite rbind_Ok. setoid_rewrite map_err_Ok.
  change (enc BlockHeader_c h) with (BlockHeader_encode h).
  unfold hash256. simpl. setoid_rewrite app_nil_r. naive_solver.
Qed.

Lemma header_hash_inj h h' x :
  BlockHeader_wf h → BlockHeader_wf h' → injective_on (header_preimage h ++ header_preimage h') →
  header_hash h = Ok x → header_hash h' = Ok x → h = h'.
Proof.
  unfold header_preimage. intros Hw Hw' Hi (e & E & ->)%header_hash_Ok (e' & E' & Ex)%header_hash_Ok.
  rewrite E, E' in Hi. apply Hi in Ex; [|set_solver..]. apply app_inv_head in Ex as <-.
  by destruct (enc_inj BlockHeader_c h h' e e [] [] Hw Hw' E E' eq_refl).
Qed.

Lemma transaction_id_inj tx tx' x :
  Transaction_wf tx → Transaction_wf tx' → injective_on (tx_preimage tx ++ tx_preimage tx') →
  transaction_id tx = Ok x → transaction_id tx' = Ok x → tx = tx'.
Proof.
  unfold tx_preimage. intros Hw Hw' Hi (e & E & ->)%transaction_id_Ok (e' & E' & Ex)%transaction_id_Ok.
  rewrite E, E' in Hi. apply Hi in Ex; [|set_solver..]. apply app_inv_head in Ex as <-.
  by destruct (enc_inj Transaction_c tx tx' e e [] [] Hw Hw' E E' eq_refl).
Qed.

Lemma collect_Ok {E A B} (f : A → result E B) l bs :
  collect f l = Ok bs ↔ Forall2 (λ a b, f a = Ok b) l bs.
Proof.
  revert bs. induction l as [|a l IH]; intros bs; cbn [collect].
  { rewrite Forall2_nil_inv_l_iff || idtac. split; [intros [= <-]; constructor|by intros ->%Forall2_nil_inv_l]. }
  rewrite rbind_Ok. split.
  - intros (b & Eb & (bs' & Ebs & [= <-])%rbind_Ok). constructor; [done|by apply IH].
  - intros (b & bs' & Eb & Ebs & ->)%Forall2_cons_inv_l. exists b. split; [done|].
    apply rbind_Ok. exists bs'. split; [by apply IH|done].
Qed.

Lemma transaction_ids_inj l l' ids :
  Forall Transaction_wf l → Forall Transaction_wf l' →
  injective_on (concat (map tx_preimage l) ++ concat (map tx_preimage l')) →
  Forall2 (λ a b, transaction_id a = Ok b) l ids → Forall2 (λ a b, transaction_id a = Ok b) l' ids →
  l = l'.
Proof.
  intros Hw. revert l' ids. induction Hw as [|t l Ht _ IH]; intros l' ids Hw' Hi H1 H2.
  { apply Forall2_nil_inv_l in H1 as ->. by apply Forall2_nil_inv_r in H2 as ->. }
  apply Forall2_cons_inv_l in H1 as (x & ids' & Ex & H1 & ->).
  apply Forall2_cons_inv_r in H2 as (t' & l'' & Ex' & H2 & ->).
  apply Forall_cons in Hw' as [Ht' Hw']. cbn [map concat] in Hi. f_equal.
  - apply (transaction_id_inj t t' x); try done. fewer_preimages Hi.
  - apply (IH l'' ids'); try done. fewer_preimages Hi.
Qed.

(** A block hash commits to the whole block: two well-formed blocks
    with the same hash, whose headers carry the Merkle root of their
    transactions, are equal when they hold the same number of
    transactions (and no two of the hashed values collide). *)
Theorem block_hash_commits b b' h :
  Block_wf b → Block_wf b' →
  header_hash (bk_header b) = Ok h → header_hash (bk_header b') = Ok h →
  tx_root (bk_transactions b) = Ok (bh_tx_root (bk_header b)) →
  tx_root (bk_transactions b') = Ok (bh_tx_root (bk_header b')) →
  length (bk_transactions b) = length (bk_transactions b') →
  injective_on (block_preimages b ++ block_preimages b') → b = b'.
Proof.
  intros [Hh Ht] [Hh' Ht'] Eh Eh' (ids & Ei & Er)%rbind_Ok (ids' & Ei' & Er')%rbind_Ok Hlen Hi.
  unfold block_preimages in Hi. rewrite Ei, Ei' in Hi. apply Ok_inj in Er, Er'.
  assert (bk_header b = bk_header b') as E.
  { apply (header_hash_inj _ _ h); try done. fewer_preimages Hi. }
  apply collect_Ok in Ei, Ei'. assert (ids = ids') as <-.
  { apply merkle_root_inj; [|eapply injective_on_sub; [|exact Hi]|congruence].
    - apply Forall2_length in Ei, Ei'. congruence.
    - intros z. rewrite !elem_of_app. tauto. }
  destruct b as [hd txs], b' as [hd' txs']. simpl in *. f_equal; [done|].
  apply (transaction_ids_inj txs txs' ids); try done. fewer_preimages Hi.
Qed.

(** *** The number of transactions is not committed to *)

Lemma next_level_duplicate l x : Nat.Even (length l) → next_level (l ++ [x]) = next_level (l ++ [x; x]).
Proof.
  induction l as [|y|y z l IH] using pair_ind; intros Ev; [done| |].
  - by destruct (Nat.Even_Odd_False 1 Ev (Nat.odd_spec 1)) || (destruct Ev as [k Hk]; simpl in Hk; lia).
  - cbn [app next_level]. rewrite IH; [done|]. destruct Ev as [k Hk]. exists (k - 1)%nat. simpl in Hk. lia.
Qed.

Lemma merkle_root_duplicate l x :
  Nat.Even (length l) → l ≠ [] → merkle_root (l ++ [x]) = merkle_root (l ++ [x; x]).
Proof.
  intros Ev Hne. assert (1 < length (l ++ [x]))%nat as Hl by (destruct l; [done|rewrite length_app; simpl; lia]).
  assert (l ++ [x] ≠ [] ∧ l ++ [x; x] ≠ []) as [H1 H2] by (by destruct l).
  pose proof (merkle_root_nonempty _ H1) as E1. pose proof (merkle_root_nonempty _ H2) as E2.
  cut ([merkle_root (l ++ [x])] = [merkle_root (l ++ [x; x])]); [by intros [= ->]|].
  rewrite <- E1, <- E2. rewrite (merkle_loop_fuel (length (l ++ [x])) (length (l ++ [x; x])) (map leaf_hash (l ++ [x])))
    by (rewrite length_map, !length_app; simpl; lia).
  assert (length (l ++ [x; x]) = S (length (l ++ [x]))) as -> by (rewrite !length_app; simpl; lia).
  cbn [merkle_loop]. rewrite !length_map.
  rewrite (proj2 (Nat.ltb_lt _ _) Hl), (proj2 (Nat.ltb_lt 1 (length (l ++ [x; x])))) by (rewrite !length_app in *; simpl in *; lia).
  rewrite !map_app. cbn [map]. rewrite (next_level_duplicate (map leaf_hash l)) by (by rewrite length_map). done.
Qed.

Lemma collect_app {E A B} (f : A → result E B) l l' :
  collect f (l ++ l') = (let? a := collect f l in let? b := collect f l' in Ok (a ++ b)).
Proof.
  induction l as [|x l IH]; cbn [app collect rbind]; [by destruct (collect f l')|].
  destruct (f x); [|done]. cbn [rbind]. rewrite IH. destruct (collect f l); [|done]. cbn [rbind].
  by destruct (collect f l').
Qed.

(** The odd level of the Merkle tree is completed by duplicating its
    last hash, so a block with an odd number (at least three) of
    transactions and the same block with its last transaction repeated
    have the same [tx_root], hence the same header and block hash. *)
Theorem tx_root_duplicate txs tx :
  Nat.Even (length txs) → txs ≠ [] → tx_root (txs ++ [tx]) = tx_root (txs ++ [tx; tx]).
Proof.
  intros Ev Hne. unfold tx_root. rewrite !collect_app. cbn [collect].
  destruct (collect transaction_id txs) as [ids|] eqn:E; [|done]. cbn [rbind].
  destruct (transaction_id tx) as [id|]; [|done]. cbn [rbind]. f_equal.
  apply collect_Ok, Forall2_length in E. apply merkle_root_duplicate; [by rewrite <- E|].
  intros ->. by destruct txs.
Qed.

(** ** Producers and the builder *)

Lemma arr_of_arr_n {n} (a : arr n) : arr_of n a = a.
Proof.
  apply arr_eq. rewrite arr_of_id by (by rewrite arr_length).
  by rewrite arr_length, Nat.sub_diag, app_nil_r.
Qed.

Lemma producer_payload_roundtrip pk sig :
  vk_valid pk = true →
  decode_producer_payload (encode_producer_payload pk sig) = Some (mkProducerPayload pk sig).
Proof.
  intros Hv. unfold decode_producer_payload, encode_producer_payload.
  rewrite !length_app, !arr_length. change (length BLOCK_SIGN_TAG) with 14%nat. cbn [Nat.add Nat.eqb negb PRODUCER_PAYLOAD_LEN].
  rewrite take_app_length' by done. rewrite bool_decide_eq_true_2 by done. cbn [negb].
  rewrite slice_skip by (cbn; lia). change (length BLOCK_SIGN_TAG) with 14%nat. cbn [Nat.sub].
  rewrite slice_head by apply arr_length. rewrite app_assoc, drop_app_length' by (by rewrite length_app, arr_length).
  rewrite !arr_of_arr_n. unfold PublicKey_from_bytes. by rewrite Hv.
Qed.

Lemma producer_signing_hash_set_consensus h c :
  producer_signing_hash (set_consensus h c) = producer_signing_hash h.
Proof. done. Qed.

Lemma header_hash_is_ok h :
  (∃ x, header_hash h = Ok x) ↔ bh_version h = PROTOCOL_VERSION ∧ blen (bh_consensus h) ≤ MAX_CONSENSUS_LEN.
Proof.
  rewrite <- (put_bounded_Ok _ _ "consensus length"). setoid_rewrite header_hash_Ok.
  unfold BlockHeader_encode. rewrite <- check_version_Ok.
  destruct (check_version (bh_version h)) as [[]|]; cbn [rbind]; [|naive_solver]. split.
  - intros (x & e & E & _). split; [done|]. cat_inv E. by eexists.
  - intros [_ [bs Hb]]. do 2 eexists. split; [|done].
    repeat (apply cat_Ok; [done|]). apply cat_nil_Ok.
Qed.

(** The [expect] of [build] is never reached. *)
Lemma build_signing_hash b root :
  is_Some (producer_signing_hash (mkBlockHeader PROTOCOL_VERSION (bb_height b) (bb_prev_hash b) root
             (bb_timestamp b) (bb_consensus b))).
Proof.
  unfold producer_signing_hash. edestruct (header_hash_is_ok) as [_ [x ->]]; [|by eexists].
  by split.
Qed.

(** The header [build] signs and stamps. *)
Definition built_header (b : BlockBuilder) (root : MerkleRoot) : BlockHeader :=
  mkBlockHeader PROTOCOL_VERSION (bb_height b) (bb_prev_hash b) root (bb_timestamp b) (bb_consensus b).

Lemma blen_payload pk sig : blen (encode_producer_payload pk sig) = 110.
Proof. unfold blen, encode_producer_payload. by rewrite !length_app, !arr_length. Qed.

Lemma build_signed_Ok b sk root :
  tx_root (bb_transactions b) = Ok root → bb_producer b = Some sk →
  ∃ sh, producer_signing_hash (built_header b root) = Some sh ∧
    build b = Ok (mkBlock (set_consensus (built_header b root)
      (encode_producer_payload (sk_public_key sk) (sign_block_hash sk sh))) (bb_transactions b)).
Proof.
  intros Er Es. destruct (build_signing_hash b root) as [sh Hsh]. exists sh. split; [done|].
  unfold build. rewrite Er, Es. cbn [rbind]. fold (built_header b root) in *. rewrite Hsh. cbn [default id].
  destruct (proj2 (header_hash_is_ok (set_consensus (built_header b root)
    (encode_producer_payload (sk_public_key sk) (sign_block_hash sk sh))))) as [x Hx].
  { split; [done|]. cbn [set_consensus bh_consensus]. rewrite blen_payload. done. }
  rewrite Hx. cbn [rbind]. by rewrite Hx.
Qed.

(** What [build] returns for a producer. *)
Lemma build_signed_spec `{!CryptoLaws} b sk :
  bb_producer b = Some sk →
  (is_ok (build b) = true ↔ is_ok (tx_root (bb_transactions b)) = true) ∧
  ∀ blk, build b = Ok blk →
    bk_transactions blk = bb_transactions b ∧
    tx_root (bk_transactions blk) = Ok (bh_tx_root (bk_header blk)) ∧
    bh_version (bk_header blk) = PROTOCOL_VERSION ∧ bh_height (bk_header blk) = bb_height b ∧
    bh_prev_hash (bk_header blk) = bb_prev_hash b ∧ bh_timestamp (bk_header blk) = bb_timestamp b ∧
    is_ok (header_hash (bk_header blk)) = true ∧
    ∃ p sh, decode_producer_payload (bh_consensus (bk_header blk)) = Some p ∧
      pp_producer p = sk_public_key sk ∧ producer_signing_hash (bk_header blk) = Some sh ∧
      verify_block_producer p sh = true.
Proof.
  intros Es. destruct (tx_root (bb_transactions b)) as [root|e] eqn:Er.
  2:{ assert (build b = Err e) as -> by (unfold build; by rewrite Er). done. }
  destruct (build_signed_Ok b sk root Er Es) as (sh & Hsh & E). rewrite E. split; [done|].
  intros blk [= <-]. cbn [bk_transactions bk_header set_consensus built_header bh_tx_root bh_version
    bh_height bh_prev_hash bh_timestamp bh_consensus]. split_and!; try done.
  - apply is_ok_Ok, header_hash_is_ok. split; [done|].
    change (blen (encode_producer_payload (sk_public_key sk) (sign_block_hash sk sh)) ≤ MAX_CONSENSUS_LEN).
    by rewrite blen_payload.
  - do 2 eexists. split; [apply producer_payload_roundtrip, public_valid|]. split; [done|].
    split; [exact Hsh|]. apply pk_verify_sign.
Qed.

(** [build_with] keeps the transactions in order, within the limit. *)
Lemma push_txs_Ok b txs b' :
  push_txs b txs = Ok b' → N.of_nat (length (bb_transactions b)) ≤ MAX_TXS_PER_BLOCK →
  bb_transactions b' = bb_transactions b ++ txs ∧
  N.of_nat (length (bb_transactions b')) ≤ MAX_TXS_PER_BLOCK ∧
  bb_prev_hash b' = bb_prev_hash b ∧ bb_height b' = bb_height b ∧ bb_timestamp b' = bb_timestamp b ∧
  bb_producer b' = bb_producer b.
Proof.
  revert b. induction txs as [|tx txs IH]; intros b; cbn [push_txs].
  { intros [= <-] Hl. by rewrite app_nil_r. }
  intros (b1 & Eb & E)%rbind_Ok Hl. unfold push_tx in Eb.
  destruct (N.leb_spec MAX_TXS_PER_BLOCK (N.of_nat (length (bb_transactions b)))); [done|].
  injection Eb as <-. destruct (IH _ E) as (E1 & Hl' & E3 & E4 & E5 & E6).
  { cbn [bb_transactions]. rewrite length_app. cbn [length]. lia. }
  split_and!; try done. rewrite E1. cbn [bb_transactions]. by rewrite <- app_assoc.
Qed.

(** Honest production: a builder with a producer key succeeds
    exactly when its transactions can be encoded; the block carries
    them, extends the given parent, and its consensus payload decodes to
    the producer's key with a signature that verifies over the signing
    hash any node recomputes from the header. *)
Theorem built_block_verifies `{!CryptoLaws} b sk :
  bb_producer b = Some sk →
  (is_ok (build b) = true ↔ is_ok (tx_root (bb_transactions b)) = true) ∧
  ∀ blk, build b = Ok blk →
    bk_transactions blk = bb_transactions b ∧
    tx_root (bk_transactions blk) = Ok (bh_tx_root (bk_header blk)) ∧
    bh_version (bk_header blk) = PROTOCOL_VERSION ∧ bh_height (bk_header blk) = bb_height b ∧
    bh_prev_hash (bk_header blk) = bb_prev_hash b ∧ bh_timestamp (bk_header blk) = bb_timestamp b ∧
    is_ok (header_hash (bk_header blk)) = true ∧
    ∃ p sh, decode_producer_payload (bh_consensus (bk_header blk)) = Some p ∧
      pp_producer p = sk_public_key sk ∧ producer_signing_hash (bk_header blk) = Some sh ∧
      verify_block_producer p sh = true.
Proof. exact (build_signed_spec b sk). Qed.
End blocks.
