(* ===== verification/SignerProps.v ===== *)
(** * The signer never signs two checkpoints of an epoch

    The state file holds exactly the contexts in memory, so whatever
    the failures of its writes and the restarts, no two conflicting
    signatures leave the node — provided the directory is synced, which
    the code does not check. *)

From S2P Require Import Prelude Bytes Crypto Names Codec Checkpoint Tx Wire State Blocks BlocksProps Signer.

Section signer_props.
Context `{Crypto}.

(** ** The state file *)

Definition ctx_wf (c : SignedContext) : Prop :=
  vk_valid (sc_signer c) = true ∧ sc_epoch c < U64 ∧ sc_height c < U64.

Lemma length_to_bytes c : length (SignedContext_to_bytes c) = RECORD_LEN.
Proof. unfold SignedContext_to_bytes. by rewrite !length_app, !arr_length, !length_le_bytes. Qed.

Lemma from_to_bytes c : ctx_wf c → SignedContext_from_bytes (SignedContext_to_bytes c) = Ok c.
Proof.
  intros (Hv & He & Hh). unfold SignedContext_from_bytes. rewrite length_to_bytes, Nat.eqb_refl.
  unfold SignedContext_to_bytes. rewrite take_app_length' by done. rewrite bool_decide_eq_true_2 by done.
  cbn [negb orb]. rewrite !(slice_skip _ _ SIGNER_TAG) by (cbn; lia).
  change (length SIGNER_TAG) with 15%nat. cbn [Nat.sub]. rewrite slice_head by apply arr_length.
  rewrite !(slice_skip _ _ (arr_list (sc_signer c))) by (rewrite arr_length; lia). rewrite arr_length. cbn [Nat.sub].
  rewrite slice_head by apply arr_length.
  rewrite !(slice_skip _ _ (arr_list (sc_signing_hash c))) by (rewrite arr_length; lia). rewrite arr_length. cbn [Nat.sub].
  rewrite slice_head by apply length_le_bytes. rewrite slice_skip by (rewrite length_le_bytes; lia).
  rewrite length_le_bytes. cbn [Nat.sub]. rewrite <- (app_nil_r (le_bytes 8 (sc_height c))).
  rewrite slice_head by apply length_le_bytes. rewrite !arr_of_arr_n, !le_val_le_bytes_64 by done.
  unfold PublicKey_from_bytes. rewrite Hv. cbn [ok_or rbind]. by destruct c.
Qed.

Lemma from_bytes_wf b c : SignedContext_from_bytes b = Ok c → ctx_wf c.
Proof.
  unfold SignedContext_from_bytes. destruct (_ || _); [done|]. unfold PublicKey_from_bytes.
  destruct (vk_valid (arr_of 32 (slice 15 47 b))) eqn:Ev; [|done]. intros [= <-].
  assert (∀ lo, le_val (slice lo (lo + 8) b) < U64) as Hl.
  { intros lo. eapply N.lt_le_trans; [apply le_val_lt|]. unfold U64. rewrite <- (N.pow_mul_r 2 8).
    apply N.pow_le_mono_r; [done|]. unfold slice. rewrite length_take. lia. }
  split_and!; [done|apply (Hl 79%nat)|apply (Hl 87%nat)].
Qed.

Lemma chunks_concat {A} n fuel (ls : list (list A)) :
  (0 < n)%nat → Forall (λ l, length l = n) ls → (length (concat ls) ≤ fuel)%nat →
  chunks fuel n (concat ls) = ls.
Proof.
  intros Hn Hls. revert fuel. induction Hls as [|l ls Hl Hls IH]; intros fuel Hf; [by destruct fuel|].
  cbn [concat] in *. rewrite length_app in Hf. destruct fuel as [|fuel]; [lia|].
  destruct (l ++ concat ls) eqn:E; [apply (f_equal length) in E; rewrite length_app in E; simpl in E; lia|].
  cbn [chunks]. rewrite <- E, take_app_length', drop_app_length' by done. f_equal. apply IH. lia.
Qed.

(** Maps from a key to a context of that key. *)
Definition contexts_ok (m : gmap PublicKey SignedContext) : Prop :=
  ∀ pk c, m !! pk = Some c → sc_signer c = pk ∧ ctx_wf c.

Lemma contexts_ok_insert m c : contexts_ok m → ctx_wf c → contexts_ok (<[sc_signer c := c]> m).
Proof. intros Hm Hc pk c' [[<- <-]|[_ E]]%lookup_insert_Some; [done|by apply Hm]. Qed.

Lemma load_records_wf rs m m' : load_records rs m = Some m' → contexts_ok m → contexts_ok m'.
Proof.
  revert m. induction rs as [|r rs IH]; intros m; cbn [load_records]; [by intros [= <-]|].
  destruct (SignedContext_from_bytes r) as [c|] eqn:E; [|done]. intros Hl Hm.
  apply (IH _ Hl). apply contexts_ok_insert; [done|by eapply from_bytes_wf].
Qed.

Lemma load_wf r : contexts_ok (sg_last (load r)).
Proof.
  assert (contexts_ok ∅) as H0 by done. unfold load. destruct r as [data|[]]; [|done..].
  destruct (_ || _); [done|]. destruct (load_records _ _) eqn:E; [|done]. by eapply load_records_wf.
Qed.

Lemma load_records_lookup cs m :
  Forall ctx_wf cs → NoDup (map sc_signer cs) →
  ∃ m', load_records (map SignedContext_to_bytes cs) m = Some m' ∧
    ∀ pk c, m' !! pk = Some c ↔ (c ∈ cs ∧ sc_signer c = pk) ∨ (pk ∉ map sc_signer cs ∧ m !! pk = Some c).
Proof.
  intros Hw. revert m. induction Hw as [|c cs Hc Hw IH]; intros m Hnd; cbn [map load_records].
  { exists m. split; [done|]. set_solver. }
  rewrite from_to_bytes by done. apply NoDup_cons in Hnd as [Hni Hnd].
  destruct (IH (<[sc_signer c := c]> m) Hnd) as (m' & E & Hm'). exists m'. split; [done|].
  intros pk c'. rewrite Hm', lookup_insert_Some, elem_of_cons, not_elem_of_cons. split.
  - intros [[? ?]|[? [[<- <-]|[? ?]]]]; [by left; split; [right|]|left; by split; [left|]|by right].
  - intros [[[->|?] <-]|[[? ?] ?]]; [by right; split; [|left]|by left|right; split; [done|by right]].
Qed.

Lemma contexts_values m :
  contexts_ok m → Forall ctx_wf (map_to_list m).*2 ∧ map sc_signer (map_to_list m).*2 = (map_to_list m).*1.
Proof.
  intros Hm. assert (Forall (λ kc, sc_signer kc.2 = kc.1 ∧ ctx_wf kc.2) (map_to_list m)) as Hf.
  { apply Forall_forall. intros [pk c] Hin%elem_of_map_to_list. by apply Hm. }
  induction Hf as [|[pk c] l [E Hc] Hf [IH1 IH2]]; [done|]. cbn in *. split; [by constructor|].
  by rewrite E, IH2.
Qed.

Lemma length_concat_const {A} n (ls : list (list A)) :
  Forall (λ l, length l = n) ls → length (concat ls) = (length ls * n)%nat.
Proof. induction 1 as [|l ls Hl Hls IH]; [done|]. cbn [concat length]. rewrite length_app, IH. lia. Qed.

(** Reading back what [persist] wrote. *)
Lemma load_state_file m :
  contexts_ok m → m ≠ ∅ → load (Ok (state_file m)) = mkSignerGuard m false.
Proof.
  intros Hm Hne. unfold state_file. set (cs := merge_sort by_signer (map_to_list m).*2).
  assert (cs ≡ₚ (map_to_list m).*2) as Hp by apply merge_sort_Permutation.
  destruct (contexts_values m Hm) as [Hw Hk].
  assert (Forall (λ l, length l = RECORD_LEN) (map SignedContext_to_bytes cs)) as Hlen.
  { apply Forall_map, Forall_true. intros c. apply length_to_bytes. }
  pose proof (length_concat_const _ _ Hlen) as Hl. rewrite length_map in Hl.
  assert (length cs ≠ 0%nat) as Hcs.
  { rewrite Hp, length_map. intros E%length_zero_iff_nil. by apply map_to_list_empty_iff in E. }
  unfold load. rewrite bool_decide_eq_false_2.
  2:{ intros E%(f_equal length). rewrite Hl in E. cbn in E. lia. }
  rewrite Hl, Nat.Div0.mod_mul. cbn [Nat.eqb negb orb].
  rewrite chunks_concat by (done || lia || (cbn; lia)).
  destruct (load_records_lookup cs ∅) as (m' & -> & Hm').
  - by rewrite Hp.
  - rewrite Hp, Hk. apply NoDup_fst_map_to_list.
  - f_equal. apply map_eq. intros pk. apply option_eq. intros c. rewrite Hm', lookup_empty, Hp.
    rewrite list_elem_of_fmap. split.
    + intros [[([pk' c'] & -> & Hin%elem_of_map_to_list) <-]|[_ ?]]; [|done]. cbn in *.
      by destruct (Hm _ _ Hin) as [-> _].
    + intros E. left. split; [|by apply (Hm _ _ E)]. exists (pk, c). split; [done|].
      by apply elem_of_map_to_list.
Qed.

(** ** Signing *)

(** The context an authorization records. *)
Definition context_of (sk : SigningKey) (d : CheckpointData) : SignedContext :=
  mkSignedContext (sk_public_key sk) (signing_hash d) (epoch d) (height d).

(** The rule: no context yet for the key, a later epoch, or the same
    content again. *)
Definition signable (g : SignerGuard) (pk : PublicKey) (d : CheckpointData) : Prop :=
  sg_sealed g = false ∧ ∀ c, sg_last g !! pk = Some c →
    sc_epoch c < epoch d ∨ sc_epoch c = epoch d ∧ sc_signing_hash c = signing_hash d.

Lemma may_sign_Ok g pk d : is_ok (may_sign g pk d) = true ↔ signable g pk d.
Proof.
  unfold may_sign, signable. destruct (sg_sealed g); [naive_solver|].
  destruct (sg_last g !! pk) as [c|]; [|naive_solver]. unfold arr_eqb.
  destruct (N.ltb_spec (epoch d) (sc_epoch c)); cbn [orb is_ok].
  { split; [done|]. intros [_ Hc]. specialize (Hc c eq_refl). lia. }
  destruct (N.eqb_spec (epoch d) (sc_epoch c)) as [E|E]; cbn [andb is_ok].
  - case_bool_decide as Eh; cbn [negb is_ok].
    + split; [|done]. intros _. split; [done|]. intros ? [= <-]. by right.
    + split; [done|]. intros [_ Hc]. destruct (Hc c eq_refl) as [?|[_ ?]]; [lia|congruence].
  - split; [|done]. intros _. split; [done|]. intros ? [= <-]. left. lia.
Qed.

Lemma authorize_cases g sk d o disk :
  (¬ signable g (sk_public_key sk) d ∧ ∃ e, authorize g sk d o disk = (g, disk, Err e)) ∨
  (signable g (sk_public_key sk) d ∧ ∃ g',
    g' = mkSignerGuard (<[sk_public_key sk := context_of sk d]> (sg_last g)) false ∧
    authorize g sk d o disk =
      (g', (persist g' o disk).1,
       if (persist g' o disk).2 then Ok (sk_sign sk (arr_list (signing_hash d))) else Err ErrSigner)).
Proof.
  unfold authorize. pose proof (may_sign_Ok g (sk_public_key sk) d) as Hm.
  destruct (may_sign _ _ _) as [[]|e]; cbn [is_ok] in Hm; [right|left].
  - assert (signable g (sk_public_key sk) d) as Hs by by apply Hm. split; [done|]. eexists. split; [done|].
    destruct Hs as [-> _]. fold (context_of sk d). by destruct (persist _ _ _) as [disk' []].
  - split; [by intros ?%Hm|]. by eexists.
Qed.

Lemma context_of_wf `{!CryptoLaws} sk d : CheckpointData_wf d → ctx_wf (context_of sk d).
Proof. intros (? & ? & _). split_and!; [apply public_valid|done..]. Qed.

(** Authorizing a signature: it is released exactly when the key has
    signed no other content of this epoch or a later one, the state is
    readable and its write succeeds; it verifies under the key, and a
    restart reads back exactly the guard in memory.  When the write
    fails the signature is withheld but the context is remembered. *)
Theorem authorize_spec `{!CryptoLaws} g sk d o disk :
  contexts_ok (sg_last g) → CheckpointData_wf d →
  let '(g', disk', res) := authorize g sk d o disk in
  (is_ok res = true ↔ signable g (sk_public_key sk) d ∧ o ≠ WriteFails) ∧
  (signable g (sk_public_key sk) d → sg_last g' = <[sk_public_key sk := context_of sk d]> (sg_last g)) ∧
  (¬ signable g (sk_public_key sk) d → g' = g ∧ disk' = disk) ∧
  ∀ sig, res = Ok sig →
    pk_verify (sk_public_key sk) (arr_list (signing_hash d)) sig = true ∧
    load (read_file (dk_visible disk')) = g'.
Proof.
  intros Hg Hd. destruct (authorize_cases g sk d o disk) as [[Hn [e ->]]|(Hs & g' & Eg & ->)].
  { split_and!; [naive_solver..|done]. }
  split; [|split_and!; [by rewrite Eg|done|]].
  - unfold persist, atomic_write. destruct o; cbn; naive_solver.
  - unfold persist, atomic_write. destruct o as [|synced]; cbn [fst snd]; [done|]. intros sig [= <-].
    split; [apply pk_verify_sign|]. cbn [dk_visible read_file ok_or]. rewrite Eg. cbn [sg_last].
    apply load_state_file; [|apply insert_non_empty].
    apply (contexts_ok_insert _ (context_of sk d)); [done|]. by apply context_of_wf.
Qed.

(** ** A node over time *)

Record SignerNode := mkSignerNode {
  sn_guard : SignerGuard;
  sn_disk : Disk;
  sn_released : list (PublicKey * CheckpointData) }.

Definition record_release {E A} (res : result E A) (x : PublicKey * CheckpointData)
    (l : list (PublicKey * CheckpointData)) :=
  if is_ok res then x :: l else l.

(** Signing, with any outcome of the write that [allowed] admits;
    restarting the process; losing power, after which the file is the
    one last synced or the one last seen.  The file may be unreadable
    at any restart. *)
Inductive signer_step (allowed : WriteOutcome → Prop) (n : SignerNode) : SignerNode → Prop :=
| step_sign sk d o g disk res :
    CheckpointData_wf d → allowed o → authorize (sn_guard n) sk d o (sn_disk n) = (g, disk, res) →
    signer_step allowed n (mkSignerNode g disk (record_release res (sk_public_key sk, d) (sn_released n)))
| step_restart r :
    r = read_file (dk_visible (sn_disk n)) ∨ r = Err Unreadable →
    signer_step allowed n (mkSignerNode (load r) (sn_disk n) (sn_released n))
| step_power_loss x r :
    x = dk_visible (sn_disk n) ∨ x = dk_durable (sn_disk n) →
    r = read_file x ∨ r = Err Unreadable →
    signer_step allowed n (mkSignerNode (load r) (mkDisk x x) (sn_released n)).

Definition boot (x : option (list byte)) : SignerNode :=
  mkSignerNode (load (read_file x)) (mkDisk x x) [].

(** A later release does not conflict with an earlier one. *)
Definition after (d d' : CheckpointData) : Prop :=
  epoch d < epoch d' ∨ epoch d = epoch d' ∧ signing_hash d = signing_hash d'.

(** The contexts know every release. *)
Definition covers (g : SignerGuard) (l : list (PublicKey * CheckpointData)) : Prop :=
  sg_sealed g = false → ∀ pk d, (pk, d) ∈ l → ∃ c, sg_last g !! pk = Some c ∧
    (epoch d < sc_epoch c ∨ epoch d = sc_epoch c ∧ signing_hash d = sc_signing_hash c).

Record signer_inv (n : SignerNode) : Prop := {
  si_contexts : contexts_ok (sg_last (sn_guard n));
  si_memory : covers (sn_guard n) (sn_released n);
  si_synced : dk_durable (sn_disk n) = dk_visible (sn_disk n);
  si_disk : covers (load (read_file (dk_visible (sn_disk n)))) (sn_released n);
  si_ordered i j pk d d' : sn_released n !! i = Some (pk, d') → sn_released n !! j = Some (pk, d) →
    (i ≤ j)%nat → after d d' }.

Definition synced (o : WriteOutcome) : Prop := o ≠ Renamed false.

Lemma covers_sealed l : covers (load (Err Unreadable)) l.
Proof. done. Qed.

Lemma boot_inv x : signer_inv (boot x).
Proof.
  assert (∀ g, covers g []) as Hn by (intros g _ pk d Hin; by apply elem_of_nil in Hin).
  split; first [apply load_wf|apply Hn|done].
Qed.

Lemma restart_inv n x r :
  signer_inv n → x = dk_visible (sn_disk n) → r = read_file x ∨ r = Err Unreadable →
  signer_inv (mkSignerNode (load r) (mkDisk x x) (sn_released n)).
Proof.
  intros [Hc Hm Hs Hd Ho] -> Hr. split; cbn [sn_guard sn_disk sn_released dk_visible dk_durable]; try done.
  - apply load_wf.
  - by destruct Hr as [-> | ->].
Qed.

Lemma covers_release g sk d l :
  covers g l → signable g (sk_public_key sk) d →
  let g' := mkSignerGuard (<[sk_public_key sk := context_of sk d]> (sg_last g)) false in
  covers g' l ∧ covers g' ((sk_public_key sk, d) :: l).
Proof.
  intros Hc [Hs Hd] g'. assert (covers g' l) as Hl.
  { intros _ pk d' Hin. destruct (Hc Hs pk d' Hin) as (c & E & Hle).
    destruct (decide (sk_public_key sk = pk)) as [<-|Hne].
    - exists (context_of sk d). cbn [g' sg_last context_of sc_epoch sc_signing_hash].
      rewrite lookup_insert_eq. split; [done|].
      destruct (Hd c E) as [?|[? ?]], Hle as [?|[? ?]]; [left; lia..|right; split; congruence].
    - exists c. cbn [g' sg_last]. by rewrite lookup_insert_ne. }
  split; [done|]. intros _ pk d' Hin. apply elem_of_cons in Hin as [[= -> ->]|Hin]; [|by apply Hl].
  exists (context_of sk d). cbn [g' sg_last]. rewrite lookup_insert_eq. split; [done|by right].
Qed.

Lemma ordered_release (l : list (PublicKey * CheckpointData)) pk d g :
  covers g l → signable g pk d →
  (∀ i j pk d d', l !! i = Some (pk, d') → l !! j = Some (pk, d) → (i ≤ j)%nat → after d d') →
  ∀ i j pk0 e e', ((pk, d) :: l) !! i = Some (pk0, e') → ((pk, d) :: l) !! j = Some (pk0, e) →
    (i ≤ j)%nat → after e e'.
Proof.
  intros Hc [Hs Hd] Ho [|i] [|j] pk0 e e' Hi Hj Hle; cbn in Hi, Hj; [| |lia|].
  - assert (e = e') as -> by congruence. by right.
  - injection Hi as <- <-. apply list_elem_of_lookup_2 in Hj. destruct (Hc Hs _ _ Hj) as (c & E & Hce).
    unfold after. destruct (Hd c E) as [?|[? ?]], Hce as [?|[? ?]]; [left; lia..|right; split; congruence].
  - apply (Ho i j pk0 e e'); [done|done|lia].
Qed.

Lemma sign_inv `{!CryptoLaws} n sk d o g disk res :
  signer_inv n → CheckpointData_wf d → synced o →
  authorize (sn_guard n) sk d o (sn_disk n) = (g, disk, res) →
  signer_inv (mkSignerNode g disk (record_release res (sk_public_key sk, d) (sn_released n))).
Proof.
  intros [Hc Hm Hs Hd Ho] Hw Hsync E.
  destruct (authorize_cases (sn_guard n) sk d o (sn_disk n)) as [[_ [e E']]|(Hsig & g' & Eg & E')];
    rewrite E' in E; injection E as <- <- <-; [by split|].
  destruct (covers_release _ _ _ _ Hm Hsig) as [Hl Hcons]. rewrite <- Eg in Hl, Hcons.
  assert (contexts_ok (sg_last g')) as Hok.
  { rewrite Eg. apply (contexts_ok_insert _ (context_of sk d)); [done|by apply context_of_wf]. }
  unfold persist, atomic_write. destruct o as [|[]]; [| |by destruct Hsync].
  - by split.
  - split; cbn [fst snd record_release is_ok sn_guard sn_disk sn_released dk_visible dk_durable]; try done.
    + cbn [read_file ok_or]. rewrite load_state_file; [|done|].
      * replace (mkSignerGuard (sg_last g') false) with g'; [done|]. by rewrite Eg.
      * rewrite Eg. apply insert_non_empty.
    + exact (ordered_release _ _ _ _ Hm Hsig Ho).
Qed.

Lemma signer_step_inv `{!CryptoLaws} n n' : signer_inv n → signer_step synced n n' → signer_inv n'.
Proof.
  intros Hn [sk d o g disk res Hw Ho E|r Hr|x r Hx Hr].
  - by eapply sign_inv.
  - pose proof (restart_inv n _ r Hn eq_refl Hr) as Hr'. pose proof (si_synced _ Hn) as Es.
    destruct n as [g [v dur] l]. cbn in *. by subst dur.
  - apply restart_inv; [done| |done]. pose proof (si_synced _ Hn) as Es. destruct Hx; congruence.
Qed.

(** C13. No double signing: over any history of signatures, failed writes,
    process restarts and power losses, of any content of the state file
    at the start, a key never releases a signature that conflicts with
    an earlier one — the next one is for a later epoch or the same
    content — provided that a replaced file is synced. *)
Theorem no_double_sign `{!CryptoLaws} x n i j pk d d' :
  rtc (signer_step synced) (boot x) n →
  sn_released n !! i = Some (pk, d') → sn_released n !! j = Some (pk, d) → (i ≤ j)%nat →
  epoch d < epoch d' ∨ epoch d = epoch d' ∧ signing_hash d = signing_hash d'.
Proof.
  intros Hr. assert (signer_inv n) as Hn.
  { remember (boot x) as n0 eqn:E. assert (signer_inv n0) as Hb by (rewrite E; apply boot_inv). clear E.
    induction Hr as [|n1 n2 n3 Hs Hr IH]; [done|]. apply IH. by eapply signer_step_inv. }
  apply (si_ordered _ Hn).
Qed.
End signer_props.

(** ** Examples *)
Module SignerExamples.
#[local] Existing Instance Toy.crypto.

Definition key : SigningKey := arr_of 32 [x01].
Definition vote_a : CheckpointData := mkCheckpointData 1 8 (arr_of 32 [x0a]) (arr_zero 32) (arr_zero 32) 0.
Definition vote_b : CheckpointData := mkCheckpointData 1 8 (arr_of 32 [x0b]) (arr_zero 32) (arr_zero 32) 0.
Definition vote_c : CheckpointData := mkCheckpointData 2 9 (arr_of 32 [x0c]) (arr_zero 32) (arr_zero 32) 0.

Definition sign_once (n : SignerNode) (d : CheckpointData) (o : WriteOutcome) : SignerNode :=
  let '(g, disk, res) := authorize (sn_guard n) key d o (sn_disk n) in
  mkSignerNode g disk (record_release res (sk_public_key key, d) (sn_released n)).
Definition power_loss (x : option (list byte)) (n : SignerNode) : SignerNode :=
  mkSignerNode (load (read_file x)) (mkDisk x x) (sn_released n).

Lemma sign_once_step allowed n d o :
  CheckpointData_wf d → allowed o → signer_step allowed n (sign_once n d o).
Proof.
  intros Hd Ho. unfold sign_once. destruct (authorize _ _ _ _ _) as [[g disk] res] eqn:E. by eapply step_sign.
Qed.

(** The result of syncing the directory is ignored, so a signature
    can be released whose context a power loss forgets: the node then
    signs a conflicting checkpoint of the same epoch, which is the
    evidence that bans its key. *)
Theorem unsynced_rename_double_sign :
  ∃ n pk d d',
    rtc (signer_step (λ _, True)) (boot None) n ∧
    (pk, d) ∈ sn_released n ∧ (pk, d') ∈ sn_released n ∧
    epoch d = epoch d' ∧ signing_hash d ≠ signing_hash d'.
Proof.
  set (n1 := sign_once (boot None) vote_a (Renamed false)).
  set (n2 := power_loss None n1). set (n3 := sign_once n2 vote_b (Renamed true)).
  exists n3, (sk_public_key key), vote_a, vote_b. split.
  - eapply rtc_l; [by apply (sign_once_step _ _ vote_a (Renamed false))|]. fold n1.
    eapply rtc_l; [|apply rtc_once; by apply sign_once_step].
    apply (step_power_loss _ _ None); [right; by vm_compute|by left].
  - assert (sn_released n3 = [(sk_public_key key, vote_b); (sk_public_key key, vote_a)]) as -> by by vm_compute.
    split_and!; [set_solver..|done|]. apply (bool_decide_eq_false_1 (signing_hash vote_a = signing_hash vote_b)).
    by vm_compute.
Qed.

Definition signed : SignerNode := sign_once (boot None) vote_a (Renamed true).

Lemma authorize_spec_witness :
  let '(g', disk', res) := authorize (sn_guard signed) key vote_c (Renamed true) (sn_disk signed) in
  is_ok res = true ↔ signable (sn_guard signed) (sk_public_key key) vote_c ∧ Renamed true ≠ WriteFails.
Proof.
  assert (contexts_ok (sg_last (sn_guard signed))) as Hc.
  { apply (contexts_ok_insert ∅ (context_of key vote_a)); [done|]. by apply context_of_wf. }
  pose proof (authorize_spec (sn_guard signed) key vote_c (Renamed true) (sn_disk signed) Hc) as Hw.
  destruct (authorize _ _ _ _ _) as [[g disk] res]. apply Hw. done.
Defined.

Definition crashed : SignerNode :=
  sign_once (power_loss (dk_visible (sn_disk signed)) signed) vote_c (Renamed true).

Lemma no_double_sign_witness :
  length (sn_released crashed) = 2%nat ∧
  (epoch vote_a < epoch vote_c ∨ epoch vote_a = epoch vote_c ∧ signing_hash vote_a = signing_hash vote_c).
Proof.
  split; [by vm_compute|].
  apply (no_double_sign None crashed 0 1 (sk_public_key key) vote_a vote_c).
  - eapply rtc_l; [by apply (sign_once_step _ _ vote_a (Renamed true))|]. fold signed.
    eapply rtc_l; [by apply (step_power_loss _ _ (dk_visible (sn_disk signed))); left|].
    apply rtc_once. by apply sign_once_step.
  - by vm_compute.
  - by vm_compute.
  - lia.
Defined.
End SignerExamples.
