(* ===== verification/StateSpec.v ===== *)
(** * The registry: the abstract specification of the chain state

    A [Registry] is what the chain state means: typed maps of domains and
    TLDs, the known signer keys, the grace windows and the ban list,
    without bytes, counters, queue, reference counts, tree or journal.
    [registry_apply] is the rule of every transaction over it;
    [refines] says that a [ChainState] represents a registry: each
    derived structure is exactly the view of the registry it stands for.
    [StateProofs] shows that the handlers, the garbage collector and the
    rollback of [State] implement the registry's. *)

From S2P Require Import Prelude Bytes Crypto Commitment Smt SmtProofs Names Icann Pow Tx State.

(** ** Entry codecs *)

Definition zero_hash : hash := arr_zero 32.

(** What an entry stores for a record hash: the zero hash stands for none. *)
Definition norm_hash (rh : option RecordHash) : option RecordHash :=
  match rh with
  | Some h => if bool_decide (h = zero_hash) then None else Some h
  | None => None
  end.
Definition norm (st : DomainState) : DomainState :=
  mkDomainState (ds_owner st) (ds_sequence st) (norm_hash (ds_record_hash st))
    (ds_registered_at st) (ds_valid_until st).

(** The fields of a domain fit in 64 bits. *)
Definition fits (st : DomainState) : Prop :=
  ds_sequence st < U64 ∧ ds_registered_at st < U64 ∧ ds_valid_until st < U64.

(** The domain states an entry can hold exactly. *)
Record domain_ok (st : DomainState) : Prop := {
  ok_sequence : ds_sequence st < U64;
  ok_registered : ds_registered_at st < U64;
  ok_until : ds_valid_until st < U64;
  ok_hash : ds_record_hash st ≠ Some zero_hash }.

Lemma slice_app {A} (pre x post : list A) a b :
  length pre = a → (a + length x)%nat = b → slice a b (pre ++ x ++ post) = x.
Proof.
  intros <- <-. unfold slice. rewrite drop_app_length.
  replace (length pre + length x - length pre)%nat with (length x) by lia.
  by rewrite take_app_length.
Qed.

Lemma arr_of_list {n} (a : arr n) : arr_of n (arr_list a) = a.
Proof.
  apply arr_eq. rewrite arr_of_id by (rewrite arr_length; lia).
  rewrite arr_length, Nat.sub_diag. apply app_nil_r.
Qed.

Lemma all_zero_iff (h : hash) :
  forallb (λ b, byte_eqb b x00) (arr_list h) = true ↔ h = zero_hash.
Proof.
  rewrite forallb_forall. split.
  - intros Hz. apply arr_eq. change (arr_list zero_hash) with (replicate 32 x00).
    symmetry. apply replicate_as_elem_of. split; [apply arr_length|].
    intros b Hb. apply byte_eqb_eq, Hz, list_elem_of_In, Hb.
  - intros -> b Hb%list_elem_of_In. apply byte_eqb_eq.
    change (arr_list zero_hash) with (replicate 32 x00) in Hb.
    by apply elem_of_replicate in Hb as [? _].
Qed.

Lemma length_encode_domain st : length (encode_domain_entry st) = DOMAIN_ENTRY_LEN.
Proof.
  unfold encode_domain_entry. rewrite !length_app, !length_le_bytes, arr_length.
  by destruct (ds_record_hash st); rewrite arr_length.
Qed.

Lemma length_encode_tld st : length (encode_tld_entry st) = TLD_ENTRY_LEN.
Proof. unfold encode_tld_entry. by rewrite length_app, arr_length. Qed.

(** The two kinds of entry are told apart by their lengths. *)
Lemma decode_domain_tld st : decode_domain_entry (encode_tld_entry st) = None.
Proof. unfold decode_domain_entry. by rewrite length_encode_tld. Qed.

Lemma decode_tld_domain st : decode_tld_entry (encode_domain_entry st) = None.
Proof. unfold decode_tld_entry. by rewrite length_encode_domain. Qed.

Lemma decode_encode_domain st :
  ds_sequence st < U64 → ds_registered_at st < U64 → ds_valid_until st < U64 →
  decode_domain_entry (encode_domain_entry st) = Some (norm st).
Proof.
  intros Hs Hr Hv. unfold decode_domain_entry. rewrite length_encode_domain. cbn [negb Nat.eqb].
  change (negb (DOMAIN_ENTRY_LEN =? DOMAIN_ENTRY_LEN)%nat) with false. cbv iota zeta.
  unfold encode_domain_entry.
  set (rh := match ds_record_hash st with Some rh => arr_list rh | None => _ end).
  assert (length rh = 32)%nat as Hrh
    by (subst rh; destruct (ds_record_hash st); apply arr_length).
  pose proof (arr_length (ds_owner st)) as Ho.
  set (o := arr_list (ds_owner st)) in *.
  set (sq := le_bytes 8 (ds_sequence st)). set (ra := le_bytes 8 (ds_registered_at st)).
  set (vu := le_bytes 8 (ds_valid_until st)).
  assert (length sq = 8 ∧ length ra = 8 ∧ length vu = 8)%nat as (Hsq&Hra&Hvu)
    by (subst sq ra vu; by rewrite !length_le_bytes).
  assert (slice 0 32 (o ++ sq ++ rh ++ ra ++ vu) = o) as ->.
  { apply (slice_app [] o); [done|]. rewrite Ho. lia. }
  assert (slice 32 40 (o ++ sq ++ rh ++ ra ++ vu) = sq) as ->.
  { apply slice_app; lia. }
  assert (slice 40 72 (o ++ sq ++ rh ++ ra ++ vu) = rh) as ->.
  { rewrite (app_assoc o). apply slice_app; [rewrite length_app|]; lia. }
  assert (slice 72 80 (o ++ sq ++ rh ++ ra ++ vu) = ra) as ->.
  { rewrite (app_assoc o), (app_assoc (o ++ sq)). apply slice_app; [rewrite !length_app|]; lia. }
  assert (slice 80 88 (o ++ sq ++ rh ++ ra ++ vu) = vu) as ->.
  { rewrite (app_assoc o), (app_assoc (o ++ sq)), (app_assoc ((o ++ sq) ++ rh)).
    pose proof (slice_app (((o ++ sq) ++ rh) ++ ra) vu [] 80 88) as E.
    rewrite app_nil_r in E. apply E; [rewrite !length_app|]; lia. }
  subst sq ra vu o. rewrite !le_val_le_bytes_64, arr_of_list by done. do 2 f_equal.
  unfold norm. f_equal. subst rh. destruct (ds_record_hash st) as [h|]; cbn [norm_hash].
  - rewrite arr_of_list. case_bool_decide as Hz.
    + by rewrite (proj2 (all_zero_iff h) Hz).
    + destruct (forallb _ h) eqn:E; [|done]. by apply all_zero_iff in E.
  - pose proof (proj2 (all_zero_iff zero_hash) eq_refl) as Hz.
    change (arr_list zero_hash) with (arr_list (arr_zero 32)) in Hz. by rewrite Hz.
Qed.

Lemma decode_encode_tld st : decode_tld_entry (encode_tld_entry st) = Some st.
Proof.
  unfold decode_tld_entry. rewrite length_encode_tld.
  change (negb (TLD_ENTRY_LEN =? TLD_ENTRY_LEN)%nat) with false. cbv iota.
  unfold encode_tld_entry.
  assert (slice 0 32 (arr_list (ts_owner st) ++ [u8_of_bool (ts_open st)])
    = arr_list (ts_owner st)) as ->.
  { apply (slice_app []); [done|]. by rewrite arr_length. }
  rewrite arr_of_list, app_nth2 by (rewrite arr_length; lia).
  rewrite arr_length, Nat.sub_diag. destruct st as [o []]; done.
Qed.

Lemma norm_ok st : domain_ok st → norm st = st.
Proof.
  intros Hok. destruct st as [o sq [h|] ra vu]; unfold norm; cbn; [|done].
  case_bool_decide as E; [|done]. subst. by destruct (ok_hash _ Hok).
Qed.

Lemma decode_encode_ok st :
  domain_ok st → decode_domain_entry (encode_domain_entry st) = Some st.
Proof. intros Hok. rewrite decode_encode_domain by apply Hok. by rewrite norm_ok. Qed.

Lemma encode_norm st : encode_domain_entry (norm st) = encode_domain_entry st.
Proof.
  unfold encode_domain_entry, norm. cbn. destruct (ds_record_hash st) as [h|]; cbn; [|done].
  case_bool_decide as E; by rewrite ?E.
Qed.

Lemma leaf_norm `{Crypto} id st : domain_leaf_v2 id (norm st) = domain_leaf_v2 id st.
Proof.
  unfold domain_leaf_v2, norm. cbn. destruct (ds_record_hash st) as [h|]; cbn; [|done].
  case_bool_decide as E; by rewrite ?E.
Qed.

(** ** Views over the two typed maps *)

Section both.
Context {B : Type} (f : hash → DomainState → B) (g : hash → TldState → B).

(** Domains and TLDs in one key space. *)
Definition both (D : gmap DomainId DomainState) (T : gmap TldId TldState) : gmap hash B :=
  map_imap (λ id st, Some (f id st)) D ∪ map_imap (λ id st, Some (g id st)) T.

Lemma both_lookup D T id :
  both D T !! id = match D !! id with Some st => Some (f id st) | None => g id <$> T !! id end.
Proof.
  unfold both. destruct (D !! id) as [st|] eqn:E.
  - apply lookup_union_Some_l. by rewrite map_lookup_imap, E.
  - rewrite lookup_union_r by (by rewrite map_lookup_imap, E).
    rewrite map_lookup_imap. by destruct (T !! id).
Qed.

Lemma both_insert_domain D T id st : both (<[id := st]> D) T = <[id := f id st]> (both D T).
Proof.
  apply map_eq. intros k. rewrite both_lookup, !lookup_insert. case_decide as E; [by rewrite E|].
  by rewrite both_lookup.
Qed.

Lemma both_delete_domain D T id : T !! id = None → both (delete id D) T = delete id (both D T).
Proof.
  intros HT. apply map_eq. intros k. rewrite both_lookup, !lookup_delete.
  case_decide; [subst k; by rewrite HT|]. by rewrite both_lookup.
Qed.

Lemma both_insert_tld D T id st :
  D !! id = None → both D (<[id := st]> T) = <[id := g id st]> (both D T).
Proof.
  intros HD. apply map_eq. intros k. rewrite both_lookup, !lookup_insert.
  case_decide; [subst k; by rewrite HD|]. by rewrite both_lookup.
Qed.

Lemma both_delete_tld D T id : D !! id = None → both D (delete id T) = delete id (both D T).
Proof.
  intros HD. apply map_eq. intros k. rewrite both_lookup, !lookup_delete.
  case_decide; [subst k; by rewrite HD|]. by rewrite both_lookup.
Qed.
End both.

(** The entries of the backend. *)
Definition entries : gmap DomainId DomainState → gmap TldId TldState → MemoryBackend :=
  both (λ _, encode_domain_entry) (λ _, encode_tld_entry).

Lemma entries_lookup D T id :
  entries D T !! id =
    match D !! id with
    | Some st => Some (encode_domain_entry st)
    | None => encode_tld_entry <$> T !! id
    end.
Proof. apply both_lookup. Qed.

(** How many values of a map belong to an owner. *)
Section owned.
Context {A : Type} (own : A → OwnerId).

Definition owned (m : gmap hash A) (o : OwnerId) : N :=
  N.of_nat (size (filter (λ kv, own kv.2 = o) m)).

Lemma owned_empty o : owned ∅ o = 0.
Proof. unfold owned. by rewrite map_filter_empty, map_size_empty. Qed.

Lemma owned_insert m k a o :
  m !! k = None → owned (<[k := a]> m) o = owned m o + (if decide (own a = o) then 1 else 0).
Proof.
  intros Hk. unfold owned. case_decide as E.
  - rewrite map_filter_insert_True by done.
    rewrite map_size_insert_None; [lia|]. apply map_lookup_filter_None. left. done.
  - rewrite map_filter_insert_False by done.
    rewrite map_filter_delete, delete_id; [lia|]. apply map_lookup_filter_None. by left.
Qed.

Lemma owned_delete m k a o :
  m !! k = Some a → owned m o = owned (delete k m) o + (if decide (own a = o) then 1 else 0).
Proof.
  intros Hk. rewrite <- (insert_delete_id m k a Hk) at 1.
  apply owned_insert, lookup_delete_eq.
Qed.

Lemma owned_update m k a a' o :
  m !! k = Some a →
  owned (<[k := a']> m) o + (if decide (own a = o) then 1 else 0) =
  owned m o + (if decide (own a' = o) then 1 else 0).
Proof.
  intros Hk. rewrite (owned_delete m k a o Hk), <- insert_delete_eq.
  rewrite owned_insert by apply lookup_delete_eq. lia.
Qed.

Lemma owned_pos m o : owned m o ≠ 0 ↔ ∃ k a, m !! k = Some a ∧ own a = o.
Proof.
  unfold owned. split.
  - intros Hn. destruct (map_choose (filter (λ kv, own kv.2 = o) m)) as (k & a & Hk).
    { intros E. rewrite E, map_size_empty in Hn. done. }
    apply map_lookup_filter_Some in Hk as [??]. by exists k, a.
  - intros (k & a & Hk & Ho) E.
    assert (size (filter (λ kv, own kv.2 = o) m) = 0%nat) as Hs by lia.
    apply map_size_empty_inv in Hs.
    assert (filter (λ kv, own kv.2 = o) m !! k = Some a) as Hl
      by by apply map_lookup_filter_Some.
    by rewrite Hs, lookup_empty in Hl.
Qed.
End owned.

Definition holdings (D : gmap DomainId DomainState) (T : gmap TldId TldState) (o : OwnerId) : N :=
  owned ds_owner D o + owned ts_owner T o.

(** Reference counts: present exactly where the count is positive. *)
Definition counts (m : gmap OwnerId N) (f : OwnerId → N) : Prop :=
  ∀ o, m !! o = if decide (f o = 0) then None else Some (f o).

Lemma counts_default m f o : counts m f → default 0 (m !! o) = f o.
Proof. intros Hm. rewrite (Hm o). by case_decide. Qed.

Lemma counts_acquire m f f' o :
  counts m f → (∀ o', f' o' = f o' + (if decide (o = o') then 1 else 0)) →
  counts (refcounts_acquire o m) f'.
Proof.
  intros Hm Hf o'. unfold refcounts_acquire. rewrite lookup_insert, Hf.
  rewrite (counts_default _ _ _ Hm), (Hm o').
  repeat case_decide; subst; try lia; f_equal; lia.
Qed.

Lemma counts_release m f f' o :
  counts m f → (∀ o', f o' = f' o' + (if decide (o = o') then 1 else 0)) →
  counts (refcounts_release o m) f'.
Proof.
  intros Hm Hf o'. unfold refcounts_release. rewrite (Hm o).
  pose proof (Hf o) as Ho. rewrite decide_True in Ho by done. case_decide; [lia|].
  destruct (N.eqb_spec (f o - 1) 0).
  - rewrite lookup_delete, (Hm o'). pose proof (Hf o') as Ho'.
    repeat case_decide; subst; try lia; try done; f_equal; lia.
  - rewrite lookup_insert, (Hm o'). pose proof (Hf o') as Ho'.
    repeat case_decide; subst; try lia; try done; f_equal; lia.
Qed.

Lemma counts_unique m m' f : counts m f → counts m' f → m = m'.
Proof. intros Hm Hm'. apply map_eq. intros o. by rewrite (Hm o), (Hm' o). Qed.

(** The expiration queue: a domain is in the slot of its expiry, and
    no slot is empty. *)
Record queued (q : gmap N (gset DomainId)) (D : gmap DomainId DomainState) : Prop := {
  queued_in u id : id ∈ default ∅ (q !! u) ↔ ∃ st, D !! id = Some st ∧ ds_valid_until st = u;
  queued_nonempty u : q !! u ≠ Some ∅ }.

Lemma queue_insert_in q u id u' id' :
  id' ∈ default ∅ (queue_insert u id q !! u') ↔
    id' ∈ default ∅ (q !! u') ∨ (u' = u ∧ id' = id).
Proof.
  unfold queue_insert. rewrite lookup_insert. case_decide as E; cbn.
  - subst. rewrite elem_of_union, elem_of_singleton. naive_solver.
  - naive_solver.
Qed.

Lemma queue_insert_nonempty q u id :
  (∀ u', q !! u' ≠ Some ∅) → ∀ u', queue_insert u id q !! u' ≠ Some ∅.
Proof.
  intros Hq u'. unfold queue_insert. rewrite lookup_insert. case_decide; [|apply Hq].
  intros [= E]. apply (elem_of_empty (C := gset DomainId) id). rewrite <- E.
  apply elem_of_union. right. by apply elem_of_singleton.
Qed.

Lemma queue_remove_in q u id u' id' :
  id' ∈ default ∅ (queue_remove u id q !! u') ↔
    id' ∈ default ∅ (q !! u') ∧ ¬ (u' = u ∧ id' = id).
Proof.
  unfold queue_remove. destruct (q !! u) as [X|] eqn:E.
  - case_bool_decide as Hx.
    + rewrite lookup_delete. case_decide as Eu.
      * subst u'. rewrite E. cbn. split; [by intros ?%elem_of_empty|]. intros [Hin Hne].
        assert (id' ∈ X ∖ {[id]}) as Hin'.
        { apply elem_of_difference. split; [done|]. rewrite elem_of_singleton. naive_solver. }
        by rewrite Hx in Hin'.
      * naive_solver.
    + rewrite lookup_insert. case_decide as Eu; [|naive_solver].
      subst u'. rewrite E. cbn. rewrite elem_of_difference, elem_of_singleton. naive_solver.
  - split; [|tauto]. intros Hin. split; [done|]. intros [-> ->]. rewrite E in Hin.
    by apply elem_of_empty in Hin.
Qed.

Lemma queue_remove_nonempty q u id :
  (∀ u', q !! u' ≠ Some ∅) → ∀ u', queue_remove u id q !! u' ≠ Some ∅.
Proof.
  intros Hq u'. unfold queue_remove. destruct (q !! u) as [X|]; [|apply Hq].
  case_bool_decide as Hx.
  - rewrite lookup_delete. case_decide; [done|apply Hq].
  - rewrite lookup_insert. case_decide; [|apply Hq]. congruence.
Qed.

Lemma queued_insert q D id st :
  queued q D → D !! id = None → queued (queue_insert (ds_valid_until st) id q) (<[id := st]> D).
Proof.
  intros [Hin Hne] Hd. split; [|by apply queue_insert_nonempty].
  intros u id'. rewrite queue_insert_in, Hin, lookup_insert. case_decide; naive_solver.
Qed.

Lemma queued_delete q D id st :
  queued q D → D !! id = Some st → queued (queue_remove (ds_valid_until st) id q) (delete id D).
Proof.
  intros [Hin Hne] Hd. split; [|by apply queue_remove_nonempty].
  intros u id'. rewrite queue_remove_in, Hin, lookup_delete. case_decide; naive_solver.
Qed.

(** Same expiry: same queue. *)
Lemma queued_update q D id st st' :
  queued q D → D !! id = Some st → ds_valid_until st' = ds_valid_until st →
  queued q (<[id := st']> D).
Proof.
  intros [Hin Hne] Hd Hv. split; [|done]. intros u id'. rewrite Hin, lookup_insert.
  case_decide; naive_solver.
Qed.

(** A renewal moves the domain to its new slot. *)
Lemma queued_move q D id st st' :
  queued q D → D !! id = Some st →
  queued (queue_insert (ds_valid_until st') id (queue_remove (ds_valid_until st) id q))
    (<[id := st']> D).
Proof.
  intros Hq Hd. rewrite <- insert_delete_eq.
  apply queued_insert; [by apply queued_delete|apply lookup_delete_eq].
Qed.

Lemma queued_unique q q' D : queued q D → queued q' D → q = q'.
Proof.
  intros [Hin Hne] [Hin' Hne']. apply map_eq. intros u.
  assert (default ∅ (q !! u) = default ∅ (q' !! u)) as E.
  { apply set_eq. intros id. by rewrite Hin, Hin'. }
  specialize (Hne u). specialize (Hne' u).
  destruct (q !! u) as [X|], (q' !! u) as [Y|]; cbn in E; congruence.
Qed.

(** ** The tree as a view *)

Section view.
Context `{Crypto}.

Notation leaves_of D T := (both domain_leaf_v2 tld_leaf_v2 D T).

Lemma smt_key_ok id : smt_key id < 2 ^ N.of_nat D.
Proof.
  unfold smt_key. rewrite N.shiftr_div_pow2. apply N.Div0.div_lt_upper_bound.
  change (2 ^ (64 - N.of_nat D) * 2 ^ N.of_nat D) with (256 ^ N.of_nat 8).
  eapply N.lt_le_trans; [apply le_val_lt|]. apply N.pow_le_mono_r; [done|].
  rewrite length_reverse, length_take, arr_length. lia.
Qed.

(** The tree holds the leaf [L !! id] at the key of [id]. *)
Record committed (t : Smt) (L : gmap hash hash) : Prop := {
  committed_wf : sc_wf t;
  committed_has k l : sc_has t k l ↔ ∃ id, L !! id = Some l ∧ k = smt_key id }.

(** No two live identifiers have the same leaf. *)
Definition distinct (L : gmap hash hash) : Prop :=
  ∀ id id' l, L !! id = Some l → L !! id' = Some l → id = id'.

Lemma committed_insert t L id l :
  committed t L → L !! id = None → committed (smt_insert t (smt_key id) l) (<[id := l]> L).
Proof.
  intros [Hw Hh] HL. pose proof (smt_key_ok id). split; [by apply sc_wf_insert|].
  intros k l'. rewrite sc_has_insert, Hh by done. split.
  - intros [[-> ->]|(id' & ? & ->)]; [exists id; by rewrite lookup_insert_eq|].
    exists id'. rewrite lookup_insert_ne by congruence. done.
  - intros (id' & Hid' & ->). rewrite lookup_insert in Hid'. case_decide; [|by eauto].
    left. by simplify_eq.
Qed.

Lemma committed_remove t L id l :
  committed t L → L !! id = Some l → distinct L →
  committed (smt_remove t (smt_key id) l) (delete id L).
Proof.
  intros [Hw Hh] HL Hd. pose proof (smt_key_ok id). split; [by apply sc_wf_remove|].
  intros k l'. rewrite sc_has_remove, Hh by done. split.
  - intros [(id' & Hid' & ->) Hne]. exists id'. rewrite lookup_delete_ne; [done|].
    intros <-. apply Hne. split; congruence.
  - intros (id' & Hid' & ->). apply lookup_delete_Some in Hid' as [Hne Hid'].
    split; [by eauto|]. intros [_ ->]. by apply Hne, (Hd _ _ l).
Qed.

Lemma committed_put t L id l l' :
  committed t L → L !! id = Some l → distinct L →
  committed (smt_insert (smt_remove t (smt_key id) l) (smt_key id) l') (<[id := l']> L).
Proof.
  intros Ht HL Hd. rewrite <- insert_delete_eq.
  apply committed_insert; [by apply committed_remove|apply lookup_delete_eq].
Qed.

Lemma committed_unique t t' L : committed t L → committed t' L → t ≡ t'.
Proof.
  intros [Hw Hh] [Hw' Hh']. apply (sc_canonical (SetCommitment := smt_commitment)); [done..|].
  intros k l. by rewrite Hh, Hh'.
Qed.

(** ** The registry *)

Record Registry := mkRegistry {
  r_network : NetworkParams;
  r_domains : gmap DomainId DomainState;
  r_tlds : gmap TldId TldState;
  r_keys : gmap OwnerId PublicKey;
  r_grace : gmap DomainId (N * OwnerId);
  r_banned : gset PublicKey }.

Definition r_leaves (r : Registry) : gmap hash hash := leaves_of (r_domains r) (r_tlds r).

(** No BLAKE3 collision among the live identifiers and leaves: no
    identifier is both a domain and a TLD, and no two have one leaf. *)
Record collision_free (r : Registry) : Prop := {
  cf_disjoint (id : hash) : is_Some (r_domains r !! id) → r_tlds r !! id = None;
  cf_leaves : distinct (r_leaves r) }.

(** The registry's own invariant. *)
Record registry_ok (r : Registry) : Prop := {
  ok_domains : map_Forall (λ (_ : hash), domain_ok) (r_domains r);
  ok_grace : ∀ id : hash, is_Some (r_grace r !! id) → r_domains r !! id = None;
  ok_keys : map_Forall (λ (o : hash) pk, o = owner_of pk) (r_keys r) }.

(** A chain state represents a registry. *)
Record refines (s : ChainState) (r : Registry) : Prop := {
  rf_network : cs_network s = r_network r;
  rf_backend : cs_backend s = entries (r_domains r) (r_tlds r);
  rf_domain_count : cs_domain_count s = N.of_nat (size (r_domains r));
  rf_tld_count : cs_tld_count s = N.of_nat (size (r_tlds r));
  rf_keys : cs_owner_keys s = r_keys r;
  rf_refcounts : counts (cs_owner_refcounts s) (holdings (r_domains r) (r_tlds r));
  rf_queue : queued (cs_expirations s) (r_domains r);
  rf_grace : cs_grace s = r_grace r;
  rf_smt : committed (cs_smt s) (r_leaves r);
  rf_banned : cs_banned s = r_banned r }.

(** Equality of chain states, as the code derives it: field by field,
    the tree up to its persistence markers. *)
#[global] Instance ChainState_equiv : Equiv ChainState := λ s t,
  cs_network s = cs_network t ∧ cs_backend s = cs_backend t ∧
  cs_domain_count s = cs_domain_count t ∧ cs_tld_count s = cs_tld_count t ∧
  cs_owner_keys s = cs_owner_keys t ∧ cs_owner_refcounts s = cs_owner_refcounts t ∧
  cs_expirations s = cs_expirations t ∧ cs_grace s = cs_grace t ∧
  cs_smt s ≡ cs_smt t ∧ cs_banned s = cs_banned t.

(** The registry determines the state, physical tree included. *)
Lemma refines_unique s t r : refines s r → refines t r → s ≡ t.
Proof.
  intros [] []. split_and!; try congruence.
  - by eapply counts_unique.
  - by eapply queued_unique.
  - by eapply committed_unique.
Qed.

(** ** The rules *)

Definition r_with_domains (D : gmap DomainId DomainState) (r : Registry) : Registry :=
  mkRegistry (r_network r) D (r_tlds r) (r_keys r) (r_grace r) (r_banned r).
Definition r_with_tlds (T : gmap TldId TldState) (r : Registry) : Registry :=
  mkRegistry (r_network r) (r_domains r) T (r_keys r) (r_grace r) (r_banned r).
Definition r_with_keys (K : gmap OwnerId PublicKey) (r : Registry) : Registry :=
  mkRegistry (r_network r) (r_domains r) (r_tlds r) K (r_grace r) (r_banned r).
Definition r_with_grace (G : gmap DomainId (N * OwnerId)) (r : Registry) : Registry :=
  mkRegistry (r_network r) (r_domains r) (r_tlds r) (r_keys r) G (r_banned r).
Definition r_with_banned (B : gset PublicKey) (r : Registry) : Registry :=
  mkRegistry (r_network r) (r_domains r) (r_tlds r) (r_keys r) (r_grace r) B.
(** First appearance of a signer's key wins. *)
Definition learned (o : OwnerId) (pk : PublicKey) (r : Registry) : Registry :=
  match r_keys r !! o with
  | Some _ => r
  | None => r_with_keys (<[o := pk]> (r_keys r)) r
  end.

(** A domain can be registered when it is not live and not in a grace
    window of another owner. *)
Definition domain_free (r : Registry) (id : DomainId) (now : N) (claimant : OwnerId) : bool :=
  bool_decide (r_domains r !! id = None) &&
  match r_grace r !! id with
  | Some (expired_at, lapsed) =>
      (sat_add64 expired_at DOMAIN_GRACE_SECS <=? now) || bool_decide (claimant = lapsed)
  | None => true
  end.

Definition created (id : DomainId) (owner : OwnerId) (now : N) (r : Registry) : Registry :=
  r_with_grace (delete id (r_grace r))
    (r_with_domains
       (<[id := mkDomainState owner 0 None now (add64 now DOMAIN_TERM_SECS)]> (r_domains r)) r).

(** A key is eligible when its owner holds a live registration, the
    key is known and not banned. *)
Definition eligible (r : Registry) (k : PublicKey) : Prop :=
  holdings (r_domains r) (r_tlds r) (owner_of k) ≠ 0 ∧
  r_keys r !! owner_of k = Some k ∧ k ∉ r_banned r.

#[global] Instance eligible_dec r k : Decision (eligible r k).
Proof. unfold eligible. apply _. Defined.

Definition outcome : Type := Registry * result BlockchainError unit.

Definition on_domain (r : Registry) (id : DomainId) (owner : OwnerId)
    (k : DomainState → outcome) : outcome :=
  match r_domains r !! id with
  | None => (r, Err UnknownDomain)
  | Some st => if decide (ds_owner st = owner) then k st else (r, Err NotOwner)
  end.
Definition on_tld (r : Registry) (id : TldId) (owner : OwnerId)
    (k : TldState → outcome) : outcome :=
  match r_tlds r !! id with
  | None => (r, Err UnknownTld)
  | Some st => if decide (ts_owner st = owner) then k st else (r, Err NotTldOwner)
  end.
Definition with_pow (r : Registry) (challenge proof : list byte) (difficulty : N)
    (k : outcome) : outcome :=
  match pow_verify (np_network_id (r_network r)) challenge proof difficulty with
  | Err e => (r, Err (Core e))
  | Ok _ => k
  end.
Definition set_domain (r : Registry) (id : DomainId) (st : DomainState) : Registry :=
  r_with_domains (<[id := st]> (r_domains r)) r.
Definition set_tld (r : Registry) (id : TldId) (st : TldState) : Registry :=
  r_with_tlds (<[id := st]> (r_tlds r)) r.

Definition register_domain_rule (r : Registry) (t : RegisterDomain) (now : N) : outcome :=
  match r_tlds r !! TldId_from_tld (DomainName_tld (rd_name t)) with
  | None => (r, Err UnknownTld)
  | Some tld =>
      if negb (ts_open tld) then (r, Err TldClosed)
      else if negb (domain_free r (rd_domain_id t) now (rd_owner t))
      then (r, Err DomainAlreadyRegistered)
      else with_pow r (DOMAIN_ID_VERSION ++ rd_name t) (rd_proof t)
             (domain_pow_difficulty (r_network r))
             (created (rd_domain_id t) (rd_owner t) now
                (learned (rd_owner t) (rd_public_key t) r), Ok tt)
  end.

Definition update_domain_rule (r : Registry) (t : UpdateDomain) : outcome :=
  on_domain r (ud_domain_id t) (ud_owner t) (λ st,
    let r := learned (ud_owner t) (ud_public_key t) r in
    if decide (ds_sequence st = U64_MAX) then (r, Err (ErrInvalidSequence U64_MAX (ud_sequence t)))
    else if decide (ud_sequence t = ds_sequence st + 1) then
      (set_domain r (ud_domain_id t)
         (mkDomainState (ds_owner st) (ds_sequence st + 1) (norm_hash (Some (ud_record_hash t)))
            (ds_registered_at st) (ds_valid_until st)), Ok tt)
    else (r, Err (ErrInvalidSequence (ds_sequence st + 1) (ud_sequence t)))).

Definition register_tld_rule (r : Registry) (t : RegisterTld) : outcome :=
  match r_tlds r !! rt_tld_id t with
  | Some _ => (r, Err TldAlreadyRegistered)
  | None =>
      if decide (rt_name t ∈ ICANN_TLDS) then (r, Err (IcannTldReserved (rt_name t)))
      else with_pow r (TLD_ID_VERSION ++ rt_name t) (rt_proof t)
             (tld_pow_difficulty (r_network r))
             (set_tld (learned (rt_owner t) (rt_public_key t) r) (rt_tld_id t)
                (mkTldState (rt_owner t) false), Ok tt)
  end.

Definition renew_domain_rule (r : Registry) (t : RenewDomain) (now : N) : outcome :=
  on_domain r (rn_domain_id t) (rn_owner t) (λ st,
    let max := sat_add64 now DOMAIN_MAX_HORIZON_SECS in
    if decide (rn_valid_until t ≤ ds_valid_until st)
    then (r, Err (RenewalNotExtending (ds_valid_until st) (rn_valid_until t)))
    else if decide (max < rn_valid_until t)
    then (r, Err (RenewalExceedsTerm max (rn_valid_until t)))
    else (set_domain r (rn_domain_id t)
            (mkDomainState (ds_owner st) (ds_sequence st) (ds_record_hash st)
               (ds_registered_at st) (rn_valid_until t)), Ok tt)).

Definition assign_domain_rule (r : Registry) (t : AssignDomain) (now : N) : outcome :=
  on_tld r (TldId_from_tld (DomainName_tld (ad_name t))) (ad_owner t) (λ _,
    if domain_free r (ad_domain_id t) now (ad_assignee t)
    then (created (ad_domain_id t) (ad_assignee t) now r, Ok tt)
    else (r, Err DomainAlreadyRegistered)).

Definition slash_rule (r : Registry) (t : SlashTx) : outcome :=
  if decide (eligible r (sl_offender t))
  then (r_with_banned (r_banned r ∪ {[sl_offender t]}) r, Ok tt)
  else (r, Err SlashOffenderNotInPool).

(** What a transaction does to the registry at block time [now]. *)
Definition registry_apply (r : Registry) (tx : Transaction) (now : N) : outcome :=
  match tx_validate tx with
  | Err e => (r, Err (Core e))
  | Ok _ =>
      if decide (tx_network tx = np_network_id (r_network r)) then
        match tx with
        | TxRegisterDomain t => register_domain_rule r t now
        | TxUpdateDomain t => update_domain_rule r t
        | TxRegisterTld t => register_tld_rule r t
        | TxTransferTld t => on_tld r (tt_tld_id t) (tt_owner t) (λ st,
            (set_tld r (tt_tld_id t) (mkTldState (tt_new_owner t) (ts_open st)), Ok tt))
        | TxRevokeTld t => on_tld r (rv_tld_id t) (rv_owner t) (λ _,
            (r_with_tlds (delete (rv_tld_id t) (r_tlds r)) r, Ok tt))
        | TxSetTldOpen t => on_tld r (so_tld_id t) (so_owner t) (λ st,
            (set_tld r (so_tld_id t) (mkTldState (ts_owner st) (so_open t)), Ok tt))
        | TxAssignDomain t => assign_domain_rule r t now
        | TxRenewDomain t => renew_domain_rule r t now
        | TxTransferDomain t => on_domain r (td_domain_id t) (td_owner t) (λ st,
            (set_domain r (td_domain_id t)
               (mkDomainState (td_new_owner t) (ds_sequence st) (ds_record_hash st)
                  (ds_registered_at st) (ds_valid_until st)), Ok tt))
        | TxSlash t => slash_rule r t
        end
      else (r, Err (WrongNetwork (tx_network tx) (np_network_id (r_network r))))
  end.

(** Expiry at [now]: every lapsed domain leaves the live registry for
    its grace window. *)
Definition lapsed (now : N) (r : Registry) : gmap DomainId DomainState :=
  filter (λ kv, ds_valid_until kv.2 ≤ now) (r_domains r).
Definition registry_gc (now : N) (r : Registry) : Registry :=
  mkRegistry (r_network r) (filter (λ kv, now < ds_valid_until kv.2) (r_domains r)) (r_tlds r)
    (r_keys r)
    (((λ st, (ds_valid_until st, ds_owner st)) <$> lapsed now r) ∪ r_grace r)
    (r_banned r).

(** ** Journaled steps *)

(** The reversible changes, each with the entry that undoes it. *)
Inductive jstep : Registry → UndoEntry → Registry → Prop :=
| js_register r (id : hash) st :
    r_domains r !! id = None → domain_ok st →
    jstep r (UndoRegisterDomain id (r_grace r !! id))
      (r_with_grace (delete id (r_grace r)) (set_domain r id st))
| js_update r (id : hash) p n :
    r_domains r !! id = Some p → domain_ok n → ds_owner n = ds_owner p →
    ds_valid_until n = ds_valid_until p →
    jstep r (UndoUpdateDomain id p) (set_domain r id n)
| js_renew r (id : hash) p n :
    r_domains r !! id = Some p → domain_ok n → ds_owner n = ds_owner p →
    jstep r (UndoRenewDomain id p) (set_domain r id n)
| js_transfer r (id : hash) p n :
    r_domains r !! id = Some p → domain_ok n → ds_valid_until n = ds_valid_until p →
    jstep r (UndoTransferDomain id p) (set_domain r id n)
| js_expire r (id : hash) p :
    r_domains r !! id = Some p →
    jstep r (UndoExpireDomain id p)
      (r_with_grace (<[id := (ds_valid_until p, ds_owner p)]> (r_grace r))
         (r_with_domains (delete id (r_domains r)) r))
| js_register_tld r (id : hash) st :
    r_tlds r !! id = None → jstep r (UndoRegisterTld id) (set_tld r id st)
| js_mutate_tld r (id : hash) p n :
    r_tlds r !! id = Some p → jstep r (UndoMutateTld id p) (set_tld r id n)
| js_revoke_tld r (id : hash) p :
    r_tlds r !! id = Some p →
    jstep r (UndoRevokeTld id p) (r_with_tlds (delete id (r_tlds r)) r)
| js_learn r pk :
    r_keys r !! owner_of pk = None →
    jstep r (LearnOwnerKey (owner_of pk)) (r_with_keys (<[owner_of pk := pk]> (r_keys r)) r)
| js_ban r pk :
    pk ∉ r_banned r → jstep r (BanAnchor pk) (r_with_banned (r_banned r ∪ {[pk]}) r).

(** A journal between two registries, collision free all along. *)
Inductive jsteps : Registry → list UndoEntry → Registry → Prop :=
| jsteps_nil r : collision_free r → jsteps r [] r
| jsteps_cons r e r1 es r2 :
    collision_free r → jstep r e r1 → jsteps r1 es r2 → jsteps r (e :: es) r2.
End view.
