(* ===== verification/StateProofs.v ===== *)
(** * The chain state implements the registry

    Every handler, the garbage collector and the rollback of [State]
    against [StateSpec]: same outcome, related states, and a journal that
    leads back. *)

From S2P Require Import Prelude Bytes Crypto Commitment Smt SmtProofs Names Icann Pow Tx State StateSpec.

Section proofs.
Context `{Crypto}.

(** ** Reads *)

Lemma refines_domain s r (id : hash) :
  refines s r → registry_ok r → cs_domain s id = r_domains r !! id.
Proof.
  intros Hs Hr. unfold cs_domain, domain_key, backend_get. rewrite (rf_backend _ _ Hs).
  rewrite entries_lookup. destruct (r_domains r !! id) as [st|] eqn:E; cbn.
  - apply decode_encode_ok. by eapply (ok_domains _ Hr).
  - destruct (r_tlds r !! id); cbn; [|done]. apply decode_domain_tld.
Qed.

Lemma refines_tld s r (id : hash) :
  refines s r → collision_free r → cs_tld s id = r_tlds r !! id.
Proof.
  intros Hs Hc. unfold cs_tld, tld_key, backend_get. rewrite (rf_backend _ _ Hs).
  rewrite entries_lookup. destruct (r_domains r !! id) as [st|] eqn:E; cbn.
  - rewrite (cf_disjoint _ Hc) by by rewrite E. apply decode_tld_domain.
  - destruct (r_tlds r !! id); cbn; [|done]. apply decode_encode_tld.
Qed.

Lemma tld_no_domain r (id : hash) :
  collision_free r → is_Some (r_tlds r !! id) → r_domains r !! id = None.
Proof.
  intros Hc Ht. destruct (r_domains r !! id) eqn:E; [|done].
  rewrite (cf_disjoint _ Hc) in Ht by by rewrite E. by destruct Ht.
Qed.

(** Collision freedom only depends on the two maps. *)
Lemma collision_free_maps r r' :
  r_domains r = r_domains r' → r_tlds r = r_tlds r' → collision_free r → collision_free r'.
Proof.
  intros HD HT [Hd Hl]. split; [by rewrite <- HD, <- HT|].
  unfold r_leaves in *. by rewrite <- HD, <- HT.
Qed.

(** ** Changes of one entry *)

Lemma leaf_domain r (id : hash) st :
  r_domains r !! id = Some st → r_leaves r !! id = Some (domain_leaf_v2 id st).
Proof. intros E. unfold r_leaves. by rewrite both_lookup, E. Qed.

Lemma leaf_tld r (id : hash) st :
  r_domains r !! id = None → r_tlds r !! id = Some st →
  r_leaves r !! id = Some (tld_leaf_v2 id st).
Proof. intros E1 E2. unfold r_leaves. by rewrite both_lookup, E1, E2. Qed.

Lemma leaf_none r (id : hash) :
  r_domains r !! id = None → r_tlds r !! id = None → r_leaves r !! id = None.
Proof. intros E1 E2. unfold r_leaves. by rewrite both_lookup, E1, E2. Qed.

Definition add_domain (id : hash) (st : DomainState) (s : ChainState) : ChainState :=
  owner_acquire (ds_owner st) (expiration_enqueue (ds_valid_until st) id
    (with_domain_count (λ n, n + 1) (put_domain_entry id st (smt_put_domain id None st s)))).

Lemma refines_add_domain s r (id : hash) st :
  refines s r → r_domains r !! id = None → r_tlds r !! id = None →
  refines (add_domain id st s) (set_domain r id st).
Proof.
  intros [Hrn Hrb Hrdc Hrtc Hrk Hrc Hrq Hrg Hrs Hrbn] Hd Ht. split; cbn; try done.
  - unfold backend_put, domain_key. rewrite Hrb. symmetry.
    apply (both_insert_domain (λ _, encode_domain_entry)).
  - rewrite map_size_insert_None by done. lia.
  - eapply counts_acquire; [done|]. intros o. unfold holdings. rewrite owned_insert by done. lia.
  - by apply queued_insert.
  - unfold r_leaves, set_domain. cbn. rewrite both_insert_domain.
    apply committed_insert; [done|by apply leaf_none].
Qed.

Definition del_domain (id : hash) (st : DomainState) (s : ChainState) : ChainState :=
  owner_release (ds_owner st) (expiration_dequeue (ds_valid_until st) id
    (with_domain_count (λ n, n - 1) (remove_domain_entry id (smt_remove_domain id st s)))).

Lemma refines_del_domain s r (id : hash) st :
  refines s r → r_domains r !! id = Some st → collision_free r →
  refines (del_domain id st s) (r_with_domains (delete id (r_domains r)) r).
Proof.
  intros [Hrn Hrb Hrdc Hrtc Hrk Hrc Hrq Hrg Hrs Hrbn] Hd Hc. assert (r_tlds r !! id = None) as Ht by (apply (cf_disjoint _ Hc); by rewrite Hd).
  split; cbn; try done.
  - unfold backend_delete, domain_key. rewrite Hrb. symmetry.
    by apply (both_delete_domain (λ _, encode_domain_entry)).
  - rewrite map_size_delete_Some by done. lia.
  - eapply counts_release; [done|]. intros o. unfold holdings.
    rewrite (owned_delete _ (r_domains r) id st) by done. lia.
  - by apply queued_delete.
  - unfold r_leaves, r_with_domains. cbn. rewrite both_delete_domain by done.
    apply committed_remove; [done|by apply leaf_domain|apply (cf_leaves _ Hc)].
Qed.

(** A replaced entry, for whatever the handler does to the two
    indexes, and up to what an entry can hold of a record hash. *)
Lemma refines_upd_domain s r (id : hash) p n n' m q :
  refines s r → r_domains r !! id = Some p → collision_free r → n' = norm n →
  counts m (holdings (<[id := n']> (r_domains r)) (r_tlds r)) →
  queued q (<[id := n']> (r_domains r)) →
  refines (with_expirations (λ _, q) (with_owner_refcounts (λ _, m)
    (put_domain_entry id n (smt_put_domain id (Some p) n s)))) (set_domain r id n').
Proof.
  intros [Hrn Hrb Hrdc Hrtc Hrk Hrc Hrq Hrg Hrs Hrbn] Hd Hc -> Hm Hq. split; cbn; try done.
  - unfold backend_put, domain_key. rewrite Hrb, <- encode_norm. symmetry.
    apply (both_insert_domain (λ _, encode_domain_entry)).
  - rewrite map_size_insert_Some by done. lia.
  - unfold r_leaves, set_domain. cbn. rewrite both_insert_domain, leaf_norm.
    apply committed_put; [done|by apply leaf_domain|apply (cf_leaves _ Hc)].
Qed.

Definition add_tld (id : hash) (st : TldState) (s : ChainState) : ChainState :=
  owner_acquire (ts_owner st) (with_tld_count (λ n, n + 1)
    (put_tld_entry id st (smt_insert_tld id st s))).

Lemma refines_add_tld s r (id : hash) st :
  refines s r → r_tlds r !! id = None → r_domains r !! id = None →
  refines (add_tld id st s) (set_tld r id st).
Proof.
  intros [Hrn Hrb Hrdc Hrtc Hrk Hrc Hrq Hrg Hrs Hrbn] Ht Hd. split; cbn; try done.
  - unfold backend_put, tld_key. rewrite Hrb. symmetry.
    by apply (both_insert_tld (λ _, encode_domain_entry) (λ _, encode_tld_entry)).
  - rewrite map_size_insert_None by done. lia.
  - eapply counts_acquire; [done|]. intros o. unfold holdings.
    rewrite (owned_insert ts_owner) by done. lia.
  - unfold r_leaves, set_tld. cbn. rewrite both_insert_tld by done.
    apply committed_insert; [done|by apply leaf_none].
Qed.

Definition del_tld (id : hash) (st : TldState) (s : ChainState) : ChainState :=
  owner_release (ts_owner st) (with_tld_count (λ n, n - 1)
    (remove_tld_entry id (smt_remove_tld id st s))).

Lemma refines_del_tld s r (id : hash) st :
  refines s r → r_tlds r !! id = Some st → collision_free r →
  refines (del_tld id st s) (r_with_tlds (delete id (r_tlds r)) r).
Proof.
  intros [Hrn Hrb Hrdc Hrtc Hrk Hrc Hrq Hrg Hrs Hrbn] Ht Hc. assert (r_domains r !! id = None) as Hd
    by (apply tld_no_domain; [done|by rewrite Ht]).
  split; cbn; try done.
  - unfold backend_delete, tld_key. rewrite Hrb. symmetry.
    by apply (both_delete_tld (λ _, encode_domain_entry) (λ _, encode_tld_entry)).
  - rewrite map_size_delete_Some by done. lia.
  - eapply counts_release; [done|]. intros o. unfold holdings.
    rewrite (owned_delete _ (r_tlds r) id st) by done. lia.
  - unfold r_leaves, r_with_tlds. cbn. rewrite both_delete_tld by done.
    apply committed_remove; [done|by apply leaf_tld|apply (cf_leaves _ Hc)].
Qed.

Lemma refines_upd_tld s r (id : hash) p n m :
  refines s r → r_tlds r !! id = Some p → collision_free r →
  counts m (holdings (r_domains r) (<[id := n]> (r_tlds r))) →
  refines (with_owner_refcounts (λ _, m) (put_tld_entry id n (smt_put_tld id p n s)))
    (set_tld r id n).
Proof.
  intros [Hrn Hrb Hrdc Hrtc Hrk Hrc Hrq Hrg Hrs Hrbn] Ht Hc Hm. assert (r_domains r !! id = None) as Hd
    by (apply tld_no_domain; [done|by rewrite Ht]).
  split; cbn; try done.
  - unfold backend_put, tld_key. rewrite Hrb. symmetry.
    by apply (both_insert_tld (λ _, encode_domain_entry) (λ _, encode_tld_entry)).
  - rewrite map_size_insert_Some by done. lia.
  - unfold r_leaves, set_tld. cbn. rewrite both_insert_tld by done.
    apply committed_put; [done|by apply leaf_tld|apply (cf_leaves _ Hc)].
Qed.

Lemma refines_grace f s r :
  refines s r → refines (with_grace f s) (r_with_grace (f (r_grace r)) r).
Proof. intros [Hrn Hrb Hrdc Hrtc Hrk Hrc Hrq Hrg Hrs Hrbn]. split; cbn; congruence || done. Qed.

Lemma refines_keys f s r :
  refines s r → refines (with_owner_keys f s) (r_with_keys (f (r_keys r)) r).
Proof. intros [Hrn Hrb Hrdc Hrtc Hrk Hrc Hrq Hrg Hrs Hrbn]. split; cbn; congruence || done. Qed.

Lemma refines_banned f s r :
  refines s r → refines (with_banned f s) (r_with_banned (f (r_banned r)) r).
Proof. intros [Hrn Hrb Hrdc Hrtc Hrk Hrc Hrq Hrg Hrs Hrbn]. split; cbn; congruence || done. Qed.

(** ** Journaled steps *)

Lemma jstep_ok r e r' : jstep r e r' → registry_ok r → registry_ok r'.
Proof.
  intros Hj [Hd Hg Hk].
  destruct Hj as [r id st Hn Hst|r id p n Hp Hn Ho Hv|r id p n Hp Hn Ho|r id p n Hp Hn Hv
    |r id p Hp|r id st Hn|r id p n Hp|r id p Hp|r pk Hn|r pk Hn]; split; cbn; try done.
  - by apply map_Forall_insert_2.
  - intros k Hk'. rewrite lookup_delete in Hk'. case_decide; [by destruct Hk'|].
    rewrite lookup_insert_ne by done. by apply Hg.
  - by apply map_Forall_insert_2.
  - intros k Hk'. rewrite lookup_insert_ne; [by apply Hg|]. intros <-.
    apply Hg in Hk'. congruence.
  - by apply map_Forall_insert_2.
  - intros k Hk'. rewrite lookup_insert_ne; [by apply Hg|]. intros <-.
    apply Hg in Hk'. congruence.
  - by apply map_Forall_insert_2.
  - intros k Hk'. rewrite lookup_insert_ne; [by apply Hg|]. intros <-.
    apply Hg in Hk'. congruence.
  - by apply map_Forall_delete.
  - intros k Hk'. rewrite lookup_delete. case_decide; [done|].
    rewrite lookup_insert_ne in Hk' by done. by apply Hg.
  - by apply map_Forall_insert_2.
Qed.

Lemma jsteps_ok r es r' : jsteps r es r' → registry_ok r → registry_ok r'.
Proof. induction 1; eauto using jstep_ok. Qed.

Lemma holdings_upd_domain D T (id : hash) p n o :
  D !! id = Some p →
  holdings (<[id := n]> D) T o + (if decide (ds_owner p = o) then 1 else 0) =
  holdings D T o + (if decide (ds_owner n = o) then 1 else 0).
Proof. intros Hp. unfold holdings. pose proof (owned_update ds_owner D id p n o Hp). lia. Qed.

Lemma holdings_upd_tld D T (id : hash) p n o :
  T !! id = Some p →
  holdings D (<[id := n]> T) o + (if decide (ts_owner p = o) then 1 else 0) =
  holdings D T o + (if decide (ts_owner n = o) then 1 else 0).
Proof. intros Hp. unfold holdings. pose proof (owned_update ts_owner T id p n o Hp). lia. Qed.

(** The seat moves from [o] to [o']. *)
Lemma counts_move m f f' o o' :
  counts m f →
  (∀ x, f' x + (if decide (o = x) then 1 else 0) = f x + (if decide (o' = x) then 1 else 0)) →
  f o ≠ 0 → counts (refcounts_acquire o' (refcounts_release o m)) f'.
Proof.
  intros Hm Hf Ho.
  eapply counts_acquire with (f := λ x, f x - (if decide (o = x) then 1 else 0)).
  - eapply counts_release; [exact Hm|]. intros x. cbn. case_decide; subst; lia.
  - intros x. specialize (Hf x). cbn. destruct (decide (o = x)); subst; [|lia].
    case_decide; lia.
Qed.

Lemma counts_same m f f' : counts m f → (∀ x, f' x = f x) → counts m f'.
Proof. intros Hm Hf x. by rewrite Hf, (Hm x). Qed.

Lemma holdings_domain_pos D T (id : hash) p :
  D !! id = Some p → holdings D T (ds_owner p) ≠ 0.
Proof.
  intros Hp. unfold holdings. assert (owned ds_owner D (ds_owner p) ≠ 0); [|lia].
  apply owned_pos. eauto.
Qed.

Lemma holdings_tld_pos D T (id : hash) p :
  T !! id = Some p → holdings D T (ts_owner p) ≠ 0.
Proof.
  intros Hp. unfold holdings. assert (owned ts_owner T (ts_owner p) ≠ 0); [|lia].
  apply owned_pos. eauto.
Qed.

Lemma refines_eq s r r' : refines s r → r = r' → refines s r'.
Proof. by intros ? <-. Qed.

(** The three ways a handler rewrites a live domain. *)
Lemma refines_same_domain s r (id : hash) p n n' :
  refines s r → r_domains r !! id = Some p → collision_free r → n' = norm n →
  ds_owner n = ds_owner p → ds_valid_until n = ds_valid_until p →
  refines (put_domain_entry id n (smt_put_domain id (Some p) n s)) (set_domain r id n').
Proof.
  intros Hs Hp Hc -> Ho Hv.
  apply (refines_upd_domain s r id p n _ (cs_owner_refcounts s) (cs_expirations s)); try done.
  - eapply counts_same; [apply (rf_refcounts _ _ Hs)|]. intros o.
    pose proof (holdings_upd_domain _ (r_tlds r) id p (norm n) o Hp) as E. cbn in E.
    rewrite Ho in E. lia.
  - eapply queued_update; [apply (rf_queue _ _ Hs)|done|done].
Qed.

Lemma refines_move_domain s r (id : hash) p n :
  refines s r → r_domains r !! id = Some p → collision_free r → n = norm n →
  ds_owner n = ds_owner p →
  refines (put_domain_entry id n (smt_put_domain id (Some p) n
    (expiration_enqueue (ds_valid_until n) id (expiration_dequeue (ds_valid_until p) id s))))
    (set_domain r id n).
Proof.
  intros Hs Hp Hc Hn Ho.
  apply (refines_upd_domain s r id p n _ (cs_owner_refcounts s)
    (queue_insert (ds_valid_until n) id (queue_remove (ds_valid_until p) id (cs_expirations s))));
    try done.
  - eapply counts_same; [apply (rf_refcounts _ _ Hs)|]. intros o.
    pose proof (holdings_upd_domain _ (r_tlds r) id p n o Hp) as E. rewrite Ho in E. lia.
  - eapply queued_move; [apply (rf_queue _ _ Hs)|done].
Qed.

Lemma refines_give_domain s r (id : hash) p n :
  refines s r → r_domains r !! id = Some p → collision_free r → n = norm n →
  ds_valid_until n = ds_valid_until p →
  refines (owner_acquire (ds_owner n) (owner_release (ds_owner p)
    (put_domain_entry id n (smt_put_domain id (Some p) n s)))) (set_domain r id n).
Proof.
  intros Hs Hp Hc Hn Hv.
  apply (refines_upd_domain s r id p n _
    (refcounts_acquire (ds_owner n) (refcounts_release (ds_owner p) (cs_owner_refcounts s)))
    (cs_expirations s)); try done.
  - eapply counts_move; [apply (rf_refcounts _ _ Hs)| |by eapply holdings_domain_pos].
    intros o. by apply holdings_upd_domain.
  - eapply queued_update; [apply (rf_queue _ _ Hs)|done|done].
Qed.

Lemma refines_give_tld s r (id : hash) p n :
  refines s r → r_tlds r !! id = Some p → collision_free r →
  refines (owner_acquire (ts_owner n) (owner_release (ts_owner p)
    (put_tld_entry id n (smt_put_tld id p n s)))) (set_tld r id n).
Proof.
  intros Hs Hp Hc.
  apply (refines_upd_tld s r id p n
    (refcounts_acquire (ts_owner n) (refcounts_release (ts_owner p) (cs_owner_refcounts s))));
    try done.
  eapply counts_move; [apply (rf_refcounts _ _ Hs)| |by eapply holdings_tld_pos].
  intros o. by apply holdings_upd_tld.
Qed.

Lemma refines_same_tld s r (id : hash) p n :
  refines s r → r_tlds r !! id = Some p → collision_free r → ts_owner n = ts_owner p →
  refines (put_tld_entry id n (smt_put_tld id p n s)) (set_tld r id n).
Proof.
  intros Hs Hp Hc Ho. apply (refines_upd_tld s r id p n (cs_owner_refcounts s)); try done.
  eapply counts_same; [apply (rf_refcounts _ _ Hs)|]. intros o.
  pose proof (holdings_upd_tld (r_domains r) _ id p n o Hp) as E. rewrite Ho in E. lia.
Qed.

Lemma set_domain_back r (id : hash) p n :
  r_domains r !! id = Some p → set_domain (set_domain r id n) id p = r.
Proof.
  intros Hp. destruct r; cbn in *. unfold set_domain, r_with_domains; cbn.
  by rewrite insert_insert_eq, insert_id.
Qed.

Lemma set_tld_back r (id : hash) p n :
  r_tlds r !! id = Some p → set_tld (set_tld r id n) id p = r.
Proof.
  intros Hp. destruct r; cbn in *. unfold set_tld, r_with_tlds; cbn.
  by rewrite insert_insert_eq, insert_id.
Qed.

(** Undoing one entry. *)
Lemma jstep_undo r e r' s :
  jstep r e r' → registry_ok r → collision_free r → collision_free r' →
  refines s r' → refines (undo_entry s e) r.
Proof.
  intros Hj Hok Hc Hc' Hs. pose proof (jstep_ok _ _ _ Hj Hok) as Hok'.
  pose proof (λ id, refines_domain s r' id Hs Hok') as Hdom.
  pose proof (λ id, refines_tld s r' id Hs Hc') as Htld.
  destruct Hj as [r id st Hn Hst|r id p n Hp Hn Ho Hv|r id p n Hp Hn Ho|r id p n Hp Hn Hv
    |r id p Hp|r id st Hn|r id p n Hp|r id p Hp|r pk Hn|r pk Hn]; cbn [undo_entry].
  - rewrite Hdom. cbn. rewrite lookup_insert_eq.
    assert (refines (del_domain id st s) (r_with_grace (delete id (r_grace r)) r)) as Hs'.
    { eapply refines_eq; [apply refines_del_domain; [exact Hs| |exact Hc']|].
      - cbn. by rewrite lookup_insert_eq.
      - destruct r; cbn in *. unfold r_with_domains, r_with_grace; cbn.
        by rewrite delete_insert_id. }
    destruct (r_grace r !! id) as [g|] eqn:Eg.
    + eapply refines_eq; [apply refines_grace, Hs'|]. destruct r; cbn in *.
      unfold r_with_grace; cbn. by rewrite insert_delete_eq, insert_id.
    + eapply refines_eq; [exact Hs'|]. destruct r; cbn in *. unfold r_with_grace; cbn.
      by rewrite delete_id.
  - rewrite Hdom. cbn. rewrite lookup_insert_eq.
    eapply refines_eq; [|by apply (set_domain_back r id p n)].
    apply refines_same_domain; try done; [cbn; by rewrite lookup_insert_eq|].
    symmetry. apply norm_ok. by eapply (ok_domains _ Hok).
  - rewrite Hdom. cbn. rewrite lookup_insert_eq.
    eapply refines_eq; [|by apply (set_domain_back r id p n)].
    apply (refines_move_domain s (set_domain r id n) id n p); try done;
      [cbn; by rewrite lookup_insert_eq|].
    symmetry. apply norm_ok. by eapply (ok_domains _ Hok).
  - rewrite Hdom. cbn. rewrite lookup_insert_eq.
    eapply refines_eq; [|by apply (set_domain_back r id p n)].
    apply (refines_give_domain s (set_domain r id n) id n p); try done;
      [cbn; by rewrite lookup_insert_eq|].
    symmetry. apply norm_ok. by eapply (ok_domains _ Hok).
  - assert (r_grace r !! id = None) as Hg.
    { destruct (r_grace r !! id) eqn:E; [|done].
      rewrite (ok_grace _ Hok) in Hp by by rewrite E. done. }
    eapply refines_eq.
    + apply (refines_add_domain (with_grace (delete id) s)); [apply refines_grace, Hs|..].
      * cbn. apply lookup_delete_eq.
      * cbn. apply (cf_disjoint _ Hc). by rewrite Hp.
    + destruct r; cbn in *. unfold set_domain, r_with_domains, r_with_grace; cbn.
      by rewrite insert_delete_id, delete_insert_id.
  - rewrite Htld. cbn. rewrite lookup_insert_eq. eapply refines_eq.
    + apply refines_del_tld; [exact Hs|cbn; by rewrite lookup_insert_eq|exact Hc'].
    + destruct r; cbn in *. unfold r_with_tlds; cbn. by rewrite delete_insert_id.
  - rewrite Htld. cbn. rewrite lookup_insert_eq.
    eapply refines_eq; [|by apply (set_tld_back r id p n)].
    apply (refines_give_tld s (set_tld r id n) id n p); try done.
    cbn. by rewrite lookup_insert_eq.
  - eapply refines_eq.
    + apply (refines_add_tld s (r_with_tlds (delete id (r_tlds r)) r) id p); [exact Hs|cbn; apply lookup_delete_eq|].
      cbn. apply tld_no_domain; [done|by rewrite Hp].
    + destruct r; cbn in *. unfold set_tld, r_with_tlds; cbn. by rewrite insert_delete_id.
  - eapply refines_eq; [apply refines_keys, Hs|]. destruct r; cbn in *.
    unfold r_with_keys; cbn. by rewrite delete_insert_id.
  - eapply refines_eq; [apply refines_banned, Hs|]. destruct r; cbn in *.
    unfold r_with_banned; cbn. f_equal. set_solver.
Qed.

Lemma rollback_cons s e es : rollback s (e :: es) = undo_entry (rollback s es) e.
Proof. unfold rollback. cbn. by rewrite fold_left_app. Qed.

Lemma rollback_app s es es' : rollback s (es ++ es') = rollback (rollback s es') es.
Proof. unfold rollback. by rewrite rev_app_distr, fold_left_app. Qed.

Lemma jsteps_collision_free r es r' : jsteps r es r' → collision_free r ∧ collision_free r'.
Proof. induction 1; naive_solver. Qed.

(** Rolling a journal back. *)
Lemma rollback_refines r es r' s :
  jsteps r es r' → registry_ok r → refines s r' → refines (rollback s es) r.
Proof.
  intros Hj. revert s. induction Hj as [|r e r1 es r2 Hc Hj Hjs IH]; intros s Hok Hs; [done|].
  rewrite rollback_cons. eapply jstep_undo; try done.
  - by apply (jsteps_collision_free _ _ _ Hjs).
  - apply IH; [by eapply jstep_ok|done].
Qed.

Lemma jsteps_app r es r1 es' r2 : jsteps r es r1 → jsteps r1 es' r2 → jsteps r (es ++ es') r2.
Proof. induction 1; intros; cbn; [done|]. econstructor; eauto. Qed.

(** ** Handlers *)

(** A run of [m] from [σ] has the outcome [o] of the registry [r]: the
    same result, a state that represents the new registry, and a
    journal extended by the steps between the two. *)
Definition implements (σ : ChainState * UndoLog) (m : M unit) (r : Registry) (o : outcome) : Prop :=
  (m σ).2 = o.2 ∧
  ∃ es, (m σ).1.2 = σ.2 ++ es ∧ jsteps r es o.1 ∧ refines (m σ).1.1 o.1.

Lemma implements_throw s j r e :
  refines s r → collision_free r → implements (s, j) (throw e) r (r, Err e).
Proof.
  intros. split; [done|]. exists []. rewrite app_nil_r. split_and!; [done|by constructor|done].
Qed.

Lemma implements_ret s j r :
  refines s r → collision_free r → implements (s, j) (mret_ tt) r (r, Ok tt).
Proof.
  intros. split; [done|]. exists []. rewrite app_nil_r. split_and!; [done|by constructor|done].
Qed.

(** A mutation journaled with the entry of its step. *)
Lemma implements_step s j r e r' s' m :
  m (s, j) = ((s', j ++ [e]), Ok tt) → jstep r e r' → collision_free r → collision_free r' →
  refines s' r' → implements (s, j) m r (r', Ok tt).
Proof.
  intros E Hj Hc Hc' Hs. unfold implements. rewrite E. split; [done|]. exists [e].
  split_and!; [done| |done]. econstructor; [done..|]. by constructor.
Qed.

Lemma implements_reads {A} s j (f : ChainState → A) k r o :
  implements (s, j) (k (f s)) r o → implements (s, j) (mbind_ (reads f) k) r o.
Proof. done. Qed.

Lemma implements_ok {A} s j (x : result BlockchainError A) a k r o :
  x = Ok a → implements (s, j) (k a) r o → implements (s, j) (mbind_ (lift x) k) r o.
Proof. by intros ->. Qed.

Lemma implements_err {A} s j (x : result BlockchainError A) e k r :
  x = Err e → refines s r → collision_free r →
  implements (s, j) (mbind_ (lift x) k) r (r, Err e).
Proof. intros -> ? ?. by apply implements_throw. Qed.

Lemma implements_pass s j c e k r o :
  c = false → implements (s, j) (k tt) r o → implements (s, j) (mbind_ (reject_if c e) k) r o.
Proof. by intros ->. Qed.

Lemma implements_reject s j c e k r :
  c = true → refines s r → collision_free r →
  implements (s, j) (mbind_ (reject_if c e) k) r (r, Err e).
Proof. intros -> ? ?. by apply implements_throw. Qed.

Lemma mbind_assoc {A B C} (m : M A) (f : A → M B) (k : B → M C) σ :
  mbind_ (mbind_ m f) k σ = mbind_ m (λ a, mbind_ (f a) k) σ.
Proof. unfold mbind_. by destruct (m σ) as [? []]. Qed.

Lemma implements_assoc {A B} σ (m : M A) (f : A → M B) k r o :
  implements σ (mbind_ m (λ a, mbind_ (f a) k)) r o → implements σ (mbind_ (mbind_ m f) k) r o.
Proof. unfold implements. by rewrite mbind_assoc. Qed.

Lemma implements_learn s j o pk k r out :
  refines s r → collision_free r → o = owner_of pk →
  (∀ s' j', refines s' (learned o pk r) → implements (s', j') (k tt) (learned o pk r) out) →
  implements (s, j) (mbind_ (learn_owner_key o pk) k) r out.
Proof.
  intros Hs Hc -> Hk. unfold learn_owner_key. apply implements_assoc, implements_reads.
  rewrite (rf_keys _ _ Hs). unfold learned in Hk.
  destruct (r_keys r !! owner_of pk) eqn:E; [by apply Hk|].
  destruct (Hk _ (j ++ [LearnOwnerKey (owner_of pk)]) (refines_keys <[owner_of pk := pk]> _ _ Hs))
    as (Hres & es & Hj & Hjs & Hs').
  split; [exact Hres|]. exists (LearnOwnerKey (owner_of pk) :: es). split_and!; [|..|exact Hs'].
  - cbn [snd] in Hj. rewrite <- app_assoc in Hj. exact Hj.
  - econstructor; [done|by apply js_learn|exact Hjs].
Qed.

Lemma learned_maps o pk r :
  r_domains (learned o pk r) = r_domains r ∧ r_tlds (learned o pk r) = r_tlds r ∧
  r_grace (learned o pk r) = r_grace r ∧ r_network (learned o pk r) = r_network r.
Proof. unfold learned. by destruct (_ !! _). Qed.

Lemma learned_collision_free o pk r : collision_free r → collision_free (learned o pk r).
Proof. apply collision_free_maps; symmetry; apply learned_maps. Qed.

Lemma learned_ok pk o r : o = owner_of pk → registry_ok r → registry_ok (learned o pk r).
Proof.
  intros -> Hok. unfold learned. destruct (_ !! _) eqn:E; [done|].
  eapply jstep_ok; [by apply js_learn|done].
Qed.

Lemma implements_owned_domain s j (id o : hash) k r f :
  refines s r → registry_ok r → collision_free r →
  (∀ st, r_domains r !! id = Some st → ds_owner st = o → implements (s, j) (k st) r (f st)) →
  implements (s, j) (mbind_ (owned_domain id o) k) r (on_domain r id o f).
Proof.
  intros Hs Hok Hc Hk. unfold owned_domain, on_domain, some_or.
  apply implements_assoc, implements_reads. rewrite (refines_domain _ _ _ Hs Hok).
  apply implements_assoc. destruct (r_domains r !! id) as [st|] eqn:E; [|by apply implements_throw].
  apply (implements_ok _ _ _ st); [done|]. apply implements_assoc.
  unfold arr_eqb. case_decide as Eo.
  - apply implements_pass; [by rewrite bool_decide_true|]. by apply Hk.
  - apply implements_reject; [by rewrite bool_decide_false|done..].
Qed.

Lemma implements_owned_tld s j (id o : hash) k r f :
  refines s r → collision_free r →
  (∀ st, r_tlds r !! id = Some st → ts_owner st = o → implements (s, j) (k st) r (f st)) →
  implements (s, j) (mbind_ (owned_tld id o) k) r (on_tld r id o f).
Proof.
  intros Hs Hc Hk. unfold owned_tld, on_tld, some_or.
  apply implements_assoc, implements_reads. rewrite (refines_tld _ _ _ Hs Hc).
  apply implements_assoc. destruct (r_tlds r !! id) as [st|] eqn:E; [|by apply implements_throw].
  apply (implements_ok _ _ _ st); [done|]. apply implements_assoc.
  unfold arr_eqb. case_decide as Eo.
  - apply implements_pass; [by rewrite bool_decide_true|]. by apply Hk.
  - apply implements_reject; [by rewrite bool_decide_false|done..].
Qed.

(** The domain-freedom check. *)
Lemma refines_domain_free s r (id : hash) now o :
  refines s r → registry_ok r →
  ensure_domain_free id now o s =
    if domain_free r id now o then Ok tt else Err DomainAlreadyRegistered.
Proof.
  intros Hs Hok. unfold ensure_domain_free, domain_free.
  rewrite (refines_domain _ _ _ Hs Hok), (rf_grace _ _ Hs).
  destruct (r_domains r !! id) as [st|] eqn:E; [done|]. cbn.
  destruct (r_grace r !! id) as [[ex ow]|]; [|done]. unfold arr_eqb.
  destruct (N.ltb_spec now (sat_add64 ex DOMAIN_GRACE_SECS)),
    (N.leb_spec (sat_add64 ex DOMAIN_GRACE_SECS) now); try lia; cbn [andb orb];
    [by destruct (bool_decide (o = ow))|done].
Qed.

Lemma created_ok (owner : hash) now :
  now < U64 → domain_ok (mkDomainState owner 0 None now (add64 now DOMAIN_TERM_SECS)).
Proof. intros Hn. split; cbn; try done. apply add64_lt. Qed.

Lemma implements_create s j r (id : hash) owner now :
  refines s r → registry_ok r → collision_free r → now < U64 →
  r_domains r !! id = None → collision_free (created id owner now r) →
  implements (s, j) (create_domain id owner now (add64 now DOMAIN_TERM_SECS)) r
    (created id owner now r, Ok tt).
Proof.
  intros Hs Hok Hc Hn Hd Hc'.
  assert (r_tlds r !! id = None) as Ht.
  { apply (cf_disjoint _ Hc'). cbn. by rewrite lookup_insert_eq. }
  set (st := mkDomainState owner 0 None now (add64 now DOMAIN_TERM_SECS)).
  eapply (implements_step s j r (UndoRegisterDomain id (r_grace r !! id)) _
    (add_domain id st (with_grace (delete id) s))); [|apply js_register|done..|].
  - unfold create_domain, mbind_, reads, updates, journals. cbn [fst snd].
    by rewrite (rf_grace _ _ Hs).
  - done.
  - by apply created_ok.
  - eapply refines_eq; [apply refines_add_domain; [apply refines_grace, Hs|done..]|]. done.
Qed.

Lemma domain_free_None r (id : hash) now o : domain_free r id now o = true → r_domains r !! id = None.
Proof. unfold domain_free. intros [Hd _]%andb_true_iff. by apply bool_decide_eq_true in Hd. Qed.

Lemma implements_pow s j r params challenge proof diff k o :
  params = r_network r → refines s r → collision_free r →
  (∀ c, with_pow r challenge proof diff o = o → implements (s, j) (k c) r o) →
  implements (s, j)
    (mbind_ (core (pow_verify (np_network_id params) challenge proof diff)) k) r
    (with_pow r challenge proof diff o).
Proof.
  intros -> Hs Hc Hk. unfold core, with_pow in *.
  destruct (pow_verify _ _ _ _) as [c|e] eqn:E.
  - apply (implements_ok _ _ _ c); [done|]. by apply Hk.
  - by apply implements_err.
Qed.

Lemma on_domain_inv r (id o : hash) f :
  (on_domain r id o f).1 = r ∨
  ∃ st, r_domains r !! id = Some st ∧ ds_owner st = o ∧ on_domain r id o f = f st.
Proof.
  unfold on_domain. destruct (r_domains r !! id) as [st|]; [|by left].
  case_decide; [|by left]. right. by exists st.
Qed.

Lemma implements_register_domain s j r t now :
  refines s r → registry_ok r → collision_free r → now < U64 →
  RegisterDomain_validate t = Ok tt →
  collision_free (register_domain_rule r t now).1 →
  implements (s, j) (apply_register_domain t now) r (register_domain_rule r t now).
Proof.
  intros Hs Hok Hc Hn [Ho _]%RegisterDomain_validate_Ok Hc'.
  unfold apply_register_domain, register_domain_rule in *. apply implements_reads.
  rewrite (refines_tld _ _ _ Hs Hc).
  destruct (r_tlds r !! _) as [tld|] eqn:Et; [|by apply implements_err].
  apply (implements_ok _ _ _ tld); [done|].
  destruct (negb (ts_open tld)) eqn:Eo; [by apply implements_reject|].
  apply implements_pass; [done|]. apply implements_reads.
  rewrite (refines_domain_free _ r) by done.
  destruct (domain_free r _ now _) eqn:Ef; cbn [negb] in *; [|by apply implements_err].
  apply (implements_ok _ _ _ tt); [done|]. apply implements_reads. rewrite (rf_network _ _ Hs).
  apply implements_pow; [done..|]. intros c Ep. rewrite Ep in Hc'. cbn [fst] in Hc'.
  destruct (learned_maps (rd_owner t) (rd_public_key t) r) as (ED & ET & EG & EN).
  apply implements_learn; [done..|]. intros s' j' Hs'. apply implements_create; try done.
  - by apply learned_ok.
  - by apply learned_collision_free.
  - rewrite ED. by eapply domain_free_None.
Qed.

Lemma implements_update_domain s j r t :
  refines s r → registry_ok r → collision_free r → ud_owner t = owner_of (ud_public_key t) →
  collision_free (update_domain_rule r t).1 →
  implements (s, j) (apply_update_domain t) r (update_domain_rule r t).
Proof.
  intros Hs Hok Hc Ho Hc'. unfold apply_update_domain, update_domain_rule, on_domain in *.
  apply implements_reads. rewrite (refines_domain _ _ _ Hs Hok).
  destruct (r_domains r !! ud_domain_id t) as [st|] eqn:E; [|by apply implements_err].
  apply (implements_ok _ _ _ st); [done|].
  destruct (decide (ds_owner st = ud_owner t)) as [Eo|Eo].
  2:{ apply implements_reject; [|done..]. unfold arr_eqb. by rewrite bool_decide_false. }
  apply implements_pass; [unfold arr_eqb; by rewrite bool_decide_true|].
  pose proof (learned_collision_free (ud_owner t) (ud_public_key t) r Hc) as Hcl.
  destruct (learned_maps (ud_owner t) (ud_public_key t) r) as (ED & _).
  apply implements_learn; [done..|]. intros s' j' Hs'.
  set (r' := learned (ud_owner t) (ud_public_key t) r) in *.
  pose proof (ok_domains _ Hok _ _ E) as Hst. pose proof (ok_sequence _ Hst) as Hsq.
  unfold checked_add64. destruct (N.leb_spec (ds_sequence st + 1) U64_MAX) as [Hle|Hle].
  2:{ rewrite decide_True by (unfold U64_MAX in *; lia). by apply implements_err. }
  rewrite decide_False in Hc' by lia. rewrite decide_False by lia.
  apply (implements_ok _ _ _ (ds_sequence st + 1)); [done|].
  case_decide as Esq.
  2:{ apply implements_reject; [|done..]. apply negb_true_iff. by apply N.eqb_neq. }
  apply implements_pass; [rewrite Esq; by rewrite N.eqb_refl|].
  set (n := mkDomainState (ds_owner st) (ds_sequence st + 1) (Some (ud_record_hash t))
              (ds_registered_at st) (ds_valid_until st)).
  assert (domain_ok (norm n)) as Hn.
  { split; cbn; [unfold U64_MAX in *; lia|by apply ok_registered|by apply ok_until|].
    case_bool_decide; congruence. }
  eapply implements_step; [reflexivity|by apply (js_update r' _ st (norm n)); rewrite ?ED|done..|].
  apply refines_same_domain; try done. by rewrite ED.
Qed.

Lemma implements_register_tld s j r t :
  refines s r → registry_ok r → collision_free r → RegisterTld_validate t = Ok tt →
  collision_free (register_tld_rule r t).1 →
  implements (s, j) (apply_register_tld t) r (register_tld_rule r t).
Proof.
  intros Hs Hok Hc [Ho _]%RegisterTld_validate_Ok Hc'.
  unfold apply_register_tld, register_tld_rule in *. apply implements_reads.
  rewrite (refines_tld _ _ _ Hs Hc).
  destruct (r_tlds r !! rt_tld_id t) as [tld|] eqn:Et; [by apply implements_reject|].
  apply implements_pass; [done|]. case_decide as Ei.
  { apply implements_reject; [by apply is_icann_tld_elem|done..]. }
  apply implements_pass; [by apply not_true_iff_false; rewrite is_icann_tld_elem|].
  apply implements_reads. rewrite (rf_network _ _ Hs).
  apply implements_pow; [done..|]. intros c Ep. rewrite Ep in Hc'. cbn [fst] in Hc'.
  destruct (learned_maps (rt_owner t) (rt_public_key t) r) as (ED & ET & _).
  apply implements_learn; [done..|]. intros s' j' Hs'.
  assert (r_tlds (learned (rt_owner t) (rt_public_key t) r) !! rt_tld_id t = None) as Et'
    by by rewrite ET.
  eapply implements_step; [reflexivity|by apply js_register_tld|..|].
  - by apply learned_collision_free.
  - done.
  - apply refines_add_tld; [done..|]. apply (tld_no_domain _ _ Hc'). cbn.
    by rewrite lookup_insert_eq.
Qed.

(** The validator pool, computed from the indexes, is the registry's. *)
Lemma eligible_validators_elem s r k :
  refines s r → registry_ok r → k ∈ eligible_validators s ↔ eligible r k.
Proof.
  intros Hs Hok. unfold eligible_validators, eligible.
  rewrite (merge_sort_Permutation arr_le), list_elem_of_filter, list_elem_of_omap.
  rewrite (rf_banned _ _ Hs), (rf_keys _ _ Hs). split.
  - intros [Hb (o & Ho & Hk)]. rewrite <- (ok_keys _ Hok _ _ Hk). split_and!; [|done..].
    apply elem_of_elements, elem_of_dom in Ho. rewrite (rf_refcounts _ _ Hs o) in Ho.
    case_decide; [by destruct Ho|done].
  - intros (Hh & Hk & Hb). split; [done|]. exists (owner_of k). split; [|done].
    apply elem_of_elements, elem_of_dom. rewrite (rf_refcounts _ _ Hs (owner_of k)).
    by rewrite decide_False.
Qed.

Lemma implements_slash s j r t :
  refines s r → registry_ok r → collision_free r →
  implements (s, j) (apply_slash t) r (slash_rule r t).
Proof.
  intros Hs Hok Hc. unfold apply_slash, slash_rule. apply implements_reads.
  pose proof (eligible_validators_elem s r (sl_offender t) Hs Hok) as Hel.
  case_decide as He.
  2:{ apply implements_reject; [|done..]. by rewrite bool_decide_eq_true, Hel. }
  apply implements_pass; [by rewrite bool_decide_eq_false, Hel; intros []|].
  apply implements_reads. rewrite (rf_banned _ _ Hs).
  case_bool_decide as Eb.
  - assert (r_banned r ∪ {[sl_offender t]} = r_banned r) as -> by set_solver.
    destruct r. by apply implements_ret.
  - eapply implements_step; [reflexivity|by apply js_ban|done|..].
    + by eapply collision_free_maps; [..|exact Hc].
    + by apply refines_banned.
Qed.

Lemma implements_assign_domain s j r t now :
  refines s r → registry_ok r → collision_free r → now < U64 →
  collision_free (assign_domain_rule r t now).1 →
  implements (s, j) (apply_assign_domain t now) r (assign_domain_rule r t now).
Proof.
  intros Hs Hok Hc Hn Hc'. unfold apply_assign_domain, assign_domain_rule in *.
  apply implements_owned_tld; [done..|]. intros st Et Eo.
  unfold on_tld in Hc'. rewrite Et, decide_True in Hc' by done.
  apply implements_reads. rewrite (refines_domain_free _ r) by done.
  destruct (domain_free r _ now _) eqn:Ef; [|by apply implements_err].
  apply (implements_ok _ _ _ tt); [done|].
  apply implements_create; try done. by eapply domain_free_None.
Qed.

Lemma implements_renew_domain s j r t now :
  refines s r → registry_ok r → collision_free r →
  collision_free (renew_domain_rule r t now).1 →
  implements (s, j) (apply_renew_domain t now) r (renew_domain_rule r t now).
Proof.
  intros Hs Hok Hc Hc'. unfold apply_renew_domain, renew_domain_rule in *.
  apply implements_owned_domain; [done..|]. intros st Et Eo.
  unfold on_domain in Hc'. rewrite Et, decide_True in Hc' by done. cbn zeta in *.
  case_decide as Ev.
  { apply implements_reject; [by apply N.leb_le|done..]. }
  apply implements_pass; [apply N.leb_gt; lia|].
  case_decide as Em.
  { apply implements_reject; [by apply N.ltb_lt|done..]. }
  apply implements_pass; [apply N.ltb_ge; lia|].
  pose proof (ok_domains _ Hok _ _ Et) as Hst.
  set (n := mkDomainState (ds_owner st) (ds_sequence st) (ds_record_hash st)
              (ds_registered_at st) (rn_valid_until t)) in *.
  assert (domain_ok n) as Hnok.
  { split; cbn; [by apply ok_sequence|by apply ok_registered| |by apply ok_hash].
    eapply N.le_lt_trans; [by apply N.nlt_ge|apply sat_add64_lt]. }
  eapply (implements_step s j r _ _ (put_domain_entry (rn_domain_id t) n
    (smt_put_domain (rn_domain_id t) (Some st) n
      (expiration_enqueue (rn_valid_until t) (rn_domain_id t)
        (expiration_dequeue (ds_valid_until st) (rn_domain_id t) s)))));
    [reflexivity|by apply (js_renew r _ st n)|done..|].
  apply (refines_move_domain s r (rn_domain_id t) st n); try done. by rewrite norm_ok.
Qed.

Lemma implements_transfer_domain s j r t :
  refines s r → registry_ok r → collision_free r →
  let o := on_domain r (td_domain_id t) (td_owner t) (λ st,
    (set_domain r (td_domain_id t)
       (mkDomainState (td_new_owner t) (ds_sequence st) (ds_record_hash st)
          (ds_registered_at st) (ds_valid_until st)), Ok tt)) in
  collision_free o.1 → implements (s, j) (apply_transfer_domain t) r o.
Proof.
  intros Hs Hok Hc o Hc'. subst o. unfold apply_transfer_domain.
  apply implements_owned_domain; [done..|]. intros st Et Eo.
  unfold on_domain in Hc'. rewrite Et, decide_True in Hc' by done. cbn zeta in *.
  pose proof (ok_domains _ Hok _ _ Et) as Hst.
  set (n := mkDomainState (td_new_owner t) (ds_sequence st) (ds_record_hash st)
              (ds_registered_at st) (ds_valid_until st)) in *.
  assert (domain_ok n) as Hnok
    by (split; cbn; [by apply ok_sequence|by apply ok_registered|by apply ok_until|by apply ok_hash]).
  eapply (implements_step s j r _ _ (owner_acquire (ds_owner n) (owner_release (ds_owner st)
    (put_domain_entry (td_domain_id t) n (smt_put_domain (td_domain_id t) (Some st) n s)))));
    [reflexivity|by apply (js_transfer r _ st n)|done..|].
  apply (refines_give_domain s r (td_domain_id t) st n); try done. by rewrite norm_ok.
Qed.

Lemma implements_tld_ops s j r (id o : hash) m f :
  refines s r → collision_free r →
  (∀ st, r_tlds r !! id = Some st → ts_owner st = o → collision_free (f st).1 →
    implements (s, j) (m st) r (f st)) →
  collision_free (on_tld r id o f).1 →
  implements (s, j) (mbind_ (owned_tld id o) m) r (on_tld r id o f).
Proof.
  intros Hs Hc Hk Hc'. apply implements_owned_tld; [done..|]. intros st Et Eo.
  apply Hk; [done..|]. unfold on_tld in Hc'. by rewrite Et, decide_True in Hc'.
Qed.

(** Every transaction implements its rule. *)
Lemma implements_apply s j r tx now :
  refines s r → registry_ok r → collision_free r → now < U64 →
  collision_free (registry_apply r tx now).1 →
  implements (s, j) (apply_journaled_at tx now) r (registry_apply r tx now).
Proof.
  intros Hs Hok Hc Hn Hc'. unfold apply_journaled_at, registry_apply, core in *.
  destruct (tx_validate tx) as [[]|e] eqn:Ev; [|by apply implements_err].
  apply (implements_ok _ _ _ tt); [done|]. apply implements_reads. rewrite (rf_network _ _ Hs).
  case_decide as En.
  2:{ apply implements_reject; [by apply bool_decide_eq_true|done..]. }
  apply implements_pass; [apply bool_decide_eq_false; tauto|].
  destruct tx as [t|t|t|t|t|t|t|t|t|t]; cbn [tx_validate] in Ev.
  - by apply implements_register_domain.
  - apply implements_update_domain; try done. unfold UpdateDomain_validate in Ev.
    destruct (_ =? 0); [done|]. by apply check_owner_binding_Ok.
  - by apply implements_register_tld.
  - apply implements_tld_ops; [done..| |done]. intros st Et Eo Hf.
    set (n := mkTldState (tt_new_owner t) (ts_open st)) in *.
    eapply (implements_step s j r (UndoMutateTld (tt_tld_id t) st) _
      (owner_acquire (ts_owner n) (owner_release (ts_owner st)
      (put_tld_entry (tt_tld_id t) n (smt_put_tld (tt_tld_id t) st n s)))));
      [reflexivity|by apply (js_mutate_tld r _ st)|done..|].
    by apply (refines_give_tld s r (tt_tld_id t) st n).
  - apply implements_tld_ops; [done..| |done]. intros st Et Eo Hf.
    eapply implements_step; [reflexivity|by apply (js_revoke_tld r _ st)|done..|].
    by apply refines_del_tld.
  - apply implements_tld_ops; [done..| |done]. intros st Et Eo Hf.
    set (n := mkTldState (ts_owner st) (so_open t)) in *.
    eapply (implements_step s j r (UndoMutateTld (so_tld_id t) st) _
      (put_tld_entry (so_tld_id t) n (smt_put_tld (so_tld_id t) st n s)));
      [reflexivity|by apply (js_mutate_tld r _ st)|done..|].
    by apply refines_same_tld.
  - by apply implements_assign_domain.
  - by apply implements_renew_domain.
  - by apply implements_transfer_domain.
  - by apply implements_slash.
Qed.

(** ** Garbage collection *)

Lemma collision_free_delete r (id : hash) :
  collision_free r → collision_free (r_with_domains (delete id (r_domains r)) r).
Proof.
  intros [Hd Hl]. split; cbn.
  - intros k [st Hk]. apply Hd. rewrite lookup_delete in Hk. case_decide; [done|]. by exists st.
  - intros k k' l. unfold r_leaves. cbn. rewrite !both_lookup. intros Hk Hk'.
    assert (∀ x, match delete id (r_domains r) !! x with
                 | Some st => Some (domain_leaf_v2 x st)
                 | None => tld_leaf_v2 x <$> r_tlds r !! x
                 end = Some l → r_leaves r !! x = Some l) as Hback.
    { intros x Hx. unfold r_leaves. rewrite both_lookup. rewrite lookup_delete in Hx.
      case_decide as Ex; [|done]. subst x. destruct (r_domains r !! id) eqn:E; [|done].
      rewrite Hd in Hx by by rewrite E. done. }
    apply (Hl k k' l); by apply Hback.
Qed.

(** [r'] is [r] after the domains selected by [P] expired. *)
Record expired_by (P : hash → DomainState → bool) (r r' : Registry) : Prop := {
  eb_network : r_network r' = r_network r;
  eb_tlds : r_tlds r' = r_tlds r;
  eb_keys : r_keys r' = r_keys r;
  eb_banned : r_banned r' = r_banned r;
  eb_domains (id : hash) : r_domains r' !! id =
    match r_domains r !! id with
    | Some st => if P id st then None else Some st
    | None => None
    end;
  eb_grace (id : hash) : r_grace r' !! id =
    match r_domains r !! id with
    | Some st => if P id st then Some (ds_valid_until st, ds_owner st) else r_grace r !! id
    | None => r_grace r !! id
    end }.

Lemma expired_by_unique P r r1 r2 : expired_by P r r1 → expired_by P r r2 → r1 = r2.
Proof.
  intros [N1 T1 K1 B1 D1 G1] [N2 T2 K2 B2 D2 G2]. destruct r1, r2; cbn in *.
  f_equal; try congruence; apply map_eq; intros id; [by rewrite D1, D2|by rewrite G1, G2].
Qed.

Lemma expired_by_none P r :
  (∀ (id : hash) st, r_domains r !! id = Some st → P id st = false) → expired_by P r r.
Proof.
  intros HP. split; try done; intros id; destruct (r_domains r !! id) eqn:E; try done;
    by rewrite (HP _ _ E).
Qed.

Lemma expired_by_trans P Q R r r1 r2 :
  expired_by P r r1 → expired_by Q r1 r2 →
  (∀ (id : hash) st, r_domains r !! id = Some st → R id st = P id st || Q id st) →
  expired_by R r r2.
Proof.
  intros [N1 T1 K1 B1 D1 G1] [N2 T2 K2 B2 D2 G2] HR. split; try congruence; intros id.
  - rewrite D2, D1. destruct (r_domains r !! id) as [st|] eqn:E; [|done].
    rewrite (HR _ _ E). by destruct (P id st).
  - rewrite G2, D1, G1. destruct (r_domains r !! id) as [st|] eqn:E; [|done].
    rewrite (HR _ _ E). by destruct (P id st).
Qed.

Lemma expired_by_one r (id : hash) p :
  r_domains r !! id = Some p →
  expired_by (λ k _, bool_decide (k = id)) r
    (r_with_grace (<[id := (ds_valid_until p, ds_owner p)]> (r_grace r))
      (r_with_domains (delete id (r_domains r)) r)).
Proof.
  intros Hp. split; try done; intros k; cbn.
  - rewrite lookup_delete. case_decide as E.
    + subst k. by rewrite Hp, bool_decide_true.
    + rewrite bool_decide_false by done. by destruct (r_domains r !! k).
  - rewrite lookup_insert. case_decide as E.
    + subst k. by rewrite Hp, bool_decide_true.
    + rewrite bool_decide_false by done. by destruct (r_domains r !! k).
Qed.

Lemma queue_remove_delete u id q : delete u (queue_remove u id q) = delete u q.
Proof.
  unfold queue_remove. destruct (q !! u); [|done]. case_bool_decide.
  - apply delete_delete_eq.
  - apply delete_insert_eq.
Qed.

(** The inner loop, the slot being drained set aside in [q]. *)
Lemma gc_ids_spec now until : until ≤ now → ∀ ids q s r j ex,
  NoDup ids → registry_ok r → collision_free r →
  refines (with_expirations (λ _, q) s) r → cs_expirations s = delete until q →
  (∀ id, id ∈ ids ↔ id ∈ default ∅ (q !! until)) →
  ∃ s' es r', fold_left (gc_id now) ids ((s, j), ex) = ((s', j ++ es), ex ++ ids) ∧
    jsteps r es r' ∧ refines s' r' ∧
    expired_by (λ _ st, ds_valid_until st =? until) r r'.
Proof.
  intros Hu ids. induction ids as [|id ids IH]; intros q s r j ex Hnd Hok Hc Hs Hq Hin.
  - exists s, [], r. rewrite !app_nil_r. pose proof (rf_queue _ _ Hs) as Hqd. cbn in Hqd.
    split_and!; [done|by constructor| |].
    + assert (delete until q = q) as E.
      { apply delete_id. destruct (q !! until) as [X|] eqn:E; [|done]. cbn in Hin.
        destruct (queued_nonempty _ _ Hqd until). rewrite E. f_equal.
        apply set_eq. intros x. rewrite <- (Hin x). set_solver. }
      rewrite E in Hq. destruct s; cbn in *. by subst.
    + apply expired_by_none. intros id st Hid. apply N.eqb_neq. intros Hv.
      assert (id ∈ default ∅ (q !! until)) as Hx.
      { apply (queued_in _ _ Hqd). by exists st. }
      apply Hin in Hx. set_solver.
  - apply NoDup_cons in Hnd as [Hni Hnd].
    pose proof (rf_queue _ _ Hs) as Hqd. cbn in Hqd.
    destruct (proj1 (queued_in _ _ Hqd until id)) as (p & Hp & Hv).
    { apply Hin. left. }
    pose proof (refines_domain _ _ id Hs Hok) as Hdom.
    change (cs_domain (with_expirations _ s) id) with (cs_domain s id) in Hdom.
    cbn [fold_left]. unfold gc_id at 2. rewrite Hdom, Hp.
    destruct (N.ltb_spec now (ds_valid_until p)); [lia|].
    set (r1 := r_with_grace (<[id := (ds_valid_until p, ds_owner p)]> (r_grace r))
      (r_with_domains (delete id (r_domains r)) r)).
    assert (registry_ok r1) as Hok1
      by (eapply jstep_ok; [by apply js_expire|done]).
    pose proof (collision_free_delete r id Hc) as Hc1.
    set (s1 := with_grace <[id := (ds_valid_until p, ds_owner p)]>
      (owner_release (ds_owner p) (with_domain_count (λ n, n - 1)
        (smt_remove_domain id p (remove_domain_entry id s))))).
    edestruct (IH (queue_remove until id q) s1 r1 (j ++ [UndoExpireDomain id p]) (ex ++ [id])) as (s' & es & r' & E & Hjs & Hs' & Heb);
      [exact Hnd|exact Hok1| | | | |].
    + eapply collision_free_maps; [..|exact Hc1]; done.
    + pose proof (refines_grace <[id := (ds_valid_until p, ds_owner p)]> _ _
        (refines_del_domain _ _ id p Hs Hp Hc)) as Hr. rewrite <- Hv.
      exact Hr.
    + cbn. rewrite queue_remove_delete. exact Hq.
    + intros k. rewrite queue_remove_in, <- Hin, elem_of_cons. split.
      * intros Hk. split; [by right|]. intros [_ ->]. done.
      * intros [[->|Hk] Hne]; [by destruct Hne|done].
    + exists s', (UndoExpireDomain id p :: es), r'. split_and!.
      * rewrite <- !app_assoc in E. exact E.
      * econstructor; [done|by apply js_expire|done].
      * done.
      * eapply expired_by_trans; [by apply expired_by_one|exact Heb|].
        intros k st Hk. cbn. case_bool_decide as Ek; [|done]. subst k.
        rewrite Hp in Hk. simplify_eq. by rewrite N.eqb_refl.
Qed.

Lemma gc_slot_spec now until s r j ex :
  until ≤ now → registry_ok r → collision_free r → refines s r →
  ∃ ids s' es r', gc_slot now ((s, j), ex) until = ((s', j ++ es), ex ++ ids) ∧
    jsteps r es r' ∧ refines s' r' ∧
    expired_by (λ _ st, ds_valid_until st =? until) r r' ∧
    NoDup ids ∧ (∀ id, id ∈ ids ↔ ∃ st, r_domains r !! id = Some st ∧ ds_valid_until st = until).
Proof.
  intros Hu Hok Hc Hs. unfold gc_slot.
  set (X := default ∅ (cs_expirations s !! until)).
  set (ids := merge_sort arr_le (elements X)).
  assert (∀ id, id ∈ ids ↔ id ∈ X) as Hin.
  { intros id. unfold ids. by rewrite (merge_sort_Permutation arr_le), elem_of_elements. }
  assert (NoDup ids) as Hnd.
  { unfold ids. rewrite (merge_sort_Permutation arr_le). apply NoDup_elements. }
  edestruct (gc_ids_spec now until Hu ids (cs_expirations s)
    (with_expirations (delete until) s) r j ex) as (s' & es & r' & E & Hj & Hs' & Heb);
    [done..| | |exact Hin|].
  - destruct s; exact Hs.
  - done.
  - exists ids, s', es, r'. split_and!; try done. intros id. rewrite Hin.
    apply (queued_in _ _ (rf_queue _ _ Hs)).
Qed.

Lemma gc_slots_spec now us : Forall (λ u, u ≤ now) us → NoDup us → ∀ s r j ex,
  registry_ok r → collision_free r → refines s r →
  ∃ ids s' es r', fold_left (gc_slot now) us ((s, j), ex) = ((s', j ++ es), ex ++ ids) ∧
    jsteps r es r' ∧ refines s' r' ∧
    expired_by (λ _ st, bool_decide (ds_valid_until st ∈ us)) r r' ∧
    NoDup ids ∧ (∀ id, id ∈ ids ↔ ∃ st, r_domains r !! id = Some st ∧ ds_valid_until st ∈ us).
Proof.
  induction us as [|u us IH]; intros Hus Hnd s r j ex Hok Hc Hs.
  - exists [], s, [], r. rewrite !app_nil_r. split_and!; try done.
    + by constructor.
    + apply expired_by_none. intros. apply bool_decide_eq_false. apply not_elem_of_nil.
    + apply NoDup_nil_2.
    + intros id. split; [by intros ?%not_elem_of_nil|]. by intros (? & _ & ?%not_elem_of_nil).
  - apply Forall_cons in Hus as [Hu Hus]. apply NoDup_cons in Hnd as [Hni Hnd].
    destruct (gc_slot_spec now u s r j ex Hu Hok Hc Hs)
      as (ids & s1 & es & r1 & E & Hj & Hs1 & Heb & Hndi & Hids).
    destruct (jsteps_collision_free _ _ _ Hj) as [_ Hc1].
    destruct (IH Hus Hnd s1 r1 (j ++ es) (ex ++ ids) (jsteps_ok _ _ _ Hj Hok) Hc1 Hs1)
      as (ids' & s' & es' & r' & E' & Hj' & Hs' & Heb' & Hndi' & Hids').
    assert (∀ id, id ∈ ids' ↔ ∃ st, r_domains r !! id = Some st ∧ ds_valid_until st ∈ us) as Hids''.
    { intros id. rewrite Hids'. rewrite (eb_domains _ _ _ Heb). split.
      - intros (st & Est & Hin). destruct (r_domains r !! id) as [st'|]; [|done].
        destruct (_ =? _); [done|]. simplify_eq. by exists st.
      - intros (st & Est & Hin). exists st. rewrite Est. split; [|done].
        destruct (N.eqb_spec (ds_valid_until st) u) as [Eu|]; [|done]. by rewrite Eu in Hin. }
    exists (ids ++ ids'), s', (es ++ es'), r'. split_and!.
    + cbn [fold_left]. rewrite E. etrans; [exact E'|]. by rewrite !app_assoc.
    + by eapply jsteps_app.
    + done.
    + eapply expired_by_trans; [exact Heb|exact Heb'|]. intros id st _. cbn.
      destruct (N.eqb_spec (ds_valid_until st) u) as [Eu|Eu]; cbn.
      * apply bool_decide_eq_true. rewrite Eu. left.
      * apply bool_decide_ext. rewrite elem_of_cons. tauto.
    + apply NoDup_app. split_and!; [done| |done]. intros id (st & Est & Ev)%Hids.
      rewrite Hids''. intros (st' & Est' & Hin). congruence.
    + intros id. rewrite elem_of_app, Hids, Hids''. split.
      * intros [(st & ? & <-)|(st & ? & ?)]; exists st; split; (done || by left || by right).
      * intros (st & ? & [?|?]%elem_of_cons); [left|right]; by exists st.
Qed.

Lemma due_slots_elem now s r u :
  refines s r → u ∈ due_slots now s ↔
    u ≤ now ∧ ∃ (id : hash) st, r_domains r !! id = Some st ∧ ds_valid_until st = u.
Proof.
  intros Hs. unfold due_slots.
  rewrite (merge_sort_Permutation N.le), list_elem_of_filter, elem_of_elements, elem_of_dom.
  pose proof (rf_queue _ _ Hs) as Hq. split.
  - intros [Hu [X HX]]. split; [done|]. destruct (set_choose_or_empty X) as [[id Hid]|HE].
    + exists id. apply (queued_in _ _ Hq). by rewrite HX.
    + destruct (queued_nonempty _ _ Hq u). rewrite HX. f_equal. by apply leibniz_equiv.
  - intros [Hu (id & Hid)]. split; [done|]. apply (queued_in _ _ Hq) in Hid.
    destruct (cs_expirations s !! u); [by eexists|]. by apply elem_of_empty in Hid.
Qed.

Lemma registry_gc_expired now r :
  expired_by (λ _ st, ds_valid_until st <=? now) r (registry_gc now r).
Proof.
  split; try done; intros id; cbn.
  - rewrite map_lookup_filter. destruct (r_domains r !! id) as [st|]; cbn; [|done].
    destruct (N.leb_spec (ds_valid_until st) now); [by rewrite option_guard_False by (cbn; lia)|].
    by rewrite option_guard_True by (cbn; lia).
  - rewrite lookup_union, lookup_fmap. unfold lapsed. rewrite map_lookup_filter.
    destruct (r_domains r !! id) as [st|]; cbn; [|by rewrite left_id_L by apply _].
    destruct (N.leb_spec (ds_valid_until st) now).
    + rewrite option_guard_True by (cbn; lia). cbn. by destruct (r_grace r !! id).
    + rewrite option_guard_False by (cbn; lia). cbn. by rewrite left_id_L by apply _.
Qed.

(** The collector implements [registry_gc]. *)
Lemma gc_refines now s r j :
  registry_ok r → collision_free r → refines s r →
  ∃ s' es ids, gc_expired_journaled now s j = ((s', j ++ es), ids) ∧
    jsteps r es (registry_gc now r) ∧ refines s' (registry_gc now r) ∧
    NoDup ids ∧ (∀ id, id ∈ ids ↔ is_Some (lapsed now r !! id)).
Proof.
  intros Hok Hc Hs. unfold gc_expired_journaled.
  pose proof (λ u, due_slots_elem now s r u Hs) as Hdue.
  destruct (gc_slots_spec now (due_slots now s)) with (s := s) (r := r) (j := j) (ex := @nil hash)
    as (ids & s' & es & r' & E & Hj & Hs' & Heb & Hnd & Hids); try done.
  - apply Forall_forall. intros u Hu. by apply Hdue.
  - unfold due_slots. rewrite (merge_sort_Permutation N.le).
    apply NoDup_filter, NoDup_elements.
  - assert (∀ (id : hash) st, r_domains r !! id = Some st →
      ds_valid_until st ∈ due_slots now s ↔ ds_valid_until st ≤ now) as Hiff.
    { intros id st Hid. rewrite Hdue. split; [by intros []|]. intros ?. split; [done|]. eauto. }
    assert (r' = registry_gc now r) as ->.
    { eapply expired_by_unique; [|apply registry_gc_expired].
      eapply expired_by_trans; [exact Heb|apply (expired_by_none (λ _ _, false)); done|].
      intros id st Hid. cbn. rewrite orb_false_r.
      destruct (N.leb_spec (ds_valid_until st) now); symmetry;
        [apply bool_decide_eq_true|apply bool_decide_eq_false]; rewrite (Hiff id st Hid); lia. }
    exists s', es, ids. split_and!; try done. intros id. rewrite Hids. unfold lapsed. split.
    + intros (st & Hid & Hin%(Hiff id st Hid)). exists st. by apply map_lookup_filter_Some.
    + intros [st [Hid Hv]%map_lookup_filter_Some]. exists st. split; [done|]. by apply (Hiff id st Hid).
Qed.
End proofs.
