(* ===== verification/StateProps.v ===== *)
(** * Properties of the chain state

    The theorems about [State] (refinement of the registry, exact
    rollback, expiry, restore, commitment, slashing), each with a
    concrete run under the toy primitives of [Crypto]. *)

From S2P Require Import Prelude Bytes Crypto Commitment Smt SmtProofs Names Icann Checkpoint Pow Tx Wire.
From S2P Require Import State StateSpec StateProofs.

(** ** Checking collision freedom of a concrete registry *)

Section check.
Context `{Crypto}.

Definition collision_freeb (r : Registry) : bool :=
  forallb (λ kv, bool_decide (r_tlds r !! kv.1 = None)) (map_to_list (r_domains r)) &&
  bool_decide (NoDup (map_to_list (r_leaves r)).*2).

Lemma collision_freeb_sound r : collision_freeb r = true → collision_free r.
Proof.
  unfold collision_freeb. rewrite andb_true_iff, forallb_forall, bool_decide_eq_true.
  intros [Hd Hn]. split.
  - intros id [st Hid]. apply elem_of_map_to_list, list_elem_of_In in Hid.
    apply Hd in Hid. by apply bool_decide_eq_true in Hid.
  - intros id id' l Hid%elem_of_map_to_list Hid'%elem_of_map_to_list.
    apply list_elem_of_lookup in Hid as [i Hi]. apply list_elem_of_lookup in Hid' as [i' Hi'].
    assert (i = i') as <-.
    { eapply NoDup_lookup; [exact Hn|..]; rewrite list_lookup_fmap, ?Hi, ?Hi'; done. }
    congruence.
Qed.

Definition empty_registry (net : NetworkParams) : Registry := mkRegistry net ∅ ∅ ∅ ∅ ∅.

Lemma for_network_refines net : refines (for_network net) (empty_registry net).
Proof.
  split; cbn [for_network empty_registry cs_network cs_backend cs_domain_count cs_tld_count
    cs_owner_keys cs_owner_refcounts cs_expirations cs_grace cs_smt cs_banned
    r_network r_domains r_tlds r_keys r_grace r_banned].
  1,5,8,10: reflexivity.
  - apply map_eq. intros id. by rewrite entries_lookup, !lookup_empty.
  - by rewrite map_size_empty.
  - by rewrite map_size_empty.
  - intros o. unfold holdings. by rewrite !owned_empty.
  - split.
    + intros u id. rewrite !lookup_empty. split; [by intros ?%elem_of_empty|].
      intros (st & Hst & _). discriminate Hst.
    + intros u. by rewrite lookup_empty.
  - split; [apply sc_wf_empty|]. intros k l. split.
    + intros Hk. by apply (sc_has_empty (SetCommitment := smt_commitment)) in Hk.
    + intros (id & Hid & _). unfold r_leaves in Hid. rewrite both_lookup in Hid.
      cbn [empty_registry r_domains r_tlds] in Hid. by rewrite !lookup_empty in Hid.
Qed.

Lemma empty_registry_ok net : registry_ok (empty_registry net).
Proof. split; cbn; [apply map_Forall_empty| |apply map_Forall_empty]. done. Qed.
End check.

Section props.
Context `{Crypto}.

(** Keys bound to their owners: distinct owners have distinct keys. *)
Lemma NoDup_omap_owner (m : gmap OwnerId PublicKey) (l : list hash) :
  map_Forall (λ (o : hash) pk, o = owner_of pk) m → NoDup l → NoDup (omap (λ o, m !! o) l).
Proof.
  intros Hm. induction 1 as [|o l Ho Hl IH]; [apply NoDup_nil_2|]. cbn.
  destruct (m !! o) as [pk|] eqn:E; [|exact IH]. apply NoDup_cons. split; [|exact IH].
  intros (o' & Ho' & E')%list_elem_of_omap. apply Ho.
  by rewrite (Hm _ _ E), <- (Hm _ _ E').
Qed.

(** C2. Functional refinement of the transaction rules: from a state
    that represents a registry, applying a transaction at block time
    [now] gives the outcome of the registry's rule — the same result
    or error — in a state that represents the rule's registry (all
    derived structures included), which keeps its invariant.  The only
    assumption on BLAKE3 is that no two live identifiers or leaves
    collide before and after the transaction. *)
Theorem apply_refines_registry s r tx now j :
  refines s r → registry_ok r → collision_free r → now < U64 →
  collision_free (registry_apply r tx now).1 →
  let '((s', _), res) := apply_journaled_at tx now (s, j) in
  let '(r', res') := registry_apply r tx now in
  res = res' ∧ refines s' r' ∧ registry_ok r'.
Proof.
  intros Hs Hok Hc Hn Hc'.
  destruct (implements_apply s j r tx now Hs Hok Hc Hn Hc') as (Hres & es & _ & Hj & Hs').
  destruct (apply_journaled_at tx now (s, j)) as [[s' j'] res].
  destruct (registry_apply r tx now) as [r' res']. split_and!; [done..|].
  by eapply jsteps_ok.
Qed.

(** C4. Exact rollback: whatever a transaction did before it returned,
    accepted or rejected, undoing what it appended to the journal
    restores the state it started from — entries, counters, queue,
    reference counts, grace windows, keys, bans and the physical
    tree. *)
Theorem rollback_apply_exact s r tx now j :
  refines s r → registry_ok r → collision_free r → now < U64 →
  collision_free (registry_apply r tx now).1 →
  let '((s', j'), _) := apply_journaled_at tx now (s, j) in
  ∃ es, j' = j ++ es ∧ rollback s' es ≡ s.
Proof.
  intros Hs Hok Hc Hn Hc'.
  destruct (implements_apply s j r tx now Hs Hok Hc Hn Hc') as (_ & es & Hj' & Hj & Hs').
  destruct (apply_journaled_at tx now (s, j)) as [[s' j'] res]. exists es. split; [done|].
  eapply refines_unique; [|exact Hs]. by eapply rollback_refines.
Qed.

(** C14. Expiry: the collector, driven by the queue alone, removes
    exactly the domains whose term is over at [now], each once, opens
    their grace windows, and its journal undoes it exactly. *)
Theorem gc_refines_registry s r now j :
  refines s r → registry_ok r → collision_free r →
  ∃ s' es ids, gc_expired_journaled now s j = ((s', j ++ es), ids) ∧
    refines s' (registry_gc now r) ∧ registry_ok (registry_gc now r) ∧
    NoDup ids ∧ (∀ id, id ∈ ids ↔ ∃ st, r_domains r !! id = Some st ∧ ds_valid_until st ≤ now) ∧
    rollback s' es ≡ s.
Proof.
  intros Hs Hok Hc.
  destruct (gc_refines now s r j Hok Hc Hs) as (s' & es & ids & E & Hj & Hs' & Hnd & Hids).
  exists s', es, ids. split_and!; try done.
  - by eapply jsteps_ok.
  - intros id. rewrite Hids. unfold lapsed. split.
    + intros [st [? ?]%map_lookup_filter_Some]. by exists st.
    + intros (st & ? & ?). exists st. by apply map_lookup_filter_Some.
  - eapply refines_unique; [|exact Hs]. by eapply rollback_refines.
Qed.

(** [ChainState::apply] is atomic: a rejected transaction leaves
    the state as it was. *)
Theorem apply_rejected_unchanged s r tx e s' :
  refines s r → registry_ok r → collision_free r → collision_free (registry_apply r tx 0).1 →
  apply tx s = (s', Err e) → s' ≡ s.
Proof.
  intros Hs Hok Hc Hc' E. unfold apply in E.
  destruct (implements_apply s UndoLog_default r tx 0 Hs Hok Hc) as (_ & es & Hj' & Hj & Hs');
    [done..|].
  destruct (apply_journaled_at tx 0 (s, UndoLog_default)) as [[s1 j1] res].
  cbn in Hj', Hs'. subst j1. destruct res as [[]|e']; [done|]. injection E as <- _.
  eapply refines_unique; [|exact Hs]. by eapply rollback_refines.
Qed.

(** The state root commits to the registry alone: two states that
    represent the same registry, by whatever history, have the same
    tree and the same root. *)
Theorem state_root_history_independent s t r :
  refines s r → refines t r → s ≡ t ∧ state_root_smt s = state_root_smt t.
Proof.
  intros Hs Ht. pose proof (refines_unique _ _ _ Hs Ht) as Heq. split; [done|].
  unfold state_root_smt. destruct Heq as (_&_&_&_&_&_&_&_&Ht'&_). by rewrite Ht'.
Qed.

(** The validator pool: sorted, without duplicates, exactly the
    known unbanned keys of the owners of at least one live domain or
    TLD — computed from the bounded indexes, not from the entries. *)
Theorem eligible_validators_spec s r :
  refines s r → registry_ok r →
  Sorted arr_le (eligible_validators s) ∧ NoDup (eligible_validators s) ∧
  ∀ k, k ∈ eligible_validators s ↔ eligible r k.
Proof.
  intros Hs Hok. split_and!.
  - apply Sorted_merge_sort, _.
  - unfold eligible_validators. rewrite (merge_sort_Permutation arr_le).
    apply NoDup_filter. apply (NoDup_omap_owner (cs_owner_keys s)); [|apply NoDup_elements].
    rewrite (rf_keys _ _ Hs). apply (ok_keys _ Hok).
  - intros k. by apply eligible_validators_elem.
Qed.

(** ** Who may change what *)

Lemma on_domain_Ok r (id o : hash) f r' :
  on_domain r id o f = (r', Ok tt) →
  ∃ st, r_domains r !! id = Some st ∧ ds_owner st = o ∧ f st = (r', Ok tt).
Proof.
  unfold on_domain. destruct (r_domains r !! id) as [st|]; [|done]. case_decide; [|done]. eauto.
Qed.

Lemma on_tld_Ok r (id o : hash) f r' :
  on_tld r id o f = (r', Ok tt) →
  ∃ st, r_tlds r !! id = Some st ∧ ts_owner st = o ∧ f st = (r', Ok tt).
Proof.
  unfold on_tld. destruct (r_tlds r !! id) as [st|]; [|done]. case_decide; [|done]. eauto.
Qed.

Lemma with_pow_Ok r challenge proof diff o r' :
  with_pow r challenge proof diff o = (r', Ok tt) → o = (r', Ok tt).
Proof. unfold with_pow. by destruct (pow_verify _ _ _ _). Qed.

(** What an accepted transaction does to the domains: nothing; a fresh
    one is created; or the owner who signed it rewrites one. *)
Inductive domain_change (r r' : Registry) (tx : Transaction) (now : N) : Prop :=
| dc_none : r_domains r' = r_domains r → domain_change r r' tx now
| dc_create (id : hash) owner :
    r_domains r !! id = None → domain_free r id now owner = true →
    r_domains r' =
      <[id := mkDomainState owner 0 None now (add64 now DOMAIN_TERM_SECS)]> (r_domains r) →
    domain_change r r' tx now
| dc_owner (id : hash) st st' :
    r_domains r !! id = Some st → ds_owner st = tx_owner tx →
    (ds_valid_until st' = ds_valid_until st ∨
     ds_valid_until st < ds_valid_until st' ≤ sat_add64 now DOMAIN_MAX_HORIZON_SECS) →
    (ds_sequence st' = ds_sequence st ∨ ds_sequence st' = ds_sequence st + 1) →
    ds_registered_at st' = ds_registered_at st →
    (ds_owner st' = ds_owner st ∨ ∃ t, tx = TxTransferDomain t ∧ ds_owner st' = td_new_owner t) →
    r_domains r' = <[id := st']> (r_domains r) → domain_change r r' tx now.

Lemma registry_apply_domains r tx now r' :
  registry_apply r tx now = (r', Ok tt) → domain_change r r' tx now.
Proof.
  unfold registry_apply. destruct (tx_validate tx) as [[]|]; [|done]. case_decide; [|done].
  destruct tx as [t|t|t|t|t|t|t|t|t|t].
  - unfold register_domain_rule. destruct (r_tlds r !! _) as [tld|]; [|done].
    destruct (negb (ts_open tld)); [done|]. destruct (domain_free _ _ _ _) eqn:Ef; [|done].
    intros E%with_pow_Ok. injection E as <-.
    destruct (learned_maps (rd_owner t) (rd_public_key t) r) as (ED & _).
    eapply dc_create; [by eapply domain_free_None|done|]. cbn. by rewrite ED.
  - intros (st & Hst & Ho & E)%on_domain_Ok. cbn in E. case_decide; [done|].
    case_decide; [|done]. injection E as <-.
    destruct (learned_maps (ud_owner t) (ud_public_key t) r) as (ED & _).
    apply (dc_owner _ _ _ _ (ud_domain_id t) st (mkDomainState (ds_owner st) (ds_sequence st + 1)
      (norm_hash (Some (ud_record_hash t))) (ds_registered_at st) (ds_valid_until st)));
      [done|done|by left|by right|done|by left|]. cbn [set_domain r_with_domains r_domains]. by rewrite ED.
  - unfold register_tld_rule. destruct (r_tlds r !! _); [done|]. case_decide; [done|].
    intros E%with_pow_Ok. injection E as <-. apply dc_none. cbn. apply learned_maps.
  - intros (st & _ & _ & E)%on_tld_Ok. injection E as <-. by apply dc_none.
  - intros (st & _ & _ & E)%on_tld_Ok. injection E as <-. by apply dc_none.
  - intros (st & _ & _ & E)%on_tld_Ok. injection E as <-. by apply dc_none.
  - intros (st & _ & _ & E)%on_tld_Ok. destruct (domain_free _ _ _ _) eqn:Ef; [|done].
    injection E as <-. by eapply dc_create; [by eapply domain_free_None|..].
  - intros (st & Hst & Ho & E)%on_domain_Ok. cbn in E. case_decide; [done|].
    case_decide; [done|]. injection E as <-.
    apply (dc_owner _ _ _ _ (rn_domain_id t) st (mkDomainState (ds_owner st) (ds_sequence st)
      (ds_record_hash st) (ds_registered_at st) (rn_valid_until t)));
      [done|done| |by left|done|by left|done]. right. cbn [ds_valid_until]. lia.
  - intros (st & Hst & Ho & E)%on_domain_Ok. injection E as <-.
    by apply (dc_owner _ _ _ _ (td_domain_id t) st (mkDomainState (td_new_owner t) (ds_sequence st)
      (ds_record_hash st) (ds_registered_at st) (ds_valid_until st)));
      [done|done|left|left| |right; exists t|..].
  - unfold slash_rule. case_decide; [|done]. intros E. injection E as <-. by apply dc_none.
Qed.

Lemma rejected_maps r tx now r' e :
  registry_apply r tx now = (r', Err e) → r_domains r' = r_domains r ∧ r_tlds r' = r_tlds r.
Proof.
  assert (∀ ch p d o, (o = (r', Err e) → r_domains r' = r_domains r ∧ r_tlds r' = r_tlds r) →
    with_pow r ch p d o = (r', Err e) → r_domains r' = r_domains r ∧ r_tlds r' = r_tlds r) as Hpow.
  { intros ch p d o Ho. unfold with_pow. destruct (pow_verify _ _ _ _); [done|].
    by intros [= <- _]. }
  assert (∀ (id o : hash) f, (∀ st, f st = (r', Err e) → r_domains r' = r_domains r ∧ r_tlds r' = r_tlds r) →
    on_domain r id o f = (r', Err e) → r_domains r' = r_domains r ∧ r_tlds r' = r_tlds r) as Hdom.
  { intros id o f Hf. unfold on_domain. destruct (r_domains r !! id); [|by intros [= <- _]].
    case_decide; [by apply Hf|by intros [= <- _]]. }
  assert (∀ (id o : hash) f, (∀ st, f st = (r', Err e) → r_domains r' = r_domains r ∧ r_tlds r' = r_tlds r) →
    on_tld r id o f = (r', Err e) → r_domains r' = r_domains r ∧ r_tlds r' = r_tlds r) as Htld.
  { intros id o f Hf. unfold on_tld. destruct (r_tlds r !! id); [|by intros [= <- _]].
    case_decide; [by apply Hf|by intros [= <- _]]. }
  unfold registry_apply. destruct (tx_validate tx) as [[]|]; [|by intros [= <- _]].
  case_decide; [|by intros [= <- _]]. destruct tx as [t|t|t|t|t|t|t|t|t|t].
  - unfold register_domain_rule. destruct (r_tlds r !! _) as [tld|]; [|by intros [= <- _]].
    destruct (negb (ts_open tld)); [by intros [= <- _]|].
    destruct (domain_free _ _ _ _); [|by intros [= <- _]]. by apply Hpow.
  - apply Hdom. intros st. cbn. destruct (learned_maps (ud_owner t) (ud_public_key t) r) as (ED & ET & _).
    case_decide; [by intros [= <- _]|]. case_decide; [done|by intros [= <- _]].
  - unfold register_tld_rule. destruct (r_tlds r !! _); [by intros [= <- _]|].
    case_decide; [by intros [= <- _]|]. by apply Hpow.
  - by apply Htld.
  - by apply Htld.
  - by apply Htld.
  - apply Htld. intros st. destruct (domain_free _ _ _ _); [done|by intros [= <- _]].
  - apply Hdom. intros st. cbn. case_decide; [by intros [= <- _]|].
    case_decide; [by intros [= <- _]|done].
  - by apply Hdom.
  - unfold slash_rule. case_decide; [done|by intros [= <- _]].
Qed.

(** What a transaction that is taken shows: the owner it names is that of
    its key, under which its signature verifies over its own payload. *)
Definition signed_by (owner : OwnerId) (tx : Transaction) : Prop :=
  owner = owner_from_public_key (tx_public_key tx) ∧
  ∃ payload, signing_payload tx = Ok payload ∧ pk_verify (tx_public_key tx) payload (tx_signature tx) = true.

Lemma validated_signed tx : validate_transaction tx = Ok tt → signed_by (tx_owner tx) tx.
Proof.
  unfold validate_transaction. destruct (arr_eqb _ _) eqn:Eo; [|done]. apply bool_decide_eq_true in Eo. cbn [negb].
  destruct (tx_validate tx) as [[]|]; [|done]. cbn [map_err rbind].
  destruct (signing_payload tx) as [payload|] eqn:Ep; [|done]. cbn [map_err rbind].
  destruct (pk_verify _ _ _) eqn:Ev; [|done]. intros _. split; [done|]. by exists payload.
Qed.

(** C22. Property rights.  A transaction that passes
    [validate_transaction], as every one of a block does before it is
    applied, leaves a live domain as it is, or rewrites it under the
    signature of its current owner: the owner is that of the
    transaction's public key, and the signature verifies under that key
    over the transaction's payload.  The rewriting does not shorten the
    domain's term nor push it past three years from now, keeps its
    sequence number or raises it by one, and gives it another owner only
    by a transfer.  No transaction removes it. *)
Theorem only_owner_changes_domain s r tx now j (id : hash) st :
  refines s r → registry_ok r → collision_free r → now < U64 →
  collision_free (registry_apply r tx now).1 →
  validate_transaction tx = Ok tt → cs_domain s id = Some st →
  let s' := (apply_journaled_at tx now (s, j)).1.1 in
  cs_domain s' id = Some st ∨
  ∃ st', cs_domain s' id = Some st' ∧ signed_by (ds_owner st) tx ∧
    (ds_valid_until st' = ds_valid_until st ∨
     ds_valid_until st < ds_valid_until st' ≤ sat_add64 now DOMAIN_MAX_HORIZON_SECS) ∧
    (ds_sequence st' = ds_sequence st ∨ ds_sequence st' = ds_sequence st + 1) ∧
    ds_registered_at st' = ds_registered_at st ∧
    (ds_owner st' = ds_owner st ∨ ∃ t, tx = TxTransferDomain t ∧ ds_owner st' = td_new_owner t).
Proof.
  intros Hs Hok Hc Hn Hc' Hsig%validated_signed Hd. rewrite (refines_domain _ _ _ Hs Hok) in Hd.
  destruct (implements_apply s j r tx now Hs Hok Hc Hn Hc') as (_ & es & _ & Hj & Hs').
  intros s'. fold s' in Hs'. rewrite (refines_domain _ _ id Hs') by by eapply jsteps_ok.
  clear Hj Hs'. destruct (registry_apply r tx now) as [r' [[]|e]] eqn:E; cbn [fst].
  - apply registry_apply_domains in E as [E|id' o Hf _ E|id' x x' Hx Ho Hv Hq Hr Hw E]; rewrite E.
    + by left.
    + rewrite lookup_insert_ne by congruence. by left.
    + rewrite lookup_insert. case_decide as Ei; [|by left]. subst id'.
      rewrite Hd in Hx. simplify_eq. right. exists x'. split_and!; [done|by rewrite Ho|done..].
  - apply rejected_maps in E as [-> _]. by left.
Qed.

(** Grace windows hold: while the window of a lapsed domain is
    open, the only owner it can come back to is the one who lost it,
    whatever transaction is applied. *)
Theorem grace_window_protects s r tx now j (id : hash) until owner st :
  refines s r → registry_ok r → collision_free r → now < U64 →
  collision_free (registry_apply r tx now).1 →
  cs_grace s !! id = Some (until, owner) → now < sat_add64 until DOMAIN_GRACE_SECS →
  cs_domain (apply_journaled_at tx now (s, j)).1.1 id = Some st → ds_owner st = owner.
Proof.
  intros Hs Hok Hc Hn Hc' Hg Hw. rewrite (rf_grace _ _ Hs) in Hg.
  assert (r_domains r !! id = None) as Hd by (apply (ok_grace _ Hok); by rewrite Hg).
  destruct (implements_apply s j r tx now Hs Hok Hc Hn Hc') as (_ & es & _ & Hj & Hs').
  rewrite (refines_domain _ _ id Hs') by by eapply jsteps_ok.
  clear Hj Hs'. destruct (registry_apply r tx now) as [r' [[]|e]] eqn:E; cbn [fst].
  - apply registry_apply_domains in E as [E|id' o Hf Hfree E|id' x x' Hx Ho Hv Hq Hr Hown E]; rewrite E.
    + by rewrite Hd.
    + rewrite lookup_insert. case_decide as Ei; [subst id'|by rewrite Hd]. intros [= <-]. cbn.
      unfold domain_free in Hfree. rewrite Hg in Hfree.
      apply andb_true_iff in Hfree as [_ [Hl|Hl]%orb_true_iff].
      * apply N.leb_le in Hl. lia.
      * by apply bool_decide_eq_true in Hl.
    + rewrite lookup_insert. case_decide as Ei; [|by rewrite Hd]. congruence.
  - apply rejected_maps in E as [-> _]. by rewrite Hd.
Qed.

(** ** Slashing *)

Lemma registry_apply_banned r tx now : r_banned r ⊆ r_banned (registry_apply r tx now).1.
Proof.
  assert (∀ o pk r, r_banned (learned o pk r) = r_banned r) as Hl.
  { intros o pk r0. unfold learned. by destruct (_ !! _). }
  unfold registry_apply. destruct (tx_validate tx) as [[]|]; [|done]. case_decide; [|done].
  destruct tx as [t|t|t|t|t|t|t|t|t|t];
    unfold register_domain_rule, update_domain_rule, register_tld_rule, assign_domain_rule,
      renew_domain_rule, slash_rule, on_tld, on_domain, with_pow;
    repeat (case_match || case_decide); cbn; rewrite ?Hl; set_solver.
Qed.

(** A ban is for life: no transaction lifts one. *)
Theorem ban_is_permanent s r tx now j k :
  refines s r → registry_ok r → collision_free r → now < U64 →
  collision_free (registry_apply r tx now).1 →
  k ∈ cs_banned s →
  let s' := (apply_journaled_at tx now (s, j)).1.1 in
  k ∈ cs_banned s' ∧ k ∉ eligible_validators s'.
Proof.
  intros Hs Hok Hc Hn Hc' Hk s'.
  destruct (implements_apply s j r tx now Hs Hok Hc Hn Hc') as (_ & es & _ & Hj & Hs').
  fold s' in Hs'. rewrite (rf_banned _ _ Hs) in Hk.
  assert (k ∈ r_banned (registry_apply r tx now).1) as Hk' by by apply registry_apply_banned.
  split; [by rewrite (rf_banned _ _ Hs')|].
  rewrite (eligible_validators_elem _ _ _ Hs') by by eapply jsteps_ok.
  by intros (_ & _ & Hnb).
Qed.

(** A key is slashed at most once: evidence against an already
    banned key is rejected as naming an offender outside the pool
    (the pool excludes the banned), so the idempotent branch that the
    handler's comment describes is never taken. *)
Theorem slash_banned_rejected s t now j :
  SlashTx_validate t = Ok tt → sl_network t = np_network_id (cs_network s) →
  sl_offender t ∈ cs_banned s →
  apply_journaled_at (TxSlash t) now (s, j) = ((s, j), Err SlashOffenderNotInPool).
Proof.
  intros Hv Hn Hb. unfold apply_journaled_at, core. cbn [tx_validate tx_network].
  rewrite Hv. unfold mbind_ at 1, lift. cbn [map_err]. unfold mbind_ at 1, reads. cbn [fst].
  rewrite Hn, bool_decide_false by tauto. unfold mbind_ at 1. cbn.
  unfold mbind_ at 1. cbn. rewrite bool_decide_true; [done|].
  unfold eligible_validators. rewrite (merge_sort_Permutation arr_le), list_elem_of_filter.
  by intros [? _].
Qed.

(** A rejected [UpdateDomain] is not free of effects: when the
    owner's key is unknown and the sequence is wrong, the handler has
    already learned and journaled the key before it returns the
    error (the caller's rollback is what removes it). *)
Theorem update_rejected_learns_key s t now j st :
  UpdateDomain_validate t = Ok tt → ud_network t = np_network_id (cs_network s) →
  cs_domain s (ud_domain_id t) = Some st → ds_owner st = ud_owner t →
  cs_owner_keys s !! ud_owner t = None → ds_sequence st < U64_MAX →
  ud_sequence t ≠ ds_sequence st + 1 →
  apply_journaled_at (TxUpdateDomain t) now (s, j) =
    ((with_owner_keys <[ud_owner t := ud_public_key t]> s, j ++ [LearnOwnerKey (ud_owner t)]),
     Err (ErrInvalidSequence (ds_sequence st + 1) (ud_sequence t))).
Proof.
  intros Hv Hn Hd Ho Hk Hq Hne. unfold apply_journaled_at, core. cbn [tx_validate tx_network].
  rewrite Hv. unfold mbind_ at 1, lift. cbn [map_err]. unfold mbind_ at 1, reads. cbn [fst].
  rewrite Hn, bool_decide_false by tauto. unfold mbind_ at 1. cbn [reject_if mret_].
  unfold apply_update_domain, mbind_ at 1, reads. cbn [fst]. rewrite Hd.
  unfold mbind_ at 1, some_or, lift. cbn [ok_or].
  rewrite Ho. unfold arr_eqb. rewrite bool_decide_true by done.
  unfold mbind_ at 1. cbn [reject_if mret_ negb].
  unfold mbind_ at 1, learn_owner_key, reads. unfold mbind_ at 1. cbn [fst snd]. rewrite Hk.
  unfold mbind_ at 1, updates, journals. cbn [fst snd].
  unfold checked_add64. rewrite (proj2 (N.leb_le _ _)) by (unfold U64_MAX in *; lia).
  unfold mbind_ at 1. cbn [ok_or]. unfold mbind_ at 1.
  by rewrite (proj2 (N.eqb_neq _ _) Hne).
Qed.

(** ** Restart *)

(** The storage layer's load: every stored domain, then every stored
    TLD ([None] when one is refused as a duplicate). *)
Fixpoint restore_domains (ds : list (hash * DomainState)) (s : ChainState) : option ChainState :=
  match ds with
  | [] => Some s
  | (id, st) :: ds =>
      match restore_domain id st s with
      | (s, Ok _) => restore_domains ds s
      | (_, Err _) => None
      end
  end.
Fixpoint restore_tlds (ts : list (hash * TldState)) (s : ChainState) : option ChainState :=
  match ts with
  | [] => Some s
  | (id, st) :: ts =>
      match restore_tld id st s with
      | (s, Ok _) => restore_tlds ts s
      | (_, Err _) => None
      end
  end.
Definition restore_all (net : NetworkParams) ds ts : option ChainState :=
  restore_domains ds (for_network net) ≫= restore_tlds ts.

Lemma restore_domain_refines s r (id : hash) st :
  refines s r → registry_ok r → r_domains r !! id = None → r_tlds r !! id = None →
  ∃ s', restore_domain id st s = (s', Ok tt) ∧ refines s' (set_domain r id st).
Proof.
  intros Hs Hok Hd Ht. exists (add_domain id st s). split; [|by apply refines_add_domain].
  unfold restore_domain. rewrite (refines_domain _ _ _ Hs Hok), Hd.
  by destruct (is_Some_dec None) as [[? ?]|].
Qed.

Lemma restore_tld_refines s r (id : hash) st :
  refines s r → collision_free r → r_tlds r !! id = None → r_domains r !! id = None →
  ∃ s', restore_tld id st s = (s', Ok tt) ∧ refines s' (set_tld r id st).
Proof.
  intros Hs Hc Ht Hd. exists (add_tld id st s). split; [|by apply refines_add_tld].
  unfold restore_tld. rewrite (refines_tld _ _ _ Hs Hc), Ht.
  by destruct (is_Some_dec None) as [[? ?]|].
Qed.

Lemma collision_free_sub r r' :
  collision_free r → r_domains r' ⊆ r_domains r → r_tlds r' ⊆ r_tlds r → collision_free r'.
Proof.
  intros [Hd Hl] HD HT. split.
  - intros id [st Hid]. destruct (r_tlds r' !! id) as [x|] eqn:E; [|done].
    eapply lookup_weaken in Hid; [|exact HD]. eapply lookup_weaken in E; [|exact HT].
    rewrite Hd in E; [done|by eexists].
  - assert (∀ (id l : hash), r_leaves r' !! id = Some l → r_leaves r !! id = Some l) as Hsub.
    { intros id l. unfold r_leaves. rewrite !both_lookup.
      destruct (r_domains r' !! id) as [st|] eqn:E.
      - eapply lookup_weaken in E; [|exact HD]. by rewrite E.
      - destruct (r_tlds r' !! id) as [x|] eqn:E'; [|done].
        eapply lookup_weaken in E'; [|exact HT].
        destruct (r_domains r !! id) eqn:E2; [|by rewrite E'].
        rewrite Hd in E'; [done|by rewrite E2]. }
    intros id id' l H1%Hsub H2%Hsub. by eapply Hl.
Qed.

Lemma restore_domains_refines ds net D s :
  map_Forall (λ (_ : hash), domain_ok) D →
  (∀ id st, (id, st) ∈ ds → domain_ok st ∧ D !! id = None) → NoDup ds.*1 →
  refines s (mkRegistry net D ∅ ∅ ∅ ∅) →
  ∃ s', restore_domains ds s = Some s' ∧
    refines s' (mkRegistry net (list_to_map ds ∪ D) ∅ ∅ ∅ ∅).
Proof.
  revert D s. induction ds as [|[id st] ds IH]; intros D s HD Hds Hnd Hs.
  - exists s. split; [done|]. cbn. by rewrite (left_id_L ∅ (∪)).
  - cbn in Hnd. apply NoDup_cons in Hnd as [Hni Hnd].
    destruct (Hds id st) as [Hst Hid]; [left|].
    destruct (restore_domain_refines s _ id st Hs) as (s1 & E & Hs1); try done.
    { split; [done| |apply map_Forall_empty]. intros k [? Hk]. cbn in Hk. by rewrite lookup_empty in Hk. }
    cbn [restore_domains]. rewrite E. destruct (IH (<[id := st]> D) s1) as (s' & E' & Hs'); try done.
    + by apply map_Forall_insert_2.
    + intros k x Hk. destruct (Hds k x) as [Hx Hk']; [by right|]. split; [done|].
      rewrite lookup_insert_ne; [done|]. intros <-. apply Hni.
      apply list_elem_of_fmap. by exists (id, x).
    + exists s'. split; [done|].
      assert (list_to_map (M := gmap hash DomainState) ((id, st) :: ds) ∪ D
        = list_to_map ds ∪ <[id := st]> D) as ->; [|exact Hs'].
      cbn. rewrite <- insert_union_l, insert_union_r; [done|].
      by apply not_elem_of_list_to_map_1.
Qed.

Lemma restore_tlds_refines ts r s :
  NoDup ts.*1 → refines s r →
  (∀ id, id ∈ ts.*1 → r_domains r !! id = None ∧ r_tlds r !! id = None) →
  collision_free (r_with_tlds (list_to_map ts ∪ r_tlds r) r) →
  ∃ s', restore_tlds ts s = Some s' ∧ refines s' (r_with_tlds (list_to_map ts ∪ r_tlds r) r).
Proof.
  revert r s. induction ts as [|[id st] ts IH]; intros r s Hnd Hs Hts Hc.
  - exists s. split; [done|]. cbn. rewrite (left_id_L ∅ (∪)). by destruct r.
  - cbn in Hnd. apply NoDup_cons in Hnd as [Hni Hnd].
    destruct (Hts id) as [Hd Ht]; [left|].
    assert (list_to_map (M := gmap hash TldState) ((id, st) :: ts) ∪ r_tlds r
      = list_to_map ts ∪ <[id := st]> (r_tlds r)) as Em.
    { cbn. rewrite <- insert_union_l, insert_union_r; [done|]. by apply not_elem_of_list_to_map_1. }
    destruct (restore_tld_refines s r id st Hs) as (s1 & E & Hs1); try done.
    { eapply collision_free_sub; [exact Hc|done|]. cbn [r_tlds r_with_tlds].
      apply map_subseteq_spec.
      intros k x Hk. rewrite lookup_union_r; [done|].
      apply not_elem_of_list_to_map_1. intros Hk'. destruct (Hts k Hk') as [_ Hn]. congruence. }
    cbn [restore_tlds]. rewrite E. destruct (IH (set_tld r id st) s1) as (s' & E' & Hs'); try done.
    + intros k Hk. destruct (Hts k) as [? ?]; [by right|]. split; [done|]. cbn.
      rewrite lookup_insert_ne; [done|]. by intros <-.
    + eapply collision_free_maps; [..|exact Hc]; [done|exact Em].
    + exists s'. split; [done|]. rewrite Em. exact Hs'.
Qed.

(** C16. Restart: restoring the entries of a live state, in any order,
    is accepted and rebuilds every structure derived from them — the
    counters, the expiration queue, the reference counts, the tree and
    so the state root — exactly as the live node holds them. *)
Theorem restore_rebuilds_state s r ds ts :
  refines s r → registry_ok r → collision_free r →
  ds ≡ₚ map_to_list (r_domains r) → ts ≡ₚ map_to_list (r_tlds r) →
  ∃ s', restore_all (cs_network s) ds ts = Some s' ∧
    cs_backend s' = cs_backend s ∧ cs_domain_count s' = cs_domain_count s ∧
    cs_tld_count s' = cs_tld_count s ∧ cs_expirations s' = cs_expirations s ∧
    cs_owner_refcounts s' = cs_owner_refcounts s ∧ cs_smt s' ≡ cs_smt s ∧
    state_root_smt s' = state_root_smt s.
Proof.
  intros Hs Hok Hc Hds Hts.
  assert (NoDup ds.*1) as Hnd by (rewrite Hds; apply NoDup_fst_map_to_list).
  assert (NoDup ts.*1) as Hnt by (rewrite Hts; apply NoDup_fst_map_to_list).
  assert (list_to_map ds = r_domains r) as ED.
  { rewrite (list_to_map_proper ds _ Hnd Hds). apply list_to_map_to_list. }
  assert (list_to_map ts = r_tlds r) as ET.
  { rewrite (list_to_map_proper ts _ Hnt Hts). apply list_to_map_to_list. }
  destruct (restore_domains_refines ds (cs_network s) ∅ (for_network (cs_network s)))
    as (s1 & E1 & Hs1); [apply map_Forall_empty| |done|apply for_network_refines|].
  { intros id st Hin. split; [|apply lookup_empty]. rewrite Hds in Hin.
    apply elem_of_map_to_list in Hin. by eapply (ok_domains _ Hok). }
  rewrite (right_id_L ∅ (∪)), ED in Hs1.
  set (r1 := mkRegistry (cs_network s) (r_domains r) ∅ ∅ ∅ ∅) in *.
  assert (list_to_map ts ∪ r_tlds r1 = r_tlds r) as ET1.
  { cbn. by rewrite (right_id_L ∅ (∪)). }
  destruct (restore_tlds_refines ts r1 s1 Hnt Hs1) as (s2 & E2 & Hs2).
  { intros id Hid. split; [|apply lookup_empty]. rewrite Hts in Hid.
    apply list_elem_of_fmap in Hid as ([id' x] & -> & Hx). apply elem_of_map_to_list in Hx. cbn.
    apply tld_no_domain; [done|by eexists]. }
  { rewrite ET1. by eapply collision_free_maps; [..|exact Hc]. }
  rewrite ET1 in Hs2. exists s2. unfold restore_all. rewrite E1. cbn.
  assert (cs_smt s2 ≡ cs_smt s) as Hsmt.
  { eapply committed_unique; [apply (rf_smt _ _ Hs2)|apply (rf_smt _ _ Hs)]. }
  split_and!; try done.
  - by rewrite (rf_backend _ _ Hs2), (rf_backend _ _ Hs).
  - by rewrite (rf_domain_count _ _ Hs2), (rf_domain_count _ _ Hs).
  - by rewrite (rf_tld_count _ _ Hs2), (rf_tld_count _ _ Hs).
  - eapply queued_unique; [apply (rf_queue _ _ Hs2)|apply (rf_queue _ _ Hs)].
  - eapply counts_unique; [apply (rf_refcounts _ _ Hs2)|apply (rf_refcounts _ _ Hs)].
  - unfold state_root_smt. by rewrite Hsmt.
Qed.
End props.

(** ** A concrete chain of transactions *)

Section run.
Context `{Crypto}.

(** Transactions one after the other, whatever their results. *)
Fixpoint run_txs (now : N) (txs : list Transaction) (s : ChainState) : ChainState :=
  match txs with
  | [] => s
  | tx :: txs => run_txs now txs (apply_journaled_at tx now (s, UndoLog_default)).1.1
  end.
Fixpoint run_rules (now : N) (txs : list Transaction) (r : Registry) : Registry :=
  match txs with
  | [] => r
  | tx :: txs => run_rules now txs (registry_apply r tx now).1
  end.
Fixpoint run_collision_freeb (now : N) (txs : list Transaction) (r : Registry) : bool :=
  collision_freeb r &&
  match txs with
  | [] => true
  | tx :: txs => run_collision_freeb now txs (registry_apply r tx now).1
  end.

Lemma run_refines now txs r s :
  now < U64 → run_collision_freeb now txs r = true → refines s r → registry_ok r →
  refines (run_txs now txs s) (run_rules now txs r) ∧ registry_ok (run_rules now txs r) ∧
  collision_free (run_rules now txs r).
Proof.
  intros Hn. revert r s. induction txs as [|tx txs IH]; intros r s; cbn [run_collision_freeb run_txs run_rules];
    intros [Hc Hcs]%andb_true_iff Hs Hok; apply collision_freeb_sound in Hc; [done|].
  assert (collision_free (registry_apply r tx now).1) as Hc'.
  { apply collision_freeb_sound. destruct txs; cbn [run_collision_freeb] in Hcs;
      by apply andb_true_iff in Hcs as [? _]. }
  destruct (implements_apply s UndoLog_default r tx now Hs Hok Hc Hn Hc') as (_ & es & _ & Hj & Hs').
  apply IH; [done..|]. by eapply jsteps_ok.
Qed.
End run.

Module Scenario.
#[local] Existing Instance Toy.crypto.

Definition net : NetworkParams := mkNetworkParams NetworkId_TESTNET 0 0 CP_TESTNET.
Definition alice : PublicKey := arr_of 32 [x01].
Definition bob : PublicKey := arr_of 32 [x02].
Definition no_sig : Signature := arr_zero 64.
Definition no_pow : Proof_ := encode_proof (mkCheckedPow 0 0).
Definition tld : TldName := ascii "uip".
Definition site : DomainName := ascii "a.uip".
Definition shop : DomainName := ascii "b.uip".
Definition now : N := 1000.

Definition claim : Transaction :=
  TxRegisterTld (register_tld_on NetworkId_TESTNET tld 0 no_pow alice no_sig).
Definition open_tld : Transaction :=
  TxSetTldOpen (set_tld_open_on NetworkId_TESTNET (TldId_from_tld tld) true alice no_sig).
Definition register : Transaction :=
  TxRegisterDomain (register_domain_on NetworkId_TESTNET site 0 no_pow alice no_sig).
Definition assign : Transaction :=
  TxAssignDomain (assign_domain_on NetworkId_TESTNET shop (owner_of bob) alice no_sig).

Definition txs : list Transaction := [claim; open_tld; register; assign].
Definition s0 : ChainState := for_network net.
Definition r0 : Registry := empty_registry net.
Definition s : ChainState := run_txs now txs s0.
Definition r : Registry := run_rules now txs r0.

Lemma s_r : refines s r ∧ registry_ok r ∧ collision_free r.
Proof.
  apply run_refines; [done| |apply for_network_refines|apply empty_registry_ok].
  by vm_compute.
Qed.

Example two_domains : cs_domain_count s = 2 ∧ cs_tld_count s = 1.
Proof. by vm_compute. Qed.

(** Later transactions. *)
Definition publish : Transaction :=
  TxUpdateDomain (update_domain_on NetworkId_TESTNET (DomainId_from_name site) 1
    (arr_of 32 [x07]) alice no_sig).
Definition stale : UpdateDomain :=
  update_domain_on NetworkId_TESTNET (DomainId_from_name shop) 5 (arr_of 32 [x07]) bob no_sig.
Definition renew : Transaction :=
  TxRenewDomain (renew_domain_on NetworkId_TESTNET (DomainId_from_name site)
    (now + 2 * DOMAIN_TERM_SECS) alice no_sig).

Ltac by_compute := apply collision_freeb_sound; by vm_compute.

Lemma apply_refines_registry_witness :
  (apply_journaled_at publish now (s, [])).2 = Ok tt ∧
  let '((s', _), res) := apply_journaled_at publish now (s, []) in
  let '(r', res') := registry_apply r publish now in
  res = res' ∧ refines s' r' ∧ registry_ok r'.
Proof.
  destruct s_r as (Hs & Hok & Hc). split; [by vm_compute|].
  apply (apply_refines_registry s r publish now [] Hs Hok Hc); [done|by_compute].
Defined.

Lemma rollback_apply_exact_witness :
  let '((s', j'), _) := apply_journaled_at renew now (s, []) in
  ∃ es, j' = [] ++ es ∧ rollback s' es ≡ s.
Proof.
  destruct s_r as (Hs & Hok & Hc).
  apply (rollback_apply_exact s r renew now [] Hs Hok Hc); [done|by_compute].
Defined.

Definition late : N := now + DOMAIN_TERM_SECS.

Lemma gc_refines_registry_witness :
  length (gc_expired_journaled late s []).2 = 2%nat ∧
  ∃ s' es ids, gc_expired_journaled late s [] = ((s', [] ++ es), ids) ∧
    refines s' (registry_gc late r) ∧ registry_ok (registry_gc late r) ∧
    NoDup ids ∧ (∀ id, id ∈ ids ↔ ∃ st, r_domains r !! id = Some st ∧ ds_valid_until st ≤ late) ∧
    rollback s' es ≡ s.
Proof.
  destruct s_r as (Hs & Hok & Hc). split; [by vm_compute|].
  apply (gc_refines_registry s r late [] Hs Hok Hc).
Defined.

Lemma apply_rejected_unchanged_witness :
  (apply (TxUpdateDomain stale) s).1 ≡ s.
Proof.
  destruct s_r as (Hs & Hok & Hc).
  apply (apply_rejected_unchanged s r (TxUpdateDomain stale) (ErrInvalidSequence 1 5) _ Hs Hok Hc);
    [by_compute|].
  assert ((apply (TxUpdateDomain stale) s).2 = Err (ErrInvalidSequence 1 5)) as E by by vm_compute.
  destruct (apply (TxUpdateDomain stale) s) as [s' res]. cbn in *. by subst res.
Defined.

(** The two registrations in the other order. *)
Definition s' : ChainState := run_txs now [claim; open_tld; assign; register] s0.

Lemma s'_r : refines s' r.
Proof.
  assert (r = run_rules now [claim; open_tld; assign; register] r0) as -> by by vm_compute.
  apply run_refines; [done| |apply for_network_refines|apply empty_registry_ok].
  by vm_compute.
Qed.

Lemma state_root_history_independent_witness :
  s ≡ s' ∧ state_root_smt s = state_root_smt s'.
Proof. apply (state_root_history_independent s s' r); [apply s_r|apply s'_r]. Defined.

Lemma eligible_validators_spec_witness :
  eligible_validators s = [alice] ∧
  (Sorted arr_le (eligible_validators s) ∧ NoDup (eligible_validators s) ∧
   ∀ k, k ∈ eligible_validators s ↔ eligible r k).
Proof.
  split; [by vm_compute|]. apply (eligible_validators_spec s r); apply s_r.
Defined.

Lemma update_rejected_learns_key_witness :
  apply_journaled_at (TxUpdateDomain stale) now (s, []) =
    ((with_owner_keys <[owner_of bob := bob]> s, [] ++ [LearnOwnerKey (owner_of bob)]),
     Err (ErrInvalidSequence 1 5)).
Proof.
  apply (update_rejected_learns_key s stale now []
    (mkDomainState (owner_of bob) 0 None now (now + DOMAIN_TERM_SECS)));
    try (by vm_compute); done.
Defined.

(** A renewal and a transfer, each signed over its own payload. *)
Definition signed (mk : Signature → Transaction) : Transaction :=
  mk (match signing_payload (mk no_sig) with Ok p => sk_sign alice p | Err _ => no_sig end).
Definition transfer : Transaction :=
  signed (λ sg, TxTransferDomain (transfer_domain_on NetworkId_TESTNET (DomainId_from_name site) (owner_of bob) alice sg)).

Lemma only_owner_changes_domain_witness :
  let id := DomainId_from_name site in
  let st := mkDomainState (owner_of alice) 0 None now (now + DOMAIN_TERM_SECS) in
  let s' := (apply_journaled_at transfer now (s, [])).1.1 in
  validate_transaction transfer = Ok tt ∧ cs_domain s' id ≠ Some st ∧
  (cs_domain s' id = Some st ∨
   ∃ st', cs_domain s' id = Some st' ∧ signed_by (ds_owner st) transfer ∧
    (ds_valid_until st' = ds_valid_until st ∨
     ds_valid_until st < ds_valid_until st' ≤ sat_add64 now DOMAIN_MAX_HORIZON_SECS) ∧
    (ds_sequence st' = ds_sequence st ∨ ds_sequence st' = ds_sequence st + 1) ∧
    ds_registered_at st' = ds_registered_at st ∧
    (ds_owner st' = ds_owner st ∨ ∃ t, transfer = TxTransferDomain t ∧ ds_owner st' = td_new_owner t)).
Proof.
  destruct s_r as (Hs & Hok & Hc). intros id st s1.
  assert (validate_transaction transfer = Ok tt) as Hv by (by vm_compute).
  split; [exact Hv|]. split; [by vm_compute|].
  apply (only_owner_changes_domain s r transfer now [] id st Hs Hok Hc);
    [done|by_compute|exact Hv|by vm_compute].
Defined.

Lemma restore_rebuilds_state_witness :
  ∃ s', restore_all net (reverse (map_to_list (r_domains r))) (map_to_list (r_tlds r)) = Some s' ∧
    cs_backend s' = cs_backend s ∧ cs_domain_count s' = cs_domain_count s ∧
    cs_tld_count s' = cs_tld_count s ∧ cs_expirations s' = cs_expirations s ∧
    cs_owner_refcounts s' = cs_owner_refcounts s ∧ cs_smt s' ≡ cs_smt s ∧
    state_root_smt s' = state_root_smt s.
Proof.
  destruct s_r as (Hs & Hok & Hc).
  apply (restore_rebuilds_state s r (reverse (map_to_list (r_domains r)))
    (map_to_list (r_tlds r)) Hs Hok Hc); [apply reverse_Permutation|done].
Defined.

(** A year later: both domains lapsed, and alice takes hers back. *)
Definition lapsed_s : ChainState := (gc_expired_journaled late s UndoLog_default).1.1.
Definition lapsed_r : Registry := registry_gc late r.

Lemma lapsed_s_r : refines lapsed_s lapsed_r ∧ registry_ok lapsed_r ∧ collision_free lapsed_r.
Proof.
  destruct s_r as (Hs & Hok & Hc). unfold lapsed_s.
  destruct (gc_refines late s r UndoLog_default Hok Hc Hs) as (s1 & es & ids & E & Hj & Hs1 & _).
  rewrite E. split_and!; [done|by eapply jsteps_ok|by_compute].
Qed.

Lemma grace_window_protects_witness :
  let id := DomainId_from_name site in
  cs_domain lapsed_s id = None ∧ cs_grace lapsed_s !! id = Some (late, owner_of alice) ∧
  ∃ st, cs_domain (apply_journaled_at register late (lapsed_s, [])).1.1 id = Some st ∧
    ds_owner st = owner_of alice.
Proof.
  destruct lapsed_s_r as (Hs & Hok & Hc). intros id. split_and!; [by vm_compute..|].
  assert (cs_domain (apply_journaled_at register late (lapsed_s, [])).1.1 id =
    Some (mkDomainState (owner_of alice) 0 None late (late + DOMAIN_TERM_SECS))) as E
    by by vm_compute.
  exists (mkDomainState (owner_of alice) 0 None late (late + DOMAIN_TERM_SECS)). split; [exact E|].
  apply (grace_window_protects lapsed_s lapsed_r register late [] id late (owner_of alice) _
    Hs Hok Hc); [done|by_compute|by vm_compute|done|exact E].
Defined.

(** Alice signs two checkpoints of one epoch. *)
Definition fork_a : CheckpointData := mkCheckpointData 1 8 (arr_of 32 [x0a]) zero_hash zero_hash 0.
Definition fork_b : CheckpointData := mkCheckpointData 1 8 (arr_of 32 [x0b]) zero_hash zero_hash 0.
Definition evidence : SlashTx :=
  slash_on NetworkId_TESTNET alice fork_a (sk_sign alice (arr_list (signing_hash fork_a)))
    fork_b (sk_sign alice (arr_list (signing_hash fork_b))) bob no_sig.
Definition slashed_s : ChainState := run_txs now [claim; TxSlash evidence] s0.
Definition slashed_r : Registry := run_rules now [claim; TxSlash evidence] r0.

Lemma slashed_s_r : refines slashed_s slashed_r ∧ registry_ok slashed_r ∧ collision_free slashed_r.
Proof.
  apply run_refines; [done| |apply for_network_refines|apply empty_registry_ok].
  by vm_compute.
Qed.

Lemma alice_banned : alice ∈ cs_banned slashed_s.
Proof. apply (bool_decide_eq_true _). by vm_compute. Qed.

Lemma ban_is_permanent_witness :
  let s' := (apply_journaled_at open_tld now (slashed_s, [])).1.1 in
  alice ∈ cs_banned s' ∧ alice ∉ eligible_validators s'.
Proof.
  destruct slashed_s_r as (Hs & Hok & Hc).
  apply (ban_is_permanent slashed_s slashed_r open_tld now [] alice Hs Hok Hc);
    [done|by_compute|apply alice_banned].
Defined.

Lemma slash_banned_rejected_witness :
  apply_journaled_at (TxSlash evidence) now (slashed_s, []) =
    ((slashed_s, []), Err SlashOffenderNotInPool).
Proof.
  apply (slash_banned_rejected slashed_s evidence now []);
    [by vm_compute|by vm_compute|apply alice_banned].
Defined.
End Scenario.
