(* ===== verification/StateBinding.v ===== *)
(** * The state root commits to the registry

    From the root back to the entries: two states with the same root
    represent registries with the same domains and TLDs, unless two of
    the values hashed collide. *)

From S2P Require Import Prelude Bytes Crypto Commitment Smt SmtProofs SmtBinding Names Icann Codec Checkpoint Pow Tx Wire.
From S2P Require Import State StateSpec StateProofs StateProps.

Section binding.
Context `{Crypto}.

#[local] Create HintDb preimages.

(** ** What leaves and roots hash *)

Definition domain_leaf_bytes (id : DomainId) (st : DomainState) : list byte :=
  ascii "SCONE-LEAF-DOM-V2" ++ arr_list id ++ arr_list (ds_owner st) ++
  be_bytes 8 (ds_sequence st) ++ be_bytes 8 (ds_registered_at st) ++ be_bytes 8 (ds_valid_until st) ++
  match ds_record_hash st with Some rh => arr_list rh | None => arr_list (arr_zero 32) end.
Definition tld_leaf_bytes (id : TldId) (st : TldState) : list byte :=
  ascii "SCONE-LEAF-TLD-V2" ++ arr_list id ++ arr_list (ts_owner st) ++ [u8_of_bool (ts_open st)].
Definition state_bytes (root : hash) : list byte := ascii "SCONE-STATE-SMT-V1" ++ arr_list root.

Lemma domain_leaf_eq id st : domain_leaf_v2 id st = blake3 (domain_leaf_bytes id st).
Proof. unfold domain_leaf_v2, hash256. cbn [concat]. by rewrite app_nil_r. Qed.
Lemma tld_leaf_eq id st : tld_leaf_v2 id st = blake3 (tld_leaf_bytes id st).
Proof. unfold tld_leaf_v2, hash256. cbn [concat]. by rewrite app_nil_r. Qed.
Lemma state_root_eq s : state_root_smt s = blake3 (state_bytes (smt_root (cs_smt s))).
Proof. unfold state_root_smt, hash256. cbn [concat]. by rewrite app_nil_r. Qed.

Lemma length_domain_leaf id st : length (domain_leaf_bytes id st) = 137%nat.
Proof.
  unfold domain_leaf_bytes. rewrite !length_app, !arr_length, !length_be_bytes.
  by destruct (ds_record_hash st); rewrite arr_length.
Qed.
Lemma length_tld_leaf id st : length (tld_leaf_bytes id st) = 82%nat.
Proof. unfold tld_leaf_bytes. by rewrite !length_app, !arr_length. Qed.

Lemma domain_leaf_bytes_inj id st id' st' :
  fits st → fits st' → domain_leaf_bytes id st = domain_leaf_bytes id' st' → id = id' ∧ norm st = norm st'.
Proof.
  intros (?&?&?) (?&?&?). unfold domain_leaf_bytes. intros E%app_inv_head.
  apply app_arr_inj in E as [-> E]. split; [done|]. apply app_arr_inj in E as [Eo E].
  do 3 (apply app_inj_1 in E as [?%be_bytes_inj_64 E]; [|done..|by rewrite !length_be_bytes]).
  unfold norm. f_equal; [done..| |done|done].
  destruct (ds_record_hash st) as [h|], (ds_record_hash st') as [h'|]; cbn [norm_hash]; apply arr_eq in E; subst;
    rewrite ?bool_decide_eq_true_2 by done; done.
Qed.

Lemma tld_leaf_bytes_inj id st id' st' :
  tld_leaf_bytes id st = tld_leaf_bytes id' st' → id = id' ∧ st = st'.
Proof.
  unfold tld_leaf_bytes. intros E%app_inv_head. apply app_arr_inj in E as [-> E].
  apply app_arr_inj in E as [Eo E]. split; [done|]. destruct st as [o []], st' as [o' []]; cbn in *; congruence.
Qed.

(** ** Entries and trees *)

Notation domains := (list (DomainId * DomainState)).
Notation tlds := (list (TldId * TldState)).

Definition entry_preimages (ds : domains) (ts : tlds) : list (list byte) :=
  map (λ e, domain_leaf_bytes e.1 e.2) ds ++ map (λ e, tld_leaf_bytes e.1 e.2) ts.

(** The tree holds the leaves of the entries, at their keys. *)
Record holds (t : Smt) (ds : domains) (ts : tlds) : Prop := {
  hd_wf : wf t;
  hd_has k l : smt_has t k l ↔
    (∃ id st, (id, st) ∈ ds ∧ k = smt_key id ∧ l = domain_leaf_v2 id st) ∨
    (∃ id st, (id, st) ∈ ts ∧ k = smt_key id ∧ l = tld_leaf_v2 id st) }.

Lemma domain_preimage_in (ds : domains) ts id st :
  (id, st) ∈ ds → domain_leaf_bytes id st ∈ entry_preimages ds ts.
Proof. intros Hin. apply elem_of_app. left. apply list_elem_of_fmap. by exists (id, st). Qed.
Lemma tld_preimage_in ds (ts : tlds) id st :
  (id, st) ∈ ts → tld_leaf_bytes id st ∈ entry_preimages ds ts.
Proof. intros Hin. apply elem_of_app. right. apply list_elem_of_fmap. by exists (id, st). Qed.

Lemma preimage_l (p : list byte) l l' : p ∈ l → p ∈ l ++ l'.
Proof. intros. apply elem_of_app. by left. Qed.
Lemma preimage_r (p : list byte) l l' : p ∈ l' → p ∈ l ++ l'.
Proof. intros. apply elem_of_app. by right. Qed.
Hint Resolve domain_preimage_in tld_preimage_in preimage_l preimage_r : preimages.

(** Every leaf of the tree is hashed from a listed value longer than a
    pair of hashes. *)
Lemma holds_hashed t ds ts k l :
  holds t ds ts → smt_has t k l → ∃ p, p ∈ entry_preimages ds ts ∧ (64 < length p)%nat ∧ l = blake3 p.
Proof.
  intros Ht [(id & st & Hin & _ & ->)|(id & st & Hin & _ & ->)]%(hd_has _ _ _ Ht).
  - exists (domain_leaf_bytes id st). rewrite domain_leaf_eq, length_domain_leaf.
    split_and!; [by apply domain_preimage_in|lia|done].
  - exists (tld_leaf_bytes id st). rewrite tld_leaf_eq, length_tld_leaf.
    split_and!; [by apply tld_preimage_in|lia|done].
Qed.

(** The tree of a registry. *)
Lemma committed_holds t r :
  committed t (r_leaves r) → collision_free r → holds t (map_to_list (r_domains r)) (map_to_list (r_tlds r)).
Proof.
  intros [Hw Hh] Hc. split; [done|]. intros k l. change (smt_has t k l) with (sc_has t k l). rewrite Hh.
  unfold r_leaves. split.
  - intros (id & E & ->). rewrite both_lookup in E. destruct (r_domains r !! id) as [st|] eqn:Ed.
    + left. exists id, st. injection E as <-. split; [by apply elem_of_map_to_list|done].
    + right. destruct (r_tlds r !! id) as [st|] eqn:Et; [|done]. exists id, st. injection E as <-.
      split; [by apply elem_of_map_to_list|done].
  - intros [(id & st & Hin%elem_of_map_to_list & -> & ->)|(id & st & Hin%elem_of_map_to_list & -> & ->)];
      exists id; rewrite both_lookup; (split; [|done]).
    + by rewrite Hin.
    + destruct (r_domains r !! id) as [st'|] eqn:Ed; [|by rewrite Hin].
      pose proof (cf_disjoint _ Hc id ltac:(by eexists)). congruence.
Qed.

(** What the root over a set of entries hashes. *)
Definition root_preimages (t : Smt) (ds : domains) (ts : tlds) : list (list byte) :=
  state_bytes (smt_root t) :: entry_preimages ds ts ++ smt_preimages t.

Lemma state_bytes_inj x y : state_bytes x = state_bytes y → x = y.
Proof. unfold state_bytes. intros E%app_inv_head. by apply arr_eq. Qed.

(** The same root, up to the top hash: the same entries. *)
Lemma root_entries t ds ts t' ds' ts' :
  holds t ds ts → holds t' ds' ts' →
  Forall (λ e, fits e.2) ds → Forall (λ e, fits e.2) ds' →
  injective_on (root_preimages t ds ts ++ root_preimages t' ds' ts') →
  blake3 (state_bytes (smt_root t)) = blake3 (state_bytes (smt_root t')) →
  (∀ id st, (id, st) ∈ ds → ∃ st', (id, st') ∈ ds' ∧ norm st = norm st') ∧
  (∀ id st, (id, st) ∈ ts → (id, st) ∈ ts').
Proof.
  intros Ht Ht' Hd Hd' Hi E. unfold root_preimages in Hi. apply Hi in E; [|set_solver..]. apply state_bytes_inj in E.
  assert (injective_on (entry_preimages ds ts ++ entry_preimages ds' ts')) as Hj by fewer_preimages Hi.
  assert (t ≡ t') as Et.
  { apply (smt_root_inj (entry_preimages ds ts ++ entry_preimages ds' ts')); try done; [by apply Ht|by apply Ht'| |].
    - intros k l [Hl|Hl]; [apply (holds_hashed _ ds ts) in Hl|apply (holds_hashed _ ds' ts') in Hl]; try done;
        destruct Hl as (p & Hp & ?); exists p; split; auto with preimages.
    - fewer_preimages Hi. }
  rewrite Forall_forall in Hd, Hd'. split; intros id st Hin.
  - assert (smt_has t' (smt_key id) (domain_leaf_v2 id st)) as Hl.
    { apply (smt_equiv_has t t' _ _ Et), (hd_has _ _ _ Ht). left. by exists id, st. }
    apply (hd_has _ _ _ Ht') in Hl as [(id' & st' & Hin' & _ & El)|(id' & st' & Hin' & _ & El)];
      rewrite !domain_leaf_eq, ?tld_leaf_eq in El; apply Hj in El; auto with preimages.
    + apply domain_leaf_bytes_inj in El as [<- En]; [|by apply (Hd (id, st))|by apply (Hd' (id', st'))]. by exists st'.
    + apply (f_equal length) in El. by rewrite length_domain_leaf, length_tld_leaf in El.
  - assert (smt_has t' (smt_key id) (tld_leaf_v2 id st)) as Hl.
    { apply (smt_equiv_has t t' _ _ Et), (hd_has _ _ _ Ht). right. by exists id, st. }
    apply (hd_has _ _ _ Ht') in Hl as [(id' & st' & Hin' & _ & El)|(id' & st' & Hin' & _ & El)];
      rewrite !tld_leaf_eq, ?domain_leaf_eq in El; apply Hj in El; auto with preimages.
    + apply (f_equal length) in El. by rewrite length_domain_leaf, length_tld_leaf in El.
    + by apply tld_leaf_bytes_inj in El as [<- <-].
Qed.

(** Registries. *)
Definition registry_preimages (s : ChainState) (r : Registry) : list (list byte) :=
  root_preimages (cs_smt s) (map_to_list (r_domains r)) (map_to_list (r_tlds r)).

Lemma registry_fits r : registry_ok r → Forall (λ e, fits e.2) (map_to_list (r_domains r)).
Proof.
  intros Hok. apply Forall_forall. intros [id st] Hin%elem_of_map_to_list.
  by destruct (ok_domains _ Hok _ _ Hin).
Qed.

(** One inclusion. *)
Lemma root_included s r s' r' :
  refines s r → registry_ok r → collision_free r → refines s' r' → registry_ok r' → collision_free r' →
  injective_on (registry_preimages s r ++ registry_preimages s' r') →
  state_root_smt s = state_root_smt s' →
  (∀ (id : hash) st, r_domains r !! id = Some st → r_domains r' !! id = Some st) ∧
  (∀ (id : hash) st, r_tlds r !! id = Some st → r_tlds r' !! id = Some st).
Proof.
  intros Hs Hok Hc Hs' Hok' Hc' Hi E. rewrite !state_root_eq in E.
  destruct (root_entries _ _ _ _ _ _ (committed_holds _ _ (rf_smt _ _ Hs) Hc)
    (committed_holds _ _ (rf_smt _ _ Hs') Hc') (registry_fits r Hok) (registry_fits r' Hok') Hi E) as [Hds Hts].
  split; intros id st Hin%elem_of_map_to_list.
  - destruct (Hds id st Hin) as (st' & Hin'%elem_of_map_to_list & En). apply elem_of_map_to_list in Hin.
    rewrite !norm_ok in En; [congruence|by eapply (ok_domains _ Hok')|by eapply (ok_domains _ Hok)].
  - by apply elem_of_map_to_list, Hts.
Qed.

(** C21. The state root commits to the registry: two states with the same
    root have the same domains, with their owners, sequences, record
    hashes and terms, and the same TLDs — unless two of the values
    hashed for the two roots collide.  Overflow buckets of keys that
    share 40 bits included. *)
Theorem state_root_commits s r s' r' :
  refines s r → registry_ok r → collision_free r → refines s' r' → registry_ok r' → collision_free r' →
  injective_on (registry_preimages s r ++ registry_preimages s' r') →
  state_root_smt s = state_root_smt s' →
  r_domains r = r_domains r' ∧ r_tlds r = r_tlds r'.
Proof.
  intros Hs Hok Hc Hs' Hok' Hc' Hi E.
  assert (injective_on (registry_preimages s' r' ++ registry_preimages s r)) as Hi' by fewer_preimages Hi.
  destruct (root_included s r s' r') as [D1 T1]; try done. destruct (root_included s' r' s r) as [D2 T2]; try done.
  split; apply map_eq; intros id; apply option_eq; intros st; split; auto.
Qed.
End binding.

(** ** An example *)
Module BindingScenario.
Import StateProps.Scenario.
#[local] Existing Instance Toy.crypto.

Lemma no_collision : injective_on (registry_preimages s r ++ registry_preimages s' r).
Proof. apply injective_onb_sound. by vm_compute. Qed.

Lemma state_root_commits_witness :
  state_root_smt s = state_root_smt s' ∧ r_domains r = r_domains r ∧ r_tlds r = r_tlds r.
Proof.
  destruct s_r as (Hs & Hok & Hc). assert (state_root_smt s = state_root_smt s') as E by by vm_compute.
  split; [exact E|]. exact (state_root_commits s r s' r Hs Hok Hc s'_r Hok Hc no_collision E).
Defined.
End BindingScenario.
