(* ===== verification/WireProps.v ===== *)
(** * Properties of the protocol layer

    Encoding of transactions, signing payloads, names, identifiers and
    proofs of work. *)

From S2P Require Import Prelude Bytes Crypto Names Icann Codec Checkpoint Pow Tx Wire.

(** ** Encoding does not fail on what it should encode *)

Lemma cat_total l : Forall (λ x, ∃ bs, x = Ok bs) l → ∃ bs, cat l = Ok bs.
Proof.
  induction 1 as [|x l [a ->] _ [b IH]]; [by exists []|]. exists (a ++ b).
  apply cat_cons. by exists a, b.
Qed.

Lemma put_bounded_total b max what : blen b ≤ max → ∃ bs, put_bounded b max what = Ok bs.
Proof.
  intros Hb. unfold put_bounded. destruct (N.ltb_spec max (blen b)); [lia|]. by eexists.
Qed.

Section wire_props.
Context `{Crypto}.

Definition encodes {A} (c : codec A) (a : A) : Prop := ∃ bs, enc c a = Ok bs.

Lemma NetworkId_encodes n : cwf NetworkId_c n → encodes NetworkId_c n.
Proof.
  intros Hn%NetworkId_valid_len. apply put_bounded_total. unfold blen, MAX_NETWORK_ID_LEN. lia.
Qed.

Lemma TldName_encodes n : cwf TldName_c n → encodes TldName_c n.
Proof.
  intros Hn%TldName_valid_iff. apply put_bounded_total. unfold blen, MAX_TLD_LEN, TldName_MAX_LEN. lia.
Qed.

Lemma DomainName_encodes n : cwf DomainName_c n → encodes DomainName_c n.
Proof.
  intros [Hn _]%DomainName_valid_spec. apply put_bounded_total.
  unfold blen, MAX_NAME_LEN, DomainName_MAX_TOTAL_LEN. lia.
Qed.

(** The registration proof a transaction carries fits the wire limit. *)
Definition proof_bounded (tx : Transaction) : Prop :=
  match tx with
  | TxRegisterDomain t => blen (rd_proof t) ≤ MAX_PROOF_LEN
  | TxRegisterTld t => blen (rt_proof t) ≤ MAX_PROOF_LEN
  | _ => True
  end.

Ltac encode_field := first
  [ by apply NetworkId_encodes | by apply TldName_encodes | by apply DomainName_encodes
  | by apply put_bounded_total | by eexists ].
Ltac encode_tx :=
  match goal with
  | Hv : ?v = Ok tt |- ∃ bs, rbind (map_err _ ?v) _ = Ok bs => rewrite Hv; cbn [map_err rbind]
  end;
  apply cat_total; repeat (apply Forall_cons; split; [encode_field|]); apply Forall_nil_2.

Lemma Transaction_encodes tx :
  Transaction_wf tx → proof_bounded tx → encodes (mkCodec Transaction_encode Transaction_decode Transaction_wf) tx.
Proof.
  destruct tx as [t|t|t|t|t|t|t|t|t|t]; cbn [Transaction_wf proof_bounded]; intros Hw Hp;
    (eassert (∃ bs, _ = Ok bs) as [bs Hbs]; [|eexists; cbn [enc]; unfold Transaction_encode;
      apply cat_cons; do 2 eexists; split_and!; [reflexivity| |reflexivity];
      apply cat_cons; do 2 eexists; split_and!; [exact Hbs|reflexivity|reflexivity]]).
  - cbn in Hw |- *. unfold RegisterDomain_wf, RegisterDomain_encode in *. destruct_and! Hw. encode_tx.
  - cbn in Hw |- *. unfold UpdateDomain_wf, UpdateDomain_encode in *. destruct_and! Hw. encode_tx.
  - cbn in Hw |- *. unfold RegisterTld_wf, RegisterTld_encode in *. destruct_and! Hw. encode_tx.
  - cbn in Hw |- *. unfold TransferTld_wf, TransferTld_encode in *. destruct_and! Hw. encode_tx.
  - cbn in Hw |- *. unfold RevokeTld_wf, RevokeTld_encode in *. destruct_and! Hw. encode_tx.
  - cbn in Hw |- *. unfold SetTldOpen_wf, SetTldOpen_encode in *. destruct_and! Hw. encode_tx.
  - cbn in Hw |- *. unfold AssignDomain_wf, AssignDomain_encode in *. destruct_and! Hw. encode_tx.
  - cbn in Hw |- *. unfold RenewDomain_wf, RenewDomain_encode in *. destruct_and! Hw. encode_tx.
  - cbn in Hw |- *. unfold TransferDomain_wf, TransferDomain_encode in *. destruct_and! Hw. encode_tx.
  - cbn in Hw |- *. unfold SlashTx_wf, SlashTx_encode in *. destruct_and! Hw. encode_tx.
Qed.

(** Round trip: a well-formed transaction whose proof fits the wire
    limit is encoded, and its bytes decode to it and to nothing else
    after it. *)
Theorem transaction_roundtrip tx :
  Transaction_wf tx → proof_bounded tx →
  ∃ bs, enc Transaction_c tx = Ok bs ∧ decode_complete (dec Transaction_c) bs = Ok tx.
Proof.
  intros Hw Hp. destruct (Transaction_encodes tx Hw Hp) as [bs Hbs]. exists bs.
  split; [exact Hbs|]. by apply (decode_complete_roundtrip Transaction_c).
Qed.

(** No malleability: bytes that decode to a transaction are its
    encoding, byte for byte — one transaction has one wire form, and a
    decoded transaction satisfies the invariants of its type (valid
    names, derived identifiers, owner bound to the key). *)
Theorem transaction_canonical bs tx :
  decode_complete (dec Transaction_c) bs = Ok tx →
  enc Transaction_c tx = Ok bs ∧ Transaction_wf tx ∧ tx_validate tx = Ok tt.
Proof.
  intros (Hw & He)%(decode_complete_canonical Transaction_c).
  split; [exact He|split; [exact Hw|]]. destruct tx as [t|t|t|t|t|t|t|t|t|t]; cbn in Hw |- *;
    unfold RegisterDomain_wf, UpdateDomain_wf, RegisterTld_wf, TransferTld_wf, RevokeTld_wf,
      SetTldOpen_wf, AssignDomain_wf, RenewDomain_wf, TransferDomain_wf, SlashTx_wf in Hw; tauto.
Qed.

(** C24. A signature covers everything: two transactions with the same
    signing payload agree on every field but the signature, so with
    equal signatures they are the same transaction. *)
Theorem signing_payload_binds tx tx' p :
  Transaction_wf tx → Transaction_wf tx' →
  signing_payload tx = Ok p → signing_payload tx' = Ok p →
  tx_signature tx = tx_signature tx' → tx = tx'.
Proof.
  intros Hw Hw' Hp Hp'. apply UnsignedTransaction_from_inj. by eapply signing_payload_inj.
Qed.

(** C25. Accountability: where two checkpoints of one epoch and parent
    both reach the quorum of a committee, more than a third of the
    committee signed both, and each of these keys can be slashed on
    that evidence, whoever reports it. *)
Theorem conflicting_checkpoints_slashable committee c1 c2 net pk sig :
  verify_quorum c1 committee (quorum_for (length committee)) = true →
  verify_quorum c2 committee (quorum_for (length committee)) = true →
  epoch (data c1) = epoch (data c2) →
  prev_checkpoint_hash (data c1) = prev_checkpoint_hash (data c2) →
  signing_hash (data c1) ≠ signing_hash (data c2) →
  ∃ l, NoDup l ∧ (length committee / 3 < length l)%nat ∧ ∀ o, o ∈ l →
    o ∈ committee ∧ ∃ sa sb, (o, sa) ∈ signatures c1 ∧ (o, sb) ∈ signatures c2 ∧
      SlashTx_validate (slash_on net o (data c1) sa (data c2) sb pk sig) = Ok tt.
Proof. apply conflicting_quorums_slashable. Qed.

(** The committee draw: distinct eligible keys, as many as asked
    for or all of them, each of a rank no greater than any key left
    out, and the same for every enumeration of the same pool. *)
Theorem committee_draw seed eligible eligible' size :
  (∀ pk, pk ∈ eligible ↔ pk ∈ eligible') →
  let com := select_committee seed eligible size in
  NoDup com ∧ length com = Nat.min size (length (remove_dups eligible)) ∧
  (∀ pk, pk ∈ com → pk ∈ eligible) ∧
  (∀ pk pk', pk ∈ com → pk' ∈ eligible → pk' ∉ com → rank_le (rank seed pk) (rank seed pk')) ∧
  select_committee seed eligible' size = com.
Proof.
  intros E com. destruct (select_committee_spec seed eligible size) as (?&?&?&?).
  split_and!; [done..|]. by apply select_committee_set.
Qed.

(** Proof of work: a registration proof verifies exactly when it is
    the canonical encoding of a nonce and of the difficulty in force,
    and the digest is below [2^(256 - difficulty)]. *)
Theorem pow_verify_exact net ch proof d c :
  d ≤ U32_MAX →
  pow_verify net ch proof d = Ok c ↔
    proof = encode_proof c ∧ difficulty c = d ∧ nonce c < U64 ∧ d ≤ 256 ∧
    be_val (pow_digest net ch (nonce c)) < 2 ^ (256 - d).
Proof. apply pow_verify_iff. Qed.

(** Mining terminates with the first solution: if some 64-bit nonce
    solves the challenge, [mine] returns the least one after as many
    rounds, and its encoding is accepted by [verify]. *)
Theorem mine_finds_first net ch d k c :
  d ≤ U32_MAX → pow_check net ch k d = Ok c → k < U64 →
  (∀ j, j < k → ¬ is_ok (pow_check net ch j d)) →
  mine (S (N.to_nat k)) net ch d = Some c ∧ nonce c = k ∧
  pow_verify net ch (encode_proof c) d = Ok c.
Proof.
  intros Hd Hc Hk Hfirst. pose proof Hc as (-> & Hd' & Hb)%pow_check_iff. split_and!; [|done|].
  - apply (mine_from_finds _ net ch d 0 k); [done| |lia|done|lia]. intros j Hj. apply Hfirst. lia.
  - by apply pow_verify_iff.
Qed.
End wire_props.

(** What a domain name is: at most 253 bytes, at least two labels,
    the last one a valid TLD, the others of 1 to 63 letters, digits or
    inner hyphens; the TLD that [tld()] extracts is the valid last
    label. *)
Theorem domain_name_spec name :
  (DomainName_new name = Ok name ↔
    (length name ≤ 253)%nat ∧
    ∃ labels tld, labels ≠ [] ∧ split_dot name = labels ++ [tld] ∧ TldName_valid tld ∧
      Forall (λ l, (1 ≤ length l ≤ 63)%nat ∧ is_ldh l = true) labels) ∧
  (DomainName_new name = Ok name →
    TldName_valid (DomainName_tld name) ∧ ∃ pre, name = pre ++ DOT :: DomainName_tld name).
Proof.
  assert (DomainName_new name = Ok name ↔ DomainName_valid name) as E.
  { unfold DomainName_new, DomainName_valid. rewrite rbind_Ok. split.
    - by intros ([] & ? & _).
    - intros ->. by exists tt. }
  split; [by rewrite E, DomainName_valid_spec|]. rewrite E. intros (? & _ & ?)%domain_tld_valid. done.
Qed.

(** Varints are canonical: every 64-bit value has one encoding; the
    decoder reads it back and leaves the rest, and accepts no other
    bytes for it (no overlong form, no overflow). *)
Theorem varint_canonical v r inp :
  v < U64 → (take_u64 inp = Ok (v, r) ↔ inp = put_u64 v ++ r).
Proof.
  intros Hv. split; [by intros [_ ?]%take_u64_canonical|]. intros ->. by apply take_put_u64.
Qed.

(** ** Concrete runs *)

Module WireScenario.
#[local] Existing Instance Toy.crypto.

Definition key (b : byte) : PublicKey := arr_of 32 [b].
Definition claim : Transaction :=
  TxRegisterTld (register_tld_on NetworkId_TESTNET (ascii "uip") 1700000000 [x01; x02]
    (key x01) (arr_of 64 [x2a])).

Lemma claim_wf : Transaction_wf claim.
Proof. cbn. unfold RegisterTld_wf. split_and!; by vm_compute. Qed.

Lemma transaction_roundtrip_witness :
  proof_bounded claim ∧
  ∃ bs, enc Transaction_c claim = Ok bs ∧ decode_complete (dec Transaction_c) bs = Ok claim.
Proof. split; [done|]. apply (transaction_roundtrip claim claim_wf). done. Defined.

Definition claim_bytes : list byte :=
  match enc Transaction_c claim with Ok bs => bs | Err _ => [] end.

Lemma transaction_canonical_witness :
  enc Transaction_c claim = Ok claim_bytes ∧ Transaction_wf claim ∧ tx_validate claim = Ok tt.
Proof. apply (transaction_canonical claim_bytes claim). by vm_compute. Defined.

Definition claim_payload : list byte :=
  match signing_payload claim with Ok p => p | Err _ => [] end.

Lemma signing_payload_binds_witness :
  ∃ tx, decode_complete (dec Transaction_c) claim_bytes = Ok tx ∧ tx = claim.
Proof.
  exists claim. split; [by vm_compute|].
  apply (signing_payload_binds claim claim claim_payload claim_wf claim_wf); by vm_compute.
Defined.

(** Four members, two conflicting checkpoints with three votes each. *)
Definition committee : list PublicKey := [key x01; key x02; key x03; key x04].
Definition fork (b : byte) : CheckpointData :=
  mkCheckpointData 3 40 (arr_of 32 [b]) (arr_zero 32) (arr_zero 32) 0.
Definition vote (d : CheckpointData) (pk : PublicKey) : PublicKey * Signature :=
  (pk, sk_sign pk (arr_list (signing_hash d))).
Definition cp_a : Checkpoint :=
  mkCheckpoint (fork x0a) (map (vote (fork x0a)) [key x01; key x02; key x03]).
Definition cp_b : Checkpoint :=
  mkCheckpoint (fork x0b) (map (vote (fork x0b)) [key x02; key x03; key x04]).

Lemma conflicting_checkpoints_slashable_witness :
  ∃ l, NoDup l ∧ (1 < length l)%nat ∧ ∀ o, o ∈ l →
    o ∈ committee ∧ ∃ sa sb, (o, sa) ∈ signatures cp_a ∧ (o, sb) ∈ signatures cp_b ∧
      SlashTx_validate (slash_on NetworkId_TESTNET o (data cp_a) sa (data cp_b) sb
        (key x09) (arr_zero 64)) = Ok tt.
Proof.
  apply (conflicting_checkpoints_slashable committee cp_a cp_b); try (by vm_compute); done.
Defined.

Lemma committee_draw_witness :
  let com := select_committee (arr_of 32 [x07]) committee 2 in
  NoDup com ∧ length com = 2%nat ∧ (∀ pk, pk ∈ com → pk ∈ committee) ∧
  (∀ pk pk', pk ∈ com → pk' ∈ committee → pk' ∉ com →
     rank_le (rank (arr_of 32 [x07]) pk) (rank (arr_of 32 [x07]) pk')) ∧
  select_committee (arr_of 32 [x07]) (reverse committee) 2 = com.
Proof.
  apply (committee_draw (arr_of 32 [x07]) committee (reverse committee) 2).
  intros pk. by rewrite elem_of_reverse.
Defined.

Definition challenge : list byte := ascii "SCONE-TLD-V1uip".
Definition first_nonce : N :=
  match mine 64 NetworkId_TESTNET challenge 3 with Some c => nonce c | None => 0 end.

Lemma pow_verify_exact_witness :
  let c := mkCheckedPow first_nonce 3 in
  pow_verify NetworkId_TESTNET challenge (encode_proof c) 3 = Ok c ↔
    encode_proof c = encode_proof c ∧ difficulty c = 3 ∧ nonce c < U64 ∧ 3 ≤ 256 ∧
    be_val (pow_digest NetworkId_TESTNET challenge (nonce c)) < 2 ^ (256 - 3).
Proof. intros c. apply (pow_verify_exact NetworkId_TESTNET challenge (encode_proof c) 3 c). done. Defined.

Lemma mine_finds_first_witness :
  let c := mkCheckedPow first_nonce 3 in
  mine (S (N.to_nat first_nonce)) NetworkId_TESTNET challenge 3 = Some c ∧
  nonce c = first_nonce ∧ pow_verify NetworkId_TESTNET challenge (encode_proof c) 3 = Ok c.
Proof.
  intros c. apply (mine_finds_first NetworkId_TESTNET challenge 3 first_nonce c);
    [done|by vm_compute|by vm_compute|].
  assert (forallb (λ j, negb (is_ok (pow_check NetworkId_TESTNET challenge (N.of_nat j) 3)))
    (seq 0 (N.to_nat first_nonce)) = true) as Hf by by vm_compute.
  intros j Hj. rewrite forallb_forall in Hf. specialize (Hf (N.to_nat j)).
  rewrite N2Nat.id in Hf. apply Is_true_false, negb_true_iff, Hf, in_seq. lia.
Defined.

Lemma domain_name_spec_example :
  DomainName_new (ascii "www.my-site.uip") = Ok (ascii "www.my-site.uip") ∧
  DomainName_tld (ascii "www.my-site.uip") = ascii "uip" ∧
  DomainName_new (ascii "-site.uip") = Err InvalidDomain.
Proof. by vm_compute. Qed.

Lemma varint_canonical_witness :
  300 < U64 ∧ (take_u64 [xac; x02; x7f] = Ok (300, [x7f]) ↔ [xac; x02; x7f] = put_u64 300 ++ [x7f]).
Proof. split; [done|]. apply (varint_canonical 300 [x7f] [xac; x02; x7f]). done. Defined.
End WireScenario.
