(* ===== verification/Chain.v ===== *)
(** * The canonical chain
    ([scone-blockchain]: [chain.rs], [finality.rs], [fork_choice.rs])

    The in-memory chain with its bounded window and anti-replay index,
    block validation and application, checkpoint finality, and the fork
    choice. *)

From S2P Require Import Prelude Bytes Crypto Names Codec Checkpoint Tx Wire State Blocks.

(** ** State *)

(** [scone-blockchain/src/chain.rs:26-26 REPLAY_WINDOW_BLOCKS] *)
Definition REPLAY_WINDOW_BLOCKS : N := 256.
(** [scone-blockchain/src/chain.rs:45-45 RAM_WINDOW_BLOCKS] *)
Definition RAM_WINDOW_BLOCKS : N := 512.
(** [scone-blockchain/src/finality.rs:55-55 CHECKPOINT_KEEP] *)
Definition CHECKPOINT_KEEP : nat := 64.

(** [scone-blockchain/src/finality.rs:61-75 FinalizedBase] *)
Record FinalizedBase := mkFinalizedBase {
  fb_checkpoint : Checkpoint;
  fb_pool : list PublicKey;
  fb_block_ts : N;
  fb_seed : hash }.

(** [scone-blockchain/src/chain.rs:73-115 Blockchain]; the consensus
    value is the instance of [Consensus] in scope. *)
Record Blockchain := mkBlockchain {
  bc_base_height : N;
  bc_canonical : list Block;
  bc_known_hashes : gmap N BlockHash;
  bc_tip : BlockHash;
  bc_network : NetworkParams;
  bc_state : ChainState;
  bc_included : gmap TxId N;
  bc_checkpoints : list Checkpoint;
  bc_finalized : option FinalizedBase }.

(** [scone-blockchain/src/chain.rs:120-129 AppliedBlock] *)
Record AppliedBlock := mkAppliedBlock {
  ab_hash : BlockHash;
  ab_gc_removed_domains : list DomainId }.

Definition with_state (s : ChainState) (c : Blockchain) : Blockchain :=
  mkBlockchain (bc_base_height c) (bc_canonical c) (bc_known_hashes c) (bc_tip c) (bc_network c) s
    (bc_included c) (bc_checkpoints c) (bc_finalized c).
Definition with_included (m : gmap TxId N) (c : Blockchain) : Blockchain :=
  mkBlockchain (bc_base_height c) (bc_canonical c) (bc_known_hashes c) (bc_tip c) (bc_network c)
    (bc_state c) m (bc_checkpoints c) (bc_finalized c).
Definition with_finality (cps : list Checkpoint) (f : option FinalizedBase) (c : Blockchain) : Blockchain :=
  mkBlockchain (bc_base_height c) (bc_canonical c) (bc_known_hashes c) (bc_tip c) (bc_network c)
    (bc_state c) (bc_included c) cps f.
Definition with_window (base : N) (blocks : list Block) (hashes : gmap N BlockHash) (c : Blockchain)
    : Blockchain :=
  mkBlockchain base blocks hashes (bc_tip c) (bc_network c) (bc_state c) (bc_included c)
    (bc_checkpoints c) (bc_finalized c).
Definition with_tip (tip : BlockHash) (c : Blockchain) : Blockchain :=
  mkBlockchain (bc_base_height c) (bc_canonical c) (bc_known_hashes c) tip (bc_network c)
    (bc_state c) (bc_included c) (bc_checkpoints c) (bc_finalized c).

Definition bk_height (b : Block) : N := bh_height (bk_header b).
Definition bk_timestamp (b : Block) : N := bh_timestamp (bk_header b).

Section chain.
Context `{Crypto}.

(** The [expect] on the genesis hash: see [genesis_hash_ok]. *)
Definition genesis_hash (network : NetworkParams) : BlockHash :=
  default (arr_zero 32) (to_option (header_hash (bk_header (genesis_of network)))).

(** [scone-blockchain/src/chain.rs:210-225 Blockchain::with_consensus_for_network] *)
Definition chain_for_network (network : NetworkParams) : Blockchain :=
  let hash := genesis_hash network in
  mkBlockchain 0 [genesis_of network] {[0 := hash]} hash network (State.for_network network) ∅ [] None.

(** [scone-blockchain/src/chain.rs:176-197 Blockchain::restore]: [None]
    is the documented panic. *)
Definition restore (tip_height : N) (tip : BlockHash) (tip_block : Block) (state : ChainState)
    : option Blockchain :=
  if negb (bk_height tip_block =? tip_height) then None
  else
    let network := cs_network state in
    Some (mkBlockchain tip_height [genesis_of network; tip_block]
      (<[tip_height := tip]> {[0 := genesis_hash network]}) tip network state ∅ [] None).

(** [scone-blockchain/src/chain.rs:229-231 Blockchain::genesis] *)
Definition genesis_block (c : Blockchain) : Block := nth 0 (bc_canonical c) (genesis_of (bc_network c)).

(** [scone-blockchain/src/chain.rs:235-237 Blockchain::tip]; the chain
    always holds genesis. *)
Definition tip_block (c : Blockchain) : Block :=
  List.last (bc_canonical c) (genesis_of (bc_network c)).

(** [scone-blockchain/src/chain.rs:247-249 Blockchain::height] *)
Definition chain_height (c : Blockchain) : N := bk_height (tip_block c).

(** [Option::filter] on the height. *)
Definition at_height (h : N) (o : option Block) : option Block :=
  match o with Some b => if bk_height b =? h then Some b else None | None => None end.

(** [scone-blockchain/src/chain.rs:261-280 Blockchain::block] *)
Definition block (c : Blockchain) (h : N) : option Block :=
  if h =? 0 then at_height 0 (head (bc_canonical c))
  else
    match checked_sub h (bc_base_height c) with
    | None => None
    | Some offset =>
        let index := if bc_base_height c =? 0 then offset else offset + 1 in
        at_height h (bc_canonical c !! N.to_nat index)
    end.

(** [scone-blockchain/src/chain.rs:292-295 Blockchain::block_result] *)
Definition block_result (c : Blockchain) (h : N) : result BlockchainError Block :=
  ok_or (block c h) (BlockPruned h).

(** [scone-blockchain/src/chain.rs:308-310 Blockchain::is_tx_included] *)
Definition is_tx_included (c : Blockchain) (id : TxId) : bool := bool_decide (is_Some (bc_included c !! id)).

(** [scone-blockchain/src/chain.rs:335-344 Blockchain::rebuild_replay_index] *)
Definition rebuild_replay_index (entries : list (TxId * N)) (c : Blockchain) : Blockchain :=
  let tip := chain_height c in
  let cutoff := tip - REPLAY_WINDOW_BLOCKS in
  with_included
    (fold_left (λ m '(id, h), if (tip <? h) || (h <=? cutoff) then m else <[id := h]> m)
       entries (bc_included c)) c.

(** [scone-blockchain/src/chain.rs:358-360 Blockchain::block_hash_at] *)
Definition block_hash_at (c : Blockchain) (h : N) : option BlockHash := bc_known_hashes c !! h.

(** [scone-blockchain/src/chain.rs:378-380 Blockchain::finality_floor] *)
Definition finality_floor (c : Blockchain) : option N :=
  match last (bc_checkpoints c) with Some cp => Some (height (data cp)) | None => None end.

(** [scone-blockchain/src/chain.rs:389-398 Blockchain::classify_parent_miss] *)
Definition classify_parent_miss (c : Blockchain) (child_height : N) : BlockchainError :=
  let parent_height := child_height - 1 in
  if (1 <=? parent_height) && (parent_height <? bc_base_height c) then BlockPruned parent_height
  else UnknownParent.

(** [for h in lo..hi { known_hashes.remove(&h) }] *)
Definition remove_heights (lo hi : N) (m : gmap N BlockHash) : gmap N BlockHash :=
  fold_left (λ m i, delete (lo + N.of_nat i) m) (seq 0 (N.to_nat (hi - lo))) m.

(** [scone-blockchain/src/chain.rs:414-445 Blockchain::evict_below_window] *)
Definition evict_below_window (c : Blockchain) : Blockchain :=
  match finality_floor c with
  | None => c
  | Some floor =>
      let window_start := chain_height c - (RAM_WINDOW_BLOCKS - 1) in
      let new_base := N.min window_start floor in
      if new_base <=? bc_base_height c then c
      else
        let n := N.to_nat (if bc_base_height c =? 0 then new_base - 1
                           else new_base - bc_base_height c) in
        with_window new_base
          (take 1 (bc_canonical c) ++ drop (1 + n) (bc_canonical c))
          (remove_heights (N.max (bc_base_height c) 1) new_base (bc_known_hashes c)) c
  end.

(** [known_hashes.values().any(|h| *h == prev)] *)
Definition known_hash (c : Blockchain) (prev : BlockHash) : bool :=
  existsb (λ hx, arr_eqb hx.2 prev) (map_to_list (bc_known_hashes c)).

(** ** Finality *)

(** [scone-blockchain/src/finality.rs:108-112 Blockchain::bootstrap_seed] *)
Definition bootstrap_seed (c : Blockchain) : hash :=
  next_seed (default (arr_zero 32) (to_option (header_hash (bk_header (genesis_block c))))).

Definition consensus_params (c : Blockchain) : ConsensusParams := np_consensus (bc_network c).

(** [scone-blockchain/src/finality.rs:83-104 Blockchain::committee] *)
Definition committee (c : Blockchain) (rec : N) : list PublicKey :=
  let size := committee_size (consensus_params c) in
  match bc_finalized c with
  | None =>
      if negb (rec =? 0) then []
      else select_committee (bootstrap_seed c) (eligible_validators (bc_state c)) size
  | Some base =>
      let seed := if rec =? 0 then fb_seed base else recovery_seed (fb_seed base) rec in
      select_committee seed (fb_pool base) size
  end.

(** [scone-blockchain/src/finality.rs:117-131 Blockchain::checkpoint_data] *)
Definition checkpoint_data (c : Blockchain) (rec : N) : result BlockchainError CheckpointData :=
  let '(ep, prev) :=
    match last (bc_checkpoints c) with
    | None => (0, arr_zero 32)
    | Some cp => (add64 (epoch (data cp)) 1, Checkpoint_hash cp)
    end in
  let? bh := header_hash (bk_header (tip_block c)) in
  Ok (mkCheckpointData ep (chain_height c) bh prev (state_root_smt (bc_state c)) rec).

(** [scone-blockchain/src/finality.rs:179-190 Blockchain::tip_ts_since_last_checkpoint] *)
Definition tip_ts_since_last_checkpoint (c : Blockchain) : N :=
  match last (bc_checkpoints c) with
  | None => 0
  | Some cp =>
      let cp_ts := match block c (height (data cp)) with Some b => bk_timestamp b | None => 0 end in
      bk_timestamp (tip_block c) - cp_ts
  end.

(** [scone-blockchain/src/finality.rs:137-174 Blockchain::check_checkpoint_data]:
    every rejection is [BlockchainError::Consensus] with a message. *)
Definition check_checkpoint_data (c : Blockchain) (d : CheckpointData) : result BlockchainError unit :=
  let bad := Err (E := BlockchainError) (A := unit) State.Consensus in
  let h := height d in
  if (h =? 0) || (chain_height c <? h) then bad
  else
    match last (bc_checkpoints c) with
    | None =>
        if negb (epoch d =? 0) || negb (arr_eqb (prev_checkpoint_hash d) (arr_zero 32)) then bad
        else Ok tt
    | Some cp =>
        if negb (epoch d =? add64 (epoch (data cp)) 1) then bad
        else if negb (arr_eqb (prev_checkpoint_hash d) (Checkpoint_hash cp)) then bad
        else if height d <=? height (data cp) then bad
        else if recovery_max_epochs (consensus_params c) <? recovery d then bad
        else if 1 <=? recovery d then
          let elapsed := tip_ts_since_last_checkpoint c in
          let need := mul64 (recovery d) (epoch_secs (consensus_params c)) in
          if elapsed <? need then bad else Ok tt
        else Ok tt
    end.

(** [scone-blockchain/src/finality.rs:195-202 Blockchain::propose_checkpoint] *)
Definition propose_checkpoint (c : Blockchain) : option CheckpointData :=
  let last_height := match last (bc_checkpoints c) with Some cp => height (data cp) | None => 0 end in
  let min_blocks := epoch_min_blocks (consensus_params c) in
  if (chain_height c <=? last_height) || (chain_height c - last_height <? min_blocks) then None
  else to_option (checkpoint_data c 0).

(** [scone-blockchain/src/finality.rs:225-273 Blockchain::accept_checkpoint] *)
Definition accept_checkpoint (c : Blockchain) (cp : Checkpoint)
    : Blockchain * result BlockchainError bool :=
  match check_checkpoint_data c (data cp) with
  | Err e => (c, Err e)
  | Ok tt =>
      let com := committee c (recovery (data cp)) in
      if (length com <? MIN_FINALITY_COMMITTEE_SIZE)%nat then (c, Err State.Consensus)
      else if negb (verify_quorum cp com (quorum_for (length com))) then (c, Err State.Consensus)
      else if (height (data cp) =? chain_height c) &&
              negb (arr_eqb (state_root (data cp)) (state_root_smt (bc_state c)))
      then (c, Err State.Consensus)
      else if match last (bc_checkpoints c) with
              | Some l => arr_eqb (Checkpoint_hash l) (Checkpoint_hash cp)
              | None => false
              end
      then (c, Ok false)
      else
        let block_ts := match block c (height (data cp)) with Some b => bk_timestamp b | None => 0 end in
        let pool := eligible_validators (bc_state c) in
        let seed := next_seed (Checkpoint_hash cp) in
        let cps := bc_checkpoints c ++ [cp] in
        let keep := (length cps - CHECKPOINT_KEEP)%nat in
        (with_finality (drop keep cps) (Some (mkFinalizedBase cp pool block_ts seed)) c, Ok true)
  end.

(** [scone-blockchain/src/finality.rs:282-309 Blockchain::allowed_producers] *)
Definition allowed_producers (c : Blockchain) (block_ts : N) : gset PublicKey :=
  let size := committee_size (consensus_params c) in
  match bc_finalized c with
  | None =>
      match eligible_validators (bc_state c) with
      | [] => ∅
      | pool => list_to_set (select_committee (bootstrap_seed c) pool size)
      end
  | Some base =>
      let elapsed := block_ts - fb_block_ts base in
      fold_left
        (λ set k,
          let k := N.of_nat k in
          if mul64 k (epoch_secs (consensus_params c)) <=? elapsed
          then set ∪ list_to_set (select_committee (recovery_seed (fb_seed base) k) (fb_pool base) size)
          else set)
        (seq 1 (N.to_nat (recovery_max_epochs (consensus_params c))))
        (list_to_set (select_committee (fb_seed base) (fb_pool base) size))
  end.

(** ** Block application *)
Section push.
Context `{Consensus}.

(** [scone-blockchain/src/chain.rs:523-527 Blockchain::push_block_with_gc]: the anti-replay test. *)
Definition replayed (c : Blockchain) (tx : Transaction) : bool :=
  match transaction_id tx with Ok id => is_tx_included c id | Err _ => false end.

(** [scone-blockchain/src/chain.rs:534-562 Blockchain::push_block_with_gc]: the producer check. *)
Definition check_producer (c : Blockchain) (header : BlockHeader) : result BlockchainError unit :=
  if bh_height header =? 0 then Ok tt
  else
    let? payload := ok_or (decode_producer_payload (bh_consensus header)) InvalidProducer in
    let? signing_hash := ok_or (producer_signing_hash header) InvalidProducer in
    if negb (verify_block_producer payload signing_hash) then Err InvalidProducer
    else
      let allowed := allowed_producers c (bh_timestamp header) in
      if negb (bool_decide (allowed = ∅)) && negb (bool_decide (pp_producer payload ∈ allowed))
      then Err InvalidProducer
      else Ok tt.

(** [scone-blockchain/src/chain.rs:471-562 Blockchain::push_block_with_gc]: the
    part that only reads; it returns the recomputed hash. *)
Definition check_block (c : Blockchain) (b : Block) : result BlockchainError BlockHash :=
  let header := bk_header b in
  if negb (arr_eqb (bh_prev_hash header) (bc_tip c)) then
    Err (if known_hash c (bh_prev_hash header) then ParentNotTip
         else classify_parent_miss c (bh_height header))
  else
    let? expected_height :=
      ok_or (checked_add64 (chain_height c) 1) (InvalidHeight U64_MAX (bh_height header)) in
    if negb (bh_height header =? expected_height)
    then Err (InvalidHeight expected_height (bh_height header))
    else if negb (bh_version header =? PROTOCOL_VERSION) then Err (InvalidVersion (bh_version header))
    else if MAX_TXS_PER_BLOCK <? N.of_nat (length (bk_transactions b))
    then Err (TooManyTransactions (length (bk_transactions b)))
    else
      let? root := tx_root (bk_transactions b) in
      if negb (arr_eqb root (bh_tx_root header)) then Err MerkleMismatch
      else if existsb (replayed c) (bk_transactions b) then Err TxReplay
      else
        let? hash := header_hash header in
        let? _ := validate_header header in
        let? _ := check_producer c header in
        Ok hash.

(** [scone-blockchain/src/chain.rs:578-586 Blockchain::push_block_with_gc]: the [apply] closure. *)
Fixpoint apply_block_txs (txs : list Transaction) (now : N) : M unit :=
  match txs with
  | [] => mret_ tt
  | tx :: txs =>
      run! lift (validate_transaction tx);
      run! lift (validate_tx tx);
      run! apply_journaled_at tx now;
      apply_block_txs txs now
  end.

(** [scone-blockchain/src/chain.rs:609-613 Blockchain::push_block_with_gc]: inclusion heights. *)
Definition record_included (b : Block) (m : gmap TxId N) : gmap TxId N :=
  fold_left (λ m tx, match transaction_id tx with Ok id => <[id := bk_height b]> m | Err _ => m end)
    (bk_transactions b) m.
(** [scone-blockchain/src/chain.rs:614-617 Blockchain::push_block_with_gc]: the [retain]. *)
Definition prune_included (h : N) (m : gmap TxId N) : gmap TxId N :=
  if REPLAY_WINDOW_BLOCKS <? h then filter (λ ih, h - REPLAY_WINDOW_BLOCKS < ih.2) m else m.

(** [scone-blockchain/src/chain.rs:596-617 Blockchain::push_block_with_gc]: an applied
    block is appended. *)
Definition append_block (b : Block) (hash : BlockHash) (c : Blockchain) : Blockchain :=
  let c := with_window (bc_base_height c) (bc_canonical c ++ [b])
             (<[bk_height b := hash]> (bc_known_hashes c)) c in
  let c := evict_below_window (with_tip hash c) in
  with_included (prune_included (bk_height b) (record_included b (bc_included c))) c.

(** [scone-blockchain/src/chain.rs:470-622 Blockchain::push_block_with_gc] *)
Definition push_block_with_gc (c : Blockchain) (b : Block)
    : Blockchain * result BlockchainError AppliedBlock :=
  match check_block c b with
  | Err e => (c, Err e)
  | Ok hash =>
      let parent_time := bk_timestamp (tip_block c) in
      let '(σ, gc_removed_domains) := gc_expired_journaled parent_time (bc_state c) UndoLog_default in
      match apply_block_txs (bk_transactions b) parent_time σ with
      | ((s, journal), Err e) => (with_state (rollback s journal) c, Err e)
      | ((s, _), Ok _) =>
          (append_block b hash (with_state s c), Ok (mkAppliedBlock hash gc_removed_domains))
      end
  end.

(** [scone-blockchain/src/chain.rs:456-458 Blockchain::push_block] *)
Definition push_block (c : Blockchain) (b : Block) : Blockchain * result BlockchainError BlockHash :=
  let '(c, r) := push_block_with_gc c b in (c, rmap ab_hash r).
End push.
End chain.
