(* ===== verification/ForkChoice.v ===== *)
(** * Fork choice ([scone-blockchain]: [fork_choice.rs])

    Attaching a block that does not extend the tip, adopting a branch,
    and the replay that switches chains.  The code implements it for the
    permissive consensus only. *)

From S2P Require Import Prelude Bytes Crypto Names Codec Checkpoint Tx Wire State Blocks Chain.

Section fork_choice.
Context `{Crypto}.

(** [scone-blockchain/src/fork_choice.rs:86-88 Blockchain::known_parent] *)
Definition known_parent (c : Blockchain) (prev : BlockHash) : bool := known_hash c prev.

(** [scone-blockchain/src/fork_choice.rs:228-237 Blockchain::swap_with]:
    [network] and [included] keep their values. *)
Definition swap_with (c other : Blockchain) : Blockchain :=
  mkBlockchain (bc_base_height other) (bc_canonical other) (bc_known_hashes other) (bc_tip other)
    (bc_network c) (bc_state other) (bc_included c) (bc_checkpoints other) (bc_finalized other).

(** [scone-blockchain/src/fork_choice.rs:190-197 Blockchain::reorg_to_height]: the
    prefix, heights [h], [h + 1], … *)
Fixpoint prefix_blocks (c : Blockchain) (n : nat) (h : N) : result BlockchainError (list Block) :=
  match n with
  | O => Ok []
  | S n =>
      let? b := ok_or (block c h) (BlockPruned h) in
      let? rest := prefix_blocks c n (h + 1) in
      Ok (b :: rest)
  end.

(** [scone-blockchain/src/fork_choice.rs:207-219 Blockchain::reorg_to_height]: blocks
    pushed one after the other, up to the first error. *)
Fixpoint push_all (c : Blockchain) (blocks : list Block) : result BlockchainError (Blockchain * list AppliedBlock) :=
  match blocks with
  | [] => Ok (c, [])
  | b :: blocks =>
      let '(c, r) := push_block_with_gc c b in
      let? applied := r in
      let? (c, rest) := push_all c blocks in
      Ok (c, applied :: rest)
  end.

(** [scone-blockchain/src/fork_choice.rs:178-224 Blockchain::reorg_to_height] *)
Definition reorg_to_height (c : Blockchain) (h : N) (extension : list Block)
    : Blockchain * result BlockchainError AppliedBlock :=
  let r :=
    let? prefix := prefix_blocks c (N.to_nat h + 1) 0 in
    let fresh := with_finality (bc_checkpoints c) (bc_finalized c) (chain_for_network (bc_network c)) in
    let? (fresh, _) := push_all fresh (tail prefix) in
    let? (fresh', applied) := push_all fresh extension in
    let last_hash := match last applied with Some a => ab_hash a | None => bc_tip fresh end in
    Ok (fresh', mkAppliedBlock last_hash (concat (map ab_gc_removed_domains applied))) in
  match r with
  | Err e => (c, Err e)
  | Ok (fresh, applied) => (swap_with c fresh, Ok applied)
  end.

(** [scone-blockchain/src/fork_choice.rs:47-81 Blockchain::try_attach] *)
Definition try_attach (c : Blockchain) (b : Block) : Blockchain * result BlockchainError AppliedBlock :=
  let header := bk_header b in
  if arr_eqb (bh_prev_hash header) (bc_tip c) then push_block_with_gc c b
  else if negb (known_parent c (bh_prev_hash header))
  then (c, Err (classify_parent_miss c (bh_height header)))
  else
    let candidate_height := bh_height header in
    if negb (candidate_height =? chain_height c) then (c, Err ParentNotTip)
    else
      match header_hash header with
      | Err e => (c, Err e)
      | Ok candidate_hash =>
          if bytes_leb (bc_tip c) candidate_hash then (c, Err ParentNotTip)
          else reorg_to_height c (sub64 candidate_height 1) [b]
      end.

(** [scone-blockchain/src/fork_choice.rs:100-107 Blockchain::adopt_branch]: the
    internal chaining of a branch. *)
Fixpoint branch_chains (prev : Block) (blocks : list Block) : result BlockchainError unit :=
  match blocks with
  | [] => Ok tt
  | b :: blocks =>
      let? h := header_hash (bk_header prev) in
      if negb (arr_eqb (bh_prev_hash (bk_header b)) h) then Err State.Consensus
      else branch_chains b blocks
  end.

(** [scone-blockchain/src/fork_choice.rs:141-146 Blockchain::adopt_branch]: the block a
    branch on [base] holds at height [h >= base_height]. *)
Definition branch_at (base : Block) (base_height : N) (blocks : list Block) (h : N) : option Block :=
  if h =? base_height then Some base else blocks !! N.to_nat (h - base_height - 1).

(** [scone-blockchain/src/fork_choice.rs:126-156 Blockchain::adopt_branch]: rule 1 for
    one checkpoint. *)
Definition floor_ok (base : Block) (base_height : N) (blocks : list Block) (cp : Checkpoint) : bool :=
  let h := height (data cp) in
  if h <? base_height then true
  else
    match branch_at base base_height blocks h with
    | None => false
    | Some b =>
        match header_hash (bk_header b) with
        | Ok x => arr_eqb x (block_hash (data cp))
        | Err _ => false
        end
    end.

(** [scone-blockchain/src/fork_choice.rs:94-170 Blockchain::adopt_branch] *)
Definition adopt_branch (c : Blockchain) (blocks : list Block) : Blockchain * result BlockchainError bool :=
  match blocks with
  | [] => (c, Ok false)
  | first :: rest =>
      let base_height := sub64 (bk_height first) 1 in
      let r :=
        let? _ := branch_chains first rest in
        let? base := ok_or (block c base_height) (BlockPruned base_height) in
        let? base_hash := header_hash (bk_header base) in
        if negb (arr_eqb (bh_prev_hash (bk_header first)) base_hash) then Err UnknownParent
        else if negb (forallb (floor_ok base base_height blocks) (bc_checkpoints c))
        then Err State.Consensus
        else
          let candidate_height := add64 base_height (N.of_nat (length blocks)) in
          let our_height := chain_height c in
          let? candidate_tip := header_hash (bk_header (List.last blocks first)) in
          Ok ((our_height <? candidate_height) ||
              (candidate_height =? our_height) && bytes_ltb candidate_tip (bc_tip c)) in
      match r with
      | Err e => (c, Err e)
      | Ok false => (c, Ok false)
      | Ok true =>
          let '(c', r) := reorg_to_height c base_height blocks in
          (c', rmap (λ _, true) r)
      end
  end.
End fork_choice.
