(* ===== verification/ChainProofs.v ===== *)
(** * The chain window

    The layout of the blocks in memory, its preservation by appending
    and by eviction, and the anti-replay index as a function of the
    canonical blocks. *)

From S2P Require Import Prelude Bytes Crypto Names Codec Checkpoint Tx Wire State Blocks BlocksProps.
From S2P Require Import Chain.

Section window.
Context `{Crypto}.

(** Height of the first block after genesis in memory. *)
Definition first_height (c : Blockchain) : N := N.max 1 (bc_base_height c).
Definition window (c : Blockchain) : list Block := tail (bc_canonical c).

(** The layout: genesis, then consecutive linked blocks up to the tip,
    indexed by the heights and hashes that are theirs. *)
Record chain_ok (c : Blockchain) : Prop := {
  ok_genesis : bc_canonical c = genesis_of (bc_network c) :: window c;
  ok_heights i b : window c !! i = Some b → bk_height b = first_height c + N.of_nat i;
  ok_window : window c = [] → bc_base_height c = 0;
  ok_hashes h x : bc_known_hashes c !! h = Some x ↔
    ∃ b, block c h = Some b ∧ header_hash (bk_header b) = Ok x;
  ok_tip : header_hash (bk_header (tip_block c)) = Ok (bc_tip c);
  ok_links h b b' : block c h = Some b → block c (h + 1) = Some b' →
    header_hash (bk_header b) = Ok (bh_prev_hash (bk_header b'));
  ok_bound : chain_height c < U64 }.

(** ** Blocks by height *)

Lemma first_height_pos c : 1 ≤ first_height c.
Proof. unfold first_height. lia. Qed.

Lemma block_lookup c h b :
  bc_canonical c = genesis_of (bc_network c) :: window c →
  (∀ i b, window c !! i = Some b → bk_height b = first_height c + N.of_nat i) →
  block c h = Some b ↔
    (h = 0 ∧ b = genesis_of (bc_network c)) ∨
    (first_height c ≤ h ∧ window c !! N.to_nat (h - first_height c) = Some b).
Proof.
  intros Hg Hh. pose proof (first_height_pos c) as Hpos. unfold block. rewrite Hg.
  destruct (N.eqb_spec h 0) as [->|Hne].
  { cbn. split; [intros [= <-]; by left|intros [[_ ->]|[? _]]; [done|lia]]. }
  unfold checked_sub, first_height in *. destruct (N.leb_spec (bc_base_height c) h) as [Hle|Hgt].
  2:{ split; [done|]. intros [[? _]|[? _]]; lia. }
  assert (N.to_nat (if bc_base_height c =? 0 then h - bc_base_height c else h - bc_base_height c + 1)
    = S (N.to_nat (h - N.max 1 (bc_base_height c)))) as ->.
  { destruct (N.eqb_spec (bc_base_height c) 0); lia. }
  cbn [lookup list_lookup]. change (list_lookup (N.to_nat (h - N.max 1 (bc_base_height c))) (window c))
    with (window c !! N.to_nat (h - N.max 1 (bc_base_height c))).
  destruct (window c !! N.to_nat (h - N.max 1 (bc_base_height c))) as [b'|] eqn:Eb; cbn [at_height].
  2:{ split; [done|]. intros [[? _]|[_ ?]]; [lia|done]. }
  apply Hh in Eb as Ehb. rewrite (proj2 (N.eqb_eq (bk_height b') h)) by lia. split.
  - intros [= <-]. right. split; [lia|done].
  - intros [[? _]|[_ E]]; [lia|done].
Qed.

Lemma block_spec c h b :
  chain_ok c →
  block c h = Some b ↔
    (h = 0 ∧ b = genesis_of (bc_network c)) ∨
    (first_height c ≤ h ∧ window c !! N.to_nat (h - first_height c) = Some b).
Proof. intros Hc. apply block_lookup; apply Hc. Qed.

Lemma block_height c h b : chain_ok c → block c h = Some b → bk_height b = h.
Proof.
  intros Hc [[-> ->]|[Hle Hb]]%block_spec; [done| |done].
  apply (ok_heights _ Hc) in Hb. lia.
Qed.

Lemma block_zero c : chain_ok c → block c 0 = Some (genesis_of (bc_network c)).
Proof. intros Hc. apply block_spec; [done|]. by left. Qed.

Lemma List_last_lookup {A} (l : list A) d :
  l ≠ [] → l !! (length l - 1)%nat = Some (List.last l d).
Proof.
  induction l as [|x l IH]; [done|]. intros _. destruct l as [|y l]; [done|].
  replace (length (x :: y :: l) - 1)%nat with (S (length (y :: l) - 1)) by (simpl; lia).
  cbn [lookup list_lookup]. by apply IH.
Qed.

(** The tip is the last block of the window, or genesis. *)
Lemma tip_cases c :
  chain_ok c →
  (window c = [] ∧ tip_block c = genesis_of (bc_network c) ∧ chain_height c = 0) ∨
  (window c !! (length (window c) - 1)%nat = Some (tip_block c) ∧
   chain_height c + 1 = first_height c + N.of_nat (length (window c)) ∧ window c ≠ []).
Proof.
  intros Hc. pose proof (ok_genesis _ Hc) as Hg. unfold chain_height, tip_block. rewrite Hg.
  destruct (window c) as [|b w] eqn:Ew; [left; done|right].
  change (List.last (genesis_of (bc_network c) :: b :: w) (genesis_of (bc_network c)))
    with (List.last (b :: w) (genesis_of (bc_network c))).
  pose proof (List_last_lookup (b :: w) (genesis_of (bc_network c)) ltac:(done)) as El.
  split; [exact El|]. rewrite <- Ew in El |- *. apply (ok_heights _ Hc) in El as Eh.
  split; [|by rewrite Ew]. rewrite Ew in *. rewrite Eh. simpl. lia.
Qed.

Lemma block_tip c : chain_ok c → block c (chain_height c) = Some (tip_block c).
Proof.
  intros Hc. apply block_spec; [done|].
  destruct (tip_cases c Hc) as [(_ & Et & ->)|(Et & Eh & Hne)]; [by left|right].
  assert (0 < N.of_nat (length (window c))) by (destruct (window c); [done|simpl; lia]).
  split; [lia|]. by replace (N.to_nat (chain_height c - first_height c)) with (length (window c) - 1)%nat by lia.
Qed.

(** The heights in memory. *)
Lemma block_is_Some c h :
  chain_ok c → is_Some (block c h) ↔ h = 0 ∨ first_height c ≤ h ≤ chain_height c.
Proof.
  intros Hc. pose proof (first_height_pos c). split.
  - intros [b [[-> _]|[Hle Hb]]%block_spec]; [by left| |done]. right.
    apply lookup_lt_Some in Hb. destruct (tip_cases c Hc) as [(Ew & _)|(_ & Eh & _)]; [|lia].
    rewrite Ew in Hb. simpl in Hb. lia.
  - intros [->|[Hlo Hhi]]; [rewrite block_zero; [by eexists|done]|].
    destruct (tip_cases c Hc) as [(_ & _ & E)|(_ & Eh & Hne)]; [lia|].
    destruct (lookup_lt_is_Some_2 (window c) (N.to_nat (h - first_height c))) as [b Hb]; [lia|].
    exists b. apply block_spec; [done|]. by right.
Qed.

Lemma base_le_height c : chain_ok c → bc_base_height c ≤ chain_height c.
Proof.
  intros Hc. destruct (tip_cases c Hc) as [(Ew & _ & _)|(_ & Eh & Hne)].
  - rewrite (ok_window _ Hc Ew). lia.
  - assert (0 < N.of_nat (length (window c))) by (destruct (window c); [done|simpl; lia]).
    unfold first_height in Eh. lia.
Qed.

(** Every block in memory but the tip is the parent of the next. *)
Lemma block_parent c h b :
  chain_ok c → block c (h + 1) = Some b → first_height c < h + 1 → ∃ p, block c h = Some p ∧
  header_hash (bk_header p) = Ok (bh_prev_hash (bk_header b)).
Proof.
  intros Hc Hb Hlt. destruct (proj2 (block_is_Some c h Hc)) as [p Hp].
  { right. assert (is_Some (block c (h + 1))) as Hs by by eexists.
    apply block_is_Some in Hs; [|done]. lia. }
  exists p. split; [done|]. by eapply ok_links.
Qed.

(** ** The initial chain *)

Lemma genesis_hash_ok net : header_hash (bk_header (genesis_of net)) = Ok (genesis_hash net).
Proof.
  unfold genesis_hash. destruct (proj2 (header_hash_is_ok (bk_header (genesis_of net)))) as [x Hx].
  { split; [done|]. cbn [genesis_of bk_header bh_consensus]. unfold blen, NetworkId_as_bytes, MAX_CONSENSUS_LEN.
    rewrite length_take, arr_length. lia. }
  by rewrite Hx.
Qed.

Lemma chain_for_network_ok net : chain_ok (chain_for_network net).
Proof.
  assert (∀ h b, block (chain_for_network net) h = Some b ↔ h = 0 ∧ b = genesis_of net) as Hb.
  { intros h b. rewrite block_lookup by done. cbn [chain_for_network window bc_canonical tail bc_network].
    rewrite lookup_nil. naive_solver. }
  split; [done..| | | |].
  - intros h x. cbn [bc_known_hashes chain_for_network]. rewrite lookup_singleton_Some. setoid_rewrite Hb.
    pose proof (genesis_hash_ok net) as Hg. split.
    + intros [<- <-]. eexists. split; [by split|done].
    + intros (b & [-> ->] & E). split; [done|]. rewrite Hg in E. by injection E.
  - apply genesis_hash_ok.
  - intros h b b' _ [? _]%Hb. lia.
  - done.
Qed.

(** A chain restored from a snapshot above height 1: genesis, a gap, and
    the tip. *)
Lemma restored_ok h tip b s c :
  restore h tip b s = Some c → 1 < h < U64 → header_hash (bk_header b) = Ok tip →
  chain_ok c ∧ bc_base_height c = h ∧ bc_tip c = tip ∧ tip_block c = b ∧
  bc_canonical c = [genesis_of (cs_network s); b].
Proof.
  unfold restore. destruct (N.eqb_spec (bk_height b) h) as [Eh|]; cbn [negb]; [|done].
  intros [= <-] Hh Htip. set (c := mkBlockchain _ _ _ _ _ _ _ _ _). split; [|done].
  assert (∀ k y, block c k = Some y ↔ k = 0 ∧ y = genesis_of (cs_network s) ∨ k = h ∧ y = b) as Hb.
  { intros k y. rewrite block_lookup; [|done|].
    - change (window c) with [b]. change (first_height c) with (N.max 1 h).
      change (bc_network c) with (cs_network s). rewrite list_lookup_singleton_Some.
      split; (intros [?|[? H1]]; [by left|right]).
      + destruct H1. split; [lia|done].
      + split; [lia|]. split; [lia|done].
    - intros i y'. change (window c) with [b]. intros [-> <-]%list_lookup_singleton_Some.
      unfold first_height. change (bc_base_height c) with h. lia. }
  split; try done.
  - intros i y. change (window c) with [b]. intros [-> <-]%list_lookup_singleton_Some.
    unfold first_height. change (bc_base_height c) with h. lia.
  - intros k x. cbn [c bc_known_hashes]. rewrite lookup_insert_Some, lookup_singleton_Some. setoid_rewrite Hb.
    pose proof (genesis_hash_ok (cs_network s)) as Hg. split.
    + intros [[<- <-]|[_ [<- <-]]]; eauto 6.
    + intros (y & [[-> ->]|[-> ->]] & E); [right; split; [lia|]|left]; split; congruence.
  - intros k y y' Hy Hy'. apply Hb in Hy, Hy'. lia.
  - change (bk_height b < U64). lia.
Qed.

(** ** Appending *)

(** [append_block] before eviction and the index update. *)
Definition extended (b : Block) (hash : BlockHash) (c : Blockchain) : Blockchain :=
  with_tip hash (with_window (bc_base_height c) (bc_canonical c ++ [b])
    (<[bk_height b := hash]> (bc_known_hashes c)) c).

Lemma extended_window b hash c :
  chain_ok c → window (extended b hash c) = window c ++ [b].
Proof. intros Hc. unfold window. cbn [extended bc_canonical with_tip with_window]. by rewrite (ok_genesis _ Hc). Qed.

Lemma extended_tip b hash c : tip_block (extended b hash c) = b.
Proof. unfold tip_block. cbn [extended bc_canonical with_tip with_window]. by rewrite last_last. Qed.

Lemma extended_block b hash c h :
  chain_ok c → bk_height b = chain_height c + 1 →
  block (extended b hash c) h = if decide (h = bk_height b) then Some b else block c h.
Proof.
  intros Hc Hb. pose proof (first_height_pos c).
  assert (chain_height c + 1 = first_height c + N.of_nat (length (window c))) as Hlen.
  { destruct (tip_cases c Hc) as [(Ew & _ & ->)|(_ & -> & _)]; [|done].
    rewrite Ew. unfold first_height. rewrite (ok_window _ Hc Ew). done. }
  apply option_eq. intros x. rewrite block_lookup.
  - rewrite extended_window by done. change (first_height (extended b hash c)) with (first_height c).
    change (bc_network (extended b hash c)) with (bc_network c). case_decide as Eh.
    + split.
      * intros [[? _]|[_ Hx]]; [lia|]. rewrite lookup_app_r in Hx by lia.
        replace (N.to_nat (h - first_height c) - length (window c))%nat with 0%nat in Hx by lia. done.
      * intros [= <-]. right. split; [lia|]. rewrite lookup_app_r by lia.
        by replace (N.to_nat (h - first_height c) - length (window c))%nat with 0%nat by lia.
    + rewrite block_spec by done. split; (intros [?|[? Hx]]; [by left|right; split; [done|]]).
      * destruct (decide (N.to_nat (h - first_height c) < length (window c))%nat).
        { by rewrite lookup_app_l in Hx. }
        rewrite lookup_app_r in Hx by lia. apply lookup_lt_Some in Hx. simpl in Hx. lia.
      * by apply lookup_app_l_Some.
  - cbn [extended bc_canonical with_tip with_window]. rewrite extended_window by done.
    change (bc_network (extended b hash c)) with (bc_network c). by rewrite (ok_genesis _ Hc) at 1.
  - intros i y. rewrite extended_window by done. change (first_height (extended b hash c)) with (first_height c).
    intros [Hy|[Hi Hy]]%lookup_app_Some; [by apply (ok_heights _ Hc)|].
    apply lookup_lt_Some in Hy as Hl. simpl in Hl.
    replace (i - length (window c))%nat with 0%nat in Hy by lia. injection Hy as <-. lia.
Qed.

Lemma extended_ok b hash c :
  chain_ok c → bk_height b = chain_height c + 1 → bh_prev_hash (bk_header b) = bc_tip c →
  header_hash (bk_header b) = Ok hash → bk_height b < U64 → chain_ok (extended b hash c).
Proof.
  intros Hc Hb Hp Hh Hlt. pose proof (extended_block b hash c) as Hblk. split.
  - cbn [extended bc_canonical with_tip with_window]. rewrite extended_window by done.
    change (bc_network (extended b hash c)) with (bc_network c). by rewrite (ok_genesis _ Hc) at 1.
  - intros i y. rewrite extended_window by done. change (first_height (extended b hash c)) with (first_height c).
    intros [Hy|[Hi Hy]]%lookup_app_Some; [by apply (ok_heights _ Hc)|].
    apply lookup_lt_Some in Hy as Hl. simpl in Hl.
    replace (i - length (window c))%nat with 0%nat in Hy by lia. injection Hy as <-.
    destruct (tip_cases c Hc) as [(Ew & _ & E)|(_ & E & _)]; [|lia].
    rewrite Ew in *. simpl in *. unfold first_height. rewrite (ok_window _ Hc Ew). lia.
  - rewrite extended_window by done. by intros [_ ?]%app_nil.
  - intros h x. change (bc_known_hashes (extended b hash c)) with (<[bk_height b := hash]> (bc_known_hashes c)).
    rewrite Hblk by done. rewrite lookup_insert. case_decide as Eh; case_decide; try congruence.
    + split; [intros [= <-]; eauto|]. intros (y & [= <-] & E). congruence.
    + apply (ok_hashes _ Hc).
  - by rewrite extended_tip.
  - intros h y y'. rewrite !Hblk by done. case_decide as E1; case_decide as E2.
    + lia.
    + intros _ Hy'. assert (is_Some (block c (h + 1))) as Hs by by eexists.
      apply block_is_Some in Hs; [lia|done].
    + intros Hy [= <-]. rewrite Hp. assert (h = chain_height c) as -> by lia.
      rewrite block_tip in Hy by done. injection Hy as <-. apply (ok_tip _ Hc).
    + apply (ok_links _ Hc).
  - unfold chain_height. by rewrite extended_tip.
Qed.

(** ** Eviction *)

Lemma remove_heights_lookup lo hi m h :
  remove_heights lo hi m !! h = if decide (lo ≤ h < hi) then None else m !! h.
Proof.
  unfold remove_heights. assert (∀ (n k : nat) (m : gmap N BlockHash), fold_left (λ m i, delete (lo + N.of_nat i) m) (seq k n) m !! h
    = if decide (lo + N.of_nat k ≤ h < lo + N.of_nat k + N.of_nat n) then None else m !! h) as Hl.
  { clear m. induction n as [|n IH]; intros k m; cbn [seq fold_left]; [by rewrite decide_False by lia|].
    rewrite IH, lookup_delete. repeat case_decide; try done; lia. }
  rewrite Hl. by repeat case_decide; try done; lia.
Qed.

(** Where the window starts after eviction. *)
Definition evicted_base (c : Blockchain) : N :=
  match finality_floor c with
  | None => bc_base_height c
  | Some floor => N.max (bc_base_height c) (N.min (chain_height c - (RAM_WINDOW_BLOCKS - 1)) floor)
  end.

(** Eviction keeps genesis and the blocks from its base on. *)
Definition evicted (c : Blockchain) : Blockchain :=
  with_window (evicted_base c)
    (genesis_of (bc_network c) :: drop (N.to_nat (evicted_base c - first_height c)) (window c))
    (remove_heights (first_height c) (evicted_base c) (bc_known_hashes c)) c.

Lemma remove_heights_none lo hi m : hi ≤ lo → remove_heights lo hi m = m.
Proof. intros Hl. unfold remove_heights. by replace (N.to_nat (hi - lo)) with 0%nat by lia. Qed.

Lemma evict_eq c : chain_ok c → evict_below_window c = evicted c.
Proof.
  intros Hc. assert (evicted_base c = bc_base_height c → evicted c = c) as Hsame.
  { intros E. unfold evicted. rewrite E, remove_heights_none by (unfold first_height; lia).
    replace (N.to_nat (bc_base_height c - first_height c)) with 0%nat by (unfold first_height; lia).
    rewrite drop_0, <- (ok_genesis _ Hc). by destruct c. }
  unfold evict_below_window, evicted, evicted_base in *. destruct (finality_floor c) as [floor|]; [|by rewrite Hsame].
  set (nb := N.min (chain_height c - (RAM_WINDOW_BLOCKS - 1)) floor) in *.
  destruct (N.leb_spec nb (bc_base_height c)) as [Hle|Hgt]; [by rewrite Hsame by lia|].
  rewrite (N.max_r (bc_base_height c) nb) by lia. rewrite N.max_comm. fold (first_height c). f_equal.
  rewrite (ok_genesis _ Hc). cbn [take app Nat.add drop]. f_equal. rewrite take_0. cbn [app]. f_equal.
  unfold first_height. destruct (N.eqb_spec (bc_base_height c) 0); lia.
Qed.

Lemma evicted_base_le c : chain_ok c → bc_base_height c ≤ evicted_base c ≤ chain_height c.
Proof.
  intros Hc. pose proof (base_le_height c Hc). unfold evicted_base. destruct (finality_floor c); lia.
Qed.

Lemma evicted_tip c : chain_ok c → tip_block (evicted c) = tip_block c.
Proof.
  intros Hc. pose proof (evicted_base_le c Hc) as Hb. pose proof (first_height_pos c).
  destruct (tip_cases c Hc) as [(Ew & -> & _)|(El & Eh & Hne)].
  { unfold tip_block. cbn [evicted bc_canonical with_window bc_network]. by rewrite Ew, drop_nil. }
  set (n := N.to_nat (evicted_base c - first_height c)).
  assert (n < length (window c))%nat as Hn.
  { destruct (window c); [done|]. unfold n. simpl in *. lia. }
  assert (drop n (window c) ≠ []) as Hd.
  { intros E%(f_equal length). rewrite length_drop in E. simpl in E. lia. }
  assert (Some (tip_block (evicted c)) = Some (tip_block c)) as [=]; [|done].
  unfold tip_block at 1. cbn [evicted bc_canonical with_window bc_network]. fold n. rewrite <- El.
  transitivity (Some (List.last (drop n (window c)) (genesis_of (bc_network c)))); [by destruct (drop n (window c))|].
  rewrite <- List_last_lookup by done. rewrite length_drop, lookup_drop. f_equal. lia.
Qed.

Lemma evicted_height c : chain_ok c → chain_height (evicted c) = chain_height c.
Proof. intros Hc. unfold chain_height. by rewrite evicted_tip. Qed.

Lemma evicted_layout c :
  chain_ok c →
  window (evicted c) = drop (N.to_nat (evicted_base c - first_height c)) (window c) ∧
  ∀ i b, window (evicted c) !! i = Some b → bk_height b = first_height (evicted c) + N.of_nat i.
Proof.
  intros Hc. assert (window (evicted c) = drop (N.to_nat (evicted_base c - first_height c)) (window c)) as E by done.
  split; [done|]. intros i b. rewrite E, lookup_drop. intros Hb%(ok_heights _ Hc).
  rewrite Hb. pose proof (evicted_base_le c Hc). unfold first_height.
  change (bc_base_height (evicted c)) with (evicted_base c). unfold first_height in *. lia.
Qed.

Lemma evicted_block c h :
  chain_ok c →
  block (evicted c) h = if decide (1 ≤ h < evicted_base c) then None else block c h.
Proof.
  intros Hc. destruct (evicted_layout c Hc) as [Ew Hh]. pose proof (evicted_base_le c Hc) as Hb.
  apply option_eq. intros b. rewrite block_lookup; [|done|done].
  rewrite Ew, lookup_drop. change (bc_network (evicted c)) with (bc_network c).
  assert (first_height (evicted c) = N.max 1 (evicted_base c)) as -> by done.
  case_decide as Hd.
  - split; [|done]. intros [[? _]|[? _]]; lia.
  - rewrite block_spec by done. unfold first_height in *. split; (intros [?|[? E]]; [by left|right; split; [lia|]]).
    + rewrite <- E. f_equal. lia.
    + rewrite <- E. f_equal. lia.
Qed.

Lemma evicted_ok c : chain_ok c → chain_ok (evicted c).
Proof.
  intros Hc. destruct (evicted_layout c Hc) as [Ew Hh]. pose proof (evicted_base_le c Hc) as Hb. split.
  - done.
  - exact Hh.
  - rewrite Ew. intros E%(f_equal length). rewrite length_drop in E. simpl in E.
    change (bc_base_height (evicted c)) with (evicted_base c).
    destruct (tip_cases c Hc) as [(E0 & _ & Et)|(_ & Et & Hne)]; [lia|].
    destruct (window c); [done|]. simpl in *. pose proof (first_height_pos c). lia.
  - intros h x. change (bc_known_hashes (evicted c)) with
      (remove_heights (first_height c) (evicted_base c) (bc_known_hashes c)).
    rewrite remove_heights_lookup. rewrite evicted_block by done.
    pose proof (first_height_pos c). case_decide as Hr; [rewrite decide_True by lia; naive_solver|].
    rewrite (ok_hashes _ Hc). case_decide as Hr'; [|done]. split; [|naive_solver].
    intros (b & Hbk & _). assert (is_Some (block c h)) as Hs by by eexists.
    apply block_is_Some in Hs; [lia|done].
  - rewrite evicted_tip by done. apply (ok_tip _ Hc).
  - intros h b b'. rewrite !evicted_block by done. case_decide; [done|]. case_decide; [done|].
    apply (ok_links _ Hc).
  - rewrite evicted_height by done. apply (ok_bound _ Hc).
Qed.

(** The layout does not read the state, the index or the checkpoints. *)
Lemma chain_ok_frame c c' :
  bc_base_height c' = bc_base_height c → bc_canonical c' = bc_canonical c →
  bc_known_hashes c' = bc_known_hashes c → bc_tip c' = bc_tip c → bc_network c' = bc_network c →
  chain_ok c → chain_ok c'.
Proof. destruct c, c'. cbn. intros -> -> -> -> -> []. by split. Qed.

(** ** Pushing a block *)
Context `{Consensus}.

Lemma check_block_Ok c b x :
  chain_ok c →
  check_block c b = Ok x ↔
    bh_prev_hash (bk_header b) = bc_tip c ∧ chain_height c + 1 < U64 ∧
    bk_height b = chain_height c + 1 ∧ bh_version (bk_header b) = PROTOCOL_VERSION ∧
    N.of_nat (length (bk_transactions b)) ≤ MAX_TXS_PER_BLOCK ∧
    tx_root (bk_transactions b) = Ok (bh_tx_root (bk_header b)) ∧
    (∀ tx, tx ∈ bk_transactions b → replayed c tx = false) ∧
    header_hash (bk_header b) = Ok x ∧ validate_header (bk_header b) = Ok tt ∧
    check_producer c (bk_header b) = Ok tt.
Proof.
  intros Hc. pose proof (ok_bound _ Hc) as Hu. unfold check_block, arr_eqb, checked_add64.
  case_bool_decide as Hp; cbn [negb]; [|naive_solver].
  destruct (N.leb_spec (chain_height c + 1) U64_MAX) as [Hm|Hm]; cbn [ok_or rbind].
  2:{ split; [done|]. unfold U64_MAX, U64 in *. lia. }
  change (bk_height b) with (bh_height (bk_header b)).
  destruct (N.eqb_spec (bh_height (bk_header b)) (chain_height c + 1)); cbn [negb]; [|naive_solver].
  destruct (N.eqb_spec (bh_version (bk_header b)) PROTOCOL_VERSION); cbn [negb]; [|naive_solver].
  destruct (N.ltb_spec MAX_TXS_PER_BLOCK (N.of_nat (length (bk_transactions b)))) as [?|Hn].
  { split; [done|]. intros (_ & _ & _ & _ & ? & _). lia. }
  destruct (tx_root (bk_transactions b)) as [root|]; cbn [rbind]; [|naive_solver].
  case_bool_decide as Hr; cbn [negb]; [|naive_solver].
  destruct (existsb (replayed c) (bk_transactions b)) eqn:Ex.
  { split; [done|]. intros (_&_&_&_&_&_& Hall & _).
    apply existsb_exists in Ex as (tx & Hin & Etx). rewrite Hall in Etx by by apply list_elem_of_In. done. }
  assert (∀ tx, tx ∈ bk_transactions b → replayed c tx = false) as Hall.
  { intros tx Hin. destruct (replayed c tx) eqn:Er; [|done].
    rewrite <- Ex. symmetry. apply existsb_exists. exists tx. split; [by apply list_elem_of_In|done]. }
  destruct (header_hash (bk_header b)) as [y|]; cbn [rbind]; [|naive_solver].
  destruct (validate_header (bk_header b)) as [[]|]; cbn [rbind]; [|naive_solver].
  destruct (check_producer c (bk_header b)) as [[]|]; cbn [rbind]; [|naive_solver].
  unfold U64_MAX in Hm. split; [|naive_solver]. intros [= <-]. split_and!; try done; [unfold U64 in *; lia|congruence].
Qed.

(** What an accepted block does to everything but the chain state. *)
Record pushed (c : Blockchain) (b : Block) (c' : Blockchain) (a : AppliedBlock) : Prop := {
  pu_check : check_block c b = Ok (ab_hash a);
  pu_ok : chain_ok c';
  pu_tip_block : tip_block c' = b;
  pu_tip : bc_tip c' = ab_hash a;
  pu_height : chain_height c' = chain_height c + 1;
  pu_base : bc_base_height c' =
    match finality_floor c with
    | None => bc_base_height c
    | Some floor => N.max (bc_base_height c) (N.min (chain_height c' - (RAM_WINDOW_BLOCKS - 1)) floor)
    end;
  pu_block h : block c' h =
    if decide (1 ≤ h < bc_base_height c') then None
    else if decide (h = chain_height c') then Some b else block c h;
  pu_network : bc_network c' = bc_network c;
  pu_checkpoints : bc_checkpoints c' = bc_checkpoints c;
  pu_finalized : bc_finalized c' = bc_finalized c;
  pu_included : bc_included c' = prune_included (chain_height c') (record_included b (bc_included c)) }.

Lemma append_pushed c b s a :
  chain_ok c → check_block c b = Ok (ab_hash a) →
  pushed c b (append_block b (ab_hash a) (with_state s c)) a.
Proof.
  intros Hc Hk. pose proof Hk as (Hp & Hu & Hh & _ & _ & _ & _ & Hx & _)%check_block_Ok; [|done].
  assert (chain_ok (with_state s c)) as Hs by (by eapply chain_ok_frame; [..|exact Hc]).
  pose proof (extended_ok b (ab_hash a) (with_state s c) Hs Hh Hp Hx ltac:(rewrite Hh; exact Hu)) as He.
  assert (append_block b (ab_hash a) (with_state s c) =
    with_included (prune_included (bk_height b) (record_included b (bc_included c)))
      (evicted (extended b (ab_hash a) (with_state s c)))) as ->.
  { unfold append_block. fold (extended b (ab_hash a) (with_state s c)). rewrite evict_eq by done. done. }
  set (e := extended b (ab_hash a) (with_state s c)) in *.
  assert (tip_block (evicted e) = b) as Et by (rewrite evicted_tip by done; apply extended_tip).
  assert (chain_height (evicted e) = chain_height c + 1) as Eh by (unfold chain_height at 1; by rewrite Et).
  split; try done.
  - eapply chain_ok_frame; [..|apply evicted_ok, He]; done.
  - change (bc_base_height (with_included _ ?x)) with (bc_base_height x).
    change (bc_base_height (evicted e)) with (evicted_base e). unfold evicted_base.
    change (finality_floor e) with (finality_floor c). change (bc_base_height e) with (bc_base_height c).
    destruct (finality_floor c); [|done].
    change (chain_height (with_included _ ?x)) with (chain_height x). by rewrite evicted_height.
  - intros h. change (block (with_included _ ?x) h) with (block x h).
    change (chain_height (with_included _ ?x)) with (chain_height x). rewrite Eh, <- Hh.
    rewrite evicted_block by done. case_decide; [by rewrite decide_True|]. rewrite decide_False by done.
    unfold e. rewrite extended_block by done. done.
  - change (bc_included (with_included ?m _)) with m.
    change (chain_height (with_included _ ?x)) with (chain_height x). by rewrite Eh, Hh.
Qed.

Lemma push_pushed c b c' a :
  chain_ok c → push_block_with_gc c b = (c', Ok a) → pushed c b c' a.
Proof.
  intros Hc. unfold push_block_with_gc. destruct (check_block c b) as [x|e] eqn:Ek; [|done].
  destruct (gc_expired_journaled _ _ _) as [σ gc]. destruct (apply_block_txs _ _ σ) as [[s j] [u|e]]; [|done].
  intros [= <- <-]. by apply (append_pushed c b s (mkAppliedBlock x gc)).
Qed.

(** A rejected block changes the chain state at most. *)
Lemma push_rejected c b c' e :
  push_block_with_gc c b = (c', Err e) → ∃ s, c' = with_state s c.
Proof.
  unfold push_block_with_gc. destruct (check_block c b) as [x|e'].
  2:{ intros [= <- _]. exists (bc_state c). by destruct c. }
  destruct (gc_expired_journaled _ _ _) as [σ gc]. destruct (apply_block_txs _ _ σ) as [[s j] [u|e']]; [done|].
  intros [= <- _]. by eexists.
Qed.

(** ** The anti-replay index *)

(** The block records the transaction identifier [id]. *)
Definition carries (b : Block) (id : TxId) : Prop :=
  ∃ tx, tx ∈ bk_transactions b ∧ transaction_id tx = Ok id.

(** The index as a function of the canonical blocks of the window. *)
Definition replay_ok (c : Blockchain) : Prop :=
  ∀ (id : hash) h, bc_included c !! id = Some h ↔
    1 ≤ h ∧ h ≤ chain_height c ∧ chain_height c < h + REPLAY_WINDOW_BLOCKS ∧
    ∃ b, block c h = Some b ∧ carries b id.

(** The blocks of the anti-replay window are in memory. *)
Definition wide (c : Blockchain) : Prop :=
  bc_base_height c ≤ chain_height c - (RAM_WINDOW_BLOCKS - 1).

Lemma record_included_lookup b m (id : hash) h :
  record_included b m !! id = Some h ↔
    (carries b id ∧ h = bk_height b) ∨ (¬ carries b id ∧ m !! id = Some h).
Proof.
  unfold record_included, carries. revert m. induction (bk_transactions b) as [|tx txs IH]; intros m; cbn [fold_left].
  { split; [|intros [[(? & ?%elem_of_nil & _) _]|[_ ?]]; done]. intros ?. right. split; [|done].
    by intros (? & ?%elem_of_nil & _). }
  rewrite IH. clear IH. setoid_rewrite elem_of_cons.
  destruct (transaction_id tx) as [x|e] eqn:Et.
  - rewrite lookup_insert. split.
    + intros [[(t & ? & ?) ->]|[Hn Hm]]; [left; eauto|]. case_decide as Ex; [subst x|].
      * injection Hm as <-. left. eauto.
      * right. split; [|done]. intros (t & [->|?] & E); [congruence|eauto].
    + intros [[(t & [->|Ht] & E) ->]|[Hn Hm]].
      * rewrite Et in E. injection E as ->. rewrite decide_True by done.
        destruct (decide (Exists (λ t, transaction_id t = Ok id) txs)) as [Hex|Hex].
        { left. apply Exists_exists in Hex as (t & ? & ?). eauto. }
        right. split; [|done]. intros (t & ? & ?). apply Hex, Exists_exists. eauto.
      * left. eauto.
      * right. split; [naive_solver|]. rewrite decide_False; [done|]. intros ->. naive_solver.
  - split; [|naive_solver congruence].
    intros [[(t & ? & ?) ->]|[Hn Hm]]; [left; eauto|]. right. split; [|done].
    intros (t & [->|?] & E); [congruence|eauto].
Qed.

Lemma prune_included_lookup k m (id : hash) h :
  (∀ id h, m !! id = Some h → 1 ≤ h) →
  prune_included k m !! id = Some h ↔ m !! id = Some h ∧ k < h + REPLAY_WINDOW_BLOCKS.
Proof.
  intros Hm. unfold prune_included. destruct (N.ltb_spec REPLAY_WINDOW_BLOCKS k).
  - rewrite map_lookup_filter_Some. cbn. split; (intros [? ?]; split; [done|lia]).
  - split; [|by intros [? _]]. intros E. split; [done|]. apply Hm in E. lia.
Qed.

(** Pushing keeps the index exact: a re-included transaction is
    rejected, so an identifier has one inclusion height. *)
Lemma pushed_replay c b c' a :
  chain_ok c → wide c → replay_ok c → pushed c b c' a → wide c' ∧ replay_ok c'.
Proof.
  intros Hc Hw Hr Hpu. pose proof (pu_height _ _ _ _ Hpu) as Eh. pose proof (pu_base _ _ _ _ Hpu) as Eb.
  pose proof (pu_check _ _ _ _ Hpu) as (_ & _ & Hb & _ & _ & _ & Hfresh & _)%check_block_Ok; [|done].
  assert (wide c') as Hw'.
  { unfold wide in *. rewrite Eb. destruct (finality_floor c); lia. }
  split; [done|]. intros id h. rewrite (pu_included _ _ _ _ Hpu), prune_included_lookup.
  2:{ intros id' h' [[_ ->]|[_ E]]%record_included_lookup; [lia|]. by apply Hr in E as [? _]. }
  rewrite record_included_lookup, (pu_block _ _ _ _ Hpu), Hb, <- Eh. unfold wide in Hw'. split.
  - intros [[[Hcb ->]|[Hn Hm]] Hk].
    + rewrite decide_False by lia. rewrite decide_True by done. split_and!; [lia..|]. eauto.
    + apply Hr in Hm as (? & ? & _ & x & Hx & Hcx). rewrite decide_False by (unfold RAM_WINDOW_BLOCKS, REPLAY_WINDOW_BLOCKS in *; lia).
      rewrite decide_False by lia. split_and!; [lia..|]. eauto.
  - intros (H1 & Hle & Hk & x & Hx & Hcx). split; [|done].
    rewrite decide_False in Hx by (unfold RAM_WINDOW_BLOCKS, REPLAY_WINDOW_BLOCKS in *; lia).
    case_decide as Et; [injection Hx as <-; by left|]. right.
    assert (bc_included c !! id = Some h) as Hi by (apply Hr; split_and!; [done|lia|lia|eauto]).
    split; [|done]. intros (tx & Hin & Etx). specialize (Hfresh tx Hin). unfold replayed, is_tx_included in Hfresh.
    rewrite Etx in Hfresh. apply bool_decide_eq_false in Hfresh. apply Hfresh. by eexists.
Qed.
End window.
