(* ===== verification/ChainProps.v ===== *)
(** * Properties of the canonical chain

    Block application against the rule of the registry, atomicity, the
    window, the anti-replay index, and the production of blocks that
    every node accepts. *)

From S2P Require Import Prelude Bytes Crypto Commitment Smt SmtProofs Names Icann Codec Checkpoint Pow Tx Wire.
From S2P Require Import State StateSpec StateProofs StateProps Blocks BlocksProps Chain ChainProofs.

Section chain_props.
Context `{Crypto} `{Consensus}.

(** ** The rule of a block *)

(** Transactions in order, each validated then applied; the first
    rejection stops. *)
Fixpoint registry_block (r : Registry) (txs : list Transaction) (now : N) : outcome :=
  match txs with
  | [] => (r, Ok tt)
  | tx :: txs =>
      match validate_transaction tx with
      | Err e => (r, Err e)
      | Ok _ =>
          match validate_tx tx with
          | Err e => (r, Err e)
          | Ok _ =>
              match registry_apply r tx now with
              | (r, Ok _) => registry_block r txs now
              | (r, Err e) => (r, Err e)
              end
          end
      end
  end.

Lemma implements_bind s j m k r r1 o :
  implements (s, j) m r (r1, Ok tt) →
  (∀ s' j', refines s' r1 → implements (s', j') k r1 o) → implements (s, j) (mbind_ m (λ _, k)) r o.
Proof.
  intros (Hres & es & Hj & Hjs & Hs) Hk. unfold implements, mbind_ in *.
  destruct (m (s, j)) as [[s1 j1] res]. cbn in *. subst res j1.
  destruct (Hk s1 (j ++ es) Hs) as (Hres2 & es2 & Hj2 & Hjs2 & Hs2). split; [exact Hres2|].
  exists (es ++ es2). rewrite Hj2, <- app_assoc. split_and!; [done| |done]. by eapply jsteps_app.
Qed.

Lemma implements_stop s j m (k : unit → M unit) r r1 e :
  implements (s, j) m r (r1, Err e) → implements (s, j) (mbind_ m k) r (r1, Err e).
Proof.
  intros (Hres & es & Hj & Hjs & Hs). unfold implements, mbind_ in *.
  destruct (m (s, j)) as [[s1 j1] res]. cbn in *. subst res. split; [done|]. by exists es.
Qed.

Lemma implements_lift_ok s j (x : result BlockchainError unit) (k : M unit) r o :
  x = Ok tt → implements (s, j) k r o → implements (s, j) (mbind_ (lift x) (λ _, k)) r o.
Proof. by intros ->. Qed.

Lemma run_collision_freeb_head now txs r :
  run_collision_freeb now txs r = true → collision_free r.
Proof. destruct txs; cbn; intros [Hc _]%andb_true_iff; by apply collision_freeb_sound. Qed.

(** No collision among the registries a block goes through, up to its
    first rejection. *)
Fixpoint block_free (now : N) (txs : list Transaction) (r : Registry) : Prop :=
  collision_free r ∧
  match txs with
  | [] => True
  | tx :: txs =>
      collision_free (registry_apply r tx now).1 ∧
      ((registry_apply r tx now).2 = Ok tt → block_free now txs (registry_apply r tx now).1)
  end.

Lemma run_block_free now txs r : run_collision_freeb now txs r = true → block_free now txs r.
Proof.
  revert r. induction txs as [|tx txs IH]; intros r Hc; pose proof (run_collision_freeb_head _ _ _ Hc) as Hc0; [done|].
  cbn [run_collision_freeb] in Hc. apply andb_true_iff in Hc as [_ Hc]. split; [done|].
  split; [by eapply run_collision_freeb_head|]. auto.
Qed.

Lemma implements_block s j r txs now :
  refines s r → registry_ok r → now < U64 → block_free now txs r →
  implements (s, j) (apply_block_txs txs now) r (registry_block r txs now).
Proof.
  intros Hs Hok Hn. revert s j r Hs Hok. induction txs as [|tx txs IH]; intros s j r Hs Hok Hc;
    destruct Hc as [Hc0 Hc]; cbn [apply_block_txs registry_block].
  { by apply implements_ret. }
  destruct Hc as [Hc1 Hc].
  destruct (validate_transaction tx) as [[]|e] eqn:Ev; [|by apply implements_err].
  apply implements_lift_ok; [done|].
  destruct (validate_tx tx) as [[]|e] eqn:Et; [|by apply implements_err].
  apply implements_lift_ok; [done|].
  pose proof (implements_apply s j r tx now Hs Hok Hc0 Hn Hc1) as Ha.
  pose proof Ha as (_ & es & _ & Hj & _).
  destruct (registry_apply r tx now) as [r1 [[]|e]]; cbn [fst snd] in *.
  - apply (implements_bind _ _ _ _ _ _ _ Ha). intros s' j' Hs'. apply IH; [done| |auto].
    by eapply jsteps_ok.
  - by apply implements_stop.
Qed.

(** ** Pushing a block *)

(** Equality of chains, the state as the code compares it. *)
#[global] Instance Blockchain_equiv : Equiv Blockchain := λ c c',
  bc_base_height c = bc_base_height c' ∧ bc_canonical c = bc_canonical c' ∧
  bc_known_hashes c = bc_known_hashes c' ∧ bc_tip c = bc_tip c' ∧ bc_network c = bc_network c' ∧
  bc_state c ≡ bc_state c' ∧ bc_included c = bc_included c' ∧
  bc_checkpoints c = bc_checkpoints c' ∧ bc_finalized c = bc_finalized c'.

(** The registry a block of [c] is applied to, and its outcome. *)
Definition expired (c : Blockchain) (r : Registry) : Registry := registry_gc (bk_timestamp (tip_block c)) r.
Definition block_outcome (c : Blockchain) (r : Registry) (b : Block) : outcome :=
  registry_block (expired c r) (bk_transactions b) (bk_timestamp (tip_block c)).

(** A chain that represents a registry, with no collision among the
    registries a block goes through. *)
Record represents (c : Blockchain) (r : Registry) : Prop := {
  rp_refines : refines (bc_state c) r;
  rp_ok : registry_ok r;
  rp_free : collision_free r;
  rp_time : bk_timestamp (tip_block c) < U64 }.
Definition block_collision_free (c : Blockchain) (r : Registry) (b : Block) : bool :=
  run_collision_freeb (bk_timestamp (tip_block c)) (bk_transactions b) (expired c r).

Lemma append_state b x c : bc_state (append_block b x c) = bc_state c.
Proof.
  unfold append_block, evict_below_window. cbn. destruct (finality_floor _); [|done]. by case_match.
Qed.

Lemma push_run c r b x :
  represents c r → block_free (bk_timestamp (tip_block c)) (bk_transactions b) (expired c r) →
  check_block c b = Ok x →
  ∃ s es ids,
    jsteps r es (block_outcome c r b).1 ∧ refines s (block_outcome c r b).1 ∧
    NoDup ids ∧ (∀ id, id ∈ ids ↔ is_Some (lapsed (bk_timestamp (tip_block c)) r !! id)) ∧
    push_block_with_gc c b =
      match (block_outcome c r b).2 with
      | Ok _ => (append_block b x (with_state s c), Ok (mkAppliedBlock x ids))
      | Err e => (with_state (rollback s es) c, Err e)
      end.
Proof.
  intros [Hs Hok Hf Ht] Hc Ek.
  destruct (gc_refines (bk_timestamp (tip_block c)) (bc_state c) r UndoLog_default Hok Hf Hs)
    as (s1 & es1 & ids & Eg & Hj1 & Hs1 & Hnd & Hids).
  assert (registry_ok (expired c r)) as Hok1 by by eapply jsteps_ok.
  pose proof (implements_block s1 (UndoLog_default ++ es1) (expired c r) (bk_transactions b)
    (bk_timestamp (tip_block c)) Hs1 Hok1 Ht Hc) as (Hres & es2 & Ej & Hj2 & Hs2).
  unfold push_block_with_gc. rewrite Ek, Eg.
  fold (block_outcome c r b) in Hres, Hj2, Hs2.
  match goal with |- context [apply_block_txs ?t ?n ?p] =>
    destruct (apply_block_txs t n p) as [[s2 j2] res] eqn:Ea end.
  assert (res = (block_outcome c r b).2) as -> by (rewrite <- Hres; exact (f_equal snd (eq_sym Ea))).
  assert (j2 = es1 ++ es2) as -> by (exact (eq_trans (f_equal (λ p, p.1.2) (eq_sym Ea)) Ej)).
  assert (refines s2 (block_outcome c r b).1) as Hs3
    by (exact (eq_ind _ (λ s, refines s _) Hs2 _ (f_equal (λ p, p.1.1) Ea))).
  exists s2, (es1 ++ es2), ids.
  split_and!; [by eapply jsteps_app|done..|]. by destruct (block_outcome c r b) as [? []].
Qed.

(** C1. Block application refines the registry: a block is accepted
    exactly when it passes every check on its header, commitments and
    producer and the registry, after expiry at the parent's time,
    accepts its transactions one after the other; the new state then
    represents the registry the rules give, and the expired domains
    reported to the storage layer are exactly the lapsed ones. *)
Theorem push_block_refines c r b :
  chain_ok c → represents c r → block_collision_free c r b = true →
  let '(c', res) := push_block_with_gc c b in
  (is_ok res = is_ok (check_block c b) && is_ok (block_outcome c r b).2) ∧
  ∀ a, res = Ok a →
    check_block c b = Ok (ab_hash a) ∧ bc_tip c' = ab_hash a ∧ tip_block c' = b ∧ chain_ok c' ∧
    refines (bc_state c') (block_outcome c r b).1 ∧ registry_ok (block_outcome c r b).1 ∧
    NoDup (ab_gc_removed_domains a) ∧
    ∀ id, id ∈ ab_gc_removed_domains a ↔
      ∃ st, r_domains r !! id = Some st ∧ ds_valid_until st ≤ bk_timestamp (tip_block c).
Proof.
  intros Hc Hr Hf. destruct (check_block c b) as [x|e] eqn:Ek.
  2:{ unfold push_block_with_gc. by rewrite Ek. }
  destruct (push_run c r b x Hr (run_block_free _ _ _ Hf) Ek) as (s & es & ids & Hj & Hs & Hnd & Hids & E).
  assert (registry_ok (block_outcome c r b).1) as Hok' by (eapply jsteps_ok; [exact Hj|apply Hr]).
  rewrite E. destruct (block_outcome c r b) as [r' [u|e]]; cbn [fst snd] in *; [|done].
  split; [done|]. intros a [= <-].
  destruct (append_pushed c b s (mkAppliedBlock x ids) Hc Ek) as [_ Hok2 Ht2 Htip _ _ _ _ _ _ _].
  cbn [ab_hash ab_gc_removed_domains] in *. rewrite append_state. split_and!; try done.
  intros id. rewrite Hids. unfold lapsed. split.
  - intros [st [? ?]%map_lookup_filter_Some]. by exists st.
  - intros (st & ? & ?). exists st. by apply map_lookup_filter_Some.
Qed.

(** C3. Block application is atomic: when a block is rejected, by a
    check or by one of its transactions, the chain and its state are
    left as they were, expiry included. *)
Theorem push_block_atomic c r b c' e :
  represents c r → block_collision_free c r b = true →
  push_block_with_gc c b = (c', Err e) → c' ≡ c.
Proof.
  intros Hr Hf E. pose proof (rp_refines _ _ Hr) as Hs. destruct (check_block c b) as [x|e'] eqn:Ek.
  2:{ unfold push_block_with_gc in E. rewrite Ek in E. injection E as <- _.
      repeat split; done. }
  destruct (push_run c r b x Hr (run_block_free _ _ _ Hf) Ek) as (s & es & ids & Hj & Hs' & _ & _ & E'). rewrite E' in E.
  destruct (block_outcome c r b).2 as [u|e'']; [done|]. injection E as <- _.
  split_and!; try done. cbn [bc_state with_state].
  eapply refines_unique; [|exact Hs]. eapply rollback_refines; [exact Hj|apply Hr|exact Hs'].
Qed.

(** ** Histories *)

(** Blocks pushed and checkpoints accepted, in any order and whatever
    the outcome. *)
Inductive chain_step (c : Blockchain) : Blockchain → Prop :=
| step_push b c' res : push_block_with_gc c b = (c', res) → chain_step c c'
| step_checkpoint cp c' res : accept_checkpoint c cp = (c', res) → chain_step c c'.

Definition reachable (net : NetworkParams) : Blockchain → Prop := rtc chain_step (chain_for_network net).

(** An invariant of the steps holds of every reachable chain. *)
Lemma reachable_invariant (P : Blockchain → Prop) net c :
  P (chain_for_network net) → (∀ c c', P c → chain_step c c' → P c') → reachable net c → P c.
Proof.
  intros Hi Hs Hr. unfold reachable in Hr. remember (chain_for_network net) as c0 eqn:E.
  clear E. induction Hr; [done|]. eauto.
Qed.

(** Accepting a checkpoint changes the finality fields only. *)
Lemma accept_frame c cp c' res :
  accept_checkpoint c cp = (c', res) → ∃ cps f, c' = with_finality cps f c.
Proof.
  assert (c = with_finality (bc_checkpoints c) (bc_finalized c) c) as Ec by by destruct c.
  unfold accept_checkpoint. destruct (check_checkpoint_data c (data cp)) as [[]|]; [|intros [= <- _]; eauto].
  repeat (case_match; [intros [= <- _]; by eauto|]). intros [= <- _]. by eexists _, _.
Qed.

Lemma chain_step_ok c c' : chain_ok c → chain_step c c' → chain_ok c'.
Proof.
  intros Hc [b c1 [a|e] E|cp c1 res E].
  - apply (push_pushed _ _ _ _ Hc E).
  - apply push_rejected in E as [s ->]. by eapply chain_ok_frame; [..|exact Hc].
  - apply accept_frame in E as (cps & f & ->). by eapply chain_ok_frame; [..|exact Hc].
Qed.

Lemma reachable_ok net c : reachable net c → chain_ok c.
Proof.
  apply reachable_invariant; [apply chain_for_network_ok|apply chain_step_ok].
Qed.

Lemma chain_for_network_replay net : wide (chain_for_network net) ∧ replay_ok (chain_for_network net).
Proof.
  split; [done|]. intros id h. cbn [chain_for_network bc_included]. rewrite lookup_empty.
  split; [done|]. intros (? & Hle & _). cbn in Hle. unfold chain_height in Hle. cbn in Hle. lia.
Qed.

Lemma chain_step_replay c c' :
  chain_ok c → wide c ∧ replay_ok c → chain_step c c' → wide c' ∧ replay_ok c'.
Proof.
  intros Hc [Hw Hr] [b c1 [a|e] E|cp c1 res E].
  - by eapply pushed_replay; [..|apply push_pushed, E].
  - apply push_rejected in E as [s ->]. done.
  - apply accept_frame in E as (cps & f & ->). done.
Qed.

(** C9. The anti-replay index is a function of the canonical chain: in
    any history of pushes and checkpoints it maps a transaction
    identifier to a height exactly when the block at that height, among
    the last 256, carries it; so no identifier is in two blocks of the
    window, although blocks leave memory. *)
Theorem replay_index_exact net c :
  reachable net c →
  (∀ (id : hash) h, bc_included c !! id = Some h ↔
    1 ≤ h ≤ chain_height c ∧ chain_height c < h + REPLAY_WINDOW_BLOCKS ∧
    ∃ b, block c h = Some b ∧ carries b id) ∧
  ∀ (id : hash) h h' b b',
    chain_height c < h + REPLAY_WINDOW_BLOCKS → chain_height c < h' + REPLAY_WINDOW_BLOCKS →
    1 ≤ h → 1 ≤ h' → block c h = Some b → block c h' = Some b' → carries b id → carries b' id → h = h'.
Proof.
  intros Hr. pose proof (reachable_ok net c Hr) as Hok.
  assert (chain_ok c ∧ wide c ∧ replay_ok c) as (_ & _ & Hi).
  { revert Hr. apply (reachable_invariant (λ c, chain_ok c ∧ wide c ∧ replay_ok c)).
    - split; [apply chain_for_network_ok|apply chain_for_network_replay].
    - intros c1 c2 [H1 H2] Hs. split; [by eapply chain_step_ok|by eapply chain_step_replay]. }
  split; [intros id h; rewrite (Hi id h); split; [intros (?&?&?&?)|intros ([? ?]&?&?)]; split_and!; done|].
  intros id h h' b b' Hh Hh' H1 H1' Hb Hb' Hcb Hcb'.
  assert (∀ k x, 1 ≤ k → chain_height c < k + REPLAY_WINDOW_BLOCKS → block c k = Some x → carries x id →
    bc_included c !! id = Some k) as Hin.
  { intros k x Hk Hlt Hx Hcx. apply Hi. assert (is_Some (block c k)) as Hs by by eexists.
    apply block_is_Some in Hs; [|done]. split_and!; [done|lia|done|eauto]. }
  pose proof (Hin h b H1 Hh Hb Hcb) as E1. pose proof (Hin h' b' H1' Hh' Hb' Hcb') as E2. congruence.
Qed.

(** C17. Liveness of honest production: the block that an allowed
    producer builds on the tip, from fresh transactions that the rules
    accept, is accepted by every node with that chain. *)
Theorem honest_block_accepted `{!CryptoLaws} c r k time txs b :
  chain_ok c → represents c r → chain_height c + 1 < U64 →
  build_with (with_producer k (with_timestamp time (builder_after (chain_height c) (bc_tip c)))) txs = Ok b →
  (allowed_producers c time = ∅ ∨ sk_public_key k ∈ allowed_producers c time) →
  (∀ tx, tx ∈ txs → replayed c tx = false) → validate_header (bk_header b) = Ok tt →
  is_ok (registry_block (expired c r) txs (bk_timestamp (tip_block c))).2 = true →
  block_collision_free c r b = true →
  is_ok (push_block_with_gc c b).2 = true ∧ tip_block (push_block_with_gc c b).1 = b.
Proof.
  intros Hc Hr Hu Hb Hallowed Hfresh Hhook Hok Hf. unfold build_with in Hb.
  apply rbind_Ok in Hb as (bb & Ebb & Eb).
  destruct (push_txs_Ok _ _ _ Ebb) as (Etx & Hlen & Ep & Eh & Et & Epr); [done|].
  cbn [with_producer with_timestamp builder_after bb_transactions bb_prev_hash bb_height bb_timestamp
    bb_producer] in Etx, Ep, Eh, Et, Epr. rewrite add64_small in Eh by done. cbn [app] in Etx.
  destruct (build_signed_spec bb k Epr) as [_ Hspec].
  destruct (Hspec b Eb) as (Htxs & Hroot & Hv & Hh & Hp & Hts & Hhash & p & sh & Hdec & Hpk & Hsh & Hver).
  apply is_ok_Ok in Hhash as [x Hx].
  assert (check_block c b = Ok x) as Ek.
  { apply check_block_Ok; [done|]. split_and!; try done.
    - congruence.
    - unfold bk_height. congruence.
    - by rewrite Htxs, Etx, <- Etx.
    - rewrite Htxs, Etx. exact Hfresh.
    - unfold check_producer. destruct (bh_height (bk_header b) =? 0); [done|].
      rewrite Hdec. cbn [ok_or rbind]. rewrite Hsh. cbn [ok_or rbind]. rewrite Hver. cbn [negb].
      rewrite Hts, Et, Hpk. destruct Hallowed as [->|Hin]; [done|].
      rewrite (bool_decide_eq_true_2 (_ ∈ _)) by done. by rewrite andb_false_r. }
  destruct (push_run c r b x Hr (run_block_free _ _ _ Hf) Ek) as (s & es & ids & _ & _ & _ & _ & E). rewrite E.
  unfold block_outcome in *. rewrite Htxs, Etx in *.
  destruct (registry_block (expired c r) txs (bk_timestamp (tip_block c))) as [r' [u|e]]; [|done].
  cbn [fst snd]. split; [done|].
  apply (pu_tip_block _ _ _ _ (append_pushed c b s (mkAppliedBlock x ids) Hc Ek)).
Qed.
End chain_props.
