(* ===== verification/FinalityProps.v ===== *)
(** * Properties of checkpoint finality

    What a node requires of a checkpoint before it finalizes it, the
    chain the finalized checkpoints form, and what finality keeps in
    memory. *)

From S2P Require Import Prelude Bytes Crypto Names Codec Checkpoint Tx Wire State Blocks BlocksProps.
From S2P Require Import Chain ChainProofs ChainProps.

Section finality.
Context `{Crypto} `{Consensus}.

(** ** The content of a checkpoint *)

(** The checkpoint that follows [a]. *)
Definition follows (a b : Checkpoint) : Prop :=
  epoch (data b) = add64 (epoch (data a)) 1 ∧ prev_checkpoint_hash (data b) = Checkpoint_hash a ∧
  height (data a) < height (data b).

(** The content rules: a height of the chain; the first checkpoint is
    epoch 0 over the zero hash; a later one follows the last, within
    the recovery limit and delay. *)
Definition content_ok (c : Blockchain) (cp : Checkpoint) : Prop :=
  1 ≤ height (data cp) ≤ chain_height c ∧
  match last (bc_checkpoints c) with
  | None => epoch (data cp) = 0 ∧ prev_checkpoint_hash (data cp) = arr_zero 32
  | Some l =>
      follows l cp ∧ recovery (data cp) ≤ recovery_max_epochs (consensus_params c) ∧
      (1 ≤ recovery (data cp) →
       mul64 (recovery (data cp)) (epoch_secs (consensus_params c)) ≤ tip_ts_since_last_checkpoint c)
  end.

Lemma check_checkpoint_data_Ok c cp :
  check_checkpoint_data c (data cp) = Ok tt ↔ content_ok c cp.
Proof.
  unfold check_checkpoint_data, content_ok, follows, arr_eqb.
  destruct (N.eqb_spec (height (data cp)) 0) as [E0|E0]; cbn [orb]; [split; [done|lia]|].
  destruct (N.ltb_spec (chain_height c) (height (data cp))) as [El|El]; [split; [done|lia]|].
  assert (1 ≤ height (data cp) ≤ chain_height c) as Hh by lia.
  destruct (last (bc_checkpoints c)) as [l|].
  - destruct (N.eqb_spec (epoch (data cp)) (add64 (epoch (data l)) 1)); cbn [negb]; [|naive_solver].
    case_bool_decide; cbn [negb]; [|naive_solver].
    destruct (N.leb_spec (height (data cp)) (height (data l))); [split; [done|lia]|].
    destruct (N.ltb_spec (recovery_max_epochs (consensus_params c)) (recovery (data cp))); [split; [done|lia]|].
    destruct (N.leb_spec 1 (recovery (data cp))); [|split; [|done]; intros _; split_and!; try done; lia].
    destruct (N.ltb_spec (tip_ts_since_last_checkpoint c) (mul64 (recovery (data cp)) (epoch_secs (consensus_params c)))).
    + split; [done|]. intros (_ & _ & _ & Hd). specialize (Hd ltac:(done)). lia.
    + split; [|done]. intros _. split_and!; try done; lia.
  - destruct (N.eqb_spec (epoch (data cp)) 0); cbn [negb orb]; [|naive_solver].
    case_bool_decide; cbn [negb]; naive_solver.
Qed.

(** ** Accepting a checkpoint *)

(** What is hashed for a checkpoint. *)
Definition checkpoint_preimages (cp : Checkpoint) : list (list byte) :=
  [signing_bytes (data cp);
   arr_list (signing_hash (data cp)) ++ put_u64 (N.of_nat (length (signatures cp))) ++
   concat (map (λ ps, arr_list ps.1 ++ arr_list ps.2) (signatures cp))].

Lemma checkpoint_hash_data a b :
  CheckpointData_wf (data a) → CheckpointData_wf (data b) →
  injective_on (checkpoint_preimages a ++ checkpoint_preimages b) →
  Checkpoint_hash a = Checkpoint_hash b → data a = data b.
Proof.
  intros Ha Hb Hi E. unfold Checkpoint_hash, hash256 in E. cbn [concat] in E. rewrite !app_nil_r in E.
  apply Hi in E; [|unfold checkpoint_preimages; set_solver..].
  apply app_arr_inj in E as [E _]. unfold signing_hash, hash256 in E. cbn [concat] in E.
  rewrite !app_nil_r in E. apply Hi in E; [|unfold checkpoint_preimages; set_solver..].
  by apply signing_bytes_inj.
Qed.

Lemma add64_1_ne e : e < U64 → add64 e 1 ≠ e.
Proof.
  intros He. unfold add64, wrap64. destruct (decide (e + 1 < U64)).
  - rewrite N.mod_small by done. lia.
  - assert (e + 1 = U64) as -> by lia. rewrite N.Div0.mod_same. intros <-. done.
Qed.

(** A checkpoint that follows the last one is not it. *)
Lemma follows_hash_ne a b :
  CheckpointData_wf (data a) → CheckpointData_wf (data b) →
  injective_on (checkpoint_preimages a ++ checkpoint_preimages b) →
  follows a b → Checkpoint_hash a ≠ Checkpoint_hash b.
Proof.
  intros Ha Hb Hi (He & _ & _) E. apply checkpoint_hash_data in E; [|done..].
  rewrite <- E in He. symmetry in He. apply add64_1_ne in He; [done|apply Ha].
Qed.

(** The conditions of [accept_checkpoint]. *)
Definition acceptable (c : Blockchain) (cp : Checkpoint) : Prop :=
  let com := committee c (recovery (data cp)) in
  content_ok c cp ∧ (MIN_FINALITY_COMMITTEE_SIZE ≤ length com)%nat ∧
  verify_quorum cp com (quorum_for (length com)) = true ∧
  (height (data cp) = chain_height c → state_root (data cp) = state_root_smt (bc_state c)).

Definition finalized_chain (c : Blockchain) (cp : Checkpoint) : Blockchain :=
  let cps := bc_checkpoints c ++ [cp] in
  with_finality (drop (length cps - CHECKPOINT_KEEP) cps)
    (Some (mkFinalizedBase cp (eligible_validators (bc_state c))
       match block c (height (data cp)) with Some b => bk_timestamp b | None => 0 end
       (next_seed (Checkpoint_hash cp)))) c.

Lemma accept_checkpoint_cases c cp :
  match accept_checkpoint c cp with
  | (c', Ok true) => acceptable c cp ∧ c' = finalized_chain c cp
  | (c', Ok false) => acceptable c cp ∧ c' = c ∧
      ∃ l, last (bc_checkpoints c) = Some l ∧ Checkpoint_hash l = Checkpoint_hash cp
  | (c', Err _) => ¬ acceptable c cp ∧ c' = c
  end.
Proof.
  unfold accept_checkpoint, acceptable. pose proof (check_checkpoint_data_Ok c cp) as Hd.
  destruct (check_checkpoint_data c (data cp)) as [[]|]; [|split; [|done]; intros (Hx & _); by apply Hd in Hx].
  set (com := committee c (recovery (data cp))).
  destruct (Nat.ltb_spec (length com) MIN_FINALITY_COMMITTEE_SIZE); [split; [|done]; intros (_ & ? & _); lia|].
  destruct (verify_quorum cp com (quorum_for (length com))) eqn:Eq; cbn [negb]; [|split; [|done]; by intros (_ & _ & ? & _)].
  assert (content_ok c cp) as Hc by by apply Hd. unfold arr_eqb.
  destruct (N.eqb_spec (height (data cp)) (chain_height c)) as [Eh|Eh]; cbn [andb].
  - case_bool_decide as Er; cbn [negb].
    2:{ split; [|done]. intros (_ & _ & _ & Hr). by apply Er, Hr. }
    destruct (last (bc_checkpoints c)) as [l|] eqn:El; [case_bool_decide|]; split_and!; try done; eauto.
  - destruct (last (bc_checkpoints c)) as [l|] eqn:El; [case_bool_decide|]; split_and!; try done; eauto.
Qed.

(** C11. Finalizing: a checkpoint is accepted exactly when its content
    follows the last finalized one, its committee is large enough for
    BFT, more than two thirds of it signed, and, at the tip, it carries
    the node's own state root; it then becomes the finalized base, and
    otherwise nothing changes.  The answer [Ok(false)] of an "exact
    duplicate" does not occur. *)
Theorem accept_checkpoint_spec c cp :
  CheckpointData_wf (data cp) → Forall (λ l, CheckpointData_wf (data l)) (bc_checkpoints c) →
  (∀ l, last (bc_checkpoints c) = Some l → injective_on (checkpoint_preimages l ++ checkpoint_preimages cp)) →
  let '(c', res) := accept_checkpoint c cp in
  (is_ok res = true ↔ acceptable c cp) ∧ res ≠ Ok false ∧
  c' = (if is_ok res then finalized_chain c cp else c).
Proof.
  intros Hw Hcs Hi. pose proof (accept_checkpoint_cases c cp) as Ha.
  destruct (accept_checkpoint c cp) as [c' [[]|e]]; cbn [is_ok].
  - by destruct Ha as [? ->].
  - destruct Ha as ((Hc & _) & _ & l & El & Eh). exfalso. destruct Hc as [_ Hc]. rewrite El in Hc.
    destruct Hc as [Hf _]. apply (follows_hash_ne l cp); try done; [|by apply Hi].
    rewrite Forall_forall in Hcs. apply Hcs. rewrite last_lookup in El. by eapply list_elem_of_lookup_2.
  - by destruct Ha as [? ->].
Qed.

(** ** The chain of finalized checkpoints *)

Record finality_inv (c : Blockchain) : Prop := {
  fi_linked i a b : bc_checkpoints c !! i = Some a → bc_checkpoints c !! S i = Some b → follows a b;
  fi_length : (length (bc_checkpoints c) ≤ CHECKPOINT_KEEP)%nat;
  fi_none : bc_checkpoints c = [] → bc_finalized c = None ∧ bc_base_height c = 0;
  fi_last cp : last (bc_checkpoints c) = Some cp →
    1 ≤ height (data cp) ≤ chain_height c ∧ bc_base_height c ≤ height (data cp) ∧
    ∃ base, bc_finalized c = Some base ∧ fb_checkpoint base = cp ∧
      fb_seed base = next_seed (Checkpoint_hash cp) }.

Lemma pushed_finality c b c' a :
  chain_ok c → finality_inv c → pushed c b c' a → finality_inv c'.
Proof.
  intros Hc [Hl Hn Hnil Hlast] Hp. pose proof (pu_height _ _ _ _ Hp) as Eh. pose proof (pu_base _ _ _ _ Hp) as Eb.
  split; rewrite ?(pu_checkpoints _ _ _ _ Hp), ?(pu_finalized _ _ _ _ Hp); try done.
  - intros E. destruct (Hnil E) as [? ?]. split; [done|]. rewrite Eb. unfold finality_floor. by rewrite E.
  - intros cp Ecp. destruct (Hlast cp Ecp) as (? & ? & ?). split_and!; [lia|lia| |done].
    rewrite Eb. unfold finality_floor. rewrite Ecp. lia.
Qed.

Lemma frame_finality c s : finality_inv c → finality_inv (with_state s c).
Proof. by intros []. Qed.

Lemma finalized_finality c cp :
  finality_inv c → content_ok c cp → finality_inv (finalized_chain c cp).
Proof.
  intros [Hl Hn Hnil Hlast] [Hh Hcp]. unfold finalized_chain. set (cps := bc_checkpoints c ++ [cp]).
  assert (∀ i a b, cps !! i = Some a → cps !! S i = Some b → follows a b) as Hlinks.
  { intros i a b Ha Hb. unfold cps in *. apply lookup_app_Some in Hb as [Hb|[Hi Hb]].
    - apply lookup_lt_Some in Hb as ?. rewrite lookup_app_l in Ha by lia. by eapply Hl.
    - apply lookup_lt_Some in Hb as Hlt. simpl in Hlt. rewrite lookup_app_l in Ha by (apply lookup_lt_Some in Ha; rewrite length_app in Ha; simpl in Ha; lia).
      replace (S i - length (bc_checkpoints c))%nat with 0%nat in Hb by lia. injection Hb as <-.
      assert (last (bc_checkpoints c) = Some a) as Ea.
      { rewrite last_lookup. rewrite <- Ha. f_equal. apply lookup_lt_Some in Ha. lia. }
      rewrite Ea in Hcp. apply Hcp. }
  assert (length (drop (length cps - CHECKPOINT_KEEP) cps) ≠ 0%nat) as Hne.
  { rewrite length_drop. unfold cps, CHECKPOINT_KEEP. rewrite length_app. simpl. lia. }
  assert (last (drop (length cps - CHECKPOINT_KEEP) cps) = Some cp) as Elast.
  { rewrite last_lookup, lookup_drop, length_drop.
    transitivity (cps !! (length cps - 1)%nat); [f_equal; rewrite length_drop in Hne; lia|].
    unfold cps. rewrite length_app. simpl. rewrite lookup_app_r by lia.
    by replace (length (bc_checkpoints c) + 1 - 1 - length (bc_checkpoints c))%nat with 0%nat by lia. }
  split; cbn [with_finality bc_checkpoints bc_finalized bc_base_height].
  - intros i a b. rewrite !lookup_drop. intros Ha Hb. apply (Hlinks _ a b Ha). rewrite <- Hb. f_equal. lia.
  - rewrite length_drop. lia.
  - intros E. by rewrite E in Hne.
  - intros cp' E. rewrite Elast in E. injection E as <-.
    change (chain_height (with_finality _ _ c)) with (chain_height c). split; [done|]. split; [|by eexists].
    destruct (last (bc_checkpoints c)) as [l|] eqn:El.
    + destruct (Hlast l eq_refl) as (_ & ? & _). destruct Hcp as [(_ & _ & ?) _]. lia.
    + apply last_None in El. destruct (Hnil El) as [_ ->]. lia.
Qed.

Lemma chain_step_finality c c' : chain_ok c → finality_inv c → chain_step c c' → finality_inv c'.
Proof.
  intros Hc Hf [b c1 [a|e] E|cp c1 res E].
  - by eapply pushed_finality; [..|apply push_pushed, E].
  - apply push_rejected in E as [s ->]. by apply frame_finality.
  - pose proof (accept_checkpoint_cases c cp) as Ha. rewrite E in Ha.
    destruct res as [[]|]; [|by destruct Ha as (_ & -> & _)|by destruct Ha as [_ ->]].
    destruct Ha as [[? _] ->]. by apply finalized_finality.
Qed.

Lemma reachable_finality net c : reachable net c → chain_ok c ∧ finality_inv c.
Proof.
  apply (reachable_invariant (λ c, chain_ok c ∧ finality_inv c)).
  - split; [apply chain_for_network_ok|]. split; [|cbn; lia|done|done].
    intros i x y. cbn. by rewrite lookup_nil.
  - intros c1 c2 [? ?] Hs. split; [by eapply chain_step_ok|by eapply chain_step_finality].
Qed.

(** C12. In any history of pushes and checkpoints the finalized
    checkpoints kept by a node form a chain — consecutive epochs, each
    carrying the hash of the one before, at increasing heights, at most
    64 of them — whose last one is the base committees are drawn from;
    and the block that one finalizes is still in memory, with every
    later block up to the tip. *)
Theorem finalized_chain_inv net c :
  reachable net c →
  (length (bc_checkpoints c) ≤ CHECKPOINT_KEEP)%nat ∧
  (∀ i a b, bc_checkpoints c !! i = Some a → bc_checkpoints c !! S i = Some b → follows a b) ∧
  (bc_checkpoints c = [] → bc_finalized c = None) ∧
  ∀ cp, last (bc_checkpoints c) = Some cp →
    (∃ base, bc_finalized c = Some base ∧ fb_checkpoint base = cp ∧
      fb_seed base = next_seed (Checkpoint_hash cp)) ∧
    ∀ h, height (data cp) ≤ h ≤ chain_height c → ∃ b, block c h = Some b ∧ bk_height b = h.
Proof.
  intros [Hc [Hl Hn Hnil Hlast]]%reachable_finality. split_and!; [done..|by intros [? _]%Hnil|].
  intros cp Ecp. destruct (Hlast cp Ecp) as (Hh & Hb & Hbase). split; [done|]. intros h Hh'.
  destruct (proj2 (block_is_Some c h Hc)) as [b Hb'].
  { right. unfold first_height. lia. }
  exists b. split; [done|]. by apply (block_height c).
Qed.

(** Memory is bounded by finality: after a block is accepted the
    node holds genesis and at most the blocks from the last finalized
    one, or the last 512 when those are more. *)
Theorem memory_bounded net c b c' a cp :
  reachable net c → push_block_with_gc c b = (c', Ok a) → last (bc_checkpoints c) = Some cp →
  N.of_nat (length (bc_canonical c')) ≤
    1 + N.max RAM_WINDOW_BLOCKS (chain_height c' + 1 - height (data cp)) ∧
  (size (bc_known_hashes c') ≤ length (bc_canonical c'))%nat.
Proof.
  intros [Hc [_ _ _ Hlast]]%reachable_finality E Ecp. destruct (Hlast cp Ecp) as (Hh & Hb & _).
  apply push_pushed in E; [|done]. pose proof (pu_base _ _ _ _ E) as Eb. pose proof (pu_height _ _ _ _ E) as Eh.
  pose proof (pu_ok _ _ _ _ E) as Hok. unfold finality_floor in Eb. rewrite Ecp in Eb.
  assert (length (bc_canonical c') = S (length (window c'))) as El by (by rewrite (ok_genesis _ Hok) at 1).
  rewrite El. split.
  - destruct (tip_cases c' Hok) as [(-> & _)|(_ & Et & _)]; [simpl; lia|].
    unfold first_height in Et. unfold RAM_WINDOW_BLOCKS in *. lia.
  - rewrite <- size_dom. transitivity (size (list_to_set (0 :: map (λ i, first_height c' + N.of_nat i) (seq 0 (length (window c')))) : gset N)).
    + apply subseteq_size. intros h [x Hx]%elem_of_dom. apply (ok_hashes _ Hok) in Hx as (bl & Hbl & _).
      assert (is_Some (block c' h)) as Hs by by eexists. apply block_is_Some in Hs; [|done].
      apply elem_of_list_to_set, elem_of_cons. destruct Hs as [->|Hs]; [by left|right].
      apply list_elem_of_fmap. exists (N.to_nat (h - first_height c')). split; [lia|].
      apply elem_of_seq. destruct (tip_cases c' Hok) as [(_ & _ & Et)|(_ & Et & _)]; [|lia].
      pose proof (first_height_pos c'). lia.
    + rewrite size_list_to_set; [by cbn; rewrite length_map, length_seq|].
      pose proof (first_height_pos c'). constructor.
      * intros (i & Ei & _)%list_elem_of_fmap. lia.
      * apply NoDup_fmap_2; [intros i j Eij; lia|apply NoDup_seq].
Qed.
End finality.
