(* ===== verification/ForkProps.v ===== *)
(** * Properties of the fork choice

    What a reorganisation rebuilds and what it leaves behind; which
    branches are adopted, and what finality means for them. *)

From S2P Require Import Prelude Bytes Crypto Names Codec Checkpoint Tx Wire State Blocks BlocksProps.
From S2P Require Import Chain ForkChoice ChainProofs ChainProps.

Section fork.
Context `{Crypto}.

(** ** Replaying blocks *)

Record replayed_onto (c : Blockchain) (blocks : list Block) (c' : Blockchain) : Prop := {
  ro_ok : chain_ok c';
  ro_height : chain_height c' = chain_height c + N.of_nat (length blocks);
  ro_heights i b : blocks !! i = Some b → bk_height b = chain_height c + 1 + N.of_nat i;
  ro_network : bc_network c' = bc_network c;
  ro_checkpoints : bc_checkpoints c' = bc_checkpoints c;
  ro_finalized : bc_finalized c' = bc_finalized c;
  ro_old h b : block c' h = Some b → h ≤ chain_height c → block c h = Some b;
  ro_new h b : block c' h = Some b → chain_height c < h →
    blocks !! N.to_nat (h - chain_height c - 1) = Some b }.

Lemma push_all_spec c blocks c' applied :
  chain_ok c → push_all c blocks = Ok (c', applied) → replayed_onto c blocks c'.
Proof.
  revert c applied. induction blocks as [|b blocks IH]; intros c applied Hc; cbn [push_all].
  { intros [= <- <-]. split; try done; [cbn; lia|]. intros h x Hx Hlt.
    assert (is_Some (block c h)) as Hs by by eexists. apply block_is_Some in Hs; [lia|done]. }
  destruct (push_block_with_gc c b) as [c1 [a|e]] eqn:Ep; [|done]. cbn [rbind].
  intros ([c2 rest] & Er & [= <- <-])%rbind_Ok. apply push_pushed in Ep; [|done].
  pose proof (pu_height _ _ _ _ Ep) as Eh.
  destruct (IH c1 rest (pu_ok _ _ _ _ Ep) Er) as [Hok Hh Hhs Hn Hcp Hf Hold Hnew]. split; try done.
  - rewrite Hh, Eh. cbn [length]. lia.
  - intros [|i] x Hx; cbn in Hx; [injection Hx as <-|apply Hhs in Hx; lia].
    pose proof (pu_tip_block _ _ _ _ Ep) as Et. rewrite <- Et at 1. change (chain_height c1 = chain_height c + 1 + 0). lia.
  - by rewrite Hn, (pu_network _ _ _ _ Ep).
  - by rewrite Hcp, (pu_checkpoints _ _ _ _ Ep).
  - by rewrite Hf, (pu_finalized _ _ _ _ Ep).
  - intros h x Hx Hle. apply Hold in Hx; [|lia]. rewrite (pu_block _ _ _ _ Ep) in Hx.
    case_decide; [done|]. rewrite decide_False in Hx by lia. done.
  - intros h x Hx Hlt. destruct (decide (h = chain_height c1)) as [->|Hne].
    + apply Hold in Hx; [|lia]. rewrite (pu_block _ _ _ _ Ep) in Hx. case_decide; [done|].
      rewrite decide_True in Hx by done. injection Hx as <-.
      by replace (N.to_nat (chain_height c1 - chain_height c - 1)) with 0%nat by lia.
    + apply Hnew in Hx; [|lia].
      by replace (N.to_nat (h - chain_height c - 1)) with (S (N.to_nat (h - chain_height c1 - 1))) by lia.
Qed.

Lemma prefix_blocks_Ok c n h l :
  prefix_blocks c n h = Ok l →
  length l = n ∧ ∀ i, (i < n)%nat → l !! i = block c (h + N.of_nat i).
Proof.
  revert h l. induction n as [|n IH]; intros h l; cbn [prefix_blocks].
  { intros [= <-]. split; [done|]. lia. }
  intros (b & Eb%ok_or_Ok & (rest & Er & [= <-])%rbind_Ok)%rbind_Ok.
  destruct (IH _ _ Er) as [El Hl]. split; [cbn; lia|]. intros [|i] Hi; cbn.
  - by rewrite N.add_0_r.
  - rewrite Hl by lia. f_equal. lia.
Qed.

(** What a successful reorganisation to [h] with [ext] yields. *)
Record reorganised (c : Blockchain) (h : N) (ext : list Block) (c' : Blockchain) : Prop := {
  rg_ok : chain_ok c';
  rg_height : chain_height c' = h + N.of_nat (length ext);
  rg_heights i b : ext !! i = Some b → bk_height b = h + 1 + N.of_nat i;
  rg_included : bc_included c' = bc_included c;
  rg_network : bc_network c' = bc_network c;
  rg_checkpoints : bc_checkpoints c' = bc_checkpoints c;
  rg_finalized : bc_finalized c' = bc_finalized c;
  rg_prefix k b : block c' k = Some b → k ≤ h → block c k = Some b;
  rg_ext k b : block c' k = Some b → h < k → ext !! N.to_nat (k - h - 1) = Some b }.

Lemma reorg_spec c h ext :
  chain_ok c →
  match reorg_to_height c h ext with
  | (c', Ok _) => reorganised c h ext c'
  | (c', Err _) => c' = c
  end.
Proof.
  intros Hc. unfold reorg_to_height.
  destruct (prefix_blocks c (N.to_nat h + 1) 0) as [pre|] eqn:Ep; cbn [rbind]; [|done].
  destruct (prefix_blocks_Ok _ _ _ _ Ep) as [Elen Hpre].
  set (c0 := with_finality (bc_checkpoints c) (bc_finalized c) (chain_for_network (bc_network c))).
  assert (chain_ok c0) as H0 by (eapply chain_ok_frame; [..|apply (chain_for_network_ok (bc_network c))]; done).
  assert (chain_height c0 = 0) as Eh0 by done.
  destruct (push_all c0 (tail pre)) as [[c1 ap1]|] eqn:E1; cbn [rbind]; [|done].
  apply push_all_spec in E1; [|done].
  destruct (push_all c1 ext) as [[c2 ap2]|] eqn:E2; cbn [rbind]; [|done].
  apply push_all_spec in E2; [|apply E1].
  assert (length (tail pre) = N.to_nat h) as Elt by (destruct pre; cbn in *; lia).
  pose proof (ro_height _ _ _ E1) as Eh1. pose proof (ro_height _ _ _ E2) as Eh2.
  assert (∀ k b, block c1 k = Some b → block c k = Some b) as Hsame.
  { intros k b Hb. destruct (decide (k = 0)) as [->|Hk].
    - apply (ro_old _ _ _ E1) in Hb; [|lia]. rewrite block_zero in Hb by done. by rewrite block_zero.
    - pose proof Hb as Hb'. apply (ro_new _ _ _ E1) in Hb'; [|lia]. rewrite Eh0 in Hb'.
      apply lookup_lt_Some in Hb' as Hlt. destruct pre as [|g pre]; [done|]. cbn in Hb', Elt, Hlt.
      specialize (Hpre (S (N.to_nat (k - 0 - 1))) ltac:(lia)).
      rewrite <- Hb'. symmetry. etransitivity; [exact Hpre|f_equal; lia]. }
  split; try done.
  - eapply chain_ok_frame; [..|apply E2]; try done. cbn [swap_with bc_network].
    by rewrite (ro_network _ _ _ E2), (ro_network _ _ _ E1).
  - change (chain_height (swap_with c c2)) with (bk_height (List.last (bc_canonical c2) (genesis_of (bc_network c)))).
    transitivity (chain_height c2); [|lia]. unfold chain_height, tip_block.
    by rewrite (ro_network _ _ _ E2), (ro_network _ _ _ E1).
  - intros i b Hb. rewrite (ro_heights _ _ _ E2 i b Hb). lia.
  - cbn [swap_with bc_checkpoints]. by rewrite (ro_checkpoints _ _ _ E2), (ro_checkpoints _ _ _ E1).
  - cbn [swap_with bc_finalized]. by rewrite (ro_finalized _ _ _ E2), (ro_finalized _ _ _ E1).
  - intros k b Hb Hk. apply Hsame, (ro_old _ _ _ E2); [exact Hb|lia].
  - intros k b Hb Hk. apply (ro_new _ _ _ E2) in Hb; [|lia]. rewrite <- Hb. f_equal. lia.
Qed.

(** ** Adopting a branch *)

(** The order of the fork choice: length, then lowest tip hash. *)
Definition better (c' c : Blockchain) : Prop :=
  chain_height c < chain_height c' ∨
  chain_height c' = chain_height c ∧ bytes_lt (bc_tip c') (bc_tip c).

(** The finalized checkpoints are on the chain: their heights are, and
    the blocks in memory at these heights are the ones they name. *)
Definition respects_finality (c : Blockchain) : Prop :=
  ∀ cp, cp ∈ bc_checkpoints c →
    height (data cp) ≤ chain_height c ∧
    ∀ b, block c (height (data cp)) = Some b → header_hash (bk_header b) = Ok (block_hash (data cp)).

Lemma floor_ok_spec base base_h blocks cp :
  floor_ok base base_h blocks cp = true → base_h ≤ height (data cp) →
  ∃ b, branch_at base base_h blocks (height (data cp)) = Some b ∧
    header_hash (bk_header b) = Ok (block_hash (data cp)).
Proof.
  unfold floor_ok. destruct (N.ltb_spec (height (data cp)) base_h); [lia|].
  destruct (branch_at _ _ _ _) as [b|]; [|done]. destruct (header_hash (bk_header b)) as [x|] eqn:E; [|done].
  intros Ex%bool_decide_eq_true _. subst x. by exists b.
Qed.

Lemma sub64_lt_U64 a b : sub64 a b < U64.
Proof. by apply N.mod_lt. Qed.

(** C10. Adopting a branch: nothing changes unless the branch is
    adopted; the chain adopted is strictly better in the order of the
    fork choice (longer, or as long with a lower tip hash), keeps the
    blocks below the fork, continues with the blocks of the branch, and
    every finalized checkpoint that was on the chain still is. *)
Theorem adopt_branch_spec c blocks :
  chain_ok c →
  match adopt_branch c blocks with
  | (c', Ok true) =>
      chain_ok c' ∧ better c' c ∧ bc_checkpoints c' = bc_checkpoints c ∧
      (respects_finality c → respects_finality c') ∧
      ∃ first, head blocks = Some first ∧ 1 ≤ bk_height first ∧
        chain_height c' + 1 = bk_height first + N.of_nat (length blocks) ∧
        (∀ h b, block c' h = Some b → h < bk_height first → block c h = Some b) ∧
        (∀ h b, block c' h = Some b → bk_height first ≤ h →
          blocks !! N.to_nat (h - bk_height first) = Some b)
  | (c', _) => c' = c
  end.
Proof.
  intros Hc. unfold adopt_branch. destruct blocks as [|first rest]; [done|].
  set (blocks := first :: rest). set (base_h := sub64 (bk_height first) 1).
  destruct (branch_chains first rest) as [[]|]; cbn [rbind]; [|done].
  destruct (block c base_h) as [base|] eqn:Eb; cbn [ok_or rbind]; [|done].
  destruct (header_hash (bk_header base)) as [base_hash|] eqn:Ebh; cbn [rbind]; [|done].
  destruct (negb (arr_eqb _ base_hash)); [done|].
  destruct (forallb (floor_ok base base_h blocks) (bc_checkpoints c)) eqn:Ef; cbn [negb]; [|done].
  destruct (header_hash (bk_header (List.last blocks first))) as [ct|] eqn:Ect; cbn [rbind]; [|done].
  destruct (_ || _) eqn:Ebetter; [|done].
  pose proof (reorg_spec c base_h blocks Hc) as Hr.
  destruct (reorg_to_height c base_h blocks) as [c' [a|]]; cbn [rmap]; [|done].
  destruct Hr as [Hok Hh Hhs _ Hn Hcp Hfin Hpre Hext].
  assert (bk_height first = base_h + 1) as Efirst by (rewrite (Hhs 0%nat first eq_refl); lia).
  assert (tip_block c' = List.last blocks first) as Etip.
  { pose proof (block_tip c' Hok) as Hb. apply Hext in Hb; [|rewrite Hh; unfold blocks; cbn [length]; lia].
    rewrite Hh in Hb. replace (N.to_nat (base_h + N.of_nat (length blocks) - base_h - 1)) with (length blocks - 1)%nat in Hb by lia.
    rewrite (List_last_lookup blocks first) in Hb by done. by injection Hb. }
  assert (bc_tip c' = ct) as Ett.
  { pose proof (ok_tip _ Hok) as E. rewrite Etip, Ect in E. by injection E. }
  assert (add64 base_h (N.of_nat (length blocks)) = chain_height c') as Eadd.
  { rewrite Hh. apply add64_small. rewrite <- Hh. apply (ok_bound _ Hok). }
  rewrite Eadd in Ebetter. split_and!; [done| |done| |].
  - unfold better. apply orb_true_iff in Ebetter as [Hl%N.ltb_lt|[He%N.eqb_eq Hl]%andb_true_iff]; [by left|right].
    split; [done|]. by rewrite Ett.
  - intros Hf cp Hin. rewrite Hcp in Hin. destruct (Hf cp Hin) as [Hle Hcpb].
    pose proof (proj1 (forallb_forall _ _) Ef cp (proj1 (list_elem_of_In _ _) Hin)) as Hfl.
    destruct (N.lt_ge_cases (height (data cp)) base_h) as [Hlt|Hge].
    { split; [rewrite Hh; lia|]. intros b Hb. apply Hcpb, Hpre; [done|lia]. }
    destruct (floor_ok_spec _ _ _ _ Hfl Hge) as (b & Hat & Hbh). unfold branch_at in Hat.
    destruct (N.eqb_spec (height (data cp)) base_h) as [E|E].
    + injection Hat as ->. split; [rewrite Hh; lia|]. intros b' Hb'. apply Hcpb, Hpre; [done|lia].
    + apply lookup_lt_Some in Hat as Hl. split; [rewrite Hh; lia|]. intros b' Hb'.
      apply Hext in Hb'; [|lia]. rewrite Hat in Hb'. by injection Hb' as <-.
  - exists first. split_and!; [done|lia|rewrite Hh; lia| |].
    + intros h b Hb Hlt. apply Hpre; [done|lia].
    + intros h b Hb Hle. rewrite <- (Hext h b) by (done || lia). f_equal. lia.
Qed.

(** The replay of a reorganisation starts from genesis, so once
    blocks have left memory no branch is adopted and no sister block is
    attached, even above the last finalized block: the attempt is
    rejected and nothing changes. *)
Theorem no_reorg_after_eviction c :
  chain_ok c → 1 < bc_base_height c →
  (∀ blocks, (∀ first, head blocks = Some first → 1 < bk_height first < U64) →
    (adopt_branch c blocks).2 ≠ Ok true ∧ (adopt_branch c blocks).1 = c) ∧
  ∀ b, 1 < bk_height b < U64 → bh_prev_hash (bk_header b) ≠ bc_tip c →
    is_ok (try_attach c b).2 = false ∧ (try_attach c b).1 = c.
Proof.
  intros Hc Hb.
  assert (∀ h ext, 1 ≤ h → reorg_to_height c h ext = (c, Err (BlockPruned 1))) as Hreorg.
  { intros h ext Hh. unfold reorg_to_height.
    assert (prefix_blocks c (N.to_nat h + 1) 0 = Err (BlockPruned 1)) as ->; [|done].
    replace (N.to_nat h + 1)%nat with (S (S (N.to_nat (h - 1)))) by lia. cbn [prefix_blocks].
    rewrite block_zero by done. cbn [ok_or rbind]. change (0 + 1) with 1.
    destruct (block c 1) as [x|] eqn:E; [|done]. exfalso.
    assert (is_Some (block c 1)) as Hs by by eexists. apply block_is_Some in Hs; [|done].
    unfold first_height in Hs. lia. }
  split.
  - intros [|first rest] Hf; [by split|]. specialize (Hf first eq_refl).
    assert (sub64 (bk_height first) 1 = bk_height first - 1) as Es by (apply sub64_small; lia).
    unfold adopt_branch. rewrite Es, Hreorg by lia.
    by repeat case_match.
  - intros b Hbh Hp. assert (sub64 (bh_height (bk_header b)) 1 = bk_height b - 1) as Es by (apply sub64_small; unfold bk_height in *; lia).
    unfold try_attach, arr_eqb. rewrite bool_decide_eq_false_2 by done. rewrite Es, Hreorg by lia.
    repeat case_match; done.
Qed.

(** ** Attaching a block *)

(** A switch to a sister of the tip. *)
Record switched (c : Blockchain) (b : Block) (c' : Blockchain) (a : AppliedBlock) : Prop := {
  sw_parent : bh_prev_hash (bk_header b) ≠ bc_tip c;
  sw_sister : bk_height b = chain_height c;
  sw_hash : header_hash (bk_header b) = Ok (ab_hash a);
  sw_lower : bytes_lt (ab_hash a) (bc_tip c);
  sw_ok : chain_ok c';
  sw_pos : 0 < chain_height c;
  sw_height : chain_height c' = chain_height c;
  sw_tip : bc_tip c' = ab_hash a;
  sw_checkpoints : bc_checkpoints c' = bc_checkpoints c;
  sw_tip_block : block c' (chain_height c') = Some b }.

Lemma push_all_one c b c' applied :
  push_all c [b] = Ok (c', applied) → ∃ a, push_block_with_gc c b = (c', Ok a) ∧ applied = [a].
Proof.
  cbn [push_all]. destruct (push_block_with_gc c b) as [c1 [a|e]]; [|done]. cbn [rbind]. intros [= <- <-]. by exists a.
Qed.

Lemma try_attach_cases c b c' res : chain_ok c → try_attach c b = (c', res) →
  bh_prev_hash (bk_header b) = bc_tip c ∧ push_block_with_gc c b = (c', res) ∨
  (∃ e, res = Err e ∧ c' = c) ∨ ∃ a, res = Ok a ∧ switched c b c' a.
Proof.
  intros Hc. unfold try_attach, arr_eqb. case_bool_decide as Hp; [by left|]. right. revert H0.
  destruct (known_parent c _); cbn [negb]; [|intros [= <- <-]; left; by eexists].
  destruct (N.eqb_spec (bh_height (bk_header b)) (chain_height c)) as [Eh|]; cbn [negb]; [|intros [= <- <-]; left; by eexists].
  destruct (header_hash (bk_header b)) as [x|e] eqn:Ex; [|intros [= <- <-]; left; by eexists].
  destruct (bytes_leb (bc_tip c) x) eqn:El; [intros [= <- <-]; left; by eexists|].
  intros Er. pose proof (reorg_spec c (sub64 (bh_height (bk_header b)) 1) [b] Hc) as Hr. rewrite Er in Hr.
  destruct res as [a|e]; [|left; by exists e]. right. exists a. split; [done|].
  pose proof (rg_height _ _ _ _ Hr) as Hh. pose proof (ok_bound _ (rg_ok _ _ _ _ Hr)) as Hb'.
  pose proof (rg_heights _ _ _ _ Hr 0%nat b eq_refl) as Hb. cbn [length] in Hh. unfold bk_height in Hb.
  assert (ab_hash a = x) as Ea.
  { unfold reorg_to_height in Er. destruct (prefix_blocks _ _ _) as [pre|]; cbn [rbind] in Er; [|done].
    destruct (push_all _ (tail pre)) as [[c1 ap1]|] eqn:E1; cbn [rbind] in Er; [|done].
    destruct (push_all c1 [b]) as [[c2 ap2]|] eqn:E2; cbn [rbind] in Er; [|done]. injection Er as _ <-.
    apply push_all_one in E2 as (a & Ep & ->). apply push_all_spec in E1.
    2:{ eapply chain_ok_frame; [..|apply (chain_for_network_ok (bc_network c))]; done. }
    apply push_pushed in Ep; [|apply E1]. pose proof (pu_check _ _ _ _ Ep) as Ek.
    apply check_block_Ok in Ek; [|apply E1]. destruct Ek as (_ & _ & _ & _ & _ & _ & _ & Ehh & _). cbn. congruence. }
  assert (chain_height c' = chain_height c) as Hhh by (rewrite Hh; unfold bk_height in *; lia).
  assert (block c' (chain_height c') = Some b) as Htip.
  { assert (is_Some (block c' (chain_height c'))) as [y Hy].
    { rewrite block_tip by apply Hr. by eexists. }
    pose proof Hy as Hy'. apply (rg_ext _ _ _ _ Hr) in Hy; [|lia].
    replace (N.to_nat _) with 0%nat in Hy by lia. cbn in Hy. by rewrite Hy', <- Hy. }
  split; try done.
  - by rewrite Ea.
  - rewrite Ea. destruct (bytes_lt_total x (bc_tip c)) as [?|[E|E]]; [done|..]; exfalso;
      assert (bytes_le (bc_tip c) x) as Hle by (apply bytes_le_lt; auto); unfold bytes_le in Hle; congruence.
  - apply Hr.
  - rewrite <- Hhh, Hh. lia.
  - pose proof (ok_tip _ (rg_ok _ _ _ _ Hr)) as Et. rewrite (block_tip c' (rg_ok _ _ _ _ Hr)) in Htip.
    injection Htip as <-. rewrite Ex in Et. injection Et as <-. by rewrite Ea.
  - apply Hr.
Qed.

(** C27. Attaching a sister block does not consult the finalized
    checkpoints.  Let the tip of a chain be finalized: one of its
    checkpoints names the tip's height and hash.  Whenever [try_attach]
    accepts a block that is not on top of the tip, the block takes the
    tip's place — same height, lower hash — the checkpoints stay, and the
    chain no longer respects them: its block at the finalized height is not
    the finalized one.  ([adopt_branch] refuses such a branch.) *)
Theorem try_attach_drops_finalized c b c' a cp :
  chain_ok c → cp ∈ bc_checkpoints c → height (data cp) = chain_height c → block_hash (data cp) = bc_tip c →
  bh_prev_hash (bk_header b) ≠ bc_tip c → try_attach c b = (c', Ok a) →
  bc_checkpoints c' = bc_checkpoints c ∧ chain_height c' = chain_height c ∧
  block c' (height (data cp)) = Some b ∧ header_hash (bk_header b) = Ok (bc_tip c') ∧
  bytes_lt (bc_tip c') (bc_tip c) ∧ ¬ respects_finality c'.
Proof.
  intros Hc Hin Eh Ex Hp E. destruct (try_attach_cases _ _ _ _ Hc E) as [[? _]|[(e & ? & _)|(a' & [= <-] & Hsw)]]; [done..|].
  destruct Hsw as [_ _ Hx Hlt _ _ Hh Et Ecp Hb]. rewrite Et, Eh, <- Hh. split_and!; try done.
  intros Hf. destruct (Hf cp) as [_ Hcp]; [by rewrite Ecp|]. rewrite Eh, <- Hh in Hcp.
  specialize (Hcp b Hb). rewrite Hx, Ex in Hcp. injection Hcp as E'. rewrite E' in Hlt. by eapply bytes_lt_irrefl.
Qed.
End fork.
