(* ===== verification/ChainScenario.v ===== *)
(** * A concrete chain

    Four validators, a few blocks and a finalized checkpoint, computed
    under the toy primitives: the theorems about blocks, the chain,
    finality and the fork choice are applied to it, and an execution
    of the fork choice is exhibited. *)

From S2P Require Import Prelude Bytes Crypto Commitment Smt SmtProofs Names Icann Codec Checkpoint Pow Tx Wire.
From S2P Require Import State StateSpec StateProofs StateProps Blocks BlocksProps Chain ForkChoice.
From S2P Require Import ChainProofs ChainProps FinalityProps ForkProps.

(** A closed boolean is evaluated by the virtual machine. *)
Ltac by_eval := match goal with |- ?b = true => exact (eq_refl true <: b = true) end.

Module ChainScenario.
#[local] Existing Instance Toy.crypto.

Definition net : NetworkParams := mkNetworkParams NetworkId_TESTNET 0 0 CP_TESTNET.
Definition alice : PublicKey := arr_of 32 [x01].
Definition bob : PublicKey := arr_of 32 [x02].
Definition carol : PublicKey := arr_of 32 [x03].
Definition dave : PublicKey := arr_of 32 [x04].
Definition no_sig : Signature := arr_zero 64.
Definition no_pow : Proof_ := encode_proof (mkCheckedPow 0 0).
Definition tld : TldName := ascii "uip".

(** A transaction signed over its own payload. *)
Definition signed_tx (k : PublicKey) (mk : Signature → Transaction) : Transaction :=
  mk (match signing_payload (mk no_sig) with Ok p => sk_sign k p | Err _ => no_sig end).

Definition claim : Transaction :=
  signed_tx alice (λ s, TxRegisterTld (register_tld_on NetworkId_TESTNET tld 0 no_pow alice s)).
Definition set_open (o : bool) : Transaction :=
  signed_tx alice (λ s, TxSetTldOpen (set_tld_open_on NetworkId_TESTNET (TldId_from_tld tld) o alice s)).
Definition register (k : PublicKey) (name : DomainName) : Transaction :=
  signed_tx k (λ s, TxRegisterDomain (register_domain_on NetworkId_TESTNET name 0 no_pow k s)).

(** A block on top of [parent], produced by [k]. *)
Definition make (k : PublicKey) (parent_height : N) (parent : BlockHash) (time : N)
    (txs : list Transaction) : Block :=
  match build_with (with_producer k (with_timestamp time (builder_after parent_height parent))) txs with
  | Ok b => b
  | Err _ => genesis_of net
  end.

Definition c0 : Blockchain := chain_for_network net.
Definition founding : list Transaction :=
  [claim; set_open true; register alice (ascii "a.uip"); register bob (ascii "b.uip");
   register carol (ascii "c.uip"); register dave (ascii "d.uip")].
Definition b1 : Block := make alice 0 (bc_tip c0) 1000 founding.
Definition c1 : Blockchain := (push_block_with_gc c0 b1).1.

Lemma reach_push c b : reachable net c → reachable net (push_block_with_gc c b).1.
Proof.
  intros Hr. eapply rtc_r; [exact Hr|]. apply (step_push c b _ (push_block_with_gc c b).2).
  by destruct (push_block_with_gc c b).
Qed.

Lemma reach_accept c cp : reachable net c → reachable net (accept_checkpoint c cp).1.
Proof.
  intros Hr. eapply rtc_r; [exact Hr|]. apply (step_checkpoint c cp _ (accept_checkpoint c cp).2).
  by destruct (accept_checkpoint c cp).
Qed.

Lemma reachable_c1 : reachable net c1.
Proof. apply reach_push, rtc_refl. Qed.

#[local] Instance Block_eq_dec : EqDecision Block.
Proof. solve_decision. Defined.

Lemma is_ok_pair {A E B} (p : A * result E B) : is_ok p.2 = true → ∃ x, p = (p.1, Ok x).
Proof. destruct p as [a [x|e]]; [by exists x|done]. Qed.

(** Several closed booleans, evaluated together. *)
Fixpoint all (l : list bool) : bool := match l with [] => true | b :: l => if b then all l else false end.
Fixpoint each (l : list bool) : Prop := match l with [] => True | b :: l => b = true ∧ each l end.
Lemma all_true l : all l = true → each l.
Proof. induction l as [|[] l IH]; cbn; [done| |done]. auto. Qed.

Definition eqb {A} `{EqDecision A} (a b : A) : bool := bool_decide (a = b).
Lemma eqb_true {A} `{EqDecision A} (a b : A) : eqb a b = true → a = b.
Proof. apply bool_decide_eq_true_1. Qed.
Lemma arr_eqb_true {n} (a b : arr n) : arr_eqb a b = true → a = b.
Proof. apply bool_decide_eq_true_1. Qed.
Lemma arr_eqb_false {n} (a b : arr n) : negb (arr_eqb a b) = true → a ≠ b.
Proof. by intros ?%negb_true_iff%bool_decide_eq_false. Qed.

(** The sister of [b1]: empty, with a lower hash. *)
Definition s1 : Block := make alice 0 (bc_tip c0) 1000 [].

(** ** The replay index after a reorganisation *)

Definition fresh : Blockchain := (push_block_with_gc c0 s1).1.
Definition switched : Blockchain := (try_attach c1 s1).1.
Definition b2 : Block := make alice 1 (bc_tip fresh) 1010 founding.

Definition is_replay {A} (r : result BlockchainError A) : bool :=
  match r with Err TxReplay => true | _ => false end.

Lemma replay_run : all [
  is_ok (try_attach c1 s1).2;
  eqb (bc_canonical switched) (bc_canonical fresh);
  arr_eqb (bc_tip switched) (bc_tip fresh);
  arr_eqb (state_root_smt (bc_state switched)) (state_root_smt (bc_state fresh));
  is_replay (push_block switched b2).2;
  is_ok (push_block fresh b2).2] = true.
Proof. by_eval. Qed.

(** A reorganisation leaves the anti-replay index of the abandoned
    branch in place: two nodes with the same canonical blocks, tip and
    state root, one of which switched chains, decide differently about
    the next block — the one that switched rejects as a replay the
    transactions its abandoned block carried. *)
Theorem reorg_keeps_replay_index :
  ∃ c s c' a fresh b,
    reachable net c ∧ try_attach c s = (c', Ok a) ∧ reachable net fresh ∧
    bc_canonical c' = bc_canonical fresh ∧ bc_tip c' = bc_tip fresh ∧
    state_root_smt (bc_state c') = state_root_smt (bc_state fresh) ∧
    (push_block c' b).2 = Err TxReplay ∧ is_ok (push_block fresh b).2 = true.
Proof.
  destruct (all_true _ replay_run) as (E1 & E2 & E3 & E4 & E5 & E6 & _). destruct (is_ok_pair _ E1) as [a Ea].
  exists c1, s1, switched, a, fresh, b2. split; [apply reachable_c1|]. split; [exact Ea|].
  split; [apply reach_push, rtc_refl|].
  split; [exact (eqb_true _ _ E2)|]. split; [exact (arr_eqb_true _ _ E3)|].
  split; [exact (arr_eqb_true _ _ E4)|]. split; [|exact E6].
  revert E5. generalize (push_block switched b2).2. by intros [?|[]].
Qed.

(** ** A sister of a finalized block *)

Definition vote (k : PublicKey) (d : CheckpointData) : PublicKey * Signature :=
  (k, sk_sign k (arr_list (signing_hash d))).
Definition cp1 : Checkpoint :=
  match checkpoint_data c1 0 with
  | Ok d => mkCheckpoint d (map (λ k, vote k d) [alice; bob; carol; dave])
  | Err _ => mkCheckpoint (mkCheckpointData 0 0 (arr_zero 32) (arr_zero 32) (arr_zero 32) 0) []
  end.
Definition c1f : Blockchain := (accept_checkpoint c1 cp1).1.

Lemma reachable_c1f : reachable net c1f.
Proof. apply reach_accept, reachable_c1. Qed.

Definition opt_eqb {A} `{EqDecision A} (o : option A) (a : A) : bool :=
  match o with Some x => bool_decide (x = a) | None => false end.
Lemma opt_eqb_true {A} `{EqDecision A} (o : option A) (a : A) : opt_eqb o a = true → o = Some a.
Proof. destruct o; [|done]. by intros ->%bool_decide_eq_true_1. Qed.

Definition hashes_to (b : Block) (x : hash) : bool :=
  match header_hash (bk_header b) with Ok y => arr_eqb y x | Err _ => false end.
Lemma hashes_to_true b x : hashes_to b x = true → header_hash (bk_header b) = Ok x.
Proof. unfold hashes_to. destruct (header_hash _); [|done]. by intros ->%bool_decide_eq_true_1. Qed.

Lemma finality_run : all [
  eqb (bc_checkpoints c1f) [cp1];
  (height (data cp1) =? chain_height c1f);
  opt_eqb (block c1f (height (data cp1))) b1;
  hashes_to b1 (block_hash (data cp1));
  arr_eqb (block_hash (data cp1)) (bc_tip c1f);
  is_ok (try_attach c1f s1).2;
  negb (arr_eqb (bh_prev_hash (bk_header s1)) (bc_tip c1f))] = true.
Proof. by_eval. Qed.

Lemma respects_one c cp b :
  bc_checkpoints c = [cp] → height (data cp) = chain_height c → block c (height (data cp)) = Some b →
  header_hash (bk_header b) = Ok (block_hash (data cp)) → respects_finality c.
Proof.
  intros E1 E2 E3 E4 cp' Hin. rewrite E1 in Hin. apply list_elem_of_singleton in Hin as ->.
  split; [lia|]. rewrite E3. by intros ? [= <-].
Qed.

Lemma try_attach_drops_finalized_witness :
  reachable net c1f ∧ respects_finality c1f ∧
  ∃ c' a, try_attach c1f s1 = (c', Ok a) ∧ bc_checkpoints c' = [cp1] ∧ ¬ respects_finality c'.
Proof.
  destruct (all_true _ finality_run) as (E1 & E2 & E3 & E4 & E5 & E6 & E7 & _). destruct (is_ok_pair _ E6) as [a Ea].
  apply eqb_true in E1. apply N.eqb_eq in E2. apply opt_eqb_true in E3. apply hashes_to_true in E4.
  apply arr_eqb_true in E5. apply arr_eqb_false in E7.
  split; [exact reachable_c1f|]. split; [exact (respects_one c1f cp1 b1 E1 E2 E3 E4)|].
  exists (try_attach c1f s1).1, a. split; [exact Ea|].
  destruct (try_attach_drops_finalized c1f s1 _ a cp1 (reachable_ok net c1f reachable_c1f)
    (eq_ind_r (λ l, cp1 ∈ l) (list_elem_of_here cp1 []) E1) E2 E5 E7 Ea) as (H1 & _ & _ & _ & _ & H2).
  split; [exact (eq_trans H1 E1)|exact H2].
Defined.
End ChainScenario.
