(* ===== verification/ChainWitness.v ===== *)
(** * Applications to the concrete chain

    Each theorem about blocks, the chain, finality and the fork choice,
    applied to the chain of [ChainScenario]. *)

From S2P Require Import Prelude Bytes Crypto Commitment Smt SmtProofs Names Icann Codec Checkpoint Pow Tx Wire.
From S2P Require Import State StateSpec StateProofs StateProps Blocks BlocksProps Chain ForkChoice.
From S2P Require Import ChainProofs ChainProps FinalityProps ForkProps ChainScenario.

Module ChainWitness.
Import ChainScenario.
#[local] Existing Instance Toy.crypto.

(** ** Blocks *)

Definition root_is (r : result BlockchainError hash) (y : hash) : bool :=
  match r with Ok x => arr_eqb x y | Err _ => false end.
Lemma root_ok r y : root_is r y = true → r = Ok y.
Proof. destruct r; [|done]. by intros ->%arr_eqb_true. Qed.

Definition opened : Block := make alice 0 (bc_tip c0) 1000 [set_open true; set_open false].

Lemma opened_run : all [
  is_ok (header_hash (bk_header opened));
  root_is (tx_root (bk_transactions opened)) (bh_tx_root (bk_header opened));
  injective_onb (block_preimages opened ++ block_preimages opened);
  bh_height (bk_header opened) <? U64; bh_version (bk_header opened) <=? U32_MAX;
  bh_timestamp (bk_header opened) <? U64;
  eqb (bk_transactions opened) [set_open true; set_open false]] = true.
Proof. by_eval. Qed.

Lemma opened_wf : Block_wf opened.
Proof.
  destruct (all_true _ opened_run) as (_ & _ & _ & E1 & E2 & E3 & E4 & _). split.
  - split_and!; [exact (proj1 (N.leb_le _ _) E2)|exact (proj1 (N.ltb_lt _ _) E1)|exact (proj1 (N.ltb_lt _ _) E3)].
  - rewrite (eqb_true _ _ E4). repeat constructor.
Qed.
(** The hash and the root in the headers of [opened]. *)
Definition opened_hash : hash := default (arr_zero 32) (to_option (header_hash (bk_header opened))).

Lemma is_ok_default (r : result BlockchainError hash) : is_ok r = true → r = Ok (default (arr_zero 32) (to_option r)).
Proof. by destruct r. Qed.
Lemma block_hash_commits_witness :
  header_hash (bk_header opened) = Ok opened_hash ∧ opened = opened.
Proof.
  destruct (all_true _ opened_run) as (E1 & E2 & E3 & _). split; [exact (is_ok_default _ E1)|].
  exact (block_hash_commits opened opened opened_hash opened_wf opened_wf (is_ok_default _ E1) (is_ok_default _ E1)
    (root_ok _ _ E2) (root_ok _ _ E2) eq_refl (injective_onb_sound _ E3)).
Defined.

Lemma tx_root_duplicate_witness :
  tx_root ([set_open true; set_open false] ++ [set_open true]) =
  tx_root ([set_open true; set_open false] ++ [set_open true; set_open true]).
Proof.
  apply (tx_root_duplicate [set_open true; set_open false] (set_open true)); [by exists 1%nat|done].
Defined.

Lemma built_block_verifies_witness :
  let b := with_producer alice (with_timestamp 1000 (builder_after 0 (bc_tip c0))) in
  bb_producer b = Some alice ∧ (is_ok (build b) = true ↔ is_ok (tx_root (bb_transactions b)) = true).
Proof.
  intros b. split; [exact eq_refl|]. exact (proj1 (built_block_verifies b alice eq_refl)).
Defined.

(** ** Block application *)

Definition r0 : Registry := empty_registry net.
Definition two : Block := make alice 0 (bc_tip c0) 1000 [claim; set_open true].
Definition twice : Block := make alice 0 (bc_tip c0) 1000 [claim; claim].

Lemma c0_ok : chain_ok c0.
Proof. apply chain_for_network_ok. Qed.
Lemma c0_represents : represents c0 r0.
Proof.
  split; [apply for_network_refines|apply empty_registry_ok|by apply collision_freeb_sound|done].
Qed.

Lemma push_run_c0 : all [
  block_collision_free c0 r0 two; is_ok (push_block_with_gc c0 two).2;
  block_collision_free c0 r0 twice; negb (is_ok (push_block_with_gc c0 twice).2)] = true.
Proof. by_eval. Qed.

Lemma push_block_refines_witness :
  is_ok (push_block_with_gc c0 two).2 = true ∧
  let '(c', res) := push_block_with_gc c0 two in
  is_ok res = is_ok (check_block c0 two) && is_ok (block_outcome c0 r0 two).2 ∧
  ∀ a, res = Ok a → refines (bc_state c') (block_outcome c0 r0 two).1.
Proof.
  destruct (all_true _ push_run_c0) as (E1 & E2 & _). split; [exact E2|].
  pose proof (push_block_refines c0 r0 two c0_ok c0_represents E1) as Hw. revert Hw.
  destruct (push_block_with_gc c0 two) as [c' res]. intros [H1 H2]. split; [exact H1|].
  intros a Ha. apply (H2 a Ha).
Defined.

Lemma push_block_atomic_witness :
  is_ok (push_block_with_gc c0 twice).2 = false ∧ (push_block_with_gc c0 twice).1 ≡ c0.
Proof.
  destruct (all_true _ push_run_c0) as (_ & _ & E1 & E2%negb_true_iff & _). split; [exact E2|].
  pose proof (push_block_atomic c0 r0 twice) as Hw. revert Hw E2.
  destruct (push_block_with_gc c0 twice) as [c' [a|e]]; [done|]. intros Hw _.
  exact (Hw c' e c0_represents E1 eq_refl).
Defined.

Lemma replay_index_exact_witness :
  reachable net c1 ∧ ∀ (id : hash) h, bc_included c1 !! id = Some h ↔
    1 ≤ h ≤ chain_height c1 ∧ chain_height c1 < h + REPLAY_WINDOW_BLOCKS ∧
    ∃ b, block c1 h = Some b ∧ carries b id.
Proof. split; [exact reachable_c1|]. exact (proj1 (replay_index_exact net c1 reachable_c1)). Defined.

Definition two_builder : BlockBuilder :=
  with_producer alice (with_timestamp 1000 (builder_after (chain_height c0) (bc_tip c0))).

Lemma honest_run : all [
  is_ok (build_with two_builder [claim; set_open true]);
  bool_decide (allowed_producers c0 1000 = ∅);
  forallb (λ tx, negb (replayed c0 tx)) [claim; set_open true];
  is_ok (registry_block (expired c0 r0) [claim; set_open true] (bk_timestamp (tip_block c0))).2] = true.
Proof. by_eval. Qed.

Lemma make_Ok k h p t txs :
  is_ok (build_with (with_producer k (with_timestamp t (builder_after h p))) txs) = true →
  build_with (with_producer k (with_timestamp t (builder_after h p))) txs = Ok (make k h p t txs).
Proof. unfold make. by destruct (build_with _ _). Qed.

Lemma none_replayed c txs :
  forallb (λ tx, negb (replayed c tx)) txs = true → ∀ tx, tx ∈ txs → replayed c tx = false.
Proof. rewrite forallb_forall. intros Hl tx Hin%list_elem_of_In. by apply negb_true_iff, Hl. Qed.

Lemma honest_block_accepted_witness :
  is_ok (push_block_with_gc c0 two).2 = true ∧ tip_block (push_block_with_gc c0 two).1 = two.
Proof.
  destruct (all_true _ honest_run) as (E1 & E2 & E3 & E4 & _). destruct (all_true _ push_run_c0) as (E5 & _).
  exact (honest_block_accepted c0 r0 alice 1000 [claim; set_open true] two c0_ok c0_represents eq_refl
    (make_Ok alice 0 (bc_tip c0) 1000 [claim; set_open true] E1) (or_introl (bool_decide_eq_true_1 _ E2))
    (none_replayed _ _ E3) eq_refl E4 E5).
Defined.

(** ** Finality *)

Definition b2f : Block := make alice 1 (bc_tip c1f) 2000 [].
Definition c2f : Blockchain := (push_block_with_gc c1f b2f).1.
Definition cp2 : Checkpoint :=
  match checkpoint_data c2f 0 with
  | Ok d => mkCheckpoint d (map (λ k, vote k d) [alice; bob; carol; dave])
  | Err _ => cp1
  end.

Definition data_wfb (d : CheckpointData) : bool :=
  (epoch d <? U64) && (height d <? U64) && (recovery d <=? U32_MAX).
Lemma data_wfb_true d : data_wfb d = true → CheckpointData_wf d.
Proof. by intros [[?%N.ltb_lt ?%N.ltb_lt]%andb_true_iff ?%N.leb_le]%andb_true_iff. Qed.

Lemma second_run : all [
  is_ok (push_block_with_gc c1f b2f).2; eqb (bc_checkpoints c2f) [cp1];
  data_wfb (data cp1); data_wfb (data cp2);
  injective_onb (checkpoint_preimages cp1 ++ checkpoint_preimages cp2);
  is_ok (accept_checkpoint c2f cp2).2] = true.
Proof. by_eval. Qed.

Lemma only_last {A} (l : list A) x (P : A → Prop) : l = [x] → P x → ∀ y, last l = Some y → P y.
Proof. by intros -> Hp y [= <-]. Qed.
Lemma only_Forall {A} (l : list A) x (P : A → Prop) : l = [x] → P x → Forall P l.
Proof. by intros -> Hp; apply Forall_singleton. Qed.

Lemma accept_checkpoint_spec_witness :
  is_ok (accept_checkpoint c2f cp2).2 = true ∧ acceptable c2f cp2 ∧
  (accept_checkpoint c2f cp2).1 = finalized_chain c2f cp2.
Proof.
  destruct (all_true _ second_run) as (_ & E1 & E2 & E3 & E4 & E5 & _). apply eqb_true in E1.
  split; [exact E5|].
  pose proof (only_Forall _ _ (λ l, CheckpointData_wf (data l)) E1 (data_wfb_true _ E2)) as Hf.
  pose proof (only_last _ _ (λ l, injective_on (checkpoint_preimages l ++ checkpoint_preimages cp2)) E1
    (injective_onb_sound _ E4)) as Hi.
  pose proof (accept_checkpoint_spec c2f cp2 (data_wfb_true _ E3) Hf Hi) as Hw. revert Hw E5.
  destruct (accept_checkpoint c2f cp2) as [c' res]. intros (H1 & _ & H2) E.
  split; [exact (proj1 H1 E)|]. cbn [fst snd] in *. by rewrite E in H2.
Defined.

Definition c2ff : Blockchain := (accept_checkpoint c2f cp2).1.
Lemma reachable_c2ff : reachable net c2ff.
Proof. apply reach_accept, reach_push, reachable_c1f. Qed.

Lemma finalized_chain_inv_witness :
  (length (bc_checkpoints c2ff) ≤ CHECKPOINT_KEEP)%nat ∧
  ∀ i a b, bc_checkpoints c2ff !! i = Some a → bc_checkpoints c2ff !! S i = Some b → follows a b.
Proof.
  pose proof (finalized_chain_inv net c2ff reachable_c2ff) as (H1 & H2 & _). split; [exact H1|exact H2].
Defined.

Lemma memory_bounded_witness :
  N.of_nat (length (bc_canonical c2f)) ≤
    1 + N.max RAM_WINDOW_BLOCKS (chain_height c2f + 1 - height (data cp1)).
Proof.
  destruct (all_true _ second_run) as (E1 & _). destruct (is_ok_pair _ E1) as [a Ea].
  destruct (all_true _ finality_run) as (E2 & _). apply eqb_true in E2.
  exact (proj1 (memory_bounded net c1f b2f _ a cp1 reachable_c1f Ea (f_equal last E2))).
Defined.

(** ** The fork choice *)

Definition s2 : Block := make alice 1 (bc_tip fresh) 1010 [].

Definition adopts (r : result BlockchainError bool) : bool := match r with Ok b => b | Err _ => false end.

Lemma adopt_run : adopts (adopt_branch c1 [s1; s2]).2 = true.
Proof. by_eval. Qed.

Lemma adopt_branch_spec_witness :
  adopts (adopt_branch c1 [s1; s2]).2 = true ∧ better (adopt_branch c1 [s1; s2]).1 c1 ∧
  (respects_finality c1 → respects_finality (adopt_branch c1 [s1; s2]).1).
Proof.
  split; [exact adopt_run|].
  pose proof (adopt_branch_spec c1 [s1; s2] (reachable_ok _ _ reachable_c1)) as Hw.
  revert Hw. generalize adopt_run. generalize (adopt_branch c1 [s1; s2]).
  intros [c' [[]|e]] E Hw; [|discriminate E..].
  destruct Hw as (_ & H1 & _ & H2 & _). split; [exact H1|exact H2].
Defined.

(** A node started from a snapshot at height 5. *)
Definition snapshot_tip : Block := make alice 4 (bc_tip c0) 3000 [].
Definition restored : Blockchain :=
  default c0 (restore 5 (default (arr_zero 32) (to_option (header_hash (bk_header snapshot_tip))))
    snapshot_tip (bc_state c1)).

Lemma restored_run : all [
  bool_decide (is_Some (restore 5 (default (arr_zero 32) (to_option (header_hash (bk_header snapshot_tip))))
    snapshot_tip (bc_state c1)));
  is_ok (header_hash (bk_header snapshot_tip))] = true.
Proof. by_eval. Qed.

Lemma restored_chain : chain_ok restored ∧ bc_base_height restored = 5.
Proof.
  destruct (all_true _ restored_run) as (E1 & E2 & _). apply bool_decide_eq_true_1 in E1 as [c E].
  destruct (restored_ok _ _ _ _ _ E) as (H1 & H2 & _); [done|exact (is_ok_default _ E2)|].
  unfold restored. rewrite E. by split.
Qed.

Lemma no_reorg_after_eviction_witness :
  bc_base_height restored = 5 ∧
  ∀ b, 1 < bk_height b < U64 → bh_prev_hash (bk_header b) ≠ bc_tip restored →
    is_ok (try_attach restored b).2 = false ∧ (try_attach restored b).1 = restored.
Proof.
  destruct restored_chain as [H1 H2]. split; [exact H2|].
  assert (1 < bc_base_height restored) as H3 by (rewrite H2; done).
  exact (proj2 (no_reorg_after_eviction restored H1 H3)).
Defined.
End ChainWitness.
