(* ===== verification/Redb.v ===== *)
(** * The embedded database

    [redb] is a third-party crate: its tables are the operations of the
    classes [Table] and [Redb], with the documented behaviour the node
    store relies on in [TableLaws] and [RedbLaws].  [Toy] is a concrete
    instance over finite maps, used to evaluate examples. *)

From S2P Require Import Prelude Bytes.

(** [redb::Table<K, &[u8]>] *)
Class Table (K : Type) := {
  tb : Type;
  tb_empty : tb;
  (** [ReadableTable::get] *)
  tb_get : K → tb → option (list byte);
  (** [Table::insert]: the new table and the previous value. *)
  tb_insert : K → list byte → tb → tb * option (list byte);
  (** [Table::remove]: the new table and the removed value. *)
  tb_remove : K → tb → tb * option (list byte) }.
Arguments tb K {_}.

Class Redb := {
  redb_heights :: Table N;
  redb_bytes :: Table (list byte);
  (** [ReadableTable::range(start..)], or [range(..)]. *)
  tb_range : option (list byte) → tb (list byte) → list (list byte * list byte) }.

(** A table is a finite map. *)
Class TableLaws (K : Type) `{Countable K, !Table K} := {
  tb_view : tb K → gmap K (list byte);
  view_empty : tb_view tb_empty = ∅;
  view_get k t : tb_get k t = tb_view t !! k;
  view_insert k v t : tb_view (tb_insert k v t).1 = <[k := v]> (tb_view t);
  insert_previous k v t : (tb_insert k v t).2 = tb_view t !! k;
  view_remove k t : tb_view (tb_remove k t).1 = delete k (tb_view t);
  remove_previous k t : (tb_remove k t).2 = tb_view t !! k }.

(** A range lists the entries from its lower bound on, in ascending
    byte order of their keys. *)
Definition from_bound (start : option (list byte)) (e : list byte * list byte) : Prop :=
  match start with None => True | Some s => bytes_le s e.1 end.
#[global] Instance from_bound_dec start e : Decision (from_bound start e).
Proof. destruct start; unfold from_bound; apply _. Defined.

Class RedbLaws `{Redb} := {
  laws_heights :: TableLaws N;
  laws_bytes :: TableLaws (list byte);
  range_view start t : tb_range start t ≡ₚ filter (from_bound start) (map_to_list (tb_view t));
  range_sorted start t : StronglySorted bytes_lt (tb_range start t).*1 }.

Lemma range_all `{RedbLaws} (t : tb (list byte)) :
  tb_range None t ≡ₚ map_to_list (@tb_view _ _ _ _ laws_bytes t).
Proof.
  rewrite range_view. generalize (map_to_list (@tb_view _ _ _ _ laws_bytes t)). intros l.
  induction l as [|e l IH]; [done|]. rewrite filter_cons_True by done. by f_equiv.
Qed.

(** Rewriting a table operation into its view. *)
#[global] Hint Rewrite @view_empty @view_get @view_insert @insert_previous @view_remove @remove_previous : redb.

(** [for (k, v) in entries { table.insert(k, v)?; }] *)
Definition tb_extend {K} `{Table K} (l : list (K * list byte)) (t : tb K) : tb K :=
  fold_left (λ t e, (tb_insert e.1 e.2 t).1) l t.

Lemma view_extend {K} `{TableLaws K} (l : list (K * list byte)) t :
  tb_view (tb_extend l t) = list_to_map (reverse l) ∪ tb_view t.
Proof.
  unfold tb_extend. revert t. induction l as [|[k v] l IH]; intros t; cbn [fold_left].
  - cbn. by rewrite (left_id_L ∅ (∪)).
  - rewrite IH, view_insert. cbn [fst snd]. rewrite reverse_cons, list_to_map_app. cbn.
    rewrite <- (assoc_L (∪)). f_equal. by rewrite insert_empty, insert_union_singleton_l.
Qed.

(** ** A computable instance *)
Module ToyRedb.
Definition map_table (K : Type) {dec : EqDecision K} {C : @Countable K dec} : Table K := {|
  tb := gmap K (list byte);
  tb_empty := ∅;
  tb_get k t := t !! k;
  tb_insert k v t := (<[k := v]> t, t !! k);
  tb_remove k t := (delete k t, t !! k) |}.

Definition key_le (a b : list byte * list byte) : Prop := bytes_le a.1 b.1.
#[export] Instance key_le_dec : RelDecision key_le.
Proof. intros a b. unfold key_le. apply _. Defined.

#[export] Instance redb : Redb := {|
  redb_heights := map_table N;
  redb_bytes := map_table (list byte);
  tb_range start t := merge_sort key_le (filter (from_bound start) (map_to_list (t : gmap (list byte) (list byte)))) |}.

#[export] Instance map_table_laws K {dec : EqDecision K} {C : @Countable K dec} : TableLaws (Table0 := map_table K) K.
Proof. by refine {| tb_view := (λ t, t) : @tb K (map_table K) → gmap K (list byte) |}. Defined.

#[export] Instance laws : RedbLaws.
Proof.
  refine {| laws_heights := map_table_laws N; laws_bytes := map_table_laws (list byte) |}.
  - intros start t. apply merge_sort_Permutation.
  - intros start t. cbn [tb_range redb].
    set (l := filter _ _). assert (NoDup (merge_sort key_le l).*1) as Hn.
    { rewrite merge_sort_Permutation. eapply sublist_NoDup; [|apply fmap_sublist, sublist_filter].
      apply NoDup_fst_map_to_list. }
    assert (StronglySorted key_le (merge_sort key_le l)) as Hs.
    { apply Sorted_StronglySorted; [|apply Sorted_merge_sort].
      - intros a b c. unfold key_le. apply transitivity.
      - intros a b. unfold key_le. apply total, _. }
    induction Hs as [|a l' Hs IH Ha]; [constructor|]. cbn in Hn |- *. apply NoDup_cons in Hn as [Hni Hn].
    constructor; [auto|]. apply Forall_fmap. rewrite Forall_forall in Ha |- *. intros b Hb. cbn.
    destruct (proj1 (bytes_le_lt _ _) (Ha b Hb)) as [E|?]; [|done].
    exfalso. apply Hni. rewrite E. by apply list_elem_of_fmap_2.
Qed.
End ToyRedb.
