(* ===== verification/StateBytes.v ===== *)
(** * Storage encodings of the state entries ([scone-storage]:
    [state_bytes.rs], [error.rs])

    The fixed-size bytes in which the node store and the snapshots hold a
    domain state and a TLD state. *)

From S2P Require Import Prelude Bytes Crypto Commitment Smt Names Icann Codec Checkpoint Pow Tx Wire State StateSpec.

(** [scone-storage/src/error.rs:13-71 StorageError]: the formatted
    messages are dropped. *)
Inductive StorageError :=
| NonMonotonicHeight (expected got : N) | Conflict | TooLarge (len max : N) | ReservedKey (key : list byte)
| SnapshotUnavailable | SnapshotRejected | Corrupted | UnsupportedFormat (version : N)
| ErrDatabase | ErrTransaction | ErrTable | ErrCommit | ErrBackend.

#[global] Instance StorageError_eq_dec : EqDecision StorageError.
Proof. solve_decision. Defined.

(** ** Domains *)

(** [scone-storage/src/state_bytes.rs:28-28 DOMAIN_STATE_LEN_NONE] *)
Definition DOMAIN_STATE_LEN_NONE : nat := 57.
(** [scone-storage/src/state_bytes.rs:31-31 DOMAIN_STATE_LEN_SOME] *)
Definition DOMAIN_STATE_LEN_SOME : nat := DOMAIN_STATE_LEN_NONE + 32.
(** [scone-storage/src/state_bytes.rs:33-33 TAG_WITH_HASH] *)
Definition TAG_WITH_HASH : byte := x01.
(** [scone-storage/src/state_bytes.rs:34-34 TAG_WITHOUT_HASH] *)
Definition TAG_WITHOUT_HASH : byte := x02.

(** [scone-storage/src/state_bytes.rs:38-38 DomainStateBytes] *)
Definition DomainStateBytes : Type := arr 89.

(** [scone-storage/src/state_bytes.rs:41-62 DomainStateBytes::from]: the
    fields are copied over an array of zeros. *)
Definition DomainStateBytes_from (state : DomainState) : DomainStateBytes :=
  match ds_record_hash state with
  | Some hash =>
      arr_of 89 (TAG_WITH_HASH :: arr_list (ds_owner state) ++ be_bytes 8 (ds_sequence state) ++
        be_bytes 8 (ds_registered_at state) ++ be_bytes 8 (ds_valid_until state) ++ arr_list hash)
  | None =>
      arr_of 89 (TAG_WITHOUT_HASH :: arr_list (ds_owner state) ++ be_bytes 8 (ds_sequence state) ++
        be_bytes 8 (ds_registered_at state) ++ be_bytes 8 (ds_valid_until state))
  end.

(** [scone-storage/src/state_bytes.rs:68-75 DomainStateBytes::as_encoded] *)
Definition DomainStateBytes_as_encoded (b : DomainStateBytes) : list byte :=
  take (if byte_eqb (nth 0 b x00) TAG_WITH_HASH then DOMAIN_STATE_LEN_SOME else DOMAIN_STATE_LEN_NONE) b.

(** [scone-storage/src/state_bytes.rs:84-122 DomainStateBytes::decode] *)
Definition DomainStateBytes_decode (bytes : list byte) : result StorageError DomainState :=
  let? hash :=
    match head bytes with
    | Some tag =>
        if byte_eqb tag TAG_WITH_HASH && (length bytes =? DOMAIN_STATE_LEN_SOME)%nat
        then Ok (Some (arr_of 32 (slice 57 89 bytes)))
        else if byte_eqb tag TAG_WITHOUT_HASH && (length bytes =? DOMAIN_STATE_LEN_NONE)%nat
        then Ok None
        else Err Corrupted
    | None => Err Corrupted
    end in
  let owner := arr_of 32 (slice 1 33 bytes) in
  let sequence := be_val (slice 33 41 bytes) in
  let registered_at := be_val (slice 41 49 bytes) in
  let valid_until := be_val (slice 49 57 bytes) in
  Ok (mkDomainState owner sequence hash registered_at valid_until).

(** [scone-storage/src/state_bytes.rs:126-139 decode_domain_entry] *)
Definition decode_domains_entry (key value : list byte) : result StorageError (DomainId * DomainStateBytes) :=
  let? key := ok_or (to_arr 32 key) Corrupted in
  let n := length value in
  if negb (n =? DOMAIN_STATE_LEN_NONE)%nat && negb (n =? DOMAIN_STATE_LEN_SOME)%nat then Err Corrupted
  else Ok (key, arr_of 89 value).

(** ** TLDs *)

(** [scone-storage/src/state_bytes.rs:142-142 TLD_STATE_LEN] *)
Definition TLD_STATE_LEN : nat := 34.
(** [scone-storage/src/state_bytes.rs:146-146 TAG_TLD_V2] *)
Definition TAG_TLD_V2 : byte := x02.

(** [scone-storage/src/state_bytes.rs:164-164 TldStateBytes] *)
Definition TldStateBytes : Type := arr 34.

(** [scone-storage/src/state_bytes.rs:167-173 TldStateBytes::from] *)
Definition TldStateBytes_from (state : TldState) : TldStateBytes :=
  arr_of 34 (TAG_TLD_V2 :: arr_list (ts_owner state) ++ [u8_of_bool (ts_open state)]).

(** [scone-storage/src/state_bytes.rs:179-181 TldStateBytes::as_encoded] *)
Definition TldStateBytes_as_encoded (b : TldStateBytes) : list byte := take TLD_STATE_LEN b.

(** [scone-storage/src/state_bytes.rs:190-210 TldStateBytes::decode] *)
Definition TldStateBytes_decode (bytes : list byte) : result StorageError TldState :=
  let? _ :=
    match head bytes with
    | Some tag =>
        if byte_eqb tag TAG_TLD_V2 && (length bytes =? TLD_STATE_LEN)%nat then Ok tt else Err Corrupted
    | None => Err Corrupted
    end in
  let? open :=
    if byte_eqb (nth 33 bytes x00) x00 then Ok false
    else if byte_eqb (nth 33 bytes x00) x01 then Ok true
    else Err Corrupted in
  Ok (mkTldState (arr_of 32 (slice 1 33 bytes)) open).

(** [scone-storage/src/state_bytes.rs:214-219 decode_tld_entry] *)
Definition decode_tlds_entry (key value : list byte) : result StorageError (TldId * TldStateBytes) :=
  let? key := ok_or (to_arr 32 key) Corrupted in
  let? bytes := ok_or (to_arr 34 value) Corrupted in
  Ok (key, bytes).

(** ** Round trips *)

(** The stored bytes of a domain and of a TLD. *)
Definition domain_row (st : DomainState) : list byte :=
  (if ds_record_hash st then TAG_WITH_HASH else TAG_WITHOUT_HASH) ::
  arr_list (ds_owner st) ++ be_bytes 8 (ds_sequence st) ++
  be_bytes 8 (ds_registered_at st) ++ be_bytes 8 (ds_valid_until st) ++
  match ds_record_hash st with Some h => arr_list h | None => [] end.
Definition tld_row (st : TldState) : list byte :=
  TAG_TLD_V2 :: arr_list (ts_owner st) ++ [u8_of_bool (ts_open st)].

(** What reading the first bytes of a stored entry back gives: the bytes
    past the encoding are lost. *)
Definition reread (b : DomainStateBytes) : DomainStateBytes := arr_of 89 (DomainStateBytes_as_encoded b).

Lemma length_domain_row st :
  length (domain_row st) = if ds_record_hash st then DOMAIN_STATE_LEN_SOME else DOMAIN_STATE_LEN_NONE.
Proof.
  unfold domain_row. cbn [length]. rewrite !length_app, !length_be_bytes, arr_length.
  by destruct (ds_record_hash st); rewrite ?arr_length.
Qed.

Lemma length_tld_row st : length (tld_row st) = TLD_STATE_LEN.
Proof. unfold tld_row. cbn [length]. by rewrite length_app, arr_length. Qed.

Lemma domain_row_le st : (length (domain_row st) ≤ 89)%nat.
Proof.
  rewrite length_domain_row. unfold DOMAIN_STATE_LEN_SOME, DOMAIN_STATE_LEN_NONE. destruct (ds_record_hash st); lia.
Qed.

Lemma from_row st : DomainStateBytes_from st = arr_of 89 (domain_row st).
Proof. unfold DomainStateBytes_from, domain_row. destruct (ds_record_hash st); by rewrite ?app_nil_r. Qed.

Lemma encoded_row st : DomainStateBytes_as_encoded (DomainStateBytes_from st) = domain_row st.
Proof.
  pose proof (length_domain_row st) as Hl. rewrite from_row. unfold DomainStateBytes_as_encoded.
  rewrite arr_of_id by apply domain_row_le.
  assert (nth 0 (domain_row st ++ replicate (89 - length (domain_row st)) x00) x00 =
    if ds_record_hash st then TAG_WITH_HASH else TAG_WITHOUT_HASH) as -> by done.
  generalize dependent (domain_row st). intros row Hl. destruct (ds_record_hash st).
  - change (byte_eqb TAG_WITH_HASH TAG_WITH_HASH) with true. cbv iota. rewrite <- Hl. apply take_app_length.
  - change (byte_eqb TAG_WITHOUT_HASH TAG_WITH_HASH) with false. cbv iota. rewrite <- Hl. apply take_app_length.
Qed.

Lemma tld_encoded_row st : TldStateBytes_as_encoded (TldStateBytes_from st) = tld_row st.
Proof.
  unfold TldStateBytes_as_encoded, TldStateBytes_from. fold (tld_row st).
  rewrite arr_of_id by (rewrite length_tld_row; unfold TLD_STATE_LEN; lia). rewrite length_tld_row. cbn [replicate Nat.sub TLD_STATE_LEN].
  rewrite app_nil_r. apply take_ge. by rewrite length_tld_row.
Qed.

Lemma reread_from st : reread (DomainStateBytes_from st) = DomainStateBytes_from st.
Proof. unfold reread. by rewrite encoded_row, from_row. Qed.

Lemma length_encoded b :
  length (DomainStateBytes_as_encoded b) = DOMAIN_STATE_LEN_SOME ∨
  length (DomainStateBytes_as_encoded b) = DOMAIN_STATE_LEN_NONE.
Proof.
  unfold DomainStateBytes_as_encoded. rewrite length_take, arr_length. destruct (byte_eqb _ _); auto.
Qed.

(** The fields of a concatenation. *)
Lemma slice_cons lo hi (b : byte) l : slice (S lo) (S hi) (b :: l) = slice lo hi l.
Proof. done. Qed.

Ltac slices :=
  rewrite ?slice_cons;
  repeat match goal with |- context [slice ?lo ?hi (?a ++ ?l)] =>
    rewrite (slice_skip lo hi a l) by (rewrite ?length_be_bytes, ?length_le_bytes, ?arr_length; lia);
    rewrite ?length_be_bytes, ?length_le_bytes, ?arr_length; cbn [Nat.sub] end;
  rewrite ?slice_head by (rewrite ?length_be_bytes, ?length_le_bytes, ?arr_length; done).

Lemma decode_domain_row st : fits st → DomainStateBytes_decode (domain_row st) = Ok st.
Proof.
  intros (Hs & Hr & Hv). unfold DomainStateBytes_decode. rewrite length_domain_row. unfold domain_row.
  destruct st as [o sq [h|] ra vu]; cbn [ds_record_hash ds_owner ds_sequence ds_registered_at ds_valid_until head] in *;
    cbn -[slice be_bytes]; slices; rewrite !be_val_be_bytes_64, !arr_of_list by done; [|done].
  rewrite <- (app_nil_r (arr_list h)). slices. by rewrite arr_of_list.
Qed.

(** A byte string is the concatenation of its fields. *)
Lemma fields_concat (l : list byte) a b c d e :
  (a ≤ b ≤ c)%nat → (c ≤ d ≤ e)%nat → length l = e →
  slice 0 a l ++ slice a b l ++ slice b c l ++ slice c d l ++ slice d e l = l.
Proof.
  intros ? ? Hl. rewrite (slice_slice c d e), (slice_slice b c e), (slice_slice a b e), (slice_slice 0 a e) by lia.
  rewrite <- Hl. apply slice_all.
Qed.

Lemma decode_domain_canonical b st : DomainStateBytes_decode b = Ok st → fits st ∧ b = domain_row st.
Proof.
  unfold DomainStateBytes_decode. destruct b as [|t l]; [done|]. cbn [head length].
  intros (h & Hh & E%Ok_inj)%rbind_Ok. subst st. unfold fits, domain_row.
  cbn [ds_record_hash ds_owner ds_sequence ds_registered_at ds_valid_until].
  rewrite !slice_cons. unfold byte_eqb in Hh.
  repeat case_bool_decide; subst; cbn [andb] in Hh; try done.
  - destruct (Nat.eqb_spec (S (length l)) DOMAIN_STATE_LEN_SOME) as [El|_]; [|done].
    injection El as El. apply Ok_inj in Hh as <-. rewrite slice_cons.
    split; [split_and!; apply be_val_lt_64; apply length_slice; lia|].
    f_equal. rewrite !be_bytes_be_val_n, !arr_of_length by (apply length_slice; lia).
    symmetry. apply fields_concat; lia.
  - destruct (Nat.eqb_spec (S (length l)) DOMAIN_STATE_LEN_NONE) as [El|_]; [|done].
    injection El as El. apply Ok_inj in Hh as <-.
    split; [split_and!; apply be_val_lt_64; apply length_slice; lia|].
    f_equal. rewrite !be_bytes_be_val_n, !arr_of_length by (apply length_slice; lia).
    symmetry. exact (fields_concat l 32 40 48 56 56 ltac:(lia) ltac:(lia) El).
Qed.

Lemma decode_tld_row st : TldStateBytes_decode (tld_row st) = Ok st.
Proof.
  unfold TldStateBytes_decode. rewrite length_tld_row. unfold tld_row. destruct st as [o op]. cbn [head ts_owner ts_open].
  change (byte_eqb TAG_TLD_V2 TAG_TLD_V2 && _) with true. cbn [rbind].
  change (nth 33 (TAG_TLD_V2 :: ?l) x00) with (nth 32 l x00).
  rewrite app_nth2 by (rewrite arr_length; lia). rewrite arr_length. slices. rewrite arr_of_list. by destruct op.
Qed.

Lemma decode_tld_canonical b st : TldStateBytes_decode b = Ok st → b = tld_row st.
Proof.
  unfold TldStateBytes_decode. destruct b as [|t l]; [done|]. cbn [head length].
  intros (u & Ht & Hb)%rbind_Ok. apply rbind_Ok in Hb as (op & Ho & E%Ok_inj). subst st.
  unfold byte_eqb in *. destruct (decide (t = TAG_TLD_V2)) as [->|Hne]; [|by rewrite bool_decide_false in Ht].
  cbn [andb] in Ht. rewrite bool_decide_true in Ht by done. cbn [andb] in Ht.
  destruct (Nat.eqb_spec (S (length l)) TLD_STATE_LEN) as [El|_]; [|done]. injection El as El.
  unfold tld_row. cbn [ts_owner ts_open]. f_equal. rewrite slice_cons, arr_of_length by (apply length_slice; lia).
  assert (length (slice 32 33 l) = 1%nat) as Hl by (apply length_slice; lia).
  rewrite <- (slice_all l) at 1. rewrite El, <- (slice_slice 0 32 33) by lia. f_equal.
  assert (slice 32 33 l = [nth 32 l x00]) as ->.
  { assert (nth 32 l x00 = nth 0 (slice 32 33 l) x00) as ->.
    { rewrite <- (slice_all l) at 1. rewrite El, <- (slice_slice 0 32 33) by lia.
      rewrite app_nth2 by (rewrite length_slice; lia). rewrite length_slice by lia. done. }
    by destruct (slice 32 33 l) as [|? [|]]. }
  cbn [nth] in Ho. f_equal. repeat case_bool_decide; try done; by apply Ok_inj in Ho as <-.
Qed.

Lemma decode_domains_row (id : hash) b :
  decode_domains_entry (arr_list id) (DomainStateBytes_as_encoded b) = Ok (id, reread b).
Proof.
  unfold decode_domains_entry. rewrite to_arr_arr. cbn [ok_or rbind].
  by destruct (length_encoded b) as [-> | ->].
Qed.

Lemma decode_tlds_row (id : hash) b : decode_tlds_entry (arr_list id) (TldStateBytes_as_encoded b) = Ok (id, b).
Proof.
  unfold decode_tlds_entry, TldStateBytes_as_encoded. rewrite to_arr_arr. cbn [ok_or rbind].
  rewrite take_ge by (by rewrite arr_length). by rewrite to_arr_arr.
Qed.
