(* ===== verification/Store.v ===== *)
(** * The node store ([scone-storage]: [redb.rs], [lib.rs])

    The tables of the node, as one record over the database interface of
    [Redb], and every operation of the store.  A write runs in the
    transaction monad [Txn]: an error aborts it and nothing is written.
    Failures of the disk are the class [Faults]: a transaction that does
    not begin or does not commit; errors of single reads and writes of a
    table are not modelled. *)

From S2P Require Import Prelude Bytes Crypto Commitment Smt Names Icann Codec Checkpoint Pow Tx Wire State StateSpec.
From S2P Require Import Blocks Chain StateBytes Redb.

(** [scone-storage/src/lib.rs:53-53 STORAGE_FORMAT_VERSION] *)
Definition STORAGE_FORMAT_VERSION : N := 1.
(** [scone-storage/src/lib.rs:58-58 META_TIP] *)
Definition META_TIP : list byte := ascii "tip".
(** [scone-storage/src/lib.rs:61-61 META_FORMAT_VERSION] *)
Definition META_FORMAT_VERSION : list byte := ascii "format_version".
(** [scone-storage/src/redb.rs:78-78 META_TIP_HEIGHT] *)
Definition META_TIP_HEIGHT : list byte := ascii "tip_height".
(** [scone-storage/src/redb.rs:80-80 META_DOMAIN_COUNT] *)
Definition META_DOMAIN_COUNT : list byte := ascii "domain_count".
(** [scone-storage/src/redb.rs:82-82 META_TLD_COUNT] *)
Definition META_TLD_COUNT : list byte := ascii "tld_count".
(** [scone-storage/src/redb.rs:86-86 MAX_DHT_CACHE_ENTRY] *)
Definition MAX_DHT_CACHE_ENTRY : N := 64 * 1024.
(** [scone-storage/src/redb.rs:91-91 MAX_DOMAIN_PAGE] *)
Definition MAX_DOMAIN_PAGE : N := 10000.
(** [scone-storage/src/redb.rs:94-94 MAX_TLD_PAGE] *)
Definition MAX_TLD_PAGE : N := 10000.
(** [scone-storage/src/redb.rs:107-107 SNAPSHOT_INTERVAL] *)
Definition SNAPSHOT_INTERVAL : N := 64.
(** [scone-storage/src/redb.rs:127-127 BLOCK_INDEX_HEADER] *)
Definition BLOCK_INDEX_HEADER : nat := 32 + 8.
(** [scone-storage/src/redb.rs:150-150 SNAPSHOT_META_LEN] *)
Definition SNAPSHOT_META_LEN : nat := 8 + 32.
(** [scone-storage/src/redb.rs:155-155 NAME_INDEX_VERSION] *)
Definition NAME_INDEX_VERSION : list byte := ascii "SCONE-NAME-IDX-V1".
(** [scone-storage/src/redb.rs:158-158 NAME_TAG_DOMAIN] *)
Definition NAME_TAG_DOMAIN : byte := x01.
(** [scone-storage/src/redb.rs:160-160 NAME_TAG_TLD] *)
Definition NAME_TAG_TLD : byte := x02.

(** [scone-storage/src/lib.rs:76-82 SnapshotMeta] *)
Record SnapshotMeta := mkSnapshotMeta { sm_height : N; sm_tip_hash : hash }.

(** [scone-storage/src/lib.rs:98-105 NameBinding] *)
Record NameBinding := mkNameBinding { nb_is_tld : bool; nb_name : list byte; nb_target : hash }.

(** [scone-storage/src/lib.rs:110-124 StateDelta] *)
Record StateDelta := mkStateDelta {
  sd_domains : list (DomainId * DomainStateBytes);
  sd_tlds : list (TldId * TldStateBytes);
  sd_removed_domains : list DomainId;
  sd_removed_tlds : list TldId;
  sd_name_upserts : list NameBinding;
  sd_name_removals : list (bool * hash) }.

(** [scone-storage/src/lib.rs:129-131 StateDelta::empty] *)
Definition StateDelta_empty : StateDelta := mkStateDelta [] [] [] [] [] [].

(** ** The marker of an imported snapshot *)

(** [scone-storage/src/verified_snapshot.rs:78-78 META_VERIFIED_SNAPSHOT] *)
Definition META_VERIFIED_SNAPSHOT : list byte := ascii "verified_snapshot_v1".
(** [scone-storage/src/verified_snapshot.rs:94-94 MARKER_LEN] *)
Definition MARKER_LEN : nat := 8 + 32 + 32.

(** [scone-storage/src/verified_snapshot.rs:376-383 VerifiedSnapshotMarker] *)
Record VerifiedSnapshotMarker := mkMarker { mk_height : N; mk_tip_hash : hash; mk_manifest_hash : hash }.

(** [scone-storage/src/verified_snapshot.rs:388-394 VerifiedSnapshotMarker::encode] *)
Definition Marker_encode (m : VerifiedSnapshotMarker) : list byte :=
  be_bytes 8 (mk_height m) ++ arr_list (mk_tip_hash m) ++ arr_list (mk_manifest_hash m).

(** [scone-storage/src/verified_snapshot.rs:401-412 VerifiedSnapshotMarker::decode] *)
Definition Marker_decode (bytes : list byte) : result StorageError VerifiedSnapshotMarker :=
  if negb (length bytes =? MARKER_LEN)%nat then Err Corrupted
  else Ok (mkMarker (be_val (slice 0 8 bytes)) (arr_of 32 (slice 8 40 bytes)) (arr_of 32 (slice 40 72 bytes))).

(** ** Tables *)

Section store.
Context `{Crypto} `{Redb}.

(** [scone-storage/src/redb.rs:129-146 RedbStore]: the tables. *)
Record Db := mkDb {
  t_blocks_by_height : tb N;
  t_blocks_by_hash : tb (list byte);
  t_domains : tb (list byte);
  t_tlds : tb (list byte);
  t_names : tb (list byte);
  t_name_reverse : tb (list byte);
  t_dht_cache : tb (list byte);
  t_meta : tb (list byte);
  t_snapshot_meta : tb N;
  t_snapshot_domains : tb (list byte);
  t_snapshot_tlds : tb (list byte) }.

(** The tables of a new file. *)
Definition empty_db : Db :=
  mkDb tb_empty tb_empty tb_empty tb_empty tb_empty tb_empty tb_empty tb_empty tb_empty tb_empty tb_empty.

(** A [TableDefinition]: reading a table and replacing it. *)
Record Def (K : Type) `{!Table K} := mkDef { d_get : Db → tb K; d_set : tb K → Db → Db }.
Arguments mkDef {K _} _ _.
Arguments d_get {K _} _ _.
Arguments d_set {K _} _ _ _.

(** [scone-storage/src/redb.rs:129-129 BLOCKS_BY_HEIGHT] *)
Definition BLOCKS_BY_HEIGHT : Def N := mkDef t_blocks_by_height (λ t d,
  mkDb t (t_blocks_by_hash d) (t_domains d) (t_tlds d) (t_names d) (t_name_reverse d) (t_dht_cache d) (t_meta d)
    (t_snapshot_meta d) (t_snapshot_domains d) (t_snapshot_tlds d)).
(** [scone-storage/src/redb.rs:130-130 BLOCKS_BY_HASH] *)
Definition BLOCKS_BY_HASH : Def (list byte) := mkDef t_blocks_by_hash (λ t d,
  mkDb (t_blocks_by_height d) t (t_domains d) (t_tlds d) (t_names d) (t_name_reverse d) (t_dht_cache d) (t_meta d)
    (t_snapshot_meta d) (t_snapshot_domains d) (t_snapshot_tlds d)).
(** [scone-storage/src/redb.rs:131-131 DOMAINS] *)
Definition DOMAINS : Def (list byte) := mkDef t_domains (λ t d,
  mkDb (t_blocks_by_height d) (t_blocks_by_hash d) t (t_tlds d) (t_names d) (t_name_reverse d) (t_dht_cache d)
    (t_meta d) (t_snapshot_meta d) (t_snapshot_domains d) (t_snapshot_tlds d)).
(** [scone-storage/src/redb.rs:132-132 TLDS] *)
Definition TLDS : Def (list byte) := mkDef t_tlds (λ t d,
  mkDb (t_blocks_by_height d) (t_blocks_by_hash d) (t_domains d) t (t_names d) (t_name_reverse d) (t_dht_cache d)
    (t_meta d) (t_snapshot_meta d) (t_snapshot_domains d) (t_snapshot_tlds d)).
(** [scone-storage/src/redb.rs:135-135 NAMES] *)
Definition NAMES : Def (list byte) := mkDef t_names (λ t d,
  mkDb (t_blocks_by_height d) (t_blocks_by_hash d) (t_domains d) (t_tlds d) t (t_name_reverse d) (t_dht_cache d)
    (t_meta d) (t_snapshot_meta d) (t_snapshot_domains d) (t_snapshot_tlds d)).
(** [scone-storage/src/redb.rs:136-136 NAME_REVERSE] *)
Definition NAME_REVERSE : Def (list byte) := mkDef t_name_reverse (λ t d,
  mkDb (t_blocks_by_height d) (t_blocks_by_hash d) (t_domains d) (t_tlds d) (t_names d) t (t_dht_cache d)
    (t_meta d) (t_snapshot_meta d) (t_snapshot_domains d) (t_snapshot_tlds d)).
(** [scone-storage/src/redb.rs:137-137 DHT_CACHE] *)
Definition DHT_CACHE : Def (list byte) := mkDef t_dht_cache (λ t d,
  mkDb (t_blocks_by_height d) (t_blocks_by_hash d) (t_domains d) (t_tlds d) (t_names d) (t_name_reverse d) t
    (t_meta d) (t_snapshot_meta d) (t_snapshot_domains d) (t_snapshot_tlds d)).
(** [scone-storage/src/redb.rs:138-138 META] *)
Definition META : Def (list byte) := mkDef t_meta (λ t d,
  mkDb (t_blocks_by_height d) (t_blocks_by_hash d) (t_domains d) (t_tlds d) (t_names d) (t_name_reverse d)
    (t_dht_cache d) t (t_snapshot_meta d) (t_snapshot_domains d) (t_snapshot_tlds d)).
(** [scone-storage/src/redb.rs:144-144 SNAPSHOT_META] *)
Definition SNAPSHOT_META : Def N := mkDef t_snapshot_meta (λ t d,
  mkDb (t_blocks_by_height d) (t_blocks_by_hash d) (t_domains d) (t_tlds d) (t_names d) (t_name_reverse d)
    (t_dht_cache d) (t_meta d) t (t_snapshot_domains d) (t_snapshot_tlds d)).
(** [scone-storage/src/redb.rs:145-145 SNAPSHOT_DOMAINS] *)
Definition SNAPSHOT_DOMAINS : Def (list byte) := mkDef t_snapshot_domains (λ t d,
  mkDb (t_blocks_by_height d) (t_blocks_by_hash d) (t_domains d) (t_tlds d) (t_names d) (t_name_reverse d)
    (t_dht_cache d) (t_meta d) (t_snapshot_meta d) t (t_snapshot_tlds d)).
(** [scone-storage/src/redb.rs:146-146 SNAPSHOT_TLDS] *)
Definition SNAPSHOT_TLDS : Def (list byte) := mkDef t_snapshot_tlds (λ t d,
  mkDb (t_blocks_by_height d) (t_blocks_by_hash d) (t_domains d) (t_tlds d) (t_names d) (t_name_reverse d)
    (t_dht_cache d) (t_meta d) (t_snapshot_meta d) (t_snapshot_domains d) t).

(** ** Transactions *)

(** A write transaction over the tables; the [?] operator aborts it. *)
Definition Txn (A : Type) : Type := Db → result StorageError (Db * A).

Definition tret {A} (a : A) : Txn A := λ db, Ok (db, a).
Definition tbind {A B} (m : Txn A) (k : A → Txn B) : Txn B := λ db, let? (db, a) := m db in k a db.
Definition tfail {A} (e : StorageError) : Txn A := λ _, Err e.
(** A read of the tables of the transaction. *)
Definition tread {A} (f : Db → result StorageError A) : Txn A := λ db, let? a := f db in Ok (db, a).

Definition db_get {K} `{!Table K} (d : Def K) (k : K) : Db → option (list byte) := λ db, tb_get k (d_get d db).
Definition db_insert {K} `{!Table K} (d : Def K) (k : K) (v : list byte) : Txn (option (list byte)) :=
  λ db, let '(t, previous) := tb_insert k v (d_get d db) in Ok (d_set d t db, previous).
Definition db_remove {K} `{!Table K} (d : Def K) (k : K) : Txn (option (list byte)) :=
  λ db, let '(t, previous) := tb_remove k (d_get d db) in Ok (d_set d t db, previous).
(** [table.retain(|_, _| false)] *)
Definition db_clear {K} `{!Table K} (d : Def K) : Txn unit := λ db, Ok (d_set d tb_empty db, tt).

Notation "'let!' x := m 'in' k" := (tbind m (λ x, k))
  (at level 200, x pattern, m at level 100, k at level 200, right associativity).
Notation "'then!' m ; k" := (tbind m (λ _, k))
  (at level 200, m at level 100, k at level 200, right associativity).

(** [for a in l { f(a)?; }] *)
Fixpoint tfor {A} (l : list A) (f : A → Txn unit) : Txn unit :=
  match l with
  | [] => tret tt
  | a :: l => then! f a; tfor l f
  end.

(** A counting loop: the entries for which [f] says so. *)
Fixpoint tcount {A} (l : list A) (f : A → Txn bool) : Txn N :=
  match l with
  | [] => tret 0
  | a :: l => let! b := f a in let! n := tcount l f in tret (if (b : bool) then 1 + n else n)
  end.

(** What the disk can refuse: to begin a transaction, to commit one. *)
Class Faults := {
  begin_write : Db → option StorageError;
  commit : Db → option StorageError }.

(** [let wtxn = db.begin_write()?; ...; wtxn.commit()?] *)
Definition transact `{!Faults} {A} (body : Txn A) (db : Db) : Db * result StorageError A :=
  match begin_write db with
  | Some e => (db, Err e)
  | None =>
      match body db with
      | Err e => (db, Err e)
      | Ok (db', a) =>
          match commit db' with
          | Some e => (db, Err e)
          | None => (db', Ok a)
          end
      end
  end.

(** ** Metadata *)

(** [scone-storage/src/redb.rs:293-306 meta_u64] *)
Definition meta_u64 (key : list byte) (db : Db) : result StorageError N :=
  match db_get META key db with
  | None => Err Corrupted
  | Some bytes => if negb (length bytes =? 8)%nat then Err Corrupted else Ok (be_val bytes)
  end.

(** [scone-storage/src/redb.rs:309-321 meta_u256] *)
Definition meta_u256 (key : list byte) (db : Db) : result StorageError hash :=
  match db_get META key db with
  | None => Err Corrupted
  | Some bytes => ok_or (to_arr 32 bytes) Corrupted
  end.

(** [meta.insert(key, value)?] *)
Definition put_meta (key value : list byte) : Txn unit := then! db_insert META key value; tret tt.

(** [scone-storage/src/redb.rs:324-332 write_tip] *)
Definition write_tip (height : N) (hash : hash) : Txn unit :=
  then! put_meta META_TIP hash;
  put_meta META_TIP_HEIGHT (be_bytes 8 height).

(** [scone-storage/src/redb.rs:282-284 genesis_hash_bytes]: the default
    network's. *)
Definition genesis_hash_bytes : hash := genesis_hash TESTNET.

(** [scone-storage/src/redb.rs:378-395 RedbStore::check_format_version] *)
Definition check_format_version (db : Db) : result StorageError unit :=
  match db_get META META_FORMAT_VERSION db with
  | None => Err Corrupted
  | Some bytes =>
      if negb (length bytes =? 8)%nat then Err Corrupted
      else
        let version := be_val bytes in
        if negb (version =? STORAGE_FORMAT_VERSION) then Err (UnsupportedFormat version) else Ok tt
  end.

(** [scone-storage/src/redb.rs:345-374 RedbStore::open]: [db] is the
    content of the file. *)
Definition store_open `{!Faults} (db : Db) : Db * result StorageError unit :=
  let seed : Txn unit :=
    λ db,
      match db_get META META_FORMAT_VERSION db with
      | Some _ => Ok (db, tt)
      | None =>
          (then! put_meta META_FORMAT_VERSION (be_bytes 8 STORAGE_FORMAT_VERSION);
           then! write_tip 0 genesis_hash_bytes;
           then! put_meta META_DOMAIN_COUNT (be_bytes 8 0);
           put_meta META_TLD_COUNT (be_bytes 8 0)) db
      end in
  match transact seed db with
  | (db, Err e) => (db, Err e)
  | (db, Ok _) => (db, check_format_version db)
  end.

(** [scone-storage/src/redb.rs:399-405 RedbStore::tip_inner] *)
Definition tip_inner (db : Db) : result StorageError (N * hash) :=
  let? hash := meta_u256 META_TIP db in
  let? height := meta_u64 META_TIP_HEIGHT db in
  Ok (height, hash).

(** [scone-storage/src/redb.rs:408-412 RedbStore::domain_count_inner] *)
Definition domain_count_inner (db : Db) : result StorageError N := meta_u64 META_DOMAIN_COUNT db.
(** [scone-storage/src/redb.rs:415-419 RedbStore::tld_count_inner] *)
Definition tld_count_inner (db : Db) : result StorageError N := meta_u64 META_TLD_COUNT db.
(** [scone-storage/src/redb.rs:1101-1103 RedbStore::tip] *)
Definition store_tip (db : Db) : result StorageError (N * hash) := tip_inner db.
(** [scone-storage/src/redb.rs:1132-1134 RedbStore::domain_count] *)
Definition domain_count (db : Db) : result StorageError N := domain_count_inner db.
(** [scone-storage/src/redb.rs:1201-1203 RedbStore::tld_count] *)
Definition tld_count (db : Db) : result StorageError N := tld_count_inner db.

(** [scone-storage/src/redb.rs:1267-1271 RedbStore::meta_get] *)
Definition meta_get (key : list byte) (db : Db) : option (list byte) := db_get META key db.

(** [scone-storage/src/redb.rs:111-124 ensure_not_reserved] *)
Definition ensure_not_reserved (key : list byte) : result StorageError unit :=
  if bool_decide (key = META_TIP) || bool_decide (key = META_TIP_HEIGHT) ||
     bool_decide (key = META_FORMAT_VERSION) || bool_decide (key = META_DOMAIN_COUNT) ||
     bool_decide (key = META_TLD_COUNT) || bool_decide (key = META_VERIFIED_SNAPSHOT)
  then Err (ReservedKey key)
  else Ok tt.

(** [scone-storage/src/redb.rs:1273-1282 RedbStore::meta_set] *)
Definition meta_set `{!Faults} (key value : list byte) (db : Db) : Db * result StorageError unit :=
  match ensure_not_reserved key with
  | Err e => (db, Err e)
  | Ok _ => transact (put_meta key value) db
  end.

(** ** The name index *)

(** [scone-storage/src/redb.rs:172-174 name_index_key] *)
Definition name_index_key (canonical : list byte) : hash := hash256 [NAME_INDEX_VERSION; canonical].

(** [scone-storage/src/redb.rs:178-187 name_reverse_value] *)
Definition name_reverse_value (is_tld : bool) (canonical : list byte) : list byte :=
  (if is_tld then NAME_TAG_TLD else NAME_TAG_DOMAIN) :: canonical.

(** [scone-storage/src/redb.rs:190-211 decode_name_reverse] *)
Definition decode_name_reverse (bytes : list byte) : result StorageError (bool * list byte) :=
  let? tag := ok_or (head bytes) Corrupted in
  let? is_tld :=
    if byte_eqb tag NAME_TAG_DOMAIN then Ok false
    else if byte_eqb tag NAME_TAG_TLD then Ok true
    else Err Corrupted in
  let? name := map_err (λ _, Corrupted) (from_utf8 (drop 1 bytes)) in
  if bool_decide (name = []) then Err Corrupted else Ok (is_tld, name).

(** [scone-storage/src/redb.rs:255-279 remove_name_entry] *)
Definition remove_name_entry (id : hash) : Txn unit :=
  let! value := tread (λ db, Ok (db_get NAME_REVERSE (arr_list id) db)) in
  match value with
  | None => tret tt
  | Some value =>
      let! (_, name) := tread (λ _, decode_name_reverse value) in
      then! db_remove NAMES (arr_list (name_index_key name));
      then! db_remove NAME_REVERSE (arr_list id);
      tret tt
  end.

(** [scone-storage/src/redb.rs:227-234 apply_name_deltas]: one upsert. *)
Definition bind_name (binding : NameBinding) : Txn unit :=
  let key := name_index_key (nb_name binding) in
  then! db_insert NAMES (arr_list key) (nb_target binding);
  then! db_insert NAME_REVERSE (arr_list (nb_target binding))
    (name_reverse_value (nb_is_tld binding) (nb_name binding));
  tret tt.

(** [scone-storage/src/redb.rs:221-251 apply_name_deltas]; the body of the
    loop over the removals is that of [remove_name_entry]. *)
Definition apply_name_deltas (upserts : list NameBinding) (removals : list (bool * hash)) : Txn unit :=
  then! tfor upserts bind_name;
  tfor removals (λ '(_, id), remove_name_entry id).

(** ** Writes of single entries *)

(** A maintained counter goes up by [n]. *)
Definition add_to_counter (key : list byte) (n : N) : Txn unit :=
  let! current := tread (meta_u64 key) in
  put_meta key (be_bytes 8 (add64 current n)).

(** [checked_sub], then the counter is written. *)
Definition sub_from_counter (key : list byte) (n : N) : Txn unit :=
  let! current := tread (meta_u64 key) in
  let! current := tread (λ _, ok_or (checked_sub current n) Corrupted) in
  put_meta key (be_bytes 8 current).

(** An insertion, counted when the key is new. *)
Definition insert_counted (d : Def (list byte)) (counter : list byte) (key value : list byte) : Txn unit :=
  let! existed := db_insert d key value in
  match existed with
  | None => add_to_counter counter 1
  | Some _ => tret tt
  end.

(** [scone-storage/src/redb.rs:1105-1118 RedbStore::put_domain_state] *)
Definition put_domain_state `{!Faults} (domain : DomainId) (state : DomainStateBytes) (db : Db)
    : Db * result StorageError unit :=
  transact (insert_counted DOMAINS META_DOMAIN_COUNT (arr_list domain) (DomainStateBytes_as_encoded state)) db.

(** [scone-storage/src/redb.rs:1174-1187 RedbStore::put_tld_state] *)
Definition put_tld_state `{!Faults} (tld : TldId) (state : TldStateBytes) (db : Db)
    : Db * result StorageError unit :=
  transact (insert_counted TLDS META_TLD_COUNT (arr_list tld) (TldStateBytes_as_encoded state)) db.

(** [scone-storage/src/redb.rs:429-459 RedbStore::put_domain_state_with_name] *)
Definition put_domain_state_with_name `{!Faults} (domain : DomainId) (state : DomainStateBytes)
    (canonical_name : list byte) (db : Db) : Db * result StorageError unit :=
  transact
    (then! insert_counted DOMAINS META_DOMAIN_COUNT (arr_list domain) (DomainStateBytes_as_encoded state);
     apply_name_deltas [mkNameBinding false canonical_name domain] []) db.

(** [scone-storage/src/redb.rs:468-498 RedbStore::put_tld_state_with_name] *)
Definition put_tld_state_with_name `{!Faults} (tld : TldId) (state : TldStateBytes) (tld_name : list byte) (db : Db)
    : Db * result StorageError unit :=
  transact
    (then! insert_counted TLDS META_TLD_COUNT (arr_list tld) (TldStateBytes_as_encoded state);
     apply_name_deltas [mkNameBinding true tld_name tld] []) db.

(** [scone-storage/src/redb.rs:506-524 RedbStore::remove_domain_state] *)
Definition remove_domain_state `{!Faults} (domain : DomainId) (db : Db) : Db * result StorageError unit :=
  transact
    (let! removed := db_remove DOMAINS (arr_list domain) in
     then! match removed with
           | Some _ => sub_from_counter META_DOMAIN_COUNT 1
           | None => tret tt
           end;
     remove_name_entry domain) db.

(** [scone-storage/src/redb.rs:1241-1257 RedbStore::put_dht_cache] *)
Definition put_dht_cache `{!Faults} (domain : DomainId) (record_bytes : list byte) (db : Db)
    : Db * result StorageError unit :=
  if MAX_DHT_CACHE_ENTRY <? blen record_bytes then (db, Err (TooLarge (blen record_bytes) MAX_DHT_CACHE_ENTRY))
  else transact (then! db_insert DHT_CACHE (arr_list domain) record_bytes; tret tt) db.

(** [scone-storage/src/redb.rs:1259-1265 RedbStore::dht_cache] *)
Definition dht_cache (domain : DomainId) (db : Db) : option (list byte) := db_get DHT_CACHE (arr_list domain) db.

(** ** Blocks *)

(** A value of [blocks_by_height]: hash, height, block. *)
Definition indexed_block (height : N) (hash : hash) (block_bytes : list byte) : list byte :=
  arr_list hash ++ be_bytes 8 height ++ block_bytes.

(** An upsert of the delta; is the key new? *)
Definition upsert (d : Def (list byte)) (key value : list byte) : Txn bool :=
  let! existed := db_insert d key value in tret (negb (bool_decide (is_Some existed))).
(** A removal of the delta; was there an entry? *)
Definition expunge (d : Def (list byte)) (key : list byte) : Txn bool :=
  let! previous := db_remove d key in tret (bool_decide (is_Some previous)).

Definition when (b : bool) (m : Txn unit) : Txn unit := if b then m else tret tt.

(** [scone-storage/src/redb.rs:890-997 append_deltas] *)
Definition append_deltas (height : N) (hash : hash) (block_bytes indexed : list byte) (deltas : StateDelta) : Txn unit :=
  let! previous := tread (λ db, Ok (db_get BLOCKS_BY_HEIGHT height db)) in
  match previous with
  | Some previous => if bool_decide (previous = indexed) then tret tt else tfail Conflict
  | None =>
      then! db_insert BLOCKS_BY_HEIGHT height indexed;
      then! db_insert BLOCKS_BY_HASH (arr_list hash) block_bytes;
      let! new_domains := tcount (sd_domains deltas) (λ '(domain, state),
        upsert DOMAINS (arr_list domain) (DomainStateBytes_as_encoded state)) in
      then! when (0 <? new_domains) (add_to_counter META_DOMAIN_COUNT new_domains);
      let! new_tlds := tcount (sd_tlds deltas) (λ '(tld, state),
        upsert TLDS (arr_list tld) (TldStateBytes_as_encoded state)) in
      then! when (0 <? new_tlds) (add_to_counter META_TLD_COUNT new_tlds);
      let! removed_domain_count := tcount (sd_removed_domains deltas) (λ domain, expunge DOMAINS (arr_list domain)) in
      then! when (0 <? removed_domain_count) (sub_from_counter META_DOMAIN_COUNT removed_domain_count);
      let! removed_tld_count := tcount (sd_removed_tlds deltas) (λ tld, expunge TLDS (arr_list tld)) in
      then! when (0 <? removed_tld_count) (sub_from_counter META_TLD_COUNT removed_tld_count);
      then! apply_name_deltas (sd_name_upserts deltas) (sd_name_removals deltas);
      write_tip height hash
  end.

(** [for entry in source.iter()? { target.insert(key, value)?; }] *)
Definition copy_all (target : Def (list byte)) (entries : list (list byte * list byte)) : Txn unit :=
  tfor entries (λ '(key, value), then! db_insert target key value; tret tt).

(** [scone-storage/src/redb.rs:1008-1041 snapshot_core] *)
Definition snapshot_core (height : N) (tip_hash : hash) : Txn unit :=
  let meta_value := be_bytes 8 height ++ arr_list tip_hash in
  let! (domains_ro, tlds_ro) := tread (λ db, Ok (tb_range None (t_domains db), tb_range None (t_tlds db))) in
  then! db_clear SNAPSHOT_META;
  then! db_insert SNAPSHOT_META 0 meta_value;
  then! db_clear SNAPSHOT_DOMAINS;
  then! copy_all SNAPSHOT_DOMAINS domains_ro;
  then! db_clear SNAPSHOT_TLDS;
  copy_all SNAPSHOT_TLDS tlds_ro.

(** [scone-storage/src/redb.rs:785-885 append_core] *)
Definition append_core (height : N) (hash : hash) (block_bytes : list byte) (deltas : StateDelta) : Txn unit :=
  let indexed := indexed_block height hash block_bytes in
  then! when ((1 <? height) && ((height - 1) mod SNAPSHOT_INTERVAL =? 0))
    (let parent_height := height - 1 in
     let! parent_hash := tread (λ db,
       let? v := ok_or (db_get BLOCKS_BY_HEIGHT parent_height db) Corrupted in
       ok_or (to_arr 32 (take 32 v)) Corrupted) in
     snapshot_core parent_height parent_hash);
  append_deltas height hash block_bytes indexed deltas.

(** [scone-storage/src/redb.rs:1048-1076 RedbStore::append_block_with_state] *)
Definition append_block_with_state `{!Faults} (height : N) (hash : hash) (block_bytes : list byte)
    (deltas : StateDelta) (db : Db) : Db * result StorageError unit :=
  match tip_inner db with
  | Err e => (db, Err e)
  | Ok (tip_height, tip_hash) =>
      if (height =? tip_height) && arr_eqb hash tip_hash then (db, Ok tt)
      else
        match checked_add64 tip_height 1 with
        | None => (db, Err (NonMonotonicHeight U64_MAX height))
        | Some expected =>
            if negb (height =? expected) then (db, Err (NonMonotonicHeight expected height))
            else transact (append_core height hash block_bytes deltas) db
        end
  end.

(** [scone-storage/src/redb.rs:1044-1046 RedbStore::append_block] *)
Definition append_block `{!Faults} (height : N) (hash : hash) (block_bytes : list byte) (db : Db)
    : Db * result StorageError unit :=
  append_block_with_state height hash block_bytes StateDelta_empty db.

(** [scone-storage/src/redb.rs:1078-1091 RedbStore::block_at_height] *)
Definition block_at_height (height : N) (db : Db) : result StorageError (option (list byte)) :=
  match db_get BLOCKS_BY_HEIGHT height db with
  | None => Ok None
  | Some bytes =>
      if (length bytes <? BLOCK_INDEX_HEADER)%nat then Err Corrupted
      else Ok (Some (drop BLOCK_INDEX_HEADER bytes))
  end.

(** [scone-storage/src/redb.rs:1093-1099 RedbStore::block_by_hash] *)
Definition block_by_hash (hash : hash) (db : Db) : option (list byte) := db_get BLOCKS_BY_HASH (arr_list hash) db.

(** ** Reads of the state *)

(** [scone-storage/src/redb.rs:1120-1130 RedbStore::domain_state] *)
Definition domain_state (domain : DomainId) (db : Db) : result StorageError (option DomainStateBytes) :=
  match db_get DOMAINS (arr_list domain) db with
  | None => Ok None
  | Some value => let? (_, state) := decode_domains_entry (arr_list domain) value in Ok (Some state)
  end.

(** [scone-storage/src/redb.rs:1189-1199 RedbStore::tld_state] *)
Definition tld_state (tld : TldId) (db : Db) : result StorageError (option TldStateBytes) :=
  match db_get TLDS (arr_list tld) db with
  | None => Ok None
  | Some value => let? (_, state) := decode_tlds_entry (arr_list tld) value in Ok (Some state)
  end.

(** The loop over a range: entries are decoded until the page is full;
    the entry of the cursor itself is skipped. *)
Fixpoint page_loop {A} (decode : list byte → list byte → result StorageError (hash * A)) (after : option hash)
    (max : N) (range : list (list byte * list byte)) (out : list (hash * A)) (cursor : option hash)
    : result StorageError (list (hash * A) * option hash) :=
  match range with
  | [] => Ok (out, cursor)
  | (key, value) :: range =>
      if match after with Some previous => bool_decide (key = arr_list previous) | None => false end
      then page_loop decode after max range out cursor
      else
        let? (id, state) := decode key value in
        let out := out ++ [(id, state)] in
        let cursor := Some id in
        if N.of_nat (length out) =? max then Ok (out, cursor)
        else page_loop decode after max range out cursor
  end.

(** One page of a table: at most [cap] entries after the cursor. *)
Definition page {A} (decode : list byte → list byte → result StorageError (hash * A)) (cap : N) (t : tb (list byte))
    (after : option hash) (max : N) : result StorageError (list (hash * A) * option hash) :=
  let max := N.min max cap in
  if max =? 0 then Ok ([], after)
  else page_loop decode after max (tb_range (arr_list <$> after) t) [] after.

(** [scone-storage/src/redb.rs:1136-1172 RedbStore::iterate_domains] *)
Definition iterate_domains (after : option DomainId) (max : N) (db : Db) :=
  page decode_domains_entry MAX_DOMAIN_PAGE (t_domains db) after max.
(** [scone-storage/src/redb.rs:1205-1239 RedbStore::iterate_tlds] *)
Definition iterate_tlds (after : option TldId) (max : N) (db : Db) :=
  page decode_tlds_entry MAX_TLD_PAGE (t_tlds db) after max.
(** [scone-storage/src/redb.rs:1365-1401 RedbStore::snapshot_domains_inner] *)
Definition snapshot_domains (after : option DomainId) (max : N) (db : Db) :=
  page decode_domains_entry MAX_DOMAIN_PAGE (t_snapshot_domains db) after max.
(** [scone-storage/src/redb.rs:1410-1442 RedbStore::snapshot_tlds_inner] *)
Definition snapshot_tlds (after : option TldId) (max : N) (db : Db) :=
  page decode_tlds_entry MAX_TLD_PAGE (t_snapshot_tlds db) after max.

(** [scone-storage/src/redb.rs:1284-1299 RedbStore::snapshot_meta] *)
Definition snapshot_meta (db : Db) : result StorageError (option SnapshotMeta) :=
  match db_get SNAPSHOT_META 0 db with
  | None => Ok None
  | Some bytes =>
      if negb (length bytes =? SNAPSHOT_META_LEN)%nat then Err Corrupted
      else Ok (Some (mkSnapshotMeta (be_val (slice 0 8 bytes)) (arr_of 32 (drop 8 bytes))))
  end.

(** The lookup [resolve_name] and [resolve_tld] share: the entry of the
    name, and the namespace of the identifier it leads to. *)
Definition resolve (canonical : list byte) (db : Db) : result StorageError (option (bool * hash)) :=
  match db_get NAMES (arr_list (name_index_key canonical)) db ≫= to_arr 32 with
  | None => Ok None
  | Some id =>
      match db_get NAME_REVERSE (arr_list id) db with
      | None => Err Corrupted
      | Some previous => let? (is_tld, _) := decode_name_reverse previous in Ok (Some (is_tld, id))
      end
  end.

(** [scone-storage/src/redb.rs:1309-1331 RedbStore::resolve_name] *)
Definition resolve_name (canonical : list byte) (db : Db) : result StorageError (option DomainId) :=
  let? found := resolve canonical db in
  Ok (match found with
      | None => None
      | Some (is_tld, id) => if (is_tld : bool) then None else Some id
      end).

(** [scone-storage/src/redb.rs:1333-1353 RedbStore::resolve_tld] *)
Definition resolve_tld (tld : list byte) (db : Db) : result StorageError (option TldId) :=
  let? found := resolve tld db in
  Ok (match found with
      | None => None
      | Some (is_tld, id) => if negb is_tld then None else Some id
      end).

(** ** Imported snapshots *)

(** The rows of a list of states. *)
Definition domain_rows (l : list (DomainId * DomainStateBytes)) : list (list byte * list byte) :=
  map (λ '(id, state), (arr_list id, DomainStateBytes_as_encoded state)) l.
Definition tld_rows (l : list (TldId * TldStateBytes)) : list (list byte * list byte) :=
  map (λ '(id, state), (arr_list id, TldStateBytes_as_encoded state)) l.

(** [scone-storage/src/redb.rs:549-598 RedbStore::write_verified_snapshot] *)
Definition write_verified_snapshot `{!Faults} (ds : list (DomainId * DomainStateBytes))
    (ts : list (TldId * TldStateBytes)) (marker : VerifiedSnapshotMarker) (db : Db)
    : Db * result StorageError unit :=
  match tip_inner db with
  | Err e => (db, Err e)
  | Ok (tip_height, _) =>
      if negb (tip_height =? 0) then (db, Err SnapshotUnavailable)
      else
        let meta_value := be_bytes 8 (mk_height marker) ++ arr_list (mk_tip_hash marker) in
        transact
          (then! copy_all DOMAINS (domain_rows ds);
           then! copy_all TLDS (tld_rows ts);
           then! db_clear SNAPSHOT_META;
           then! db_insert SNAPSHOT_META 0 meta_value;
           then! db_clear SNAPSHOT_DOMAINS;
           then! copy_all SNAPSHOT_DOMAINS (domain_rows ds);
           then! db_clear SNAPSHOT_TLDS;
           then! copy_all SNAPSHOT_TLDS (tld_rows ts);
           then! put_meta META_DOMAIN_COUNT (be_bytes 8 (N.of_nat (length ds)));
           then! put_meta META_TLD_COUNT (be_bytes 8 (N.of_nat (length ts)));
           then! write_tip (mk_height marker) (mk_tip_hash marker);
           put_meta META_VERIFIED_SNAPSHOT (Marker_encode marker)) db
  end.

(** [scone-storage/src/redb.rs:673-683 RedbStore::verified_snapshot_marker] *)
Definition verified_snapshot_marker (db : Db) : result StorageError (option VerifiedSnapshotMarker) :=
  match meta_get META_VERIFIED_SNAPSHOT db with
  | None => Ok None
  | Some bytes => rmap Some (Marker_decode bytes)
  end.

(** [scone-storage/src/redb.rs:620-664 RedbStore::append_bootstrap_anchor] *)
Definition append_bootstrap_anchor `{!Faults} (height : N) (hash : hash) (block_bytes : list byte) (db : Db)
    : Db * result StorageError unit :=
  match (let? marker := verified_snapshot_marker db in ok_or marker SnapshotUnavailable) with
  | Err e => (db, Err e)
  | Ok marker =>
      if negb (height =? mk_height marker) || negb (arr_eqb hash (mk_tip_hash marker))
      then (db, Err SnapshotUnavailable)
      else
        match tip_inner db with
        | Err e => (db, Err e)
        | Ok (tip_height, _) =>
            if negb (tip_height =? mk_height marker) then (db, Err (NonMonotonicHeight (add64 tip_height 1) height))
            else
              let indexed := indexed_block height hash block_bytes in
              transact
                (let! previous := tread (λ db, Ok (db_get BLOCKS_BY_HEIGHT height db)) in
                 match previous with
                 | Some previous => if bool_decide (previous = indexed) then tret tt else tfail Conflict
                 | None =>
                     then! db_insert BLOCKS_BY_HEIGHT height indexed;
                     then! db_insert BLOCKS_BY_HASH (arr_list hash) block_bytes;
                     tret tt
                 end) db
        end
  end.

(** ** Rebuilding the name index *)

(** The block bytes at a height below the tip. *)
Definition stored_block (height : N) (db : Db) : result StorageError Block :=
  let? bytes := block_at_height height db in
  let? bytes := ok_or bytes Corrupted in
  map_err (λ _, Corrupted) (decode_complete (dec Block_c) bytes).

(** [lo..=hi] *)
Definition heights (lo hi : N) : list N := map (λ i, lo + N.of_nat i) (seq 0 (N.to_nat (hi + 1 - lo))).

(** [scone-storage/src/redb.rs:725-744 RedbStore::rebuild_name_index]: the
    names a transaction binds. *)
Definition tx_bind (tx : Transaction) (binds : gmap hash (bool * list byte)) : gmap hash (bool * list byte) :=
  match tx with
  | TxRegisterDomain r => <[rd_domain_id r := (false, rd_name r)]> binds
  | TxAssignDomain a => <[ad_domain_id a := (false, ad_name a)]> binds
  | TxRegisterTld t => <[rt_tld_id t := (true, rt_name t)]> binds
  | _ => binds
  end.

(** [scone-storage/src/redb.rs:716-745 RedbStore::rebuild_name_index]: pass 1. *)
Fixpoint collect_binds (hs : list N) (db : Db) (binds : gmap hash (bool * list byte))
    : result StorageError (gmap hash (bool * list byte)) :=
  match hs with
  | [] => Ok binds
  | height :: hs =>
      let? block := stored_block height db in
      collect_binds hs db (fold_left (λ m tx, tx_bind tx m) (bk_transactions block) binds)
  end.

(** [scone-storage/src/redb.rs:749-767 RedbStore::rebuild_name_index]: is
    the target of a name live? *)
Definition live (db : Db) (b : hash * (bool * list byte)) : bool :=
  bool_decide (is_Some (db_get (if b.2.1 then TLDS else DOMAINS) (arr_list b.1) db)).

(** [scone-storage/src/redb.rs:707-780 RedbStore::rebuild_name_index];
    [order] is the unspecified iteration order of the hash map. *)
Definition rebuild_name_index `{!Faults}
    (order : gmap hash (bool * list byte) → list (hash * (bool * list byte))) (db : Db)
    : Db * result StorageError unit :=
  match (let? (tip_height, _) := tip_inner db in collect_binds (heights 1 tip_height) db ∅) with
  | Err e => (db, Err e)
  | Ok binds =>
      let upserts := map (λ '(id, (is_tld, name)), mkNameBinding is_tld name id) (filter (live db) (order binds)) in
      transact
        (then! db_clear NAMES;
         then! db_clear NAME_REVERSE;
         apply_name_deltas upserts []) db
  end.
End store.
