(* ===== verification/StoreSpec.v ===== *)
(** * The disk: the abstract specification of the node store

    A [Disk] is what the tables of the store mean: typed maps of blocks,
    states and names, the tip, the frozen snapshot and the free metadata,
    without encodings, headers and counters.  [disk_write] is the effect
    of every write over it and [represents] says that the tables hold a
    disk.  [StoreProofs] shows that the operations of [Store] implement
    those of the disk. *)

From S2P Require Import Prelude Bytes Crypto Commitment Smt Names Icann Codec Checkpoint Pow Tx Wire State StateSpec.
From S2P Require Import Blocks Chain StateBytes Redb Store.

(** ** Rows *)

(** The table that holds a typed map. *)
Definition rows {A} (f : A → list byte) (m : gmap hash A) : gmap (list byte) (list byte) :=
  kmap arr_list (f <$> m).

Section rows.
Context {A : Type} (f : A → list byte).
Implicit Types m : gmap hash A.

Lemma rows_lookup m (id : hash) : rows f m !! arr_list id = f <$> m !! id.
Proof. unfold rows. by rewrite (lookup_kmap _), lookup_fmap. Qed.

Lemma rows_Some m k v : rows f m !! k = Some v ↔ ∃ (id : hash) a, k = arr_list id ∧ m !! id = Some a ∧ v = f a.
Proof.
  unfold rows. rewrite (lookup_kmap_Some _). setoid_rewrite lookup_fmap_Some. naive_solver.
Qed.

Lemma rows_empty : rows f ∅ = ∅.
Proof. unfold rows. by rewrite fmap_empty, kmap_empty. Qed.

Lemma rows_insert m (id : hash) a : rows f (<[id := a]> m) = <[arr_list id := f a]> (rows f m).
Proof. unfold rows. by rewrite fmap_insert, (kmap_insert _). Qed.

Lemma rows_delete m (id : hash) : rows f (delete id m) = delete (arr_list id) (rows f m).
Proof. unfold rows. by rewrite fmap_delete, (kmap_delete _). Qed.

Lemma rows_to_list m : map_to_list (rows f m) ≡ₚ (λ e, (arr_list e.1, f e.2)) <$> map_to_list m.
Proof.
  apply NoDup_Permutation; [apply NoDup_map_to_list| |].
  - apply NoDup_fmap_2_strong, NoDup_map_to_list. intros [a x] [b y] Ha%elem_of_map_to_list Hb%elem_of_map_to_list.
    cbn. intros [= E _]. apply arr_eq in E as ->. congruence.
  - intros [k v]. rewrite elem_of_map_to_list, rows_Some, list_elem_of_fmap. split.
    + intros (id & a & -> & Hm & ->). exists (id, a). by rewrite elem_of_map_to_list.
    + intros ([id a] & [= -> ->] & Hm%elem_of_map_to_list). by exists id, a.
Qed.
End rows.

(** ** The disk *)

Record Disk := mkDisk {
  k_blocks : gmap N (hash * list byte);
  k_by_hash : gmap hash (list byte);
  k_domains : gmap DomainId DomainStateBytes;
  k_tlds : gmap TldId TldStateBytes;
  k_names : gmap hash hash;
  k_reverse : gmap hash (bool * list byte);
  k_dht : gmap DomainId (list byte);
  k_tip : N * hash;
  k_marker : option VerifiedSnapshotMarker;
  k_extra : gmap (list byte) (list byte);
  k_snapshot : option (N * hash);
  k_snapshot_domains : gmap DomainId DomainStateBytes;
  k_snapshot_tlds : gmap TldId TldStateBytes }.

(** ** Metadata *)

(** The entries of the [meta] table. *)
Definition meta_rows (domains tlds : N) (tip : N * hash) (marker : option VerifiedSnapshotMarker)
    (extra : gmap (list byte) (list byte)) (key : list byte) : option (list byte) :=
  if decide (key = META_TIP) then Some (arr_list tip.2)
  else if decide (key = META_TIP_HEIGHT) then Some (be_bytes 8 tip.1)
  else if decide (key = META_FORMAT_VERSION) then Some (be_bytes 8 STORAGE_FORMAT_VERSION)
  else if decide (key = META_DOMAIN_COUNT) then Some (be_bytes 8 domains)
  else if decide (key = META_TLD_COUNT) then Some (be_bytes 8 tlds)
  else if decide (key = META_VERIFIED_SNAPSHOT) then Marker_encode <$> marker
  else extra !! key.

Definition count {A} (m : gmap hash A) : N := N.of_nat (size m).

(** ** Representation *)

Definition name_ok (name : list byte) : Prop := name ≠ [] ∧ utf8_valid name = true.

Definition snapshot_row (s : N * hash) : list byte := be_bytes 8 s.1 ++ arr_list s.2.

Section represents.
Context `{RedbLaws}.
#[local] Existing Instances laws_heights laws_bytes.

Record represents (db : Db) (d : Disk) : Prop := {
  rp_blocks h : tb_view (t_blocks_by_height db) !! h = (λ b, indexed_block h b.1 b.2) <$> k_blocks d !! h;
  rp_by_hash : tb_view (t_blocks_by_hash db) = rows id (k_by_hash d);
  rp_domains : tb_view (t_domains db) = rows DomainStateBytes_as_encoded (k_domains d);
  rp_tlds : tb_view (t_tlds db) = rows TldStateBytes_as_encoded (k_tlds d);
  rp_names : tb_view (t_names db) = rows arr_list (k_names d);
  rp_reverse : tb_view (t_name_reverse db) = rows (λ b, name_reverse_value b.1 b.2) (k_reverse d);
  rp_dht : tb_view (t_dht_cache db) = rows id (k_dht d);
  rp_meta key : tb_view (t_meta db) !! key =
    meta_rows (count (k_domains d)) (count (k_tlds d)) (k_tip d) (k_marker d) (k_extra d) key;
  rp_snapshot : tb_view (t_snapshot_meta db) = match k_snapshot d with None => ∅ | Some s => {[0 := snapshot_row s]} end;
  rp_snapshot_domains : tb_view (t_snapshot_domains db) = rows DomainStateBytes_as_encoded (k_snapshot_domains d);
  rp_snapshot_tlds : tb_view (t_snapshot_tlds db) = rows TldStateBytes_as_encoded (k_snapshot_tlds d);
  rp_names_ok : map_Forall (λ _ b, name_ok b.2) (k_reverse d);
  rp_tip_64 : (k_tip d).1 < U64;
  rp_domains_64 : count (k_domains d) < U64;
  rp_tlds_64 : count (k_tlds d) < U64;
  rp_marker_64 : ∀ m, k_marker d = Some m → mk_height m < U64;
  rp_snapshot_64 : ∀ s, k_snapshot d = Some s → s.1 < U64 }.
End represents.

(** ** Writes of the disk *)

Section disk.
Context `{Crypto}.

Definition k_with_domains (D : gmap DomainId DomainStateBytes) (d : Disk) : Disk :=
  mkDisk (k_blocks d) (k_by_hash d) D (k_tlds d) (k_names d) (k_reverse d) (k_dht d) (k_tip d) (k_marker d)
    (k_extra d) (k_snapshot d) (k_snapshot_domains d) (k_snapshot_tlds d).
Definition k_with_tlds (T : gmap TldId TldStateBytes) (d : Disk) : Disk :=
  mkDisk (k_blocks d) (k_by_hash d) (k_domains d) T (k_names d) (k_reverse d) (k_dht d) (k_tip d) (k_marker d)
    (k_extra d) (k_snapshot d) (k_snapshot_domains d) (k_snapshot_tlds d).
Definition k_with_names (nm : gmap hash hash * gmap hash (bool * list byte)) (d : Disk) : Disk :=
  mkDisk (k_blocks d) (k_by_hash d) (k_domains d) (k_tlds d) nm.1 nm.2 (k_dht d) (k_tip d) (k_marker d)
    (k_extra d) (k_snapshot d) (k_snapshot_domains d) (k_snapshot_tlds d).
Definition k_with_dht (c : gmap DomainId (list byte)) (d : Disk) : Disk :=
  mkDisk (k_blocks d) (k_by_hash d) (k_domains d) (k_tlds d) (k_names d) (k_reverse d) c (k_tip d) (k_marker d)
    (k_extra d) (k_snapshot d) (k_snapshot_domains d) (k_snapshot_tlds d).
Definition k_with_extra (e : gmap (list byte) (list byte)) (d : Disk) : Disk :=
  mkDisk (k_blocks d) (k_by_hash d) (k_domains d) (k_tlds d) (k_names d) (k_reverse d) (k_dht d) (k_tip d)
    (k_marker d) e (k_snapshot d) (k_snapshot_domains d) (k_snapshot_tlds d).
Definition k_with_block (h : N) (x : hash) (bytes : list byte) (d : Disk) : Disk :=
  mkDisk (<[h := (x, bytes)]> (k_blocks d)) (<[x := bytes]> (k_by_hash d)) (k_domains d) (k_tlds d) (k_names d)
    (k_reverse d) (k_dht d) (k_tip d) (k_marker d) (k_extra d) (k_snapshot d) (k_snapshot_domains d)
    (k_snapshot_tlds d).
Definition k_with_tip (t : N * hash) (d : Disk) : Disk :=
  mkDisk (k_blocks d) (k_by_hash d) (k_domains d) (k_tlds d) (k_names d) (k_reverse d) (k_dht d) t (k_marker d)
    (k_extra d) (k_snapshot d) (k_snapshot_domains d) (k_snapshot_tlds d).
Definition k_with_marker (m : VerifiedSnapshotMarker) (d : Disk) : Disk :=
  mkDisk (k_blocks d) (k_by_hash d) (k_domains d) (k_tlds d) (k_names d) (k_reverse d) (k_dht d) (k_tip d) (Some m)
    (k_extra d) (k_snapshot d) (k_snapshot_domains d) (k_snapshot_tlds d).
(** The live state is frozen. *)
Definition freeze (h : N) (x : hash) (d : Disk) : Disk :=
  mkDisk (k_blocks d) (k_by_hash d) (k_domains d) (k_tlds d) (k_names d) (k_reverse d) (k_dht d) (k_tip d)
    (k_marker d) (k_extra d) (Some (h, x)) (k_domains d) (k_tlds d).

(** Many insertions and removals. *)
Definition inserts {A} (l : list (hash * A)) (m : gmap hash A) : gmap hash A :=
  fold_left (λ m e, <[e.1 := e.2]> m) l m.
Definition deletes {A} (l : list hash) (m : gmap hash A) : gmap hash A := fold_left (λ m id, delete id m) l m.

(** The name index: a binding, the removal of an identifier. *)
Definition Index : Type := gmap hash hash * gmap hash (bool * list byte).
Definition bound (b : NameBinding) (ix : Index) : Index :=
  (<[name_index_key (nb_name b) := nb_target b]> ix.1, <[nb_target b := (nb_is_tld b, nb_name b)]> ix.2).
Definition unbound (id : hash) (ix : Index) : Index :=
  match ix.2 !! id with
  | None => ix
  | Some (_, name) => (delete (name_index_key name) ix.1, delete id ix.2)
  end.
Definition reindexed (upserts : list NameBinding) (removals : list (bool * hash)) (ix : Index) : Index :=
  fold_left (λ ix r, unbound r.2 ix) removals (fold_left (λ ix b, bound b ix) upserts ix).
Definition k_index (d : Disk) : Index := (k_names d, k_reverse d).

(** The delta of a block: the upserts, then the removals. *)
Definition delta_applied (delta : StateDelta) (d : Disk) : Disk :=
  let d := k_with_domains (deletes (sd_removed_domains delta) (inserts (sd_domains delta) (k_domains d))) d in
  let d := k_with_tlds (deletes (sd_removed_tlds delta) (inserts (sd_tlds delta) (k_tlds d))) d in
  k_with_names (reindexed (sd_name_upserts delta) (sd_name_removals delta) (k_index d)) d.

(** The state is frozen below every 64th block. *)
Definition snapshot_due (h : N) : bool := (1 <? h) && ((h - 1) mod SNAPSHOT_INTERVAL =? 0).
Definition frozen (h : N) (d : Disk) : result StorageError Disk :=
  if snapshot_due h then
    let? b := ok_or (k_blocks d !! (h - 1)) Corrupted in Ok (freeze (h - 1) b.1 d)
  else Ok d.

(** A block on the tip. *)
Definition disk_append (h : N) (x : hash) (bytes : list byte) (delta : StateDelta) (d : Disk) : result StorageError Disk :=
  if (h =? (k_tip d).1) && arr_eqb x (k_tip d).2 then Ok d
  else
    let? expected := ok_or (checked_add64 (k_tip d).1 1) (NonMonotonicHeight U64_MAX h) in
    if? negb (h =? expected) return NonMonotonicHeight expected h;
    let? d := frozen h d in
    match k_blocks d !! h with
    | Some b => if bool_decide (b = (x, bytes)) then Ok d else Err Conflict
    | None => Ok (k_with_tip (h, x) (delta_applied delta (k_with_block h x bytes d)))
    end.

(** An imported state, and its anchor block. *)
Definition disk_import (ds : list (DomainId * DomainStateBytes)) (ts : list (TldId * TldStateBytes))
    (m : VerifiedSnapshotMarker) (d : Disk) : result StorageError Disk :=
  if? negb ((k_tip d).1 =? 0) return SnapshotUnavailable;
  Ok (mkDisk (k_blocks d) (k_by_hash d) (inserts ds (k_domains d)) (inserts ts (k_tlds d)) (k_names d) (k_reverse d)
        (k_dht d) (mk_height m, mk_tip_hash m) (Some m) (k_extra d) (Some (mk_height m, mk_tip_hash m))
        (inserts ds ∅) (inserts ts ∅)).

Definition disk_anchor (h : N) (x : hash) (bytes : list byte) (d : Disk) : result StorageError Disk :=
  let? m := ok_or (k_marker d) SnapshotUnavailable in
  if? negb (h =? mk_height m) || negb (arr_eqb x (mk_tip_hash m)) return SnapshotUnavailable;
  if? negb ((k_tip d).1 =? mk_height m) return NonMonotonicHeight (add64 (k_tip d).1 1) h;
  match k_blocks d !! h with
  | Some b => if bool_decide (b = (x, bytes)) then Ok d else Err Conflict
  | None => Ok (k_with_block h x bytes d)
  end.

(** Every write of the store. *)
Inductive Write :=
| WAppend (h : N) (x : hash) (bytes : list byte) (delta : StateDelta)
| WPutDomain (id : DomainId) (st : DomainStateBytes) (name : option (list byte))
| WPutTld (id : TldId) (st : TldStateBytes) (name : option (list byte))
| WRemoveDomain (id : DomainId)
| WPutDht (id : DomainId) (record : list byte)
| WMetaSet (key value : list byte)
| WImport (ds : list (DomainId * DomainStateBytes)) (ts : list (TldId * TldStateBytes)) (m : VerifiedSnapshotMarker)
| WAnchor (h : N) (x : hash) (bytes : list byte).

Definition named (is_tld : bool) (name : option (list byte)) (id : hash) (ix : Index) : Index :=
  match name with None => ix | Some n => bound (mkNameBinding is_tld n id) ix end.

Definition disk_write (w : Write) (d : Disk) : result StorageError Disk :=
  match w with
  | WAppend h x bytes delta => disk_append h x bytes delta d
  | WPutDomain id st name =>
      Ok (k_with_names (named false name id (k_index d)) (k_with_domains (<[id := st]> (k_domains d)) d))
  | WPutTld id st name =>
      Ok (k_with_names (named true name id (k_index d)) (k_with_tlds (<[id := st]> (k_tlds d)) d))
  | WRemoveDomain id => Ok (k_with_names (unbound id (k_index d)) (k_with_domains (delete id (k_domains d)) d))
  | WPutDht id record =>
      if? MAX_DHT_CACHE_ENTRY <? blen record return TooLarge (blen record) MAX_DHT_CACHE_ENTRY;
      Ok (k_with_dht (<[id := record]> (k_dht d)) d)
  | WMetaSet key value =>
      let? _ := ensure_not_reserved key in Ok (k_with_extra (<[key := value]> (k_extra d)) d)
  | WImport ds ts m => disk_import ds ts m d
  | WAnchor h x bytes => disk_anchor h x bytes d
  end.

(** What the types of the code guarantee of a write — its numbers fit
    in 64 bits and its names are text — and that the tables do not
    outgrow their counters.  An import brings the whole state, into
    empty tables, each identifier once. *)
Definition write_ok (w : Write) (d : Disk) : Prop :=
  match w with
  | WAppend h x bytes delta =>
      count (k_domains d) + N.of_nat (length (sd_domains delta)) < U64 ∧
      count (k_tlds d) + N.of_nat (length (sd_tlds delta)) < U64 ∧
      Forall (λ b, name_ok (nb_name b)) (sd_name_upserts delta)
  | WPutDomain id st name =>
      count (k_domains d) + 1 < U64 ∧ (∀ n, name = Some n → name_ok n)
  | WPutTld id st name =>
      count (k_tlds d) + 1 < U64 ∧ (∀ n, name = Some n → name_ok n)
  | WImport ds ts m =>
      k_domains d = ∅ ∧ k_tlds d = ∅ ∧ NoDup ds.*1 ∧ NoDup ts.*1 ∧
      N.of_nat (length ds) < U64 ∧ N.of_nat (length ts) < U64 ∧ mk_height m < U64
  | _ => True
  end.
End disk.

(** ** Writes of the store *)

Section writes.
Context `{Crypto} `{Redb} `{!Faults}.

Definition store_write (w : Write) (db : Db) : Db * result StorageError unit :=
  match w with
  | WAppend h x bytes delta => append_block_with_state h x bytes delta db
  | WPutDomain id st None => put_domain_state id st db
  | WPutDomain id st (Some name) => put_domain_state_with_name id st name db
  | WPutTld id st None => put_tld_state id st db
  | WPutTld id st (Some name) => put_tld_state_with_name id st name db
  | WRemoveDomain id => remove_domain_state id db
  | WPutDht id record => put_dht_cache id record db
  | WMetaSet key value => meta_set key value db
  | WImport ds ts m => write_verified_snapshot ds ts m db
  | WAnchor h x bytes => append_bootstrap_anchor h x bytes db
  end.

(** The disk refused the transaction: nothing changed. *)
Definition refused (db : Db) (r : Db * result StorageError unit) : Prop :=
  ∃ e, r = (db, Err e) ∧ (begin_write db = Some e ∨ ∃ db', commit db' = Some e).
End writes.
