(* ===== verification/StoreProofs.v ===== *)
(** * The node store implements the disk

    Every operation of [Store], as an effect on the views of its tables,
    and the simulation: a write of the store is the write of the disk it
    represents. *)

From S2P Require Import Prelude Bytes Crypto Commitment Smt Names Icann Codec Checkpoint Pow Tx Wire State StateSpec.
From S2P Require Import Blocks Chain StateBytes Redb Store StoreSpec.

Lemma count_empty {A} : count (∅ : gmap hash A) = 0.
Proof. unfold count. by rewrite map_size_empty. Qed.

Lemma count_insert {A} (m : gmap hash A) id a :
  count (<[id := a]> m) = count m + (if bool_decide (is_Some (m !! id)) then 0 else 1).
Proof.
  unfold count. case_bool_decide as E; [by rewrite map_size_insert_Some, N.add_0_r|].
  rewrite map_size_insert_None by (by apply eq_None_not_Some). lia.
Qed.

Lemma count_delete {A} (m : gmap hash A) id :
  count (delete id m) + (if bool_decide (is_Some (m !! id)) then 1 else 0) = count m.
Proof.
  unfold count. case_bool_decide as E.
  - pose proof (map_size_ne_0_lookup_2 m id E). rewrite map_size_delete_Some by done. lia.
  - rewrite map_size_delete_None by (by apply eq_None_not_Some). lia.
Qed.

Section proofs.
Context `{Crypto} `{RedbLaws} `{!Faults}.
#[local] Existing Instances laws_heights laws_bytes.
Implicit Types db : Db.

(** ** Tables of the record *)

Class Lens {K} `{!Table K} (d : Def K) : Prop := {
  get_set t db : d_get _ d (d_set _ d t db) = t;
  set_set t t' db : d_set _ d t (d_set _ d t' db) = d_set _ d t db;
  set_get db : d_set _ d (d_get _ d db) db = db }.

Ltac lens := split; intros; by repeat match goal with db : Db |- _ => destruct db end.
#[local] Instance lens_1 : Lens BLOCKS_BY_HEIGHT. Proof. lens. Qed.
#[local] Instance lens_2 : Lens BLOCKS_BY_HASH. Proof. lens. Qed.
#[local] Instance lens_3 : Lens DOMAINS. Proof. lens. Qed.
#[local] Instance lens_4 : Lens TLDS. Proof. lens. Qed.
#[local] Instance lens_5 : Lens NAMES. Proof. lens. Qed.
#[local] Instance lens_6 : Lens NAME_REVERSE. Proof. lens. Qed.
#[local] Instance lens_7 : Lens DHT_CACHE. Proof. lens. Qed.
#[local] Instance lens_8 : Lens META. Proof. lens. Qed.
#[local] Instance lens_9 : Lens SNAPSHOT_META. Proof. lens. Qed.
#[local] Instance lens_10 : Lens SNAPSHOT_DOMAINS. Proof. lens. Qed.
#[local] Instance lens_11 : Lens SNAPSHOT_TLDS. Proof. lens. Qed.

(** One step of a transaction. *)
Lemma tstep {A B} (m : Txn A) (k : A → Txn B) db db' a : m db = Ok (db', a) → tbind m k db = k a db'.
Proof. unfold tbind. by intros ->. Qed.

Lemma db_insert_eq {K} `{!Table K} (d : Def K) k v db :
  db_insert d k v db = Ok (d_set _ d (tb_insert k v (d_get _ d db)).1 db, (tb_insert k v (d_get _ d db)).2).
Proof. unfold db_insert. by destruct (tb_insert k v (d_get _ d db)). Qed.

Lemma db_remove_eq {K} `{!Table K} (d : Def K) k db :
  db_remove d k db = Ok (d_set _ d (tb_remove k (d_get _ d db)).1 db, (tb_remove k (d_get _ d db)).2).
Proof. unfold db_remove. by destruct (tb_remove k (d_get _ d db)). Qed.

(** A batch of upserts, and of removals, with the number of new and of
    removed entries. *)
Lemma upserts_spec {A} (f : A → list byte) (d : Def (list byte)) `{!Lens d} (l : list (hash * A)) m db :
  tb_view (d_get _ d db) = rows f m →
  ∃ t n, tcount l (λ '(id, a), upsert d (arr_list id) (f a)) db = Ok (d_set _ d t db, n) ∧
    tb_view t = rows f (inserts l m) ∧ count (inserts l m) = count m + n.
Proof.
  revert m db. induction l as [|[id a] l IH]; intros m db Hv.
  - exists (d_get _ d db), 0. split_and!; [|done|cbn; lia]. cbn. unfold tret. by rewrite set_get.
  - cbn [tcount]. set (t1 := (tb_insert (arr_list id) (f a) (d_get _ d db)).1).
    assert (tb_view t1 = rows f (<[id := a]> m)) as Hv1 by (unfold t1; by rewrite view_insert, Hv, rows_insert).
    destruct (IH (<[id := a]> m) (d_set _ d t1 db)) as (t & n & E & Ht & Hn); [by rewrite get_set|].
    exists t. eexists. split_and!; [|exact Ht|].
    + erewrite tstep by (unfold upsert; erewrite tstep by apply db_insert_eq; reflexivity).
      fold t1. erewrite tstep by exact E. unfold tret. by rewrite set_set.
    + cbn [inserts fold_left fst snd]. fold (inserts l (<[id := a]> m)). rewrite Hn, count_insert.
      rewrite insert_previous, Hv, rows_lookup, (bool_decide_ext _ _ (fmap_is_Some f (m !! id))).
      destruct (bool_decide (is_Some (m !! id))); cbn [negb]; lia.
Qed.

Lemma expunges_spec {A} (f : A → list byte) (d : Def (list byte)) `{!Lens d} (l : list hash) m db :
  tb_view (d_get _ d db) = rows f m →
  ∃ t n, tcount l (λ id, expunge d (arr_list id)) db = Ok (d_set _ d t db, n) ∧
    tb_view t = rows f (deletes l m) ∧ count (deletes l m) + n = count m.
Proof.
  revert m db. induction l as [|id l IH]; intros m db Hv.
  - exists (d_get _ d db), 0. split_and!; [|done|cbn; lia]. cbn. unfold tret. by rewrite set_get.
  - cbn [tcount]. set (t1 := (tb_remove (arr_list id) (d_get _ d db)).1).
    assert (tb_view t1 = rows f (delete id m)) as Hv1 by (unfold t1; by rewrite view_remove, Hv, rows_delete).
    destruct (IH (delete id m) (d_set _ d t1 db)) as (t & n & E & Ht & Hn); [by rewrite get_set|].
    exists t. eexists. split_and!; [|exact Ht|].
    + erewrite tstep by (unfold expunge; erewrite tstep by apply db_remove_eq; reflexivity).
      fold t1. erewrite tstep by exact E. unfold tret. by rewrite set_set.
    + cbn [deletes fold_left]. fold (deletes l (delete id m)). rewrite <- (count_delete m id), <- Hn.
      rewrite remove_previous, Hv, rows_lookup, (bool_decide_ext _ _ (fmap_is_Some f (m !! id))).
      destruct (bool_decide (is_Some (m !! id))); lia.
Qed.

(** ** Counters *)

Lemma be_val_counter c : c < U64 → be_val (be_bytes 8 c) = c.
Proof. apply be_val_be_bytes_64. Qed.

Lemma meta_u64_row key c db :
  tb_view (t_meta db) !! key = Some (be_bytes 8 c) → c < U64 → meta_u64 key db = Ok c.
Proof.
  intros E Hc. unfold meta_u64, db_get. cbn [d_get META]. rewrite view_get, E.
  rewrite length_be_bytes. cbn. by rewrite be_val_counter.
Qed.

Lemma put_meta_spec key v db : put_meta key v db = Ok (d_set _ META (tb_insert key v (t_meta db)).1 db, tt).
Proof. unfold put_meta. erewrite tstep by apply db_insert_eq. done. Qed.

(** A counter that moves: the other entries stay. *)
Definition meta_put (key v : list byte) (t t' : tb (list byte)) : Prop :=
  ∀ k, tb_view t' !! k = if decide (k = key) then Some v else tb_view t !! k.

Lemma insert_meta_put key v t : meta_put key v t (tb_insert key v t).1.
Proof. intros k. rewrite view_insert, lookup_insert. by repeat case_decide. Qed.

Lemma add_to_counter_spec key c n db :
  tb_view (t_meta db) !! key = Some (be_bytes 8 c) → c + n < U64 →
  ∃ t, add_to_counter key n db = Ok (d_set _ META t db, tt) ∧ meta_put key (be_bytes 8 (c + n)) (t_meta db) t.
Proof.
  intros E Hc. eexists. split; [|apply insert_meta_put].
  unfold add_to_counter. erewrite tstep by (unfold tread; rewrite (meta_u64_row key c) by (done || lia); reflexivity).
  rewrite put_meta_spec. by rewrite add64_small.
Qed.

Lemma sub_from_counter_spec key c n db :
  tb_view (t_meta db) !! key = Some (be_bytes 8 (c + n)) → c + n < U64 →
  ∃ t, sub_from_counter key n db = Ok (d_set _ META t db, tt) ∧ meta_put key (be_bytes 8 c) (t_meta db) t.
Proof.
  intros E Hc. eexists. split; [|apply insert_meta_put].
  unfold sub_from_counter. erewrite tstep by (unfold tread; rewrite (meta_u64_row key (c + n)) by done; reflexivity).
  erewrite tstep; [apply put_meta_spec|].
  unfold tread, checked_sub. rewrite (proj2 (N.leb_le _ _)) by lia. cbn. by rewrite N.add_sub.
Qed.

(** The counting form: nothing is written for a count of zero. *)
Lemma when_add key c n db :
  tb_view (t_meta db) !! key = Some (be_bytes 8 c) → c + n < U64 →
  ∃ t, when (0 <? n) (add_to_counter key n) db = Ok (d_set _ META t db, tt) ∧
    meta_put key (be_bytes 8 (c + n)) (t_meta db) t.
Proof.
  intros E Hc. destruct (N.ltb_spec 0 n) as [Hn|Hn]; [by apply add_to_counter_spec|].
  exists (t_meta db). cbn [when]. unfold tret. replace n with 0 by lia. rewrite N.add_0_r. split.
  - by destruct db.
  - intros k. case_decide; [by subst|done].
Qed.

Lemma when_sub key c n db :
  tb_view (t_meta db) !! key = Some (be_bytes 8 (c + n)) → c + n < U64 →
  ∃ t, when (0 <? n) (sub_from_counter key n) db = Ok (d_set _ META t db, tt) ∧
    meta_put key (be_bytes 8 c) (t_meta db) t.
Proof.
  intros E Hc. destruct (N.ltb_spec 0 n) as [Hn|Hn]; [by apply sub_from_counter_spec|].
  exists (t_meta db). cbn [when]. unfold tret. replace n with 0 in E by lia. rewrite N.add_0_r in E. split.
  - by destruct db.
  - intros k. case_decide; [by subst|done].
Qed.

(** ** The name index *)

Definition index_of db (ix : Index) : Prop :=
  tb_view (t_names db) = rows arr_list ix.1 ∧
  tb_view (t_name_reverse db) = rows (λ b, name_reverse_value b.1 b.2) ix.2 ∧
  map_Forall (λ _ b, name_ok b.2) ix.2.

(** The two tables of the index, replaced. *)
Definition set_names (t1 t2 : tb (list byte)) db : Db := d_set _ NAME_REVERSE t2 (d_set _ NAMES t1 db).

Lemma set_names_set t1 t2 t3 t4 db : set_names t1 t2 (set_names t3 t4 db) = set_names t1 t2 db.
Proof. by destruct db. Qed.
Lemma set_names_id db : set_names (t_names db) (t_name_reverse db) db = db.
Proof. by destruct db. Qed.

(** A transaction that takes one index to another. *)
Definition reindexes (m : Txn unit) (ix ix' : Index) : Prop :=
  ∀ db, index_of db ix → ∃ t1 t2, m db = Ok (set_names t1 t2 db, tt) ∧ index_of (set_names t1 t2 db) ix'.

Lemma reindexes_ret ix : reindexes (tret tt) ix ix.
Proof. intros db Hi. exists (t_names db), (t_name_reverse db). by rewrite set_names_id. Qed.

Lemma reindexes_bind m k ix1 ix2 ix3 :
  reindexes m ix1 ix2 → reindexes k ix2 ix3 → reindexes (tbind m (λ _, k)) ix1 ix3.
Proof.
  intros Hm Hk db Hi. destruct (Hm db Hi) as (t1 & t2 & E & Hi'). destruct (Hk _ Hi') as (t3 & t4 & E' & Hi'').
  exists t3, t4. erewrite tstep by exact E. rewrite E'. by rewrite set_names_set in *.
Qed.

Lemma bind_name_spec b ix : name_ok (nb_name b) → reindexes (bind_name b) ix (bound b ix).
Proof.
  intros Hn db (V1 & V2 & V3). unfold bind_name. do 2 eexists. split.
  { erewrite tstep by apply db_insert_eq. erewrite tstep by apply db_insert_eq. cbn. reflexivity. }
  unfold set_names, index_of, bound. cbn. rewrite !view_insert, V1, V2, !rows_insert. split_and!; [done..|].
  by apply map_Forall_insert_2.
Qed.

Lemma decode_reverse_value t n : name_ok n → decode_name_reverse (name_reverse_value t n) = Ok (t, n).
Proof.
  intros [Hne Hu]. unfold decode_name_reverse, name_reverse_value. cbn [head ok_or rbind].
  assert ((if byte_eqb (if t then NAME_TAG_TLD else NAME_TAG_DOMAIN) NAME_TAG_DOMAIN then Ok false
    else if byte_eqb (if t then NAME_TAG_TLD else NAME_TAG_DOMAIN) NAME_TAG_TLD then Ok true else Err Corrupted) =
    Ok (E := StorageError) t) as -> by by destruct t.
  cbn [rbind]. change (drop 1 (_ :: n)) with n. unfold from_utf8. rewrite Hu. cbn. by rewrite bool_decide_false.
Qed.

Lemma remove_name_spec id ix : reindexes (remove_name_entry id) ix (unbound id ix).
Proof.
  intros db (V1 & V2 & V3). unfold remove_name_entry, unbound.
  erewrite tstep by reflexivity. unfold db_get. cbn [d_get NAME_REVERSE]. rewrite view_get, V2, rows_lookup.
  destruct (ix.2 !! id) as [[t n]|] eqn:E; cbn [fmap option_fmap option_map].
  - pose proof (V3 _ _ E) as Hn. cbn in Hn. do 2 eexists. split.
    { erewrite tstep by (unfold tread; cbn [fst snd]; rewrite decode_reverse_value by done; reflexivity).
      cbv beta iota. erewrite tstep by apply db_remove_eq. erewrite tstep by apply db_remove_eq. cbn. reflexivity. }
    unfold set_names, index_of. cbn. rewrite !view_remove, V1, V2, !rows_delete. split_and!; [done..|].
    by apply map_Forall_delete.
  - by apply reindexes_ret.
Qed.

Lemma reindexes_for {A} (l : list A) (f : A → Txn unit) (g : A → Index → Index) ix :
  (∀ a ix, a ∈ l → reindexes (f a) ix (g a ix)) → reindexes (tfor l f) ix (fold_left (λ ix a, g a ix) l ix).
Proof.
  revert ix. induction l as [|a l IH]; intros ix Hf; cbn [tfor fold_left]; [apply reindexes_ret|].
  eapply reindexes_bind; [apply Hf; by left|]. apply IH. intros. apply Hf. by right.
Qed.

Lemma apply_name_deltas_spec upserts removals ix :
  Forall (λ b, name_ok (nb_name b)) upserts →
  reindexes (apply_name_deltas upserts removals) ix (reindexed upserts removals ix).
Proof.
  intros Hn. unfold apply_name_deltas, reindexed. eapply reindexes_bind.
  - apply (reindexes_for upserts bind_name bound). intros b ix' Hb. apply bind_name_spec.
    rewrite Forall_forall in Hn. by apply Hn.
  - apply (reindexes_for removals _ (λ r, unbound r.2)). intros [t id] ix' _. apply remove_name_spec.
Qed.

(** ** Copies *)

Lemma copy_all_spec d `{!Lens d} l db : copy_all d l db = Ok (d_set _ d (tb_extend l (d_get _ d db)) db, tt).
Proof.
  unfold copy_all. revert db. induction l as [|[k v] l IH]; intros db; cbn [tfor].
  - unfold tret, tb_extend. cbn. by rewrite set_get.
  - erewrite tstep by (cbv beta iota; erewrite tstep by apply db_insert_eq; reflexivity).
    rewrite IH, get_set, set_set. done.
Qed.

Lemma extend_rows {A} (f : A → list byte) (l : list (hash * A)) m t :
  tb_view t = rows f m → tb_view (tb_extend (map (λ '(id, a), (arr_list id, f a)) l) t) = rows f (inserts l m).
Proof.
  unfold tb_extend. revert m t. induction l as [|[id a] l IH]; intros m t Hv; [done|].
  cbn [map fold_left]. apply (IH (<[id := a]> m)). cbn [fst snd]. by rewrite view_insert, Hv, rows_insert.
Qed.

Lemma extend_range (t : tb (list byte)) : tb_view (tb_extend (tb_range None t) tb_empty) = tb_view t.
Proof.
  rewrite view_extend, view_empty, (right_id_L ∅ (∪)).
  assert (tb_range None t ≡ₚ map_to_list (tb_view t)) as Hp.
  { apply range_all. }
  rewrite <- (list_to_map_to_list (tb_view t)). apply list_to_map_proper.
  - rewrite reverse_Permutation, Hp. apply NoDup_fst_map_to_list.
  - by rewrite reverse_Permutation.
Qed.

(** ** The entries of the metadata *)

Lemma put_domain_count D T tip mk ex D' k :
  (if decide (k = META_DOMAIN_COUNT) then Some (be_bytes 8 D') else meta_rows D T tip mk ex k) =
  meta_rows D' T tip mk ex k.
Proof. unfold meta_rows. by repeat case_decide; subst. Qed.

Lemma put_tld_count D T tip mk ex T' k :
  (if decide (k = META_TLD_COUNT) then Some (be_bytes 8 T') else meta_rows D T tip mk ex k) =
  meta_rows D T' tip mk ex k.
Proof. unfold meta_rows. by repeat case_decide; subst. Qed.

Lemma put_tip D T tip mk ex h x k :
  (if decide (k = META_TIP_HEIGHT) then Some (be_bytes 8 h)
   else if decide (k = META_TIP) then Some (arr_list x) else meta_rows D T tip mk ex k) =
  meta_rows D T (h, x) mk ex k.
Proof. unfold meta_rows. by repeat case_decide; subst. Qed.

Lemma put_marker D T tip mk ex m k :
  (if decide (k = META_VERIFIED_SNAPSHOT) then Some (Marker_encode m) else meta_rows D T tip mk ex k) =
  meta_rows D T tip (Some m) ex k.
Proof. unfold meta_rows. by repeat case_decide; subst. Qed.

Lemma put_extra D T tip mk ex key v k :
  ensure_not_reserved key = Ok tt →
  (if decide (k = key) then Some v else meta_rows D T tip mk ex k) = meta_rows D T tip mk (<[key := v]> ex) k.
Proof.
  unfold ensure_not_reserved. intros Hk.
  repeat (case_bool_decide; [done|cbn [orb] in Hk]).
  unfold meta_rows. rewrite lookup_insert. repeat case_decide; congruence.
Qed.

Lemma write_tip_spec h x db :
  ∃ t, write_tip h x db = Ok (d_set _ META t db, tt) ∧
    ∀ k, tb_view t !! k = if decide (k = META_TIP_HEIGHT) then Some (be_bytes 8 h)
      else if decide (k = META_TIP) then Some (arr_list x) else tb_view (t_meta db) !! k.
Proof.
  eexists. split.
  - unfold write_tip. erewrite tstep by apply put_meta_spec. rewrite put_meta_spec. rewrite set_set. reflexivity.
  - intros k. rewrite (insert_meta_put _ _ _ k). case_decide; [done|]. apply insert_meta_put.
Qed.

(** ** Simulation *)

(** The transaction takes a disk to the disk of the specification. *)
Definition implements (m : Txn unit) (d : Disk) (r : result StorageError Disk) : Prop :=
  ∀ db, represents db d →
    match r with
    | Ok d' => ∃ db', m db = Ok (db', tt) ∧ represents db' d'
    | Err e => m db = Err e
    end.

(** The write is refused by the disk, or does what the specification
    says. *)
Definition simulates (r : Db * result StorageError unit) db (s : result StorageError Disk) : Prop :=
  refused db r ∨
  match s with
  | Ok d' => ∃ db', r = (db', Ok tt) ∧ represents db' d'
  | Err e => r = (db, Err e)
  end.

Lemma simulates_transact m db d s : represents db d → implements m d s → simulates (transact m db) db s.
Proof.
  intros Hd Hm. unfold simulates, refused, transact. destruct (begin_write db) as [e|] eqn:Eb.
  { left. exists e. auto. }
  specialize (Hm db Hd). destruct s as [d'|e]; [|right; by rewrite Hm].
  destruct Hm as (db' & -> & Hd'). destruct (commit db') as [e|] eqn:Ec; [|right; eauto].
  left. exists e. split; [done|]. right. by exists db'.
Qed.

Lemma simulates_Err db e : simulates (db, Err e) db (Err e).
Proof. by right. Qed.

Lemma txn_implements_ret d : implements (tret tt) d (Ok d).
Proof. intros db Hd. by exists db. Qed.

(** The counters of a represented disk. *)
Lemma rp_domain_counter db d :
  represents db d → tb_view (t_meta db) !! META_DOMAIN_COUNT = Some (be_bytes 8 (count (k_domains d))).
Proof. intros Hd. by rewrite (rp_meta _ _ Hd). Qed.
Lemma rp_tld_counter db d :
  represents db d → tb_view (t_meta db) !! META_TLD_COUNT = Some (be_bytes 8 (count (k_tlds d))).
Proof. intros Hd. by rewrite (rp_meta _ _ Hd). Qed.

Lemma rp_tip_row db d : represents db d → tip_inner db = Ok (k_tip d).
Proof.
  intros Hd. unfold tip_inner.
  rewrite (meta_u64_row META_TIP_HEIGHT (k_tip d).1) by (apply Hd || by rewrite (rp_meta _ _ Hd)).
  unfold meta_u256, db_get. cbn [d_get META]. rewrite view_get, (rp_meta _ _ Hd).
  change (meta_rows _ _ (k_tip d) _ _ META_TIP) with (Some (arr_list (k_tip d).2)). cbv iota.
  rewrite to_arr_arr. cbn. by destruct (k_tip d).
Qed.

Lemma rp_block_row db d h :
  represents db d →
  db_get BLOCKS_BY_HEIGHT h db = (λ b, indexed_block h b.1 b.2) <$> k_blocks d !! h.
Proof. intros Hd. unfold db_get. cbn [d_get BLOCKS_BY_HEIGHT]. by rewrite view_get, (rp_blocks _ _ Hd). Qed.

Lemma indexed_block_inj h (b b' : hash * list byte) : indexed_block h b.1 b.2 = indexed_block h b'.1 b'.2 → b = b'.
Proof.
  unfold indexed_block. destruct b as [x l], b' as [x' l']. cbn. intros [-> E]%app_arr_inj.
  by apply app_inv_head in E as ->.
Qed.

(** Upserts and their counter, removals and theirs. *)
Lemma count_inserts_le {A} (l : list (hash * A)) m : count (inserts l m) ≤ count m + N.of_nat (length l).
Proof.
  revert m. induction l as [|[id a] l IH]; intros m; cbn [inserts fold_left length]; [lia|].
  pose proof (IH (<[id := a]> m)) as Hl. unfold inserts in Hl. cbn [fst snd] in *.
  rewrite count_insert in Hl. case_bool_decide; lia.
Qed.

Lemma count_deletes_le {A} (l : list hash) (m : gmap hash A) : count (deletes l m) ≤ count m.
Proof.
  revert m. induction l as [|id l IH]; intros m; cbn [deletes fold_left]; [lia|].
  pose proof (IH (delete id m)) as Hl. unfold deletes in Hl. pose proof (count_delete m id).
  case_bool_decide; lia.
Qed.

Lemma upserts_counted {A} (f : A → list byte) (d : Def (list byte)) `{!Lens d} (l : list (hash * A)) m key db
    (k : Txn unit) :
  (∀ t db, t_meta (d_set _ d t db) = t_meta db) →
  tb_view (d_get _ d db) = rows f m → tb_view (t_meta db) !! key = Some (be_bytes 8 (count m)) →
  count m + N.of_nat (length l) < U64 →
  ∃ t tm,
    tbind (tcount l (λ '(id, a), upsert d (arr_list id) (f a)))
      (λ n, tbind (when (0 <? n) (add_to_counter key n)) (λ _, k)) db =
    k (d_set _ META tm (d_set _ d t db)) ∧
    tb_view t = rows f (inserts l m) ∧ meta_put key (be_bytes 8 (count (inserts l m))) (t_meta db) tm.
Proof.
  intros Hmeta Hv Hk Hc. pose proof (count_inserts_le l m).
  destruct (upserts_spec f d l m db Hv) as (t & n & E & Ht & Hn). rewrite Hn in *.
  destruct (when_add key (count m) n (d_set _ d t db)) as (tm & E' & Htm); [by rewrite Hmeta|lia|].
  rewrite Hmeta in Htm. exists t, tm. split_and!; [|done|done].
  rewrite (tstep _ _ _ _ _ E). by rewrite (tstep _ _ _ _ _ E').
Qed.

Lemma expunges_counted {A} (f : A → list byte) (d : Def (list byte)) `{!Lens d} (l : list hash) m key db
    (k : Txn unit) :
  (∀ t db, t_meta (d_set _ d t db) = t_meta db) →
  tb_view (d_get _ d db) = rows f m → tb_view (t_meta db) !! key = Some (be_bytes 8 (count m)) → count m < U64 →
  ∃ t tm,
    tbind (tcount l (λ id, expunge d (arr_list id)))
      (λ n, tbind (when (0 <? n) (sub_from_counter key n)) (λ _, k)) db =
    k (d_set _ META tm (d_set _ d t db)) ∧
    tb_view t = rows f (deletes l m) ∧ meta_put key (be_bytes 8 (count (deletes l m))) (t_meta db) tm.
Proof.
  intros Hmeta Hv Hk Hc. destruct (expunges_spec f d l m db Hv) as (t & n & E & Ht & Hn).
  destruct (when_sub key (count (deletes l m)) n (d_set _ d t db)) as (tm & E' & Htm);
    [by rewrite Hmeta, Hn|lia|].
  rewrite Hmeta in Htm. exists t, tm. split_and!; [|done|done].
  rewrite (tstep _ _ _ _ _ E). by rewrite (tstep _ _ _ _ _ E').
Qed.

Lemma append_deltas_spec h x bytes delta d :
  h < U64 → write_ok (WAppend h x bytes delta) d →
  implements (append_deltas h x bytes (indexed_block h x bytes) delta) d
    match k_blocks d !! h with
    | Some b => if bool_decide (b = (x, bytes)) then Ok d else Err Conflict
    | None => Ok (k_with_tip (h, x) (delta_applied delta (k_with_block h x bytes d)))
    end.
Proof.
  intros Hh (HD & HT & Hn) db Hd. unfold append_deltas.
  rewrite (tstep _ _ db db ((λ b, indexed_block h b.1 b.2) <$> k_blocks d !! h))
    by (unfold tread; by rewrite (rp_block_row _ _ _ Hd)).
  destruct (k_blocks d !! h) as [b|] eqn:Eb; cbn [fmap option_fmap option_map].
  { rewrite (bool_decide_ext (indexed_block h b.1 b.2 = indexed_block h x bytes) (b = (x, bytes)))
      by (split; [apply (indexed_block_inj h b (x, bytes))|by intros ->]).
    case_bool_decide; [by exists db|done]. }
  erewrite tstep by apply db_insert_eq. erewrite tstep by apply db_insert_eq.
  set (db2 := d_set _ BLOCKS_BY_HASH _ _).
  pose proof (rp_domain_counter _ _ Hd) as Kd. pose proof (rp_tld_counter _ _ Hd) as Kt.
  edestruct (upserts_counted DomainStateBytes_as_encoded DOMAINS (sd_domains delta) (k_domains d) META_DOMAIN_COUNT db2)
    as (t1 & m1 & E & V1 & M1); [done|apply Hd|exact Kd|done|]. rewrite E. clear E.
  edestruct (upserts_counted TldStateBytes_as_encoded TLDS (sd_tlds delta) (k_tlds d) META_TLD_COUNT
    (d_set _ META m1 (d_set _ DOMAINS t1 db2)))
    as (t2 & m2 & E & V2 & M2); [done|apply Hd|cbn; by rewrite M1|done|]. rewrite E. clear E.
  edestruct (expunges_counted DomainStateBytes_as_encoded DOMAINS (sd_removed_domains delta)
    (inserts (sd_domains delta) (k_domains d)) META_DOMAIN_COUNT
    (d_set _ META m2 (d_set _ TLDS t2 (d_set _ META m1 (d_set _ DOMAINS t1 db2)))))
    as (t3 & m3 & E & V3 & M3); [done|exact V1|cbn; rewrite M2; cbn; by rewrite M1| |].
  { pose proof (count_inserts_le (sd_domains delta) (k_domains d)). lia. }
  rewrite E. clear E.
  edestruct (expunges_counted TldStateBytes_as_encoded TLDS (sd_removed_tlds delta)
    (inserts (sd_tlds delta) (k_tlds d)) META_TLD_COUNT
    (d_set _ META m3 (d_set _ DOMAINS t3 (d_set _ META m2 (d_set _ TLDS t2 (d_set _ META m1 (d_set _ DOMAINS t1 db2)))))))
    as (t4 & m4 & E & V4 & M4); [done|exact V2|cbn; rewrite M3; cbn; by rewrite M2| |].
  { pose proof (count_inserts_le (sd_tlds delta) (k_tlds d)). lia. }
  rewrite E. clear E.
  set (db3 := d_set _ META m4 _).
  destruct (apply_name_deltas_spec (sd_name_upserts delta) (sd_name_removals delta) (k_index d) Hn db3)
    as (t5 & t6 & E & V5 & V6 & N6); [split_and!; apply Hd|].
  rewrite (tstep _ _ _ _ _ E). clear E.
  destruct (write_tip_spec h x (set_names t5 t6 db3)) as (m5 & E & M5).
  eexists. split; [exact E|]. clear E.
  pose proof (count_inserts_le (sd_domains delta) (k_domains d)) as CD.
  pose proof (count_inserts_le (sd_tlds delta) (k_tlds d)) as CT.
  pose proof (count_deletes_le (sd_removed_domains delta) (inserts (sd_domains delta) (k_domains d))).
  pose proof (count_deletes_le (sd_removed_tlds delta) (inserts (sd_tlds delta) (k_tlds d))).
  split; try solve [apply Hd|done]; cbn.
  - intros h'. rewrite view_insert, !lookup_insert. case_decide as E; [by subst|]. apply (rp_blocks _ _ Hd).
  - by rewrite view_insert, (rp_by_hash _ _ Hd), rows_insert.
  - intros key. rewrite M5. cbn. rewrite M4. cbn. rewrite M3. cbn. rewrite M2. cbn. rewrite M1. cbn.
    rewrite (rp_meta _ _ Hd).
    by rewrite put_domain_count, put_tld_count, put_domain_count, put_tld_count, put_tip.
  - lia.
  - lia.
Qed.

(** A copy into a cleared table. *)
Lemma clear_copy d `{!Lens d} l db (k : Txn unit) :
  tbind (db_clear d) (λ _, tbind (copy_all d l) (λ _, k)) db = k (d_set _ d (tb_extend l tb_empty) db).
Proof.
  erewrite tstep by reflexivity. rewrite (tstep _ _ _ _ _ (copy_all_spec d l _)). by rewrite get_set, set_set.
Qed.

Lemma clear_insert d `{!Lens (K := N) d} (v : list byte) db (k : Txn unit) :
  tbind (db_clear d) (λ _, tbind (db_insert d 0 v) (λ _, k)) db = k (d_set _ d (tb_insert 0 v tb_empty).1 db).
Proof.
  erewrite tstep by reflexivity. rewrite (tstep _ _ _ _ _ (db_insert_eq d 0 v _)). by rewrite get_set, set_set.
Qed.

Lemma snapshot_core_spec h x d : h < U64 → implements (snapshot_core h x) d (Ok (freeze h x d)).
Proof.
  intros Hh db Hd. unfold snapshot_core. erewrite tstep by reflexivity. cbv beta iota.
  rewrite clear_insert, clear_copy by apply _.
  erewrite tstep by reflexivity. rewrite copy_all_spec, get_set, set_set by apply _.
  eexists. split; [reflexivity|]. split; try solve [apply Hd|done]; cbn.
  - by rewrite view_insert, view_empty, insert_empty.
  - by rewrite extend_range, (rp_domains _ _ Hd).
  - by rewrite extend_range, (rp_tlds _ _ Hd).
  - by intros s [= <-].
Qed.

Lemma txn_implements_bind m (k : Txn unit) d r s :
  implements m d r → (∀ d', r = Ok d' → implements k d' s) → (∀ e, r = Err e → s = Err e) →
  implements (tbind m (λ _, k)) d s.
Proof.
  intros Hm Hk He db Hd. specialize (Hm db Hd). unfold tbind. destruct r as [d'|e].
  - destruct Hm as (db' & -> & Hd'). cbn. by apply (Hk d' eq_refl).
  - rewrite Hm, (He e eq_refl). done.
Qed.

Lemma frozen_spec h d :
  h < U64 →
  implements (when ((1 <? h) && ((h - 1) mod SNAPSHOT_INTERVAL =? 0))
    (tbind (tread (λ db, let? v := ok_or (db_get BLOCKS_BY_HEIGHT (h - 1) db) Corrupted in
       ok_or (to_arr 32 (take 32 v)) Corrupted)) (snapshot_core (h - 1)))) d (frozen h d).
Proof.
  intros Hh db Hd. unfold frozen. fold (snapshot_due h). destruct (snapshot_due h); cbn [when]; [|by exists db].
  unfold tbind, tread. cbv beta. rewrite (rp_block_row _ _ _ Hd).
  destruct (k_blocks d !! (h - 1)) as [b|]; cbn [fmap option_fmap option_map ok_or rbind]; [|done].
  unfold indexed_block. rewrite take_app_length', to_arr_arr by (by rewrite arr_length). cbn [ok_or rbind].
  apply (snapshot_core_spec (h - 1) b.1 d); [lia|done].
Qed.

Lemma frozen_frame h d d' :
  frozen h d = Ok d' → k_blocks d' = k_blocks d ∧ k_domains d' = k_domains d ∧ k_tlds d' = k_tlds d.
Proof.
  unfold frozen. destruct (snapshot_due h); [|by intros [= <-]].
  destruct (k_blocks d !! (h - 1)); [|done]. by intros [= <-].
Qed.

Lemma append_core_spec h x bytes delta d :
  h < U64 → write_ok (WAppend h x bytes delta) d →
  implements (append_core h x bytes delta) d
    (let? d := frozen h d in
     match k_blocks d !! h with
     | Some b => if bool_decide (b = (x, bytes)) then Ok d else Err Conflict
     | None => Ok (k_with_tip (h, x) (delta_applied delta (k_with_block h x bytes d)))
     end).
Proof.
  intros Hh Hok. unfold append_core. eapply txn_implements_bind; [by apply frozen_spec| |intros e E; by rewrite E].
  intros d' E. rewrite E. cbn [rbind]. apply append_deltas_spec; [done|].
  destruct (frozen_frame _ _ _ E) as (_ & E1 & E2). cbn [write_ok]. by rewrite E1, E2.
Qed.

Lemma append_spec h x bytes delta d db :
  represents db d → write_ok (WAppend h x bytes delta) d →
  simulates (append_block_with_state h x bytes delta db) db (disk_append h x bytes delta d).
Proof.
  intros Hd Hok. unfold append_block_with_state, disk_append. rewrite (rp_tip_row _ _ Hd).
  destruct (k_tip d) as [th tx] eqn:Et. cbn [fst snd].
  destruct ((h =? th) && arr_eqb x tx); [right; by exists db|].
  unfold checked_add64. destruct (N.leb_spec (th + 1) U64_MAX) as [Hl|Hl]; cbn [ok_or rbind]; [|apply simulates_Err].
  destruct (N.eqb_spec h (th + 1)) as [->|Hne]; cbn [negb]; [|apply simulates_Err].
  apply simulates_transact with d; [done|]. apply append_core_spec; [|done]. unfold U64_MAX in *. lia.
Qed.

(** ** The other writes *)

Lemma insert_domain_spec id st d :
  count (k_domains d) + 1 < U64 →
  implements (insert_counted DOMAINS META_DOMAIN_COUNT (arr_list id) (DomainStateBytes_as_encoded st)) d
    (Ok (k_with_domains (<[id := st]> (k_domains d)) d)).
Proof.
  intros Hc db Hd. unfold insert_counted. erewrite tstep by apply db_insert_eq. cbn [d_get d_set DOMAINS].
  rewrite insert_previous, (rp_domains _ _ Hd), rows_lookup.
  set (t := (tb_insert _ _ _).1).
  assert (tb_view t = rows DomainStateBytes_as_encoded (<[id := st]> (k_domains d))) as Ht.
  { unfold t. by rewrite view_insert, (rp_domains _ _ Hd), rows_insert. }
  destruct (k_domains d !! id) as [old|] eqn:E; cbn [fmap option_fmap option_map].
  - eexists. split; [reflexivity|]. pose proof (count_insert (k_domains d) id st) as Hn.
    rewrite E, bool_decide_true, N.add_0_r in Hn by done. split; try solve [apply Hd|done]; cbn; rewrite Hn; apply Hd.
  - destruct (add_to_counter_spec META_DOMAIN_COUNT (count (k_domains d)) 1 (d_set _ DOMAINS t db)) as (tm & E' & Hm);
      [apply (rp_domain_counter _ _ Hd)|done|].
    eexists. split; [exact E'|]. pose proof (count_insert (k_domains d) id st) as Hn.
    rewrite E, bool_decide_false in Hn by (by apply eq_None_not_Some).
    split; try solve [apply Hd|done]; cbn; rewrite Hn; [|done].
    intros key. rewrite (Hm key). cbn. rewrite (rp_meta _ _ Hd). apply put_domain_count.
Qed.

Lemma insert_tld_spec id st d :
  count (k_tlds d) + 1 < U64 →
  implements (insert_counted TLDS META_TLD_COUNT (arr_list id) (TldStateBytes_as_encoded st)) d
    (Ok (k_with_tlds (<[id := st]> (k_tlds d)) d)).
Proof.
  intros Hc db Hd. unfold insert_counted. erewrite tstep by apply db_insert_eq. cbn [d_get d_set TLDS].
  rewrite insert_previous, (rp_tlds _ _ Hd), rows_lookup.
  set (t := (tb_insert _ _ _).1).
  assert (tb_view t = rows TldStateBytes_as_encoded (<[id := st]> (k_tlds d))) as Ht.
  { unfold t. by rewrite view_insert, (rp_tlds _ _ Hd), rows_insert. }
  destruct (k_tlds d !! id) as [old|] eqn:E; cbn [fmap option_fmap option_map].
  - eexists. split; [reflexivity|]. pose proof (count_insert (k_tlds d) id st) as Hn.
    rewrite E, bool_decide_true, N.add_0_r in Hn by done. split; try solve [apply Hd|done]; cbn; rewrite Hn; apply Hd.
  - destruct (add_to_counter_spec META_TLD_COUNT (count (k_tlds d)) 1 (d_set _ TLDS t db)) as (tm & E' & Hm);
      [apply (rp_tld_counter _ _ Hd)|done|].
    eexists. split; [exact E'|]. pose proof (count_insert (k_tlds d) id st) as Hn.
    rewrite E, bool_decide_false in Hn by (by apply eq_None_not_Some).
    split; try solve [apply Hd|done]; cbn; rewrite Hn; [|done].
    intros key. rewrite (Hm key). cbn. rewrite (rp_meta _ _ Hd). apply put_tld_count.
Qed.

(** The index changes and nothing else. *)
Lemma reindexes_implements m ix d :
  reindexes m (k_index d) ix → implements m d (Ok (k_with_names ix d)).
Proof.
  intros Hm db Hd. destruct (Hm db) as (t1 & t2 & E & V1 & V2 & V3); [split_and!; apply Hd|].
  eexists. split; [exact E|]. split; try solve [apply Hd|done].
Qed.

Lemma implements_then m (k : Txn unit) d d' s :
  implements m d (Ok d') → implements k d' s → implements (tbind m (λ _, k)) d s.
Proof. intros Hm Hk. eapply txn_implements_bind; [exact Hm|by intros ? [= <-]|done]. Qed.

Lemma bind_one is_tld name id ix :
  name_ok name → reindexes (apply_name_deltas [mkNameBinding is_tld name id] []) ix (bound (mkNameBinding is_tld name id) ix).
Proof. intros Hn. apply (apply_name_deltas_spec [_] []). by constructor. Qed.

Lemma remove_domain_spec id d :
  implements (tbind (db_remove DOMAINS (arr_list id)) (λ removed,
     tbind match removed with Some _ => sub_from_counter META_DOMAIN_COUNT 1 | None => tret tt end
       (λ _, remove_name_entry id))) d
    (Ok (k_with_names (unbound id (k_index d)) (k_with_domains (delete id (k_domains d)) d))).
Proof.
  intros db Hd. erewrite tstep by apply db_remove_eq. cbn [d_get d_set DOMAINS].
  rewrite remove_previous, (rp_domains _ _ Hd), rows_lookup. set (t := (tb_remove _ _).1).
  assert (tb_view t = rows DomainStateBytes_as_encoded (delete id (k_domains d))) as Ht.
  { unfold t. by rewrite view_remove, (rp_domains _ _ Hd), rows_delete. }
  pose proof (count_delete (k_domains d) id) as Hn. pose proof (rp_domains_64 _ _ Hd).
  assert (∃ tm, (match DomainStateBytes_as_encoded <$> k_domains d !! id with
      | Some _ => sub_from_counter META_DOMAIN_COUNT 1 | None => tret tt end) (d_set _ DOMAINS t db) =
      Ok (d_set _ META tm (d_set _ DOMAINS t db), tt) ∧
      meta_put META_DOMAIN_COUNT (be_bytes 8 (count (delete id (k_domains d)))) (t_meta db) tm) as (tm & E & Hm).
  { destruct (k_domains d !! id) as [old|] eqn:Eo; cbn [fmap option_fmap option_map].
    - rewrite bool_decide_true in Hn by done. 
      apply (sub_from_counter_spec META_DOMAIN_COUNT _ 1 (d_set _ DOMAINS t db)); rewrite Hn; [|done].
      exact (rp_domain_counter _ _ Hd).
    - rewrite bool_decide_false, N.add_0_r in Hn by (by apply eq_None_not_Some). exists (t_meta db).
      split; [by destruct db|]. intros k. rewrite Hn. case_decide; [|done]. subst. apply (rp_domain_counter _ _ Hd). }
  rewrite (tstep _ _ _ _ _ E).
  apply (reindexes_implements (remove_name_entry id) _ (k_with_domains (delete id (k_domains d)) d)); [apply remove_name_spec|].
  assert (count (delete id (k_domains d)) < U64) as Hlt by (destruct (bool_decide _); lia).
  split; try solve [apply Hd|done]; cbn.
  intros key. rewrite (Hm key), (rp_meta _ _ Hd). apply put_domain_count.
Qed.

Lemma count_inserts_new {A} (l : list (hash * A)) m :
  NoDup l.*1 → (∀ id, id ∈ l.*1 → m !! id = None) → count (inserts l m) = count m + N.of_nat (length l).
Proof.
  revert m. induction l as [|[id a] l IH]; intros m Hnd Hm; cbn [inserts fold_left length]; [lia|].
  cbn in Hnd. apply NoDup_cons in Hnd as [Hni Hnd]. unfold inserts in IH. rewrite IH; [|done|].
  - cbn [fst snd]. rewrite count_insert, bool_decide_false; [lia|]. rewrite Hm by left. by apply is_Some_None.
  - intros k Hk. cbn [fst]. rewrite lookup_insert_ne; [|by intros ->]. apply Hm. by right.
Qed.

Lemma import_spec ds ts m d db :
  represents db d → write_ok (WImport ds ts m) d →
  simulates (write_verified_snapshot ds ts m db) db (disk_import ds ts m d).
Proof.
  intros Hd (ED & ET & Hnd & Hnt & Hds & Hts & Hm). unfold write_verified_snapshot, disk_import.
  rewrite (rp_tip_row _ _ Hd). destruct (k_tip d) as [th tx] eqn:Et. cbn [fst].
  destruct (negb (th =? 0)); [apply simulates_Err|]. apply simulates_transact with d; [done|]. clear db Hd.
  intros db Hd.
  rewrite (tstep _ _ _ _ _ (copy_all_spec DOMAINS _ _)), (tstep _ _ _ _ _ (copy_all_spec TLDS _ _)).
  rewrite clear_insert, clear_copy, clear_copy by apply _.
  do 2 erewrite tstep by apply put_meta_spec.
  edestruct (write_tip_spec (mk_height m) (mk_tip_hash m)) as (tm & E & Hm1). rewrite (tstep _ _ _ _ _ E). clear E.
  rewrite put_meta_spec. eexists. split; [reflexivity|].
  assert (count (inserts ds (k_domains d)) = N.of_nat (length ds)) as CD.
  { rewrite count_inserts_new, ED, count_empty; [lia|done|]. intros. rewrite ED. apply lookup_empty. }
  assert (count (inserts ts (k_tlds d)) = N.of_nat (length ts)) as CT.
  { rewrite count_inserts_new, ET, count_empty; [lia|done|]. intros. rewrite ET. apply lookup_empty. }
  split; try solve [apply Hd|done]; cbn; rewrite ?CD, ?CT; try done.
  - apply (extend_rows DomainStateBytes_as_encoded ds). apply Hd.
  - apply (extend_rows TldStateBytes_as_encoded ts). apply Hd.
  - intros key. rewrite (insert_meta_put _ _ _ key), Hm1. cbn.
    rewrite (insert_meta_put _ _ _ key), (insert_meta_put _ _ _ key), (rp_meta _ _ Hd).
    by rewrite put_domain_count, put_tld_count, put_tip, put_marker.
  - by rewrite view_insert, view_empty, insert_empty.
  - apply (extend_rows DomainStateBytes_as_encoded ds ∅). by rewrite view_empty, rows_empty.
  - apply (extend_rows TldStateBytes_as_encoded ts ∅). by rewrite view_empty, rows_empty.
  - by intros ? [= <-].
  - by intros ? [= <-].
Qed.

Lemma Marker_roundtrip m : mk_height m < U64 → Marker_decode (Marker_encode m) = Ok m.
Proof.
  intros Hm. unfold Marker_decode, Marker_encode. rewrite !length_app, length_be_bytes, !arr_length.
  change (negb _) with false. cbv iota. rewrite slice_head by apply length_be_bytes.
  rewrite (slice_skip 8 40), (slice_skip 40 72) by (rewrite length_be_bytes; lia). rewrite length_be_bytes. cbn [Nat.sub].
  rewrite slice_head by apply arr_length. rewrite (slice_skip 32 64) by (by rewrite arr_length). rewrite arr_length.
  cbn [Nat.sub]. rewrite <- (app_nil_r (arr_list (mk_manifest_hash m))), slice_head by apply arr_length.
  rewrite !arr_of_list, be_val_be_bytes_64 by done. by destruct m.
Qed.

Lemma rp_marker_row db d : represents db d → verified_snapshot_marker db = Ok (k_marker d).
Proof.
  intros Hd. unfold verified_snapshot_marker, meta_get, db_get. cbn [d_get META]. rewrite view_get, (rp_meta _ _ Hd).
  change (meta_rows _ _ _ (k_marker d) _ META_VERIFIED_SNAPSHOT) with (Marker_encode <$> k_marker d).
  destruct (k_marker d) as [m|] eqn:E; cbn [fmap option_fmap option_map]; [|done].
  by rewrite Marker_roundtrip by (by apply (rp_marker_64 _ _ Hd)).
Qed.

Lemma anchor_spec h x bytes d db :
  represents db d → simulates (append_bootstrap_anchor h x bytes db) db (disk_anchor h x bytes d).
Proof.
  intros Hd. unfold append_bootstrap_anchor, disk_anchor. rewrite (rp_marker_row _ _ Hd). cbn [rbind].
  destruct (k_marker d) as [m|] eqn:Em; cbn [ok_or rbind]; [|apply simulates_Err].
  destruct (negb (h =? mk_height m) || negb (arr_eqb x (mk_tip_hash m))) eqn:Eh; [apply simulates_Err|].
  rewrite (rp_tip_row _ _ Hd). destruct (k_tip d) as [th tx] eqn:Et. cbn [fst].
  destruct (negb (th =? mk_height m)); [apply simulates_Err|].
  apply simulates_transact with d; [done|]. clear db Hd. intros db Hd.
  rewrite (tstep _ _ db db ((λ b, indexed_block h b.1 b.2) <$> k_blocks d !! h))
    by (unfold tread; by rewrite (rp_block_row _ _ _ Hd)).
  destruct (k_blocks d !! h) as [b|] eqn:Eb; cbn [fmap option_fmap option_map].
  { rewrite (bool_decide_ext (indexed_block h b.1 b.2 = indexed_block h x bytes) (b = (x, bytes)))
      by (split; [apply (indexed_block_inj h b (x, bytes))|by intros ->]).
    case_bool_decide; [by exists db|done]. }
  do 2 erewrite tstep by apply db_insert_eq. eexists. split; [reflexivity|]. split; try solve [apply Hd|done]; cbn.
  - intros h'. rewrite view_insert, !lookup_insert. case_decide; [by subst|]. apply (rp_blocks _ _ Hd).
  - by rewrite view_insert, (rp_by_hash _ _ Hd), rows_insert.
Qed.

Lemma store_write_simulates w d db :
  represents db d → write_ok w d → simulates (store_write w db) db (disk_write w d).
Proof.
  intros Hd Hok. destruct w; cbn [store_write disk_write] in *.
  - by apply append_spec.
  - destruct Hok as [Hc Hn]. destruct name as [n|]; apply simulates_transact with d; try done.
    + eapply implements_then; [by apply insert_domain_spec|].
      apply reindexes_implements, bind_one. by apply Hn.
    + by apply insert_domain_spec.
  - destruct Hok as [Hc Hn]. destruct name as [n|]; apply simulates_transact with d; try done.
    + eapply implements_then; [by apply insert_tld_spec|].
      apply reindexes_implements, bind_one. by apply Hn.
    + by apply insert_tld_spec.
  - apply simulates_transact with d; [done|]. apply remove_domain_spec.
  - unfold put_dht_cache. destruct (MAX_DHT_CACHE_ENTRY <? blen record); [apply simulates_Err|].
    apply simulates_transact with d; [done|]. clear db Hd. intros db Hd. erewrite tstep by apply db_insert_eq.
    eexists. split; [reflexivity|]. split; try solve [apply Hd|done]; cbn.
    by rewrite view_insert, (rp_dht _ _ Hd), rows_insert.
  - unfold meta_set. destruct (ensure_not_reserved key) as [[]|e] eqn:Ek; cbn [rbind]; [|apply simulates_Err].
    apply simulates_transact with d; [done|]. clear db Hd. intros db Hd. rewrite put_meta_spec.
    eexists. split; [reflexivity|]. split; try solve [apply Hd|done]; cbn.
    intros k. rewrite (insert_meta_put _ _ _ k), (rp_meta _ _ Hd). by apply put_extra.
  - by apply import_spec.
  - by apply anchor_spec.
Qed.
End proofs.
