(* ===== verification/StorePaging.v ===== *)
(** * Paging through a table

    One page of a table is the next entries in the order of their
    identifiers; page after page, a reader sees every entry once, in
    order, and stops. *)

From S2P Require Import Prelude Bytes Crypto Commitment Smt Names Icann Codec Checkpoint Pow Tx Wire State StateSpec.
From S2P Require Import Blocks Chain StateBytes Redb Store StoreSpec.

(** ** The loop of the loaders *)

Fixpoint rfold {E A B} (visit : B → A → result E B) (l : list A) (acc : B) : result E B :=
  match l with
  | [] => Ok acc
  | a :: l => let? acc := visit acc a in rfold visit l acc
  end.

Lemma rfold_app {E A B} (visit : B → A → result E B) l l' acc :
  rfold visit (l ++ l') acc = let? acc := rfold visit l acc in rfold visit l' acc.
Proof. revert acc. induction l as [|a l IH]; intros acc; [done|]. cbn. destruct (visit acc a); [apply IH|done]. Qed.

(** [scone-storage/src/integration.rs:520-536 load_from_full_state]: the
    [loop] over the pages of a table, [None] when the fuel is not enough;
    [visit] is the body of the inner loop.  The other three paging loops
    of the loaders have the same form. *)
Fixpoint for_pages {A B} (p fuel : nat) (page_at : option hash → result StorageError (list (hash * A) * option hash))
    (visit : B → hash * A → result StorageError B) (cursor : option hash) (acc : B)
    : option (result StorageError B) :=
  match fuel with
  | O => None
  | S fuel =>
      match page_at cursor with
      | Err e => Some (Err e)
      | Ok (pg, next) =>
          match rfold visit pg acc with
          | Err e => Some (Err e)
          | Ok acc => if (length pg <? p)%nat then Some (Ok acc) else for_pages p fuel page_at visit next acc
          end
      end
  end.

(** What every round keeps. *)
Lemma rfold_invariant {E A B} (P : B → Prop) (visit : B → A → result E B) l acc acc' :
  (∀ b a b', P b → visit b a = Ok b' → P b') → P acc → rfold visit l acc = Ok acc' → P acc'.
Proof.
  intros Hv. revert acc. induction l as [|a l IH]; intros acc Hp; cbn [rfold]; [by intros [= <-]|].
  destruct (visit acc a) as [b|] eqn:Ev; [|done]. cbn [rbind]. eauto.
Qed.

Lemma for_pages_invariant {A B} (P : B → Prop) p fuel page_at (visit : B → hash * A → result StorageError B) cursor acc acc' :
  (∀ b a b', P b → visit b a = Ok b' → P b') → P acc → for_pages p fuel page_at visit cursor acc = Some (Ok acc') → P acc'.
Proof.
  intros Hv. revert cursor acc. induction fuel as [|fuel IH]; intros cursor acc Hp; cbn [for_pages]; [done|].
  destruct (page_at cursor) as [[pg next]|]; [|done]. destruct (rfold visit pg acc) as [b|] eqn:E; [|done].
  apply (rfold_invariant P) in E; [|done|done]. destruct (_ <? p)%nat; [by intros [= <-]|by apply IH].
Qed.

(** ** The entries of a map, in order *)

Definition before {A} (a b : hash * A) : Prop := bytes_lt (arr_list a.1) (arr_list b.1).
Definition not_after {A} (a b : hash * A) : Prop := arr_le a.1 b.1.
#[global] Instance not_after_dec {A} : RelDecision (@not_after A).
Proof. intros a b. unfold not_after. apply _. Defined.

Definition in_order {A} (m : gmap hash A) : list (hash * A) := merge_sort not_after (map_to_list m).

Lemma in_order_perm {A} (m : gmap hash A) : in_order m ≡ₚ map_to_list m.
Proof. apply merge_sort_Permutation. Qed.

Section sorted.
Context {A : Type} (key : A → list byte).
Definition key_lt (a b : A) : Prop := bytes_lt (key a) (key b).

Lemma key_lt_sorted l : StronglySorted bytes_lt (key <$> l) ↔ StronglySorted key_lt l.
Proof.
  induction l as [|a l IH]; [split; constructor|]. rewrite fmap_cons, !StronglySorted_cons, IH, Forall_fmap. done.
Qed.

(** Strictly sorted lists with the same elements are equal. *)
Lemma key_lt_unique l l' : StronglySorted key_lt l → StronglySorted key_lt l' → l ≡ₚ l' → l = l'.
Proof.
  apply StronglySorted_unique_strong. intros a b _ _ Hab Hba. by destruct (bytes_lt_asym _ _ Hab).
Qed.

Lemma key_lt_filter (P : A → Prop) `{∀ a, Decision (P a)} l :
  StronglySorted key_lt l → StronglySorted key_lt (filter P l).
Proof.
  induction 1 as [|a l Hs IH Ha]; [constructor|]. rewrite filter_cons. case_decide; [|done].
  constructor; [done|]. rewrite Forall_forall in Ha |- *. intros b [_ Hb]%list_elem_of_filter. by apply Ha.
Qed.

Lemma key_lt_merge (le : relation A) `{!RelDecision le, !Transitive le, !Total le} l :
  (∀ a b, le a b → bytes_le (key a) (key b)) → NoDup (key <$> l) → StronglySorted key_lt (merge_sort le l).
Proof.
  intros Hle Hn. assert (NoDup (key <$> merge_sort le l)) as Hn' by by rewrite merge_sort_Permutation.
  pose proof (StronglySorted_merge_sort le l) as Hs. induction Hs as [|a l' Hs IH Ha]; [constructor|].
  cbn in Hn'. apply NoDup_cons in Hn' as [Hni Hn']. constructor; [auto|].
  rewrite Forall_forall in Ha |- *. intros b Hb.
  destruct (proj1 (bytes_le_lt _ _) (Hle _ _ (Ha b Hb))) as [E|?]; [|done].
  exfalso. apply Hni. rewrite E. by apply list_elem_of_fmap_2.
Qed.
End sorted.

Definition id_key {A} (e : hash * A) : list byte := arr_list e.1.

#[global] Instance not_after_trans {A} : Transitive (@not_after A).
Proof. intros a b c. unfold not_after. apply transitivity. Qed.
#[global] Instance not_after_total {A} : Total (@not_after A).
Proof. intros a b. unfold not_after. apply total, _. Qed.

Lemma in_order_sorted {A} (m : gmap hash A) : StronglySorted (key_lt id_key) (in_order m).
Proof.
  apply key_lt_merge; [apply _..|done|].
  assert (id_key <$> map_to_list m = arr_list <$> (map_to_list m).*1) as -> by (by rewrite <- list_fmap_compose).
  apply NoDup_fmap_2; [apply _|]. apply NoDup_fst_map_to_list.
Qed.

Section paging.
Context `{RedbLaws}.
#[local] Existing Instances laws_heights laws_bytes.
Context {A : Type} (f : A → list byte) (g : A → A) (decode : list byte → list byte → result StorageError (hash * A)).
Context (decode_row : ∀ (id : hash) a, decode (arr_list id) (f a) = Ok (id, g a)).
Implicit Types (m : gmap hash A) (t : tb (list byte)).

Definition row (e : hash * A) : list byte * list byte := (arr_list e.1, f e.2).
(** The entry as it is read back. *)
Definition seen (e : hash * A) : hash * A := (e.1, g e.2).

(** The entries from a cursor on. *)
Definition later (after : option hash) (e : hash * A) : Prop :=
  match after with None => True | Some a => bytes_lt (arr_list a) (arr_list e.1) end.
#[local] Instance later_dec after e : Decision (later after e).
Proof. destruct after; unfold later; apply _. Defined.
Definition rest (after : option hash) m : list (hash * A) := filter (later after) (in_order m).

Lemma range_rows m t start :
  tb_view t = rows f m →
  tb_range start t = row <$> filter (λ e, from_bound start (row e)) (in_order m).
Proof.
  intros Hv. apply (key_lt_unique fst).
  - apply key_lt_sorted, range_sorted.
  - apply key_lt_sorted. rewrite <- list_fmap_compose. apply (key_lt_sorted id_key). apply key_lt_filter, in_order_sorted.
  - rewrite range_view, Hv, rows_to_list. rewrite (in_order_perm m).
    generalize (map_to_list m). intros l. induction l as [|e l IH]; [done|].
    rewrite fmap_cons. destruct (decide (from_bound start (row e))) as [Hb|Hb].
    + rewrite !filter_cons_True by exact Hb. cbn. by f_equiv.
    + by rewrite !filter_cons_False by exact Hb.
Qed.

(** The loop reads the entries that are not the cursor's, up to the
    bound. *)
Lemma page_loop_spec after (max : nat) (l out : list (hash * A)) cursor :
  (length out < max)%nat →
  page_loop decode after (N.of_nat max) (row <$> l) out cursor =
    let l' := take (max - length out) (filter (λ e, Some e.1 ≠ after) l) in
    Ok (out ++ (seen <$> l'), from_option (λ e, Some e.1) cursor (last l')).
Proof.
  revert out cursor. induction l as [|[id a] l IH]; intros out cursor Hm; cbn [fmap list_fmap page_loop].
  { rewrite filter_nil, take_nil. cbn. by rewrite app_nil_r. }
  unfold row at 1. cbn [fst snd].
  destruct (decide (Some id = after)) as [<-|Hne].
  { rewrite bool_decide_true by done. rewrite filter_cons_False by (by intros []). by apply IH. }
  assert (match after with Some previous => bool_decide (arr_list id = arr_list previous) | None => false end = false) as ->.
  { destruct after as [p|]; [|done]. apply bool_decide_eq_false. by intros ->%arr_eq. }
  rewrite decode_row. cbn [rbind]. rewrite filter_cons_True by done. rewrite length_app. cbn [length].
  destruct (max - length out)%nat as [|k] eqn:Ek; [lia|]. rewrite firstn_cons.
  destruct (N.eqb_spec (N.of_nat (length out + 1)) (N.of_nat max)) as [E|E].
  - replace k with 0%nat by lia. by rewrite take_0.
  - rewrite IH by (rewrite length_app; cbn; lia). rewrite length_app. cbn [length].
    replace (max - (length out + 1))%nat with k by lia. cbn zeta. rewrite <- app_assoc. do 2 f_equal.
    rewrite last_cons. by destruct (last (take k _)).
Qed.

Lemma rest_None m : rest None m = in_order m.
Proof. unfold rest. apply filter_all, Forall_forall. done. Qed.

Lemma rest_sorted after m : StronglySorted (key_lt id_key) (rest after m).
Proof. apply key_lt_filter, in_order_sorted. Qed.

(** One page: the next entries, and the cursor on the last of them. *)
Lemma page_spec m t cap after n :
  tb_view t = rows f m → 0 < N.min n cap →
  page decode cap t after n =
    let l := take (N.to_nat (N.min n cap)) (rest after m) in
    Ok (seen <$> l, from_option (λ e, Some e.1) after (last l)).
Proof.
  intros Hv Hn. unfold page. destruct (N.eqb_spec (N.min n cap) 0) as [E|_]; [lia|].
  rewrite (range_rows m) by done. rewrite <- (N2Nat.id (N.min n cap)) at 1.
  rewrite page_loop_spec by (cbn [length]; lia). cbn [length]. rewrite Nat.sub_0_r, list_filter_filter.
  assert (filter (λ e, Some e.1 ≠ after ∧ from_bound (arr_list <$> after) (row e)) (in_order m) = rest after m) as ->; [|done].
  unfold rest. apply list_filter_iff. intros [id a]. destruct after as [c|]; cbn; [|naive_solver].
  rewrite bytes_le_lt. split.
  - intros [Hne [E%arr_eq|?]]; [by subst|done].
  - intros Hlt. split; [|by right]. intros [= ->]. by apply bytes_lt_irrefl in Hlt.
Qed.

Lemma rest_next after m k e :
  last (take k (rest after m)) = Some e → rest (Some e.1) m = drop k (rest after m).
Proof.
  intros El. pose proof (rest_sorted after m) as Hs. rewrite <- (take_drop k (rest after m)) in Hs.
  assert (rest (Some e.1) m = filter (later (Some e.1)) (rest after m)) as ->.
  { unfold rest. symmetry. apply list_filter_filter_l. intros x Hx.
    assert (e ∈ rest after m) as He by (rewrite <- (take_drop k (rest after m)); apply elem_of_app; left; by apply last_Some_elem_of).
    apply list_elem_of_filter in He as [He _]. destruct after as [c|]; [|done]. cbn in *. by transitivity (arr_list e.1). }
  rewrite <- (take_drop k (rest after m)) at 1. rewrite filter_app.
  apply StronglySorted_app in Hs as (Hlt & Hs & _).
  rewrite (filter_all _ (drop k _)), (filter_none _ (take k _)); [done| |].
  - apply Forall_forall. intros x Hx Hlate. apply last_Some in El as [l' El]. rewrite El in Hs, Hx.
    apply StronglySorted_app in Hs as (Hl & _ & _). apply elem_of_app in Hx as [Hx|Hx%list_elem_of_singleton].
    + apply (bytes_lt_asym _ _ Hlate). apply (Hl x e Hx). by left.
    + subst x. by apply bytes_lt_irrefl in Hlate.
  - apply Forall_forall. intros x Hx. apply (Hlt e x); [|done]. by apply last_Some_elem_of.
Qed.

(** ** Page after page *)

Lemma page_loop_total {B} after m t cap p (visit : B → hash * A → result StorageError B) fuel acc :
  tb_view t = rows f m → 0 < p ≤ cap → (length (rest after m) < fuel * N.to_nat p)%nat →
  for_pages (N.to_nat p) fuel (λ c, page decode cap t c p) visit after acc =
    Some (rfold visit (seen <$> rest after m) acc).
Proof.
  intros Hv Hp. revert after acc. induction fuel as [|fuel IH]; intros after acc Hf; [lia|].
  cbn [for_pages]. rewrite (page_spec m) by (done || lia). rewrite N.min_l by lia. cbn zeta iota beta.
  set (l := take (N.to_nat p) (rest after m)). rewrite length_fmap.
  rewrite <- (take_drop (N.to_nat p) (rest after m)) at 1. fold l. rewrite fmap_app, rfold_app.
  destruct (rfold visit (seen <$> l) acc) as [acc'|e]; [|done]. cbn [rbind].
  assert (length l = N.to_nat p `min` length (rest after m))%nat as Hl by apply length_take.
  destruct (Nat.ltb_spec (length l) (N.to_nat p)) as [Hs|Hs].
  - rewrite (drop_ge (rest after m)) by lia. done.
  - destruct (last l) as [e|] eqn:El; [|apply last_None in El; rewrite El in Hs; cbn in Hs; lia].
    cbn [from_option]. pose proof (rest_next after m (N.to_nat p) e El) as Hr. rewrite <- Hr. apply IH.
    rewrite Hr, length_drop. lia.
Qed.
End paging.
