(* ===== verification/StoreProps.v ===== *)
(** * Properties of the node store *)

From S2P Require Import Prelude Bytes Crypto Commitment Smt Names Icann Codec Checkpoint Pow Tx Wire State StateSpec.
From S2P Require Import Blocks Chain StateBytes Redb Store StoreSpec StorePaging StoreProofs.

Section props.
Context `{Crypto} `{RedbLaws} `{!Faults}.
#[local] Existing Instances laws_heights laws_bytes.
Implicit Types (db : Db) (d : Disk).

(** C6. The store implements its specification: on tables that hold a
    disk, every write — a block with its delta, one entry with or without
    its name, a removal, a cached record, a metadata value, an imported
    state, its anchor block — either is refused by the disk, which
    changes nothing, or has the outcome of the specification: the error,
    with nothing written, or success with tables that hold the new disk,
    counters, name index and frozen snapshot included. *)
Theorem store_refines_disk db d w :
  represents db d → write_ok w d →
  refused db (store_write w db) ∨
  match disk_write w d with
  | Ok d' => ∃ db', store_write w db = (db', Ok tt) ∧ represents db' d'
  | Err e => store_write w db = (db, Err e)
  end.
Proof. apply store_write_simulates. Qed.

(** ** Reads *)

Lemma block_at_height_spec h db d :
  represents db d → block_at_height h db = Ok (snd <$> k_blocks d !! h).
Proof.
  intros Hd. unfold block_at_height. rewrite (rp_block_row _ _ _ Hd).
  destruct (k_blocks d !! h) as [[x b]|]; cbn [fmap option_fmap option_map fst snd]; [|done].
  assert (length (indexed_block h x b) = 40 + length b)%nat as Hl.
  { unfold indexed_block. rewrite !length_app, arr_length, length_be_bytes. lia. }
  rewrite Hl. destruct (Nat.ltb_spec (40 + length b) BLOCK_INDEX_HEADER) as [Hlt|_]; [unfold BLOCK_INDEX_HEADER in Hlt; lia|].
  do 2 f_equal. unfold indexed_block. rewrite app_assoc. apply drop_app_length'.
  by rewrite length_app, arr_length, length_be_bytes.
Qed.

Lemma block_by_hash_spec x db d : represents db d → block_by_hash x db = k_by_hash d !! x.
Proof.
  intros Hd. unfold block_by_hash, db_get. cbn [d_get BLOCKS_BY_HASH].
  rewrite view_get, (rp_by_hash _ _ Hd), rows_lookup. by destruct (k_by_hash d !! x).
Qed.

Lemma domain_count_spec db d : represents db d → domain_count db = Ok (count (k_domains d)).
Proof.
  intros Hd. unfold domain_count, domain_count_inner. apply meta_u64_row; [|apply Hd]. apply (rp_domain_counter _ _ Hd).
Qed.
Lemma tld_count_spec db d : represents db d → tld_count db = Ok (count (k_tlds d)).
Proof.
  intros Hd. unfold tld_count, tld_count_inner. apply meta_u64_row; [|apply Hd]. apply (rp_tld_counter _ _ Hd).
Qed.

Lemma domain_state_spec id db d : represents db d → domain_state id db = Ok (reread <$> k_domains d !! id).
Proof.
  intros Hd. unfold domain_state, db_get. cbn [d_get DOMAINS]. rewrite view_get, (rp_domains _ _ Hd), rows_lookup.
  destruct (k_domains d !! id) as [st|]; cbn [fmap option_fmap option_map]; [|done]. by rewrite decode_domains_row.
Qed.

Lemma tld_state_spec id db d : represents db d → tld_state id db = Ok (k_tlds d !! id).
Proof.
  intros Hd. unfold tld_state, db_get. cbn [d_get TLDS]. rewrite view_get, (rp_tlds _ _ Hd), rows_lookup.
  destruct (k_tlds d !! id) as [st|]; cbn [fmap option_fmap option_map]; [|done]. by rewrite decode_tlds_row.
Qed.

Lemma snapshot_meta_spec db d :
  represents db d → snapshot_meta db = Ok ((λ s, mkSnapshotMeta s.1 s.2) <$> k_snapshot d).
Proof.
  intros Hd. unfold snapshot_meta, db_get. cbn [d_get SNAPSHOT_META]. rewrite view_get, (rp_snapshot _ _ Hd).
  destruct (k_snapshot d) as [[h x]|] eqn:E; [|by rewrite lookup_empty].
  rewrite lookup_singleton_eq. unfold snapshot_row. cbn [fst snd]. rewrite length_app, length_be_bytes, arr_length.
  change (negb _) with false. cbv iota. rewrite slice_head, drop_app_length' by (by rewrite length_be_bytes).
  rewrite arr_of_list, be_val_be_bytes_64 by (by apply (rp_snapshot_64 _ _ Hd (h, x))). done.
Qed.

(** ** Paging *)

(** The stored domains in the order of their identifiers, as they are
    read back. *)
Definition listed_domains (m : gmap DomainId DomainStateBytes) : list (DomainId * DomainStateBytes) :=
  seen reread <$> in_order m.

(** Reading the domains page after page — any page size up to the
    cap, the cursor of each page passed to the next, until a short page —
    visits every stored domain exactly once, in ascending order of
    identifiers, and stops: one round more than the number of full pages
    is enough. *)
Theorem pages_enumerate db d B p fuel (visit : B → DomainId * DomainStateBytes → result StorageError B) acc :
  represents db d → 0 < p ≤ MAX_DOMAIN_PAGE → (size (k_domains d) < fuel * N.to_nat p)%nat →
  for_pages (N.to_nat p) fuel (λ cursor, iterate_domains cursor p db) visit None acc =
    Some (rfold visit (listed_domains (k_domains d)) acc) ∧
  listed_domains (k_domains d) ≡ₚ (seen reread <$> map_to_list (k_domains d)) ∧
  StronglySorted bytes_lt (arr_list <$> (listed_domains (k_domains d)).*1).
Proof.
  intros Hd Hp Hf. split_and!.
  - unfold iterate_domains.
    rewrite (page_loop_total DomainStateBytes_as_encoded reread decode_domains_entry decode_domains_row None (k_domains d));
      [by rewrite rest_None|apply Hd|done|].
    rewrite rest_None, in_order_perm. by rewrite length_map_to_list.
  - unfold listed_domains. by rewrite in_order_perm.
  - apply (key_lt_sorted arr_list). unfold listed_domains. rewrite <- list_fmap_compose.
    pose proof (in_order_sorted (k_domains d)) as Hs. induction Hs as [|e l Hs IH He]; [constructor|].
    cbn. constructor; [exact IH|]. apply Forall_fmap. exact He.
Qed.

(** ** Histories *)

(** A new store. *)
Definition fresh_disk : Disk := mkDisk ∅ ∅ ∅ ∅ ∅ ∅ ∅ (0, genesis_hash_bytes) None ∅ None ∅ ∅.

Lemma open_fresh db : store_open empty_db = (db, Ok tt) → represents db fresh_disk.
Proof.
  unfold store_open, transact. destruct (begin_write empty_db); [done|].
  assert (db_get META META_FORMAT_VERSION empty_db = None) as ->.
  { unfold db_get. cbn [d_get META]. rewrite view_get. cbn. by rewrite view_empty, lookup_empty. }
  erewrite tstep by apply put_meta_spec.
  edestruct (write_tip_spec 0 genesis_hash_bytes) as (t & E & Ht). erewrite tstep by exact E. clear E.
  erewrite tstep by apply put_meta_spec. rewrite put_meta_spec. cbv beta iota.
  destruct (commit _); [done|]. intros [= <- _].
  split; cbn; rewrite ?view_empty, ?rows_empty; try done.
  intros key. rewrite !(insert_meta_put _ _ _ key), Ht. cbn. rewrite (insert_meta_put _ _ _ key), view_empty.
  unfold meta_rows. rewrite !lookup_empty. by repeat case_decide; subst.
Qed.

(** What the callers of the store guarantee of a write: the hash of a
    block identifies it, and an imported state sits above genesis. *)
Definition identifies (d : Disk) (x : hash) (bytes : list byte) : Prop :=
  ∀ h b, k_blocks d !! h = Some (x, b) → b = bytes.
Definition coherent (w : Write) (d : Disk) : Prop :=
  match w with
  | WAppend h x bytes _ | WAnchor h x bytes => identifies d x bytes
  | WImport _ _ m => mk_height m ≠ 0
  | _ => True
  end.

(** The stores a node can have: from a new file, any writes; the disk is
    what was written. *)
Inductive store_run : Db → Disk → Prop :=
| run_open db : store_open empty_db = (db, Ok tt) → store_run db fresh_disk
| run_write db d w db' d' :
    store_run db d → write_ok w d → coherent w d → store_write w db = (db', Ok tt) → disk_write w d = Ok d' →
    store_run db' d'
| run_failed db d w db' e :
    store_run db d → write_ok w d → store_write w db = (db', Err e) → store_run db' d.

Lemma run_represents db d : store_run db d → represents db d.
Proof.
  induction 1 as [db E|db d w db' d' Hr IH Hok Hc E Ed|db d w db' e Hr IH Hok E]; [by apply open_fresh| |];
    destruct (store_write_simulates w d db IH Hok) as [(e' & Er & _)|Hs]; rewrite ?Ed, ?E in *.
  - done.
  - destruct Hs as (db2 & [= ->] & ?). done.
  - by injection Er as -> ->.
  - destruct (disk_write w d) as [d'|e']; [by destruct Hs as (db2 & ? & _)|]. by injection Hs as -> ->.
Qed.

(** The height below which a store holds no block: genesis, or the block
    an imported state sits on (whose own block comes later). *)
Definition base (d : Disk) : N := match k_marker d with None => 0 | Some m => mk_height m end.

Record disk_ok (d : Disk) : Prop := {
  do_base : base d ≤ (k_tip d).1;
  do_marker m : k_marker d = Some m → mk_height m ≠ 0;
  do_above h : (k_tip d).1 < h → k_blocks d !! h = None;
  do_below h : h < base d ∨ h = 0 → k_blocks d !! h = None;
  do_window h : base d < h ≤ (k_tip d).1 → is_Some (k_blocks d !! h);
  do_tip b : k_blocks d !! (k_tip d).1 = Some b → b.1 = (k_tip d).2;
  do_by_hash h x b : k_blocks d !! h = Some (x, b) → k_by_hash d !! x = Some b;
  do_snapshot h x b : k_snapshot d = Some (h, x) → k_blocks d !! h = Some b → b.1 = x;
  do_snapshot_base h x : k_snapshot d = Some (h, x) → base d ≤ h ≤ (k_tip d).1 ∧ h ≠ 0;
  do_unmarked : k_marker d = None → (k_tip d).1 = 0 → k_snapshot d = None;
  do_bare m : k_marker d = Some m → (k_tip d).1 = mk_height m → (k_tip d).2 = mk_tip_hash m ∧
    k_snapshot d = Some (mk_height m, mk_tip_hash m) }.

Lemma fresh_disk_ok : disk_ok fresh_disk.
Proof. split; try done; cbn; intros; try lia; by rewrite ?lookup_empty in *. Qed.

(** Only the blocks, the tip, the marker and the snapshot matter. *)
Lemma disk_ok_frame d d' :
  k_blocks d' = k_blocks d → k_by_hash d' = k_by_hash d → k_tip d' = k_tip d → k_marker d' = k_marker d →
  k_snapshot d' = k_snapshot d → disk_ok d → disk_ok d'.
Proof.
  intros E1 E2 E3 E4 E5 [? ? ? ? ? ? ? ? ? ? ?]. assert (base d' = base d) as Eb by (unfold base; by rewrite E4).
  split; rewrite ?E1, ?E2, ?E3, ?E4, ?E5, ?Eb; assumption.
Qed.

Lemma appended_ok h x bytes delta d d' :
  disk_ok d → identifies d x bytes → disk_append h x bytes delta d = Ok d' → disk_ok d'.
Proof.
  intros Hok Hx. unfold disk_append. destruct (_ && _); [by intros [= <-]|].
  unfold checked_add64. destruct (N.leb_spec ((k_tip d).1 + 1) U64_MAX) as [Hl|_]; [|done]. cbn [ok_or rbind].
  destruct (N.eqb_spec h ((k_tip d).1 + 1)) as [Eh|_]; [|done]. cbn [negb].
  intros (d1 & Ef & E)%rbind_Ok. destruct (frozen_frame _ _ _ Ef) as (Eb & _ & _). rewrite Eb in E.
  rewrite (do_above _ Hok) in E by lia. injection E as <-. pose proof (do_base _ Hok) as Hbase.
  assert (disk_ok d1 ∧ k_marker d1 = k_marker d ∧ k_tip d1 = k_tip d ∧ k_by_hash d1 = k_by_hash d) as (Hok1 & Em & Et & Ey).
  { unfold frozen in Ef. destruct (snapshot_due h) eqn:Ed; [|by injection Ef as <-].
    destruct (k_blocks d !! (h - 1)) as [b|] eqn:Eh1; [|done]. injection Ef as <-. split; [|done].
    assert (1 < h) as Hh by (unfold snapshot_due in Ed; apply andb_true_iff in Ed as [Ed _]; by apply N.ltb_lt in Ed).
    destruct Hok as [A1 A2 A3 A4 A5 A6 A7 A8 A9 A10 A11].
    split; try assumption; cbn [freeze k_snapshot k_blocks k_tip k_marker].
    - intros h' x' b' [= <- <-] E'. congruence.
    - intros h' x' [= <- <-]. change (base (freeze _ _ d)) with (base d). lia.
    - intros Ek. specialize (A10 Ek). lia.
    - intros m Ek Em. destruct (A11 m Ek Em) as [E1 E2]. split; [done|]. rewrite E2 in A8.
      assert (h - 1 = mk_height m) as Eh2 by lia. rewrite Eh2 in *. do 2 f_equal. by apply (A8 _ _ b eq_refl). }
  destruct Hok1 as [A1 A2 A3 A4 A5 A6 A7 A8 A9 A10 A11]. rewrite Et in *.
  set (d2 := k_with_tip _ _). assert (base d2 = base d1) as E2 by done.
  assert (base d1 = base d) as E3 by (unfold base; by rewrite Em).
  split; rewrite ?E2; cbn [d2 k_with_tip delta_applied k_with_names k_with_tlds k_with_domains k_with_block k_blocks
    k_by_hash k_tip k_marker k_snapshot fst snd].
  - lia.
  - exact A2.
  - intros h' Hh'. rewrite lookup_insert_ne by lia. apply A3. lia.
  - intros h' Hh'. rewrite lookup_insert_ne by lia. by apply A4.
  - intros h' Hh'. rewrite lookup_insert. case_decide; [by eexists|]. apply A5. lia.
  - intros b. rewrite lookup_insert_eq. by intros [= <-].
  - intros h' x' b'. rewrite !lookup_insert. case_decide as E'; [intros [= -> ->]; by rewrite decide_True|].
    intros Ek. case_decide as E''; [subst x'|by eapply A7]. f_equal. symmetry. eapply Hx. by rewrite <- Eb.
  - intros h' x' b' Es. rewrite lookup_insert_ne; [by apply A8|]. destruct (A9 _ _ Es). lia.
  - intros h' x' Es. destruct (A9 _ _ Es). lia.
  - intros _ E'. lia.
  - intros m Ek E'. unfold base in A1. rewrite Ek in A1. lia.
Qed.

Lemma imported_ok ds ts m d d' : disk_ok d → mk_height m ≠ 0 → disk_import ds ts m d = Ok d' → disk_ok d'.
Proof.
  intros Hok Hm. unfold disk_import. destruct (N.eqb_spec (k_tip d).1 0) as [Et|_]; [|done].
  cbn [negb]. intros [= <-]. assert (∀ h, k_blocks d !! h = None) as Hb.
  { intros h. destruct (decide (h = 0)) as [->|]; [apply (do_below _ Hok); by right|apply (do_above _ Hok); lia]. }
  split; cbn; unfold base; cbn; intros; rewrite ?Hb in *; try done; try lia; try congruence; naive_solver lia.
Qed.

Lemma anchored_ok h x bytes d d' :
  disk_ok d → identifies d x bytes → disk_anchor h x bytes d = Ok d' → disk_ok d'.
Proof.
  intros Hok Hx. unfold disk_anchor. destruct (k_marker d) as [m|] eqn:Em; [|done]. cbn [ok_or rbind].
  destruct (N.eqb_spec h (mk_height m)) as [Eh|_]; [|done]. unfold arr_eqb. case_bool_decide as Exm; [|done].
  cbn [negb orb]. destruct (N.eqb_spec (k_tip d).1 (mk_height m)) as [Et|_]; [|done]. cbn [negb].
  destruct (k_blocks d !! h) as [b|] eqn:Eb; [case_bool_decide; [|done]; by intros [= <-]|]. intros [= <-].
  destruct (do_bare _ Hok m Em Et) as [B1 B2]. destruct Hok as [A1 A2 A3 A4 A5 A6 A7 A8 A9 A10 A11].
  assert (base d = mk_height m) as Hbase by (unfold base; by rewrite Em). rewrite Hbase in *.
  set (d2 := k_with_block h x bytes d). assert (base d2 = mk_height m) as E2 by done.
  pose proof (A2 m Em) as Hm.
  split; rewrite ?E2; cbn [d2 k_with_block k_blocks k_by_hash k_tip k_marker k_snapshot]; try assumption.
  - intros h' Hh'. rewrite lookup_insert_ne by lia. by apply A3.
  - intros h' Hh'. rewrite lookup_insert_ne by lia. by apply A4.
  - intros h' Hh'. lia.
  - intros b. rewrite Et, <- Eh, lookup_insert_eq. intros [= <-]. cbn. congruence.
  - intros h' x' b'. rewrite !lookup_insert. case_decide as E'; [intros [= -> ->]; by rewrite decide_True|].
    intros Ek. case_decide as E''; [subst x'|by eapply A7]. f_equal. symmetry. by eapply Hx.
  - intros h' x' b' Es. rewrite B2 in Es. injection Es as <- <-. rewrite lookup_insert, decide_True by done.
    intros [= <-]. by cbn.
Qed.

Lemma written_ok w d d' : disk_ok d → coherent w d → disk_write w d = Ok d' → disk_ok d'.
Proof.
  intros Hok Hc E. destruct w; cbn [disk_write coherent] in *.
  1: by eapply appended_ok.
  all: try by (injection E as <-; eapply disk_ok_frame; [..|exact Hok]).
  - destruct (_ <? _); [done|]. injection E as <-. by eapply disk_ok_frame; [..|exact Hok].
  - apply rbind_Ok in E as (? & _ & E). injection E as <-. by eapply disk_ok_frame; [..|exact Hok].
  - by eapply imported_ok.
  - by eapply anchored_ok.
Qed.

Lemma run_disk_ok db d : store_run db d → disk_ok d.
Proof. induction 1; [apply fresh_disk_ok|by eapply written_ok|done]. Qed.

(** Whatever a node writes, in any order and whichever transactions
    the disk refuses, from a new file on: the tip is the block appended
    last (or the imported one), the counters are the sizes of the tables,
    every height from the base — genesis, or the imported block — to the
    tip has its block, found by height and by hash, nothing is stored
    outside, and a frozen snapshot is anchored at a height of that window
    under the hash of its block. *)
Theorem store_history db d :
  store_run db d →
  store_tip db = Ok (k_tip d) ∧ base d ≤ (k_tip d).1 ∧
  domain_count db = Ok (count (k_domains d)) ∧ tld_count db = Ok (count (k_tlds d)) ∧
  (∀ h, base d < h ≤ (k_tip d).1 →
     ∃ x bytes, block_at_height h db = Ok (Some bytes) ∧ block_by_hash x db = Some bytes ∧
       (h = (k_tip d).1 → x = (k_tip d).2)) ∧
  (∀ h, h < base d ∨ h = 0 ∨ (k_tip d).1 < h → block_at_height h db = Ok None) ∧
  (∀ s, snapshot_meta db = Ok (Some s) →
     base d ≤ sm_height s ≤ (k_tip d).1 ∧
     ∀ bytes, block_at_height (sm_height s) db = Ok (Some bytes) → block_by_hash (sm_tip_hash s) db = Some bytes).
Proof.
  intros Hr. pose proof (run_represents _ _ Hr) as Hd. pose proof (run_disk_ok _ _ Hr) as Hok.
  split_and!; [by apply rp_tip_row|by apply do_base|by apply domain_count_spec|by apply tld_count_spec| | |].
  - intros h Hh. destruct (do_window _ Hok h Hh) as [[x b] Eb]. exists x, b.
    rewrite (block_at_height_spec _ _ _ Hd), (block_by_hash_spec _ _ _ Hd), Eb. split_and!; [done|by eapply do_by_hash|].
    intros ->. by apply (do_tip _ Hok) in Eb.
  - intros h Hh. rewrite (block_at_height_spec _ _ _ Hd).
    assert (k_blocks d !! h = None) as ->; [|done].
    destruct Hh as [Hh|[Hh|Hh]]; [apply (do_below _ Hok); by left|apply (do_below _ Hok); by right|by apply do_above].
  - intros s Es. rewrite (snapshot_meta_spec _ _ Hd) in Es. destruct (k_snapshot d) as [[h x]|] eqn:Ek; [|done].
    injection Es as <-. cbn [sm_height sm_tip_hash fst snd]. split; [by apply (do_snapshot_base _ Hok _ _ Ek)|].
    intros bytes. rewrite (block_at_height_spec _ _ _ Hd), (block_by_hash_spec _ _ _ Hd).
    destruct (k_blocks d !! h) as [[x' b]|] eqn:Eb; [|done]. intros [= <-]. eapply (do_by_hash _ Hok h).
    rewrite Eb. do 2 f_equal. by apply (do_snapshot _ Hok h x (x', b)).
Qed.
End props.
