(* ===== verification/Persist.v ===== *)
(** * Persisting and restarting the chain ([scone-storage]:
    [integration.rs])

    [store_block] writes an accepted block with the state entries it
    touched, read from the state of the chain; [load_chain] restarts the
    chain from the store, through the frozen snapshot when it can. *)

From S2P Require Import Prelude Bytes Crypto Commitment Smt Names Icann Codec Checkpoint Pow Tx Wire State StateSpec.
From S2P Require Import Blocks Chain StateBytes Redb Store StorePaging.

(** [scone-storage/src/integration.rs:40-40 DOMAIN_PAGE] *)
Definition DOMAIN_PAGE : N := 100.
(** [scone-storage/src/integration.rs:43-43 TLD_PAGE] *)
Definition TLD_PAGE : N := 100.

(** [filter_map(|id| seen.insert(id).then_some(id))]: the first
    occurrence of each identifier. *)
Fixpoint firsts (seen : gset hash) (l : list (option hash)) : list hash :=
  match l with
  | [] => []
  | None :: l => firsts seen l
  | Some id :: l => if bool_decide (id ∈ seen) then firsts seen l else id :: firsts ({[id]} ∪ seen) l
  end.

Definition touched_tld (tx : Transaction) : option TldId :=
  match tx with
  | TxRegisterTld r => Some (rt_tld_id r)
  | TxTransferTld t => Some (tt_tld_id t)
  | TxRevokeTld r => Some (rv_tld_id r)
  | TxSetTldOpen s => Some (so_tld_id s)
  | _ => None
  end.

(** [scone-storage/src/integration.rs:52-65 touched_tlds] *)
Definition touched_tlds (block : Block) : list TldId := firsts ∅ (map touched_tld (bk_transactions block)).

Definition touched_domain (tx : Transaction) : option DomainId :=
  match tx with
  | TxRegisterDomain r => Some (rd_domain_id r)
  | TxUpdateDomain u => Some (ud_domain_id u)
  | TxAssignDomain a => Some (ad_domain_id a)
  | TxRenewDomain r => Some (rn_domain_id r)
  | TxTransferDomain t => Some (td_domain_id t)
  | _ => None
  end.

(** [scone-storage/src/integration.rs:75-93 touched_domains] *)
Definition touched_domains (block : Block) : list DomainId := firsts ∅ (map touched_domain (bk_transactions block)).

(** [scone-storage/src/integration.rs:184-208 store_block_with_removals]: the
    names a transaction binds. *)
Definition tx_binding (tx : Transaction) : option NameBinding :=
  match tx with
  | TxRegisterDomain r => Some (mkNameBinding false (rd_name r) (rd_domain_id r))
  | TxAssignDomain a => Some (mkNameBinding false (ad_name a) (ad_domain_id a))
  | TxRegisterTld t => Some (mkNameBinding true (rt_name t) (rt_tld_id t))
  | _ => None
  end.

(** [iter().filter_map(f).collect()] *)
Definition filter_map {A B} (f : A → option B) (l : list A) : list B := omap f l.

Section persist.
Context `{Crypto} `{Redb} `{!Faults}.

(** [scone-storage/src/integration.rs:155-225 store_block_with_removals]:
    the delta of a block. *)
Definition block_delta (state : ChainState) (block : Block) (removed_domains : list DomainId) : StateDelta :=
  let tld_removals := filter (λ id, cs_tld state id = None) (touched_tlds block) in
  mkStateDelta
    (filter_map (λ id, (λ st, (id, DomainStateBytes_from st)) <$> cs_domain state id) (touched_domains block))
    (filter_map (λ id, (λ st, (id, TldStateBytes_from st)) <$> cs_tld state id) (touched_tlds block))
    removed_domains
    tld_removals
    (filter_map tx_binding (bk_transactions block))
    (map (λ id, (false, id)) removed_domains ++ map (λ id, (true, id)) tld_removals).

(** [scone-storage/src/integration.rs:148-227 store_block_with_removals] *)
Definition store_block_with_removals (chain : Blockchain) (block : Block) (hash : BlockHash)
    (removed_domains : list DomainId) (store : Db) : Db * result StorageError unit :=
  match enc Block_c block with
  | Err _ => (store, Err Corrupted)
  | Ok bytes =>
      append_block_with_state (bk_height block) hash bytes (block_delta (bc_state chain) block removed_domains) store
  end.

(** [scone-storage/src/integration.rs:131-138 store_block] *)
Definition store_block (chain : Blockchain) (block : Block) (hash : BlockHash) (store : Db)
    : Db * result StorageError unit :=
  store_block_with_removals chain block hash [] store.

(** [scone-storage/src/integration.rs:107-115 gc_of_block] *)
Definition gc_of_block (store : Db) (block : Block) : list DomainId := [].

(** ** Restart *)

(** [scone-storage/src/integration.rs:328-333 read_verified_marker] *)
Definition read_verified_marker (store : Db) : result StorageError (option VerifiedSnapshotMarker) :=
  match meta_get META_VERIFIED_SNAPSHOT store with
  | None => Ok None
  | Some bytes => rmap Some (Marker_decode bytes)
  end.

(** A stored block that announces the height it is stored at. *)
Definition block_announcing (height : N) (store : Db) : result StorageError Block :=
  let? block := stored_block height store in
  if? negb (bk_height block =? height) return Corrupted;
  Ok block.

(** [scone-storage/src/integration.rs:378-398 rebuild_replay_index_from_store]:
    the entries of the window. *)
Fixpoint replay_entries (hs : list N) (store : Db) : result StorageError (list (TxId * N)) :=
  match hs with
  | [] => Ok []
  | height :: hs =>
      let? block := block_announcing height store in
      let? entries := replay_entries hs store in
      Ok (filter_map (λ tx, (λ id, (id, height)) <$> to_option (transaction_id tx)) (bk_transactions block) ++ entries)
  end.

(** [scone-storage/src/integration.rs:363-401 rebuild_replay_index_from_store] *)
Definition rebuild_replay_index_from_store (store : Db) (chain : Blockchain) (tip_height : N)
    : result StorageError Blockchain :=
  let start := N.max (tip_height - (REPLAY_WINDOW_BLOCKS - 1)) 1 in
  let? marker := read_verified_marker store in
  let start :=
    match marker with
    | Some m => if start <? mk_height m then mk_height m else start
    | None => start
    end in
  let? entries := replay_entries (heights start tip_height) store in
  Ok (rebuild_replay_index entries chain).

(** [scone-storage/src/integration.rs:525-530 load_from_full_state]: one
    stored domain is restored. *)
Definition visit_domain (state : ChainState) (e : DomainId * DomainStateBytes) : result StorageError ChainState :=
  let? domain_state := DomainStateBytes_decode (DomainStateBytes_as_encoded e.2) in
  match restore_domain e.1 domain_state state with
  | (state, Ok _) => Ok state
  | (_, Err _) => Err Corrupted
  end.

(** [scone-storage/src/integration.rs:544-549 load_from_full_state]: one
    stored TLD is restored. *)
Definition visit_tld (state : ChainState) (e : TldId * TldStateBytes) : result StorageError ChainState :=
  let? tld_state := TldStateBytes_decode (TldStateBytes_as_encoded e.2) in
  match restore_tld e.1 tld_state state with
  | (state, Ok _) => Ok state
  | (_, Err _) => Err Corrupted
  end.

(** [restore] panics when the block does not announce the height; its
    callers checked it. *)
Definition restored (tip_height : N) (tip : BlockHash) (block : Block) (state : ChainState)
    : result StorageError Blockchain :=
  ok_or (restore tip_height tip block state) Corrupted.

(** The states of two tables, page by page, into an empty state; a table
    has at most as many pages as rows, and one more round finds the end. *)
Definition load_states
    (domains_at : option DomainId → result StorageError (list (DomainId * DomainStateBytes) * option DomainId))
    (tlds_at : option TldId → result StorageError (list (TldId * TldStateBytes) * option TldId))
    (rows_d rows_t : tb (list byte)) : result StorageError ChainState :=
  let rounds (t : tb (list byte)) := S (length (tb_range None t)) in
  let? state := default (Err Corrupted)
    (for_pages (N.to_nat DOMAIN_PAGE) (rounds rows_d) domains_at visit_domain None ChainState_new) in
  default (Err Corrupted) (for_pages (N.to_nat TLD_PAGE) (rounds rows_t) tlds_at visit_tld None state).

Definition network_id (c : Blockchain) : NetworkId := np_network_id (bc_network c).

(** [scone-storage/src/integration.rs:483-494 try_load_from_snapshot]: the
    blocks above the snapshot are pushed as live ones. *)
Fixpoint replay_suffix (hs : list N) (store : Db) (chain : Blockchain) : option Blockchain :=
  match hs with
  | [] => Some chain
  | height :: hs =>
      match block_announcing height store with
      | Err _ => None
      | Ok block =>
          match push_block chain block with
          | (chain, Ok _) => replay_suffix hs store chain
          | (_, Err _) => None
          end
      end
  end.

(** [scone-storage/src/integration.rs:409-508 try_load_from_snapshot] *)
Definition try_load_from_snapshot (store : Db) (network : NetworkParams) (tip_height : N) (tip : BlockHash)
    : option Blockchain :=
  meta ← to_option (snapshot_meta store);
  meta ← meta;
  if (sm_height meta =? 0) || (tip_height <=? sm_height meta) then None
  else
    anchor_block ← to_option (block_announcing (sm_height meta) store);
    anchor_hash ← to_option (header_hash (bk_header anchor_block));
    if negb (arr_eqb anchor_hash (sm_tip_hash meta)) then None
    else
      state ← to_option (load_states (λ c, snapshot_domains c DOMAIN_PAGE store) (λ c, snapshot_tlds c TLD_PAGE store)
        (t_snapshot_domains store) (t_snapshot_tlds store));
      chain ← restore (sm_height meta) anchor_hash anchor_block state;
      chain ← replay_suffix (heights (sm_height meta + 1) tip_height) store chain;
      if negb (arr_eqb (bc_tip chain) tip) then None
      else if negb (bool_decide (network_id chain = np_network_id network)) then None
      else Some chain.

(** [scone-storage/src/integration.rs:512-568 load_from_full_state] *)
Definition load_from_full_state (store : Db) (network : NetworkParams) (tip_height : N) (tip_block : Block)
    (recomputed : BlockHash) : result StorageError Blockchain :=
  let? state := load_states (λ c, iterate_domains c DOMAIN_PAGE store) (λ c, iterate_tlds c TLD_PAGE store)
    (t_domains store) (t_tlds store) in
  let? chain := restored tip_height recomputed tip_block state in
  if? negb (bool_decide (network_id chain = np_network_id network)) return Corrupted;
  Ok chain.

(** [scone-storage/src/integration.rs:255-324 load_chain] *)
Definition load_chain (store : Db) (network : NetworkParams) : result StorageError Blockchain :=
  let? (tip_height, tip_hash) := store_tip store in
  if tip_height =? 0 then Ok (chain_for_network network)
  else
    let? bootstrap_marker := read_verified_marker store in
    let? tip_bytes := block_at_height tip_height store in
    let? tip_bytes :=
      match tip_bytes with
      | Some bytes => Ok bytes
      | None =>
          match bootstrap_marker with
          | Some m => if (mk_height m =? tip_height) && arr_eqb (mk_tip_hash m) tip_hash
                      then Err SnapshotUnavailable else Err Corrupted
          | None => Err Corrupted
          end
      end in
    let? tip_block := map_err (λ _, Corrupted) (decode_complete (dec Block_c) tip_bytes) in
    if? negb (bk_height tip_block =? tip_height) return Corrupted;
    let? recomputed := map_err (λ _, Corrupted) (header_hash (bk_header tip_block)) in
    if? negb (arr_eqb recomputed tip_hash) return Corrupted;
    match try_load_from_snapshot store network tip_height recomputed with
    | Some chain => rebuild_replay_index_from_store store chain tip_height
    | None =>
        let? chain := load_from_full_state store network tip_height tip_block recomputed in
        rebuild_replay_index_from_store store chain tip_height
    end.

(** [scone-storage/src/integration.rs:585-600 load_chain_replay]: the loop. *)
Fixpoint replay_all (hs : list N) (store : Db) (chain : Blockchain) : result StorageError Blockchain :=
  match hs with
  | [] => Ok chain
  | height :: hs =>
      let? block := block_announcing height store in
      match push_block chain block with
      | (chain, Ok _) => replay_all hs store chain
      | (_, Err _) => Err Corrupted
      end
  end.

(** [scone-storage/src/integration.rs:582-616 load_chain_replay] *)
Definition load_chain_replay (store : Db) : result StorageError Blockchain :=
  let? (tip_height, tip_hash) := store_tip store in
  let? chain := replay_all (heights 1 tip_height) store (chain_for_network TESTNET) in
  if? negb (arr_eqb (bc_tip chain) tip_hash) return Corrupted;
  Ok chain.
End persist.
