(* ===== verification/PersistProofs.v ===== *)
(** * What a block changes in the registry, and what is persisted of it *)

From S2P Require Import Prelude Bytes Crypto Commitment Smt Names Icann Codec Checkpoint Pow Tx Wire.
From S2P Require Import State StateSpec StateProofs StateProps Blocks Chain ChainProofs ChainProps.
From S2P Require Import StateBytes Redb Store StoreSpec StorePaging StoreProofs Persist.

(** ** First occurrences *)

Lemma firsts_spec seen l (id : hash) : id ∈ firsts seen l ↔ Some id ∈ l ∧ id ∉ seen.
Proof.
  revert seen. induction l as [|[x|] l IH]; intros seen; cbn [firsts].
  - split; [by intros ?%not_elem_of_nil|by intros [?%not_elem_of_nil _]].
  - case_bool_decide as Hx.
    + rewrite IH, elem_of_cons. split; [naive_solver|]. intros [[[= ->]|?] ?]; [done|naive_solver].
    + rewrite elem_of_cons, IH, elem_of_cons. destruct (decide (id = x)) as [->|Hne]; [naive_solver|].
      rewrite not_elem_of_union, not_elem_of_singleton. naive_solver.
  - rewrite IH, elem_of_cons. naive_solver.
Qed.

Lemma firsts_NoDup seen l : NoDup (firsts seen l).
Proof.
  revert seen. induction l as [|[x|] l IH]; intros seen; cbn [firsts]; [constructor| |done].
  case_bool_decide; [done|]. constructor; [|done]. rewrite firsts_spec. set_solver.
Qed.

Lemma touched_domains_spec b (id : hash) :
  id ∈ touched_domains b ↔ ∃ tx, tx ∈ bk_transactions b ∧ touched_domain tx = Some id.
Proof.
  unfold touched_domains. rewrite firsts_spec, list_elem_of_fmap. split.
  - intros [(tx & E & Hin) _]. by exists tx.
  - intros (tx & Hin & E). split; [by exists tx|apply not_elem_of_empty].
Qed.
Lemma touched_tlds_spec b (id : hash) :
  id ∈ touched_tlds b ↔ ∃ tx, tx ∈ bk_transactions b ∧ touched_tld tx = Some id.
Proof.
  unfold touched_tlds. rewrite firsts_spec, list_elem_of_fmap. split.
  - intros [(tx & E & Hin) _]. by exists tx.
  - intros (tx & Hin & E). split; [by exists tx|apply not_elem_of_empty].
Qed.

(** ** Many insertions and removals *)

Lemma inserts_lookup {A} (l : list (hash * A)) m (id : hash) :
  NoDup l.*1 →
  (∀ a, (id, a) ∈ l → inserts l m !! id = Some a) ∧ (id ∉ l.*1 → inserts l m !! id = m !! id).
Proof.
  unfold inserts. revert m. induction l as [|[k x] l IH]; intros m Hn; cbn [fold_left fst snd].
  { split; [by intros a ?%not_elem_of_nil|done]. }
  cbn in Hn. apply NoDup_cons in Hn as [Hni Hn]. destruct (IH (<[k := x]> m) Hn) as [I1 I2]. split.
  - intros a [[= -> ->]|Hin]%elem_of_cons; [|by apply I1]. rewrite I2 by done. apply lookup_insert_eq.
  - cbn. intros [Hne Hni']%not_elem_of_cons. rewrite I2 by done. apply lookup_insert_ne. congruence.
Qed.

Lemma deletes_lookup {A} (l : list hash) (m : gmap hash A) (id : hash) :
  deletes l m !! id = if decide (id ∈ l) then None else m !! id.
Proof.
  unfold deletes. revert m. induction l as [|k l IH]; intros m; cbn [fold_left].
  { rewrite decide_False; [done|apply not_elem_of_nil]. }
  rewrite IH, lookup_delete. repeat case_decide; rewrite ?elem_of_cons in *; naive_solver.
Qed.

Lemma deletes_gone {A} (l : list hash) (m : gmap hash A) : (∀ id, id ∈ l → m !! id = None) → deletes l m = m.
Proof. intros Hl. apply map_eq. intros id. rewrite deletes_lookup. case_decide; [by rewrite Hl|done]. Qed.

Lemma keyed_sublist {A B} (f : A → B) (g : hash → option A) (ks : list hash) :
  (filter_map (λ id, (λ a, (id, f a)) <$> g id) ks).*1 `sublist_of` ks.
Proof. unfold filter_map. induction ks as [|k ks IH]; cbn; [constructor|]. destruct (g k); cbn; by constructor. Qed.

(** Upserts of the new values, then the removals: the new map without
    what was removed. *)
Lemma delta_map {A B} (f : A → B) (g : hash → option A) (m m' : gmap hash A) (touched removed : list hash) :
  (∀ id, g id = m' !! id) → NoDup touched →
  (∀ id, id ∉ touched → id ∉ removed → m' !! id = m !! id) →
  (∀ id, m' !! id = None → is_Some (m !! id) → id ∈ removed) →
  deletes removed (inserts (filter_map (λ id, (λ a, (id, f a)) <$> g id) touched) (f <$> m)) = deletes removed (f <$> m').
Proof.
  intros Hg Hn Hsame Hrem. apply map_eq. intros id. rewrite !deletes_lookup.
  set (l := filter_map _ _).
  assert (∀ k b, (k, b) ∈ l ↔ k ∈ touched ∧ ∃ a, m' !! k = Some a ∧ b = f a) as Hl.
  { intros k b. unfold l, filter_map. rewrite list_elem_of_omap. split.
    - intros (x & Hx & E). apply fmap_Some in E as (a & Ea & [= -> ->]). rewrite Hg in Ea. eauto.
    - intros (Hk & a & Ea & ->). exists k. by rewrite Hg, Ea. }
  assert (NoDup l.*1) as Hnl.
  { by eapply sublist_NoDup, keyed_sublist. }
  destruct (inserts_lookup l (f <$> m) id Hnl) as [I1 I2]. rewrite lookup_fmap.
  case_decide as Hd; [done|].
  destruct (m' !! id) as [a|] eqn:Ea; cbn.
  - destruct (decide (id ∈ touched)) as [Ht|Ht].
    + apply I1, Hl. eauto.
    + rewrite I2; [by rewrite lookup_fmap, <- Hsame, Ea|]. intros ([k b] & -> & Hin)%list_elem_of_fmap.
      apply Ht. by apply Hl in Hin as [? _].
  - rewrite I2.
    + rewrite lookup_fmap. destruct (m !! id) as [a|] eqn:Em; [|done]. exfalso. apply Hd, Hrem; [done|by eexists].
    + intros ([k b] & -> & Hin)%list_elem_of_fmap. apply Hl in Hin as (_ & a & Ha & _). cbn in *. congruence.
Qed.

Section persist.
Context `{Crypto}.

(** ** Transactions change what they touch *)

Lemma registry_apply_touched r tx now r' :
  registry_apply r tx now = (r', Ok tt) →
  (∀ id : hash, touched_domain tx ≠ Some id → r_domains r' !! id = r_domains r !! id) ∧
  (∀ id : hash, touched_tld tx ≠ Some id → r_tlds r' !! id = r_tlds r !! id).
Proof.
  assert (∀ (A : Type) (m : gmap hash A) (k id : hash) a, Some k ≠ Some id → <[k := a]> m !! id = m !! id) as Hi
    by (intros; apply lookup_insert_ne; congruence).
  unfold registry_apply. destruct (tx_validate tx) as [[]|]; [|done]. case_decide; [|done].
  destruct tx as [t|t|t|t|t|t|t|t|t|t]; cbn [touched_domain touched_tld].
  - unfold register_domain_rule. destruct (r_tlds r !! _) as [tld|]; [|done].
    destruct (negb (ts_open tld)); [done|]. destruct (domain_free _ _ _ _) eqn:Ef; [|done].
    intros E%with_pow_Ok. injection E as <-.
    destruct (learned_maps (rd_owner t) (rd_public_key t) r) as (ED & ET & _). cbn. rewrite ED, ET. auto.
  - intros (st & Hst & Ho & E)%on_domain_Ok. cbn in E. case_decide; [done|].
    case_decide; [|done]. injection E as <-.
    destruct (learned_maps (ud_owner t) (ud_public_key t) r) as (ED & ET & _). cbn. rewrite ED, ET. auto.
  - unfold register_tld_rule. destruct (r_tlds r !! _); [done|]. case_decide; [done|].
    intros E%with_pow_Ok. injection E as <-.
    destruct (learned_maps (rt_owner t) (rt_public_key t) r) as (ED & ET & _). cbn. rewrite ED, ET. auto.
  - intros (st & _ & _ & E)%on_tld_Ok. injection E as <-. cbn. auto.
  - intros (st & _ & _ & E)%on_tld_Ok. injection E as <-. cbn. split; [done|].
    intros id Hid. apply lookup_delete_ne. congruence.
  - intros (st & _ & _ & E)%on_tld_Ok. injection E as <-. cbn. auto.
  - intros (st & _ & _ & E)%on_tld_Ok. destruct (domain_free _ _ _ _); [|done]. injection E as <-. cbn. auto.
  - intros (st & Hst & Ho & E)%on_domain_Ok. cbn in E. case_decide; [done|].
    case_decide; [done|]. injection E as <-. cbn. auto.
  - intros (st & Hst & Ho & E)%on_domain_Ok. injection E as <-. cbn. auto.
  - unfold slash_rule. case_decide; [|done]. intros E. injection E as <-. done.
Qed.

Lemma registry_block_touched r txs now r' :
  registry_block r txs now = (r', Ok tt) →
  (∀ id : hash, (∀ tx, tx ∈ txs → touched_domain tx ≠ Some id) → r_domains r' !! id = r_domains r !! id) ∧
  (∀ id : hash, (∀ tx, tx ∈ txs → touched_tld tx ≠ Some id) → r_tlds r' !! id = r_tlds r !! id).
Proof.
  revert r. induction txs as [|tx txs IH]; intros r; cbn [registry_block].
  { intros E. injection E as <-. done. }
  destruct (validate_transaction tx) as [[]|]; [|done]. destruct (validate_tx tx) as [[]|]; [|done].
  destruct (registry_apply r tx now) as [r1 [[]|]] eqn:Ea; [|done].
  intros [HD HT]%IH. destruct (registry_apply_touched _ _ _ _ Ea) as [HD1 HT1]. split; intros id Hid.
  - rewrite HD, HD1; [done|apply Hid; by left|]. intros. apply Hid. by right.
  - rewrite HT, HT1; [done|apply Hid; by left|]. intros. apply Hid. by right.
Qed.

(** A live domain stays, through the transactions of a block. *)
Lemma registry_block_keeps r txs now r' (id : hash) :
  registry_block r txs now = (r', Ok tt) → is_Some (r_domains r !! id) → is_Some (r_domains r' !! id).
Proof.
  revert r. induction txs as [|tx txs IH]; intros r; cbn [registry_block].
  { intros E. by injection E as <-. }
  destruct (validate_transaction tx) as [[]|]; [|done]. destruct (validate_tx tx) as [[]|]; [|done].
  destruct (registry_apply r tx now) as [r1 [[]|]] eqn:Ea; [|done]. intros E Hid. apply (IH r1 E).
  destruct (registry_apply_domains _ _ _ _ Ea) as [->|k o _ _ ->|k st st' _ _ _ _ _ _ ->]; [done|..];
    rewrite lookup_insert; by case_decide.
Qed.

(** What is stored of a registry. *)
Definition stored_domains (r : Registry) : gmap DomainId DomainStateBytes := DomainStateBytes_from <$> r_domains r.
Definition stored_tlds (r : Registry) : gmap TldId TldStateBytes := TldStateBytes_from <$> r_tlds r.

(** The outcome of a block, and its delta over the tables. *)
Lemma block_delta_spec s r txs now r' hdr removed :
  refines s r' → registry_ok r' → collision_free r' →
  registry_block (registry_gc now r) txs now = (r', Ok tt) →
  (∀ id, id ∈ removed ↔ ∃ st, r_domains r !! id = Some st ∧ ds_valid_until st ≤ now) →
  let delta := block_delta s (mkBlock hdr txs) removed in
  deletes (sd_removed_domains delta) (inserts (sd_domains delta) (stored_domains r)) = deletes removed (stored_domains r') ∧
  deletes (sd_removed_tlds delta) (inserts (sd_tlds delta) (stored_tlds r)) = stored_tlds r'.
Proof.
  intros Hs Hok Hc Eb Hrem. destruct (registry_block_touched _ _ _ _ Eb) as [HD HT].
  assert (∀ id : hash, r_domains (registry_gc now r) !! id =
    match r_domains r !! id with Some st => if decide (now < ds_valid_until st) then Some st else None | None => None end) as Hgc.
  { intros id. cbn. rewrite map_lookup_filter. destruct (r_domains r !! id) as [st|]; cbn; [|done].
    by repeat case_decide. }
  cbn. split.
  - apply (delta_map DomainStateBytes_from); [intros; by apply refines_domain|apply firsts_NoDup| |].
    + intros id Ht Hr. rewrite HD.
      * rewrite Hgc. destruct (r_domains r !! id) as [st|] eqn:E; [|done]. rewrite decide_True; [done|].
        apply N.nle_gt. intros Hle. apply Hr, Hrem. eauto.
      * intros tx Hin E. apply Ht, (touched_domains_spec (mkBlock hdr txs)). eauto.
    + intros id Hn [st Hst]. apply Hrem. exists st. split; [done|]. apply N.nlt_ge. intros Hlt.
      apply (eq_None_not_Some (r_domains r' !! id)); [done|]. eapply registry_block_keeps; [exact Eb|].
      rewrite Hgc, Hst, decide_True by done. by eexists.
  - etrans; [apply (delta_map TldStateBytes_from _ _ (r_tlds r')); [intros; by apply refines_tld|apply firsts_NoDup|..]|].
    + intros id Ht _. apply HT. intros tx Hin E. apply Ht, (touched_tlds_spec (mkBlock hdr txs)). eauto.
    + intros id Hn [st Hst]. apply list_elem_of_filter. rewrite (refines_tld _ _ _ Hs Hc). split; [done|].
      apply (touched_tlds_spec (mkBlock hdr txs)).
      destruct (decide (Exists (λ tx, touched_tld tx = Some id) txs)) as [Hex|Hex].
      { apply Exists_exists in Hex as (tx & ? & ?). eauto. }
      exfalso. rewrite HT in Hn; [cbn in Hn; congruence|]. intros tx Hin E. apply Hex, Exists_exists. eauto.
    + apply deletes_gone. intros id [Hn _]%list_elem_of_filter. rewrite (refines_tld _ _ _ Hs Hc) in Hn.
      unfold stored_tlds. by rewrite lookup_fmap, Hn.
Qed.

(** The names a well-formed block binds are text. *)
Lemma block_names_ok b : Block_wf b → Forall (λ n, name_ok (nb_name n)) (filter_map tx_binding (bk_transactions b)).
Proof.
  intros [_ Hw]. apply Forall_forall. intros n (tx & Hin & E)%list_elem_of_omap. rewrite Forall_forall in Hw.
  specialize (Hw tx Hin). destruct tx as [t| |t| | | |t| | |]; try done; injection E as <-; cbn in Hw |- *;
    destruct Hw as (_ & Hn & _); (split; [by intros En; rewrite En in Hn|]).
  - by apply DomainName_utf8.
  - apply TldName_valid_iff in Hn as [_ Hn]. by apply label_utf8, is_ldh_bytes.
  - by apply DomainName_utf8.
Qed.

Lemma length_firsts seen l : (length (firsts seen l) ≤ length l)%nat.
Proof.
  revert seen. induction l as [|[id|] l IH]; intros seen; cbn [firsts length]; [lia| |pose proof (IH seen); lia].
  case_bool_decide; cbn [length]; [pose proof (IH seen)|pose proof (IH ({[id]} ∪ seen))]; lia.
Qed.

Lemma length_filter_map {A B} (f : A → option B) l : (length (filter_map f l) ≤ length l)%nat.
Proof. unfold filter_map. induction l as [|a l IH]; cbn; [lia|]. destruct (f a); cbn; lia. Qed.

Lemma delta_lengths s b removed :
  (length (sd_domains (block_delta s b removed)) ≤ length (bk_transactions b))%nat ∧
  (length (sd_tlds (block_delta s b removed)) ≤ length (bk_transactions b))%nat.
Proof.
  cbn. split; (etransitivity; [apply length_filter_map|]); unfold touched_domains, touched_tlds;
    (etransitivity; [apply length_firsts|]); by rewrite length_map.
Qed.
End persist.
