(* ===== verification/Restart.v ===== *)
(** * Restarting from the store: the state and the replayed blocks

    A restart reads back the domains and the TLDs; the signer keys, the
    grace windows and the ban list are not stored.  The rules of the
    registry give the same domains and TLDs without them, whenever they
    accept. *)

From S2P Require Import Prelude Bytes Crypto Commitment Smt Names Icann Codec Checkpoint Pow Tx Wire.
From S2P Require Import State StateSpec StateProofs StateProps Blocks BlocksProps Chain ChainProofs ChainProps.
From S2P Require Import StateBytes Redb Store StoreSpec StorePaging StoreProofs Persist PersistProofs.

Section restart.
Context `{Crypto}.

(** ** What a restart keeps *)

(** The registry that a restart rebuilds. *)
Definition restarted (r : Registry) : Registry := mkRegistry (r_network r) (r_domains r) (r_tlds r) ∅ ∅ ∅.

(** The same live names on the same network. *)
Definition agree (r1 r2 : Registry) : Prop :=
  r_network r1 = r_network r2 ∧ r_domains r1 = r_domains r2 ∧ r_tlds r1 = r_tlds r2.
#[global] Instance agree_equivalence : Equivalence agree.
Proof. unfold agree. split; [intros ?|intros ??|intros ???]; naive_solver congruence. Qed.

Lemma restarted_agree r : agree r (restarted r).
Proof. done. Qed.

Lemma restarted_ok r : registry_ok r → registry_ok (restarted r).
Proof.
  intros [Hd _ _]. split; [done| |apply map_Forall_empty]. intros id [? Hid]. cbn in Hid. by rewrite lookup_empty in Hid.
Qed.

Lemma agree_free r1 r2 : agree r1 r2 → collision_free r1 → collision_free r2.
Proof. intros (_ & HD & HT). by apply collision_free_maps. Qed.

Lemma learned_agree o pk r : agree r (learned o pk r).
Proof. unfold learned. by destruct (r_keys r !! o). Qed.

Lemma agree_gc now r1 r2 : agree r1 r2 → agree (registry_gc now r1) (registry_gc now r2).
Proof. intros (HN & HD & HT). unfold agree. cbn. by rewrite HN, HD, HT. Qed.

Lemma registry_apply_network r tx now : r_network (registry_apply r tx now).1 = r_network r.
Proof.
  assert (∀ o pk r', r_network (learned o pk r') = r_network r') as Hl by (intros; symmetry; apply learned_agree).
  unfold registry_apply, register_domain_rule, update_domain_rule, register_tld_rule, renew_domain_rule,
    assign_domain_rule, slash_rule, on_domain, on_tld, with_pow. repeat case_match; cbn; rewrite ?Hl; done.
Qed.

(** What a transaction does to the live names when it is accepted: keys,
    grace windows and bans only decide whether it is. *)
Definition effect (tx : Transaction) (now : N) (r : Registry) : Registry :=
  let upd (id : DomainId) f := match r_domains r !! id with Some st => set_domain r id (f st) | None => r end in
  let mut (id : TldId) f := match r_tlds r !! id with Some st => set_tld r id (f st) | None => r end in
  match tx with
  | TxRegisterDomain t => created (rd_domain_id t) (rd_owner t) now r
  | TxUpdateDomain t => upd (ud_domain_id t) (λ st, mkDomainState (ds_owner st) (ds_sequence st + 1)
      (norm_hash (Some (ud_record_hash t))) (ds_registered_at st) (ds_valid_until st))
  | TxRegisterTld t => set_tld r (rt_tld_id t) (mkTldState (rt_owner t) false)
  | TxTransferTld t => mut (tt_tld_id t) (λ st, mkTldState (tt_new_owner t) (ts_open st))
  | TxRevokeTld t => r_with_tlds (delete (rv_tld_id t) (r_tlds r)) r
  | TxSetTldOpen t => mut (so_tld_id t) (λ st, mkTldState (ts_owner st) (so_open t))
  | TxAssignDomain t => created (ad_domain_id t) (ad_assignee t) now r
  | TxRenewDomain t => upd (rn_domain_id t) (λ st, mkDomainState (ds_owner st) (ds_sequence st) (ds_record_hash st)
      (ds_registered_at st) (rn_valid_until t))
  | TxTransferDomain t => upd (td_domain_id t) (λ st, mkDomainState (td_new_owner t) (ds_sequence st)
      (ds_record_hash st) (ds_registered_at st) (ds_valid_until st))
  | TxSlash _ => r
  end.

Lemma effect_agree tx now r1 r2 : agree r1 r2 → agree (effect tx now r1) (effect tx now r2).
Proof.
  intros (HN & HD & HT). unfold agree. destruct tx; cbn; rewrite <- ?HD, <- ?HT; repeat case_match; cbn;
    rewrite ?HN, ?HD, ?HT; done.
Qed.

Lemma registry_apply_effect r tx now r' : registry_apply r tx now = (r', Ok tt) → agree r' (effect tx now r).
Proof.
  unfold registry_apply. destruct (tx_validate tx) as [[]|]; [|done]. case_decide; [|done].
  destruct tx as [t|t|t|t|t|t|t|t|t|t]; cbn [effect].
  - unfold register_domain_rule. destruct (r_tlds r !! _) as [tld|]; [|done].
    destruct (negb (ts_open tld)); [done|]. destruct (domain_free _ _ _ _); [|done].
    intros E%with_pow_Ok. injection E as <-.
    destruct (learned_agree (rd_owner t) (rd_public_key t) r) as (EN & ED & ET). unfold agree. cbn. by rewrite EN, ED, ET.
  - intros (st & Hst & _ & E)%on_domain_Ok. cbn in E. case_decide; [done|]. case_decide; [|done]. injection E as <-.
    destruct (learned_agree (ud_owner t) (ud_public_key t) r) as (EN & ED & ET). rewrite Hst.
    unfold agree. cbn. by rewrite EN, ED, ET.
  - unfold register_tld_rule. destruct (r_tlds r !! _); [done|]. case_decide; [done|].
    intros E%with_pow_Ok. injection E as <-.
    destruct (learned_agree (rt_owner t) (rt_public_key t) r) as (EN & ED & ET). unfold agree. cbn. by rewrite EN, ED, ET.
  - intros (st & Hst & _ & E)%on_tld_Ok. injection E as <-. by rewrite Hst.
  - intros (st & Hst & _ & E)%on_tld_Ok. by injection E as <-.
  - intros (st & Hst & _ & E)%on_tld_Ok. injection E as <-. by rewrite Hst.
  - intros (st & _ & _ & E)%on_tld_Ok. destruct (domain_free _ _ _ _); [|done]. by injection E as <-.
  - intros (st & Hst & _ & E)%on_domain_Ok. cbn in E. case_decide; [done|]. case_decide; [done|].
    injection E as <-. by rewrite Hst.
  - intros (st & Hst & _ & E)%on_domain_Ok. injection E as <-. by rewrite Hst.
  - unfold slash_rule. case_decide; [|done]. by injection 1 as <-.
Qed.

Lemma registry_apply_agree r1 r2 tx now r1' r2' :
  agree r1 r2 → registry_apply r1 tx now = (r1', Ok tt) → registry_apply r2 tx now = (r2', Ok tt) → agree r1' r2'.
Proof.
  intros Ha E1%registry_apply_effect E2%registry_apply_effect. rewrite E1, E2. by apply effect_agree.
Qed.

Context `{Consensus}.

(** The same for a block, and no new collision on the way. *)
Lemma registry_block_agree r1 r2 txs now r1' r2' :
  agree r1 r2 → registry_block r1 txs now = (r1', Ok tt) → registry_block r2 txs now = (r2', Ok tt) → agree r1' r2'.
Proof.
  revert r1 r2. induction txs as [|tx txs IH]; intros r1 r2 Ha; cbn [registry_block].
  { intros E1 E2. injection E1 as <-. by injection E2 as <-. }
  destruct (validate_transaction tx) as [[]|]; [|done]. destruct (validate_tx tx) as [[]|]; [|done].
  destruct (registry_apply r1 tx now) as [q1 [[]|]] eqn:A1; [|done].
  destruct (registry_apply r2 tx now) as [q2 [[]|]] eqn:A2; [|done].
  apply IH. by eapply registry_apply_agree.
Qed.

Lemma block_free_agree now txs r1 r1' r2 :
  agree r1 r2 → registry_block r1 txs now = (r1', Ok tt) → block_free now txs r1 → block_free now txs r2.
Proof.
  revert r1 r2. induction txs as [|tx txs IH]; intros r1 r2 Ha; cbn [registry_block block_free].
  { intros _ [Hc _]. split; [by eapply agree_free|done]. }
  destruct (validate_transaction tx) as [[]|]; [|done]. destruct (validate_tx tx) as [[]|]; [|done].
  destruct (registry_apply r1 tx now) as [q1 [[]|]] eqn:A1; [|done]. cbn [fst snd].
  intros E (Hc & Hc1 & Hb). specialize (Hb eq_refl). split; [by eapply agree_free|].
  destruct (registry_apply r2 tx now) as [q2 [[]|e]] eqn:A2; cbn [fst snd].
  - assert (agree q1 q2) as Hq by (by eapply registry_apply_agree). split; [by eapply agree_free|]. intros _. by eapply IH.
  - split; [|done]. destruct (rejected_maps _ _ _ _ _ A2) as [HD HT]. destruct Ha as (_ & HD' & HT').
    eapply collision_free_maps; [..|exact Hc]; congruence.
Qed.
End restart.

(** ** Reading the states back *)

Section load.
Context `{Crypto} `{RedbLaws}.
#[local] Existing Instances laws_heights laws_bytes.

Lemma in_order_fmap {A B} (f : A → B) (m : gmap hash A) : in_order (f <$> m) = (λ e, (e.1, f e.2)) <$> in_order m.
Proof.
  apply (key_lt_unique id_key); [apply in_order_sorted| |].
  - apply (key_lt_sorted id_key). rewrite <- list_fmap_compose. apply (key_lt_sorted id_key (in_order m)), in_order_sorted.
  - rewrite !in_order_perm, map_to_list_fmap. done.
Qed.

Lemma in_order_map {A} (m : gmap hash A) : list_to_map (in_order m) = m.
Proof.
  rewrite (list_to_map_proper _ (map_to_list m)); [apply list_to_map_to_list| |apply in_order_perm].
  rewrite in_order_perm. apply NoDup_fst_map_to_list.
Qed.

Lemma seen_domains r :
  seen reread <$> in_order (stored_domains r) = (λ e, (e.1, DomainStateBytes_from e.2)) <$> in_order (r_domains r).
Proof.
  unfold stored_domains. rewrite in_order_fmap, <- list_fmap_compose. apply list_fmap_ext. intros i [id st] _.
  unfold seen. cbn. by rewrite reread_from.
Qed.
Lemma seen_tlds r : seen id <$> in_order (stored_tlds r) = (λ e, (e.1, TldStateBytes_from e.2)) <$> in_order (r_tlds r).
Proof. unfold stored_tlds. rewrite in_order_fmap, <- list_fmap_compose. by apply list_fmap_ext. Qed.

Lemma visit_domains l s s' :
  Forall (λ e, domain_ok e.2) l → restore_domains l s = Some s' →
  rfold visit_domain ((λ e, (e.1, DomainStateBytes_from e.2)) <$> l) s = Ok s'.
Proof.
  intros Hl. revert s. induction Hl as [|[id st] l Hst Hl IH]; intros s; cbn [restore_domains rfold fmap list_fmap].
  { by intros [= ->]. }
  intros E. unfold visit_domain at 1. cbn [fst snd] in *. rewrite encoded_row, decode_domain_row by by destruct Hst.
  cbn [rbind]. destruct (restore_domain id st s) as [s1 [u|e]]; [|done]. cbn [rbind]. auto.
Qed.

Lemma visit_tlds l s s' :
  restore_tlds l s = Some s' → rfold visit_tld ((λ e, (e.1, TldStateBytes_from e.2)) <$> l) s = Ok s'.
Proof.
  revert s. induction l as [|[id st] l IH]; intros s; cbn [restore_tlds rfold fmap list_fmap]; [by intros [= ->]|].
  intros E. unfold visit_tld at 1. cbn [fst snd] in *. rewrite tld_encoded_row, decode_tld_row.
  cbn [rbind]. destruct (restore_tld id st s) as [s1 [u|e]]; [|done]. cbn [rbind]. auto.
Qed.
(** Loading the two tables of a registry: its names, and every structure
    that is derived from them. *)
Lemma load_states_spec (t t' : tb (list byte)) r :
  tb_view t = rows DomainStateBytes_as_encoded (stored_domains r) →
  tb_view t' = rows TldStateBytes_as_encoded (stored_tlds r) →
  registry_ok r → collision_free r → r_network r = TESTNET →
  ∃ s, load_states (λ c, page decode_domains_entry MAX_DOMAIN_PAGE t c DOMAIN_PAGE)
         (λ c, page decode_tlds_entry MAX_TLD_PAGE t' c TLD_PAGE) t t' = Ok s ∧ refines s (restarted r).
Proof.
  intros Ht Ht' Hok Hc Hn. unfold load_states.
  assert (∀ A (f : A → list byte) (m : gmap hash A) (u : tb (list byte)), tb_view u = rows f m →
    (length (rest None m) < S (length (tb_range None u)) * N.to_nat 100)%nat) as Hfuel.
  { intros A f m u Hu. rewrite (range_rows f m u None Hu), length_fmap, rest_None.
    rewrite filter_all by (apply Forall_forall; done). lia. }
  rewrite (page_loop_total DomainStateBytes_as_encoded reread decode_domains_entry decode_domains_row None (stored_domains r))
    by (done || by eapply Hfuel).
  rewrite rest_None, seen_domains. cbn [default rbind].
  assert (∀ e, e ∈ in_order (r_domains r) → domain_ok e.2) as Hds.
  { intros [id st]. rewrite in_order_perm, elem_of_map_to_list. by apply (ok_domains _ Hok). }
  destruct (restore_domains_refines (in_order (r_domains r)) TESTNET ∅ ChainState_new) as (s1 & E1 & Hs1);
    [apply map_Forall_empty|intros id st Hin; split; [by apply (Hds _ Hin)|apply lookup_empty]|by rewrite in_order_perm; apply NoDup_fst_map_to_list|apply for_network_refines|].
  rewrite (visit_domains _ _ _ (proj2 (Forall_forall _ _) Hds) E1). cbn [id rbind].
  rewrite (right_id_L ∅ (∪)), in_order_map in Hs1.
  rewrite (page_loop_total TldStateBytes_as_encoded id decode_tlds_entry decode_tlds_row None (stored_tlds r))
    by (done || by eapply Hfuel).
  rewrite rest_None, seen_tlds.
  destruct (restore_tlds_refines (in_order (r_tlds r)) (mkRegistry TESTNET (r_domains r) ∅ ∅ ∅ ∅) s1) as (s2 & E2 & Hs2); [|exact Hs1|..].
  { rewrite in_order_perm. apply NoDup_fst_map_to_list. }
  { intros id Hid. split; [|apply lookup_empty]. rewrite in_order_perm in Hid.
    apply list_elem_of_fmap in Hid as ([id' x] & -> & Hx%elem_of_map_to_list). cbn. apply tld_no_domain; [done|by eexists]. }
  { cbn [r_tlds]. rewrite (right_id_L ∅ (∪)), in_order_map. by eapply collision_free_maps; [..|exact Hc]. }
  rewrite (visit_tlds _ _ _ E2). exists s2. split; [done|]. cbn [r_tlds] in Hs2.
  rewrite (right_id_L ∅ (∪)), in_order_map in Hs2. unfold restarted. rewrite Hn. exact Hs2.
Qed.
End load.
