(* ===== verification/Mirror.v ===== *)
(** * The store of a running node

    A node pushes a block on its chain and stores it with the domains the
    push expired.  [mirrors] relates the disk to the chain: its tables
    hold the registry, every block since genesis, and a frozen state. *)

From S2P Require Import Prelude Bytes Crypto Commitment Smt Names Icann Codec Checkpoint Pow Tx Wire.
From S2P Require Import State StateSpec StateProofs StateProps Blocks BlocksProps Chain ChainProofs ChainProps.
From S2P Require Import StateBytes Redb Store StoreSpec StorePaging StoreProofs StoreProps Persist PersistProofs Restart.

Section accepted.
Context `{Crypto} `{Consensus}.

(** An accepted block: the chain, the registry, and what expired. *)
Record accepted (c : Blockchain) (r : Registry) (b : Block) (c' : Blockchain) (a : AppliedBlock) (r' : Registry)
    : Prop := {
  ac_pushed : pushed c b c' a;
  ac_rules : registry_block (expired c r) (bk_transactions b) (bk_timestamp (tip_block c)) = (r', Ok tt);
  ac_state : ChainProps.represents c' r';
  ac_removed id : id ∈ ab_gc_removed_domains a ↔
    ∃ st, r_domains r !! id = Some st ∧ ds_valid_until st ≤ bk_timestamp (tip_block c) }.

Lemma push_accepted c r b c' a :
  chain_ok c → ChainProps.represents c r → bk_timestamp b < U64 →
  block_free (bk_timestamp (tip_block c)) (bk_transactions b) (expired c r) →
  push_block_with_gc c b = (c', Ok a) → ∃ r', accepted c r b c' a r'.
Proof.
  intros Hc Hr Ht Hf E. pose proof (push_pushed _ _ _ _ Hc E) as Hp.
  destruct (push_run c r b _ Hr Hf (pu_check _ _ _ _ Hp)) as (s & es & ids & Hj & Hs & _ & Hids & E').
  rewrite E in E'. assert (registry_ok (block_outcome c r b).1) as Hok by (eapply jsteps_ok; [exact Hj|apply Hr]).
  destruct (block_outcome c r b) as [r' [[]|e]] eqn:Eo; [|done]. cbn [fst snd] in *. injection E' as -> Ea.
  exists r'. split; [done|done| |].
  - split; [by rewrite append_state|done|by apply (jsteps_collision_free _ _ _ Hj)|]. by rewrite (pu_tip_block _ _ _ _ Hp).
  - intros id. rewrite Ea. cbn [ab_gc_removed_domains]. rewrite Hids. unfold lapsed. split.
    + intros [st [? ?]%map_lookup_filter_Some]. by exists st.
    + intros (st & ? & ?). exists st. by apply map_lookup_filter_Some.
Qed.

(** A refused block leaves the chain as it represented the registry. *)
Lemma push_refused c r b c' e :
  ChainProps.represents c r → block_free (bk_timestamp (tip_block c)) (bk_transactions b) (expired c r) →
  push_block_with_gc c b = (c', Err e) → ∃ s, c' = with_state s c ∧ refines s r.
Proof.
  intros Hr Hf E. destruct (check_block c b) as [x|e'] eqn:Ek.
  2:{ unfold push_block_with_gc in E. rewrite Ek in E. injection E as <- _. exists (bc_state c).
      split; [by destruct c|apply Hr]. }
  destruct (push_run c r b x Hr Hf Ek) as (s & es & ids & Hj & Hs & _ & _ & E'). rewrite E in E'.
  destruct (block_outcome c r b).2 as [u|e'']; [done|]. injection E' as -> _. exists (rollback s es).
  split; [done|]. eapply rollback_refines; [exact Hj|apply Hr|exact Hs].
Qed.

Lemma registry_block_network r txs now : r_network (registry_block r txs now).1 = r_network r.
Proof.
  revert r. induction txs as [|tx txs IH]; intros r; cbn [registry_block]; [done|].
  destruct (validate_transaction tx) as [[]|]; [|done]. destruct (validate_tx tx) as [[]|]; [|done].
  pose proof (registry_apply_network r tx now) as Hn. destruct (registry_apply r tx now) as [q [[]|]]; cbn [fst] in *; [|done].
  by rewrite IH.
Qed.
End accepted.

(** What was stored at a height: the block and the registry after it. *)
Notation History := (gmap N (Block * Registry)).

Section mirror.
Context `{Crypto} `{RedbLaws} `{!Faults}.
#[local] Existing Instances laws_heights laws_bytes.

Record entry_ok (d : Disk) (h : N) (b : Block) (rh : Registry) : Prop := {
  en_height : bk_height b = h;
  en_wf : Block_wf b;
  en_stored : ∃ x bytes, header_hash (bk_header b) = Ok x ∧ enc Block_c b = Ok bytes ∧ k_blocks d !! h = Some (x, bytes);
  en_registry : registry_ok rh;
  en_free : collision_free rh;
  en_network : r_network rh = TESTNET }.

(** The blocks and the frozen state of a disk, up to its tip. *)
Record ledger (d : Disk) (tip : N) (hist : History) : Prop := {
  le_heights h : is_Some (hist !! h) ↔ 1 ≤ h ≤ tip;
  le_none h : hist !! h = None → k_blocks d !! h = None;
  le_entry h b rh : hist !! h = Some (b, rh) → entry_ok d h b rh;
  le_first b rh : hist !! 1 = Some (b, rh) → bh_prev_hash (bk_header b) = genesis_hash TESTNET;
  le_rules h b rb b' r' : hist !! h = Some (b, rb) → hist !! (h + 1) = Some (b', r') →
    block_free (bk_timestamp b) (bk_transactions b') (registry_gc (bk_timestamp b) rb) ∧
    registry_block (registry_gc (bk_timestamp b) rb) (bk_transactions b') (bk_timestamp b) = (r', Ok tt);
  le_snapshot h x : k_snapshot d = Some (h, x) → SNAPSHOT_INTERVAL ≤ h < tip ∧ ∃ b rh, hist !! h = Some (b, rh) ∧
    header_hash (bk_header b) = Ok x ∧
    k_snapshot_domains d = stored_domains rh ∧ k_snapshot_tlds d = stored_tlds rh }.

(** The disk of a node whose chain is [c], with registry [r]. *)
Record mirrors (d : Disk) (c : Blockchain) (r : Registry) (hist : History) : Prop := {
  mi_ok : chain_ok c;
  mi_state : ChainProps.represents c r;
  mi_network : bc_network c = TESTNET ∧ r_network r = TESTNET;
  mi_replay : wide c ∧ replay_ok c;
  mi_window h b : 1 ≤ h → block c h = Some b → ∃ rh, hist !! h = Some (b, rh);
  mi_genesis : chain_height c = 0 → r = empty_registry TESTNET;
  mi_last : 0 < chain_height c → hist !! chain_height c = Some (tip_block c, r);
  mi_tip : k_tip d = (chain_height c, bc_tip c);
  mi_marker : k_marker d = None;
  mi_domains : k_domains d = stored_domains r;
  mi_tlds : k_tlds d = stored_tlds r;
  mi_ledger : ledger d (chain_height c) hist }.

Lemma fresh_mirrors : mirrors fresh_disk (chain_for_network TESTNET) (empty_registry TESTNET) ∅.
Proof.
  pose proof (chain_for_network_ok TESTNET) as Hok. pose proof (chain_for_network_replay TESTNET) as Hr.
  split.
  - exact Hok.
  - split; [apply for_network_refines|apply empty_registry_ok| |reflexivity].
    split; [intros id [? Hid]; cbn in Hid; by rewrite lookup_empty in Hid|].
    intros id id' l Hid. unfold r_leaves in Hid. rewrite both_lookup in Hid. cbn in Hid. by rewrite !lookup_empty in Hid.
  - split; reflexivity.
  - exact Hr.
  - intros h b Hh Hb. assert (is_Some (block (chain_for_network TESTNET) h)) as Hs by by eexists.
    apply block_is_Some in Hs; [|exact Hok]. change (chain_height (chain_for_network TESTNET)) with 0 in Hs. lia.
  - intros _. reflexivity.
  - change (chain_height (chain_for_network TESTNET)) with 0. lia.
  - reflexivity.
  - reflexivity.
  - symmetry. apply fmap_empty.
  - symmetry. apply fmap_empty.
  - change (chain_height (chain_for_network TESTNET)) with 0.
    split; try (intros *; change (k_blocks fresh_disk) with (∅ : gmap N (hash * list byte)); rewrite ?lookup_empty; discriminate || reflexivity).
    + intros h. rewrite lookup_empty. split; [by intros []|lia].
Qed.

(** At height 0 the tip is genesis. *)
Lemma genesis_tip_block c : chain_ok c → chain_height c = 0 → tip_block c = genesis_of (bc_network c).
Proof.
  intros Hc E0. destruct (tip_cases c Hc) as [(_ & ? & _)|(_ & Eh & Hne)]; [done|].
  assert (0 < N.of_nat (length (window c))) by (destruct (window c); [done|simpl; lia]).
  pose proof (first_height_pos c). lia.
Qed.
Lemma genesis_tip c : chain_ok c → chain_height c = 0 → bc_tip c = genesis_hash (bc_network c).
Proof.
  intros Hc E0. pose proof (ok_tip _ Hc) as Ht. rewrite (genesis_tip_block c Hc E0), genesis_hash_ok in Ht.
  by injection Ht.
Qed.

(** ** Storing the tip *)

Lemma frozen_Ok h d d' :
  frozen h d = Ok d' →
  k_blocks d' = k_blocks d ∧ k_domains d' = k_domains d ∧ k_tlds d' = k_tlds d ∧ k_marker d' = k_marker d ∧
  ((k_snapshot d' = k_snapshot d ∧ k_snapshot_domains d' = k_snapshot_domains d ∧ k_snapshot_tlds d' = k_snapshot_tlds d) ∨
   (SNAPSHOT_INTERVAL ≤ h - 1 ∧ ∃ b, k_blocks d !! (h - 1) = Some b ∧ k_snapshot d' = Some (h - 1, b.1) ∧
     k_snapshot_domains d' = k_domains d ∧ k_snapshot_tlds d' = k_tlds d)).
Proof.
  unfold frozen. destruct (snapshot_due h) eqn:Ed; [|intros [= <-]; split_and!; auto].
  destruct (k_blocks d !! (h - 1)) as [b|] eqn:Eb; [|done]. intros [= <-]. split_and!; try done. right.
  unfold snapshot_due in Ed. apply andb_true_iff in Ed as [Hh%N.ltb_lt Hm%N.eqb_eq]. split; [|by exists b].
  apply N.Div0.mod_divides in Hm as [q Hq]. unfold SNAPSHOT_INTERVAL in *. destruct (decide (q = 0)); lia.
Qed.

Lemma append_tip_Ok x bytes delta d d' :
  k_blocks d !! ((k_tip d).1 + 1) = None →
  disk_append ((k_tip d).1 + 1) x bytes delta d = Ok d' →
  ∃ d1, frozen ((k_tip d).1 + 1) d = Ok d1 ∧
    d' = k_with_tip ((k_tip d).1 + 1, x) (delta_applied delta (k_with_block ((k_tip d).1 + 1) x bytes d1)).
Proof.
  intros Hb. unfold disk_append. destruct (N.eqb_spec ((k_tip d).1 + 1) (k_tip d).1); [lia|]. cbn [andb].
  unfold checked_add64. destruct (_ <=? U64_MAX); [|done]. cbn [ok_or rbind]. rewrite N.eqb_refl. cbn [negb].
  intros (d1 & Ef & E)%rbind_Ok. destruct (frozen_frame _ _ _ Ef) as (Eb & _). rewrite Eb, Hb in E.
  injection E as <-. by exists d1.
Qed.

(** The ledger of a disk extended by a block. *)
Lemma ledger_append d d' tip hist b rp r x bytes bp :
  ledger d tip hist → bk_height b = tip + 1 →
  (tip ≠ 0 → hist !! tip = Some (bp, rp)) →
  (tip = 0 → bh_prev_hash (bk_header b) = genesis_hash TESTNET) →
  block_free (bk_timestamp bp) (bk_transactions b) (registry_gc (bk_timestamp bp) rp) →
  registry_block (registry_gc (bk_timestamp bp) rp) (bk_transactions b) (bk_timestamp bp) = (r, Ok tt) →
  Block_wf b → header_hash (bk_header b) = Ok x → enc Block_c b = Ok bytes →
  registry_ok r → collision_free r → r_network r = TESTNET →
  k_blocks d' = <[tip + 1 := (x, bytes)]> (k_blocks d) →
  (k_snapshot d' = k_snapshot d ∧ k_snapshot_domains d' = k_snapshot_domains d ∧ k_snapshot_tlds d' = k_snapshot_tlds d ∨
   SNAPSHOT_INTERVAL ≤ tip ∧ ∃ e, k_blocks d !! tip = Some e ∧ k_snapshot d' = Some (tip, e.1) ∧
     k_snapshot_domains d' = stored_domains rp ∧ k_snapshot_tlds d' = stored_tlds rp) →
  ledger d' (tip + 1) (<[tip + 1 := (b, r)]> hist).
Proof.
  intros [L1 L2 L3 L4 L5 L6] Hb Hlast Hfirst Hfree Hrules Hwf Hx Hbytes Hok Hcf Hn Eb Es.
  assert (hist !! (tip + 1) = None) as Hnew.
  { apply eq_None_not_Some. rewrite L1. lia. }
  split.
  - intros h. rewrite lookup_insert_is_Some, L1. lia.
  - intros h. rewrite Eb. intros [Hh Hne]%lookup_insert_None. rewrite lookup_insert_ne by done. by apply L2.
  - intros h b' rh [[<- [= <- <-]]|[Hne Hh]]%lookup_insert_Some.
    + split; try done. exists x, bytes. rewrite Eb, lookup_insert_eq. done.
    + destruct (L3 _ _ _ Hh) as [? ? (x' & by' & ? & ? & ?) ? ? ?]. split; try done.
      exists x', by'. rewrite Eb, lookup_insert_ne by done. done.
  - intros b' rh [[Hh [= <- <-]]|[Hne Hh]]%lookup_insert_Some; [apply Hfirst; lia|by eapply L4].
  - intros h b1 r1 b2 r2 G1 G2. apply lookup_insert_Some in G1 as [[Eh _]|[Hne G1]].
    { rewrite lookup_insert_ne in G2 by lia. assert (is_Some (hist !! (h + 1))) as Hs by by eexists. apply L1 in Hs. lia. }
    apply lookup_insert_Some in G2 as [[Eh [= <- <-]]|[Hne2 G2]]; [|by eapply L5].
    assert (h = tip) as -> by lia. assert (is_Some (hist !! tip)) as Hs by by eexists. apply L1 in Hs.
    rewrite Hlast in G1 by lia. by injection G1 as <- <-.
  - intros h y Ey. destruct Es as [(E1 & E2 & E3)|(Ht & e & Ee & E1 & E2 & E3)].
    + rewrite E1 in Ey. destruct (L6 h y Ey) as (Hh & b' & rh & Hb' & Hy & Hd & Ht). split; [lia|]. exists b', rh.
      rewrite E2, E3, lookup_insert_ne by lia. split_and!; done.
    + rewrite E1 in Ey. injection Ey as <- <-. assert (tip ≠ 0) by (unfold SNAPSHOT_INTERVAL in *; lia).
      split; [lia|]. exists bp, rp.
      rewrite lookup_insert_ne by lia. rewrite Hlast by lia. split_and!; try done.
      destruct (L3 tip bp rp) as [_ _ (x' & by' & Hx' & _ & Hk) _ _ _]; [apply Hlast; lia|].
      rewrite Hk in Ee. by injection Ee as <-.
Qed.
(** The blocks in memory after a push are those before it and the new one. *)
Lemma pushed_window c b c' a (hist : History) :
  pushed c b c' a → (∀ h x, 1 ≤ h → block c h = Some x → ∃ rh, hist !! h = Some (x, rh)) →
  ∀ r' h x, 1 ≤ h → block c' h = Some x → ∃ rh, <[chain_height c' := (b, r')]> hist !! h = Some (x, rh).
Proof.
  intros Hp Hw r' h x Hh. rewrite (pu_block _ _ _ _ Hp). case_decide; [done|]. case_decide as Et.
  - intros [= <-]. exists r'. rewrite Et. apply lookup_insert_eq.
  - intros Hb. destruct (Hw h x Hh Hb) as [rh Hrh]. exists rh. by rewrite lookup_insert_ne.
Qed.

(** What storing an accepted block writes. *)
Lemma store_block_disk db d c r hist b c' a r' db' :
  represents db d → mirrors d c r hist → Block_wf b → accepted c r b c' a r' →
  count (r_domains r) + MAX_TXS_PER_BLOCK < U64 → count (r_tlds r) + MAX_TXS_PER_BLOCK < U64 →
  store_block_with_removals c' b (ab_hash a) (ab_gc_removed_domains a) db = (db', Ok tt) →
  ∃ bytes d1 d', enc Block_c b = Ok bytes ∧ represents db' d' ∧ frozen (chain_height c + 1) d = Ok d1 ∧
    d' = k_with_tip (chain_height c + 1, ab_hash a)
      (delta_applied (block_delta (bc_state c') b (ab_gc_removed_domains a))
        (k_with_block (chain_height c + 1) (ab_hash a) bytes d1)).
Proof.
  intros Hd Hm Hwf [Hp Hrules Hs' Hrem] HcD HcT Es.
  pose proof (mi_ok _ _ _ _ Hm) as Hc. pose proof (mi_ledger _ _ _ _ Hm) as Hl.
  pose proof (pu_check _ _ _ _ Hp) as (_ & _ & Hbh & _ & Hlen & _ & _ & _ & _)%check_block_Ok; [|done].
  unfold store_block_with_removals in Es. destruct (enc Block_c b) as [bytes|] eqn:Eb; [|done].
  set (delta := block_delta (bc_state c') b (ab_gc_removed_domains a)) in *.
  assert (write_ok (WAppend (bk_height b) (ab_hash a) bytes delta) d) as Hw.
  { destruct (delta_lengths (bc_state c') b (ab_gc_removed_domains a)) as [LD LT]. fold delta in LD, LT.
    cbn [write_ok]. rewrite (mi_domains _ _ _ _ Hm), (mi_tlds _ _ _ _ Hm). unfold stored_domains, stored_tlds, count in *.
    rewrite !map_size_fmap. split_and!; [lia|lia|]. by apply block_names_ok. }
  destruct (store_write_simulates _ _ _ Hd Hw) as [(e & Er & _)|Hsim].
  { cbn [store_write] in Er. rewrite Es in Er. discriminate Er. }
  cbn [store_write disk_write] in Hsim. rewrite Es in Hsim. rewrite Hbh in Hsim.
  pose proof (f_equal fst (mi_tip _ _ _ _ Hm)) as Etip1. cbn [fst] in Etip1. rewrite <- Etip1 in Hsim |- *.
  destruct (disk_append _ _ _ _ _) as [d'|] eqn:Ea; [|done]. destruct Hsim as (db2 & [= <-] & Hd').
  apply append_tip_Ok in Ea as (d1 & Ef & Ed'); [by exists bytes, d1, d'|].
  apply (le_none _ _ _ Hl), eq_None_not_Some. rewrite (le_heights _ _ _ Hl). lia.
Qed.

Lemma with_own_domains d : k_with_domains (k_domains d) d = d.
Proof. by destruct d. Qed.

(** A block pushed and then stored with what it expired: the store holds
    the new registry, without the domains that expired. *)
Lemma store_mirrors_removed db d c r hist b c' a db' :
  represents db d → mirrors d c r hist → Block_wf b →
  block_free (bk_timestamp (tip_block c)) (bk_transactions b) (expired c r) →
  push_block_with_gc c b = (c', Ok a) →
  count (r_domains r) + MAX_TXS_PER_BLOCK < U64 → count (r_tlds r) + MAX_TXS_PER_BLOCK < U64 →
  store_block_with_removals c' b (ab_hash a) (ab_gc_removed_domains a) db = (db', Ok tt) →
  ∃ d', represents db' d' ∧ accepted c r b c' a (block_outcome c r b).1 ∧
    k_domains d' = deletes (ab_gc_removed_domains a) (stored_domains (block_outcome c r b).1) ∧
    mirrors (k_with_domains (stored_domains (block_outcome c r b).1) d') c' (block_outcome c r b).1
      (<[chain_height c' := (b, (block_outcome c r b).1)]> hist).
Proof.
  intros Hd Hm Hwf Hfree Ep HcD HcT Es. pose proof Hwf as [(_ & Hh64 & Ht64) _].
  pose proof (mi_ok _ _ _ _ Hm) as Hc. pose proof (mi_ledger _ _ _ _ Hm) as Hl.
  destruct (push_accepted c r b c' a Hc (mi_state _ _ _ _ Hm) Ht64 Hfree Ep) as (r' & Hacc).
  pose proof Hacc as [Hp Hrules Hs' Hrem]. unfold block_outcome in *. rewrite Hrules in *. cbn [fst] in *.
  pose proof (pu_check _ _ _ _ Hp) as (Hprev & _ & Hbh & _ & _ & _ & _ & Hx & _)%check_block_Ok; [|done].
  destruct (store_block_disk _ _ _ _ _ _ _ _ _ _ Hd Hm Hwf Hacc HcD HcT Es) as (bytes & d1 & d' & Eb & Hd' & Ef & Ed').
  exists d'. split; [exact Hd'|]. split; [exact Hacc|]. subst d'.
  destruct (block_delta_spec (bc_state c') r (bk_transactions b) _ r' (bk_header b) (ab_gc_removed_domains a)
    (rp_refines _ _ Hs') (rp_ok _ _ Hs') (rp_free _ _ Hs') Hrules Hrem) as [ED ET].
  replace (mkBlock (bk_header b) (bk_transactions b)) with b in ED, ET by by destruct b.
  destruct (frozen_Ok _ _ _ Ef) as (EB & Ed1 & Et1 & Em1 & Esn).
  rewrite (mi_domains _ _ _ _ Hm) in Ed1, Esn. rewrite (mi_tlds _ _ _ _ Hm) in Et1, Esn.
  pose proof (registry_block_network (expired c r) (bk_transactions b) (bk_timestamp (tip_block c))) as Hn'.
  rewrite Hrules in Hn'. cbn [fst] in Hn'. change (r_network (expired c r)) with (r_network r) in Hn'.
  rewrite (proj2 (mi_network _ _ _ _ Hm)) in Hn'. rewrite (pu_height _ _ _ _ Hp).
  split; [rewrite <- ED, <- Ed1; reflexivity|].
  split.
  - apply (pu_ok _ _ _ _ Hp).
  - exact Hs'.
  - rewrite (pu_network _ _ _ _ Hp). split; [apply (mi_network _ _ _ _ Hm)|exact Hn'].
  - destruct (mi_replay _ _ _ _ Hm). by eapply pushed_replay.
  - rewrite <- (pu_height _ _ _ _ Hp). eapply pushed_window; [exact Hp|apply (mi_window _ _ _ _ Hm)].
  - rewrite (pu_height _ _ _ _ Hp). lia.
  - intros _. rewrite (pu_height _ _ _ _ Hp), (pu_tip_block _ _ _ _ Hp). apply lookup_insert_eq.
  - cbn [k_with_tip k_tip]. by rewrite (pu_height _ _ _ _ Hp), (pu_tip _ _ _ _ Hp).
  - exact (eq_trans Em1 (mi_marker _ _ _ _ Hm)).
  - reflexivity.
  - rewrite <- ET, <- Et1. reflexivity.
  - rewrite (pu_height _ _ _ _ Hp). replace (chain_height c + 1 - 1) with (chain_height c) in Esn by lia.
    apply (ledger_append d _ _ _ b r r' (ab_hash a) bytes (tip_block c));
      try done; [..|apply Hs'|apply Hs'|by cbn; rewrite EB].
    + intros Hne. apply (mi_last _ _ _ _ Hm). lia.
    + intros E0. rewrite Hprev, (genesis_tip c Hc E0). by rewrite (proj1 (mi_network _ _ _ _ Hm)).
Qed.

(** When no domain expires and is registered again, that is all of it. *)
Lemma store_mirrors db d c r hist b c' a db' :
  represents db d → mirrors d c r hist → Block_wf b →
  block_free (bk_timestamp (tip_block c)) (bk_transactions b) (expired c r) →
  push_block_with_gc c b = (c', Ok a) →
  (∀ id, id ∈ ab_gc_removed_domains a → r_domains (block_outcome c r b).1 !! id = None) →
  count (r_domains r) + MAX_TXS_PER_BLOCK < U64 → count (r_tlds r) + MAX_TXS_PER_BLOCK < U64 →
  store_block_with_removals c' b (ab_hash a) (ab_gc_removed_domains a) db = (db', Ok tt) →
  ∃ d', represents db' d' ∧
    mirrors d' c' (block_outcome c r b).1 (<[chain_height c' := (b, (block_outcome c r b).1)]> hist).
Proof.
  intros Hd Hm Hwf Hfree Ep Hgone HcD HcT Es.
  destruct (store_mirrors_removed _ _ _ _ _ _ _ _ _ Hd Hm Hwf Hfree Ep HcD HcT Es) as (d' & Hd' & _ & ED & Hm').
  exists d'. split; [done|]. rewrite deletes_gone in ED.
  - by rewrite <- ED, with_own_domains in Hm'.
  - intros id Hid. unfold stored_domains. by rewrite lookup_fmap, Hgone.
Qed.

(** A refused block and a checkpoint leave what the store mirrors. *)
Lemma mirrors_frame d c r hist s c' :
  mirrors d c r hist → refines s r → chain_step c c' → c' = with_state s c → mirrors d c' r hist.
Proof.
  intros [Hok Hs Hn Hr Hw Hg Hl Ht Hm HD HT Hle] Hrf Hstep ->.
  pose proof (chain_step_replay _ _ Hok Hr Hstep). split; try done; [|by destruct Hs].
  by eapply chain_step_ok.
Qed.

Lemma mirrors_accept d c r hist cp c' res :
  mirrors d c r hist → accept_checkpoint c cp = (c', res) → mirrors d c' r hist.
Proof.
  intros [Hok Hs Hn Hr Hw Hg Hl Ht Hm HD HT Hle] E. pose proof (step_checkpoint _ _ _ _ E) as Hstep.
  pose proof (chain_step_replay _ _ Hok Hr Hstep). pose proof (chain_step_ok _ _ Hok Hstep).
  apply accept_frame in E as (cps & f & ->). split; try done. by destruct Hs.
Qed.
End mirror.
