(* ===== verification/Resume.v ===== *)
(** * The chain that a restart resumes

    From a disk that mirrors a live chain, both loaders — the frozen
    state with the blocks above it pushed again, or the full state —
    resume at the tip, with the same names and the same anti-replay
    index. *)

From S2P Require Import Prelude Bytes Crypto Commitment Smt Names Icann Codec Checkpoint Pow Tx Wire.
From S2P Require Import State StateSpec StateProofs StateProps Blocks BlocksProps Chain ChainProofs ChainProps.
From S2P Require Import StateBytes Redb Store StoreSpec StorePaging StoreProofs StoreProps Persist PersistProofs Restart Mirror.

(** A chain restored at any height above genesis. *)
Lemma restore_spec `{Crypto} h tip b s :
  bk_height b = h → 1 ≤ h < U64 → header_hash (bk_header b) = Ok tip → cs_network s = TESTNET →
  (h = 1 → bh_prev_hash (bk_header b) = genesis_hash TESTNET) →
  ∃ c, restore h tip b s = Some c ∧ chain_ok c ∧ bc_tip c = tip ∧ tip_block c = b ∧ bc_state c = s ∧
    bc_network c = TESTNET ∧ bc_included c = ∅ ∧ bc_checkpoints c = [] ∧ bc_finalized c = None.
Proof.
  intros Eh Hh Htip Hn Hfirst. unfold restore. rewrite Eh, N.eqb_refl. cbn [negb]. rewrite Hn.
  set (c := mkBlockchain _ _ _ _ _ _ _ _ _). exists c. split; [done|]. split; [|done].
  assert (∀ k y, block c k = Some y ↔ k = 0 ∧ y = genesis_of TESTNET ∨ k = h ∧ y = b) as Hb.
  { intros k y. rewrite block_lookup; [|done|].
    - change (window c) with [b]. change (first_height c) with (N.max 1 h). change (bc_network c) with TESTNET.
      rewrite list_lookup_singleton_Some. split; (intros [?|[? Hy]]; [by left|right]).
      + destruct Hy. split; [lia|done].
      + split; [lia|]. split; [lia|done].
    - intros i y'. change (window c) with [b]. intros [-> <-]%list_lookup_singleton_Some.
      unfold first_height. change (bc_base_height c) with h. lia. }
  split; try done.
  - intros i y. change (window c) with [b]. intros [-> <-]%list_lookup_singleton_Some.
    unfold first_height. change (bc_base_height c) with h. lia.
  - intros k x. cbn [c bc_known_hashes]. rewrite lookup_insert_Some, lookup_singleton_Some. setoid_rewrite Hb.
    pose proof (genesis_hash_ok TESTNET) as Hg. split.
    + intros [[<- <-]|[_ [<- <-]]]; eauto 6.
    + intros (y & [[-> ->]|[-> ->]] & E); [right; split; [lia|]|left]; split; congruence.
  - intros k y y' Hy Hy'. apply Hb in Hy, Hy'. destruct Hy as [[-> ->]|[-> ->]], Hy' as [[? ->]|[? ->]]; try lia.
    rewrite Hfirst by lia. apply genesis_hash_ok.
  - change (bk_height b < U64). lia.
Qed.

(** Registries with the same names have the same root. *)
Lemma agree_root `{Crypto} s t r r' :
  refines s r → refines t r' → agree r r' →
  state_root_smt s = state_root_smt t ∧ cs_backend s = cs_backend t ∧ cs_expirations s = cs_expirations t ∧
  cs_owner_refcounts s = cs_owner_refcounts t.
Proof.
  intros Hs Ht (HN & HD & HT). split_and!.
  - assert (cs_smt s ≡ cs_smt t) as E; [|unfold state_root_smt; by rewrite E].
    eapply committed_unique; [apply (rf_smt _ _ Hs)|]. pose proof (rf_smt _ _ Ht) as Hm. unfold r_leaves in *.
    by rewrite HD, HT.
  - by rewrite (rf_backend _ _ Hs), (rf_backend _ _ Ht), HD, HT.
  - eapply queued_unique; [apply (rf_queue _ _ Hs)|]. rewrite HD. apply (rf_queue _ _ Ht).
  - eapply counts_unique; [apply (rf_refcounts _ _ Hs)|]. rewrite HD, HT. apply (rf_refcounts _ _ Ht).
Qed.

Section resume.
Context `{Crypto} `{RedbLaws} `{!Faults}.
#[local] Existing Instances laws_heights laws_bytes.

(** ** Stored blocks *)

Lemma announcing_row db d h b x bytes :
  represents db d → k_blocks d !! h = Some (x, bytes) → enc Block_c b = Ok bytes → Block_wf b → bk_height b = h →
  block_announcing h db = Ok b.
Proof.
  intros Hd Ek Eb Hwf Hh. unfold block_announcing, stored_block.
  rewrite (block_at_height_spec _ _ _ Hd), Ek. cbn [fmap option_fmap option_map snd rbind ok_or].
  rewrite (@decode_complete_roundtrip _ Block_c Block_lawful b bytes Hwf Eb). cbn [map_err rbind].
  by rewrite Hh, N.eqb_refl.
Qed.

Lemma stored_announcing db d h b rh : represents db d → entry_ok d h b rh → block_announcing h db = Ok b.
Proof. intros Hd [Hh Hwf (x & bytes & _ & Eb & Ek) _ _ _]. by eapply announcing_row. Qed.

(** ** The anti-replay index *)

Lemma index_fold (es : list (TxId * N)) (f : N → bool) (m M : gmap TxId N) :
  (∀ id h, (id, h) ∈ es → f h = false ∧ M !! id = Some h) → m ⊆ M →
  (∀ id h, M !! id = Some h → (id, h) ∈ es ∨ m !! id = Some h) →
  fold_left (λ m '(id, h), if f h then m else <[id := h]> m) es m = M.
Proof.
  revert m. induction es as [|[id h] es IH]; intros m Hes Hm HM; cbn [fold_left].
  { apply (anti_symm (⊆)); [done|]. apply map_subseteq_spec. intros id h Hid.
    destruct (HM id h Hid) as [?%not_elem_of_nil|?]; done. }
  destruct (Hes id h) as [-> Hid]; [by left|]. apply IH.
  - intros k l Hk. apply Hes. by right.
  - apply insert_subseteq_l; done.
  - intros k l Hk. destruct (HM k l Hk) as [[[= -> ->]|?]%elem_of_cons|Hl]; [|by left|].
    + right. apply lookup_insert_eq.
    + right. destruct (decide (k = id)) as [->|]; [|by rewrite lookup_insert_ne].
      rewrite lookup_insert_eq. congruence.
Qed.

Lemma replay_entries_spec db d tip (hist : History) hs :
  represents db d → ledger d tip hist → (∀ h, h ∈ hs → 1 ≤ h ≤ tip) →
  ∃ es, replay_entries hs db = Ok es ∧
    ∀ (id : hash) h, (id, h) ∈ es ↔ h ∈ hs ∧ ∃ b rh, hist !! h = Some (b, rh) ∧ carries b id.
Proof.
  intros Hd Hl. induction hs as [|h hs IH]; intros Hhs; cbn [replay_entries].
  { exists []. split; [done|]. intros id h. split; [by intros ?%not_elem_of_nil|by intros [?%not_elem_of_nil _]]. }
  destruct (proj2 (le_heights _ _ _ Hl h)) as [[b rh] Hb]; [apply Hhs; by left|].
  rewrite (stored_announcing _ _ _ _ _ Hd (le_entry _ _ _ Hl _ _ _ Hb)). cbn [rbind].
  destruct IH as (es & -> & Hes); [intros k Hk; apply Hhs; by right|]. cbn [rbind]. eexists. split; [done|].
  intros id k. rewrite elem_of_app, Hes, elem_of_cons. unfold filter_map. rewrite list_elem_of_omap. split.
  - intros [(tx & Hin & E)|[? ?]]; [|auto]. apply fmap_Some in E as (x & Ex & [= -> ->]). split; [by left|].
    exists b, rh. split; [done|]. exists tx. split; [done|]. by destruct (transaction_id tx) as [y|]; [injection Ex as ->|].
  - intros [[->|Hk] (b' & rh' & Hb' & Hcar)]; [left|right; eauto]. rewrite Hb in Hb'. injection Hb' as <- <-.
    destruct Hcar as (tx & Hin & E). exists tx. by rewrite E.
Qed.
(** ** The blocks above a restored state *)

(** A chain resumed up to a height: the names of the history; no signer
    key, grace window or ban from before, no checkpoint. *)
Record resumes (hist : History) (k : N) (c : Blockchain) : Prop := {
  rs_ok : chain_ok c;
  rs_height : chain_height c = k;
  rs_entry : ∃ r r', hist !! k = Some (tip_block c, r) ∧ agree r r' ∧ ChainProps.represents c r';
  rs_network : bc_network c = TESTNET;
  rs_included (id : hash) h : bc_included c !! id = Some h →
    1 ≤ h ≤ k ∧ k < h + REPLAY_WINDOW_BLOCKS ∧ ∃ b rh, hist !! h = Some (b, rh) ∧ carries b id;
  rs_finality : bc_checkpoints c = [] ∧ bc_finalized c = None }.

Lemma entry_time d h b rh : entry_ok d h b rh → bk_timestamp b < U64 ∧ h < U64.
Proof. intros [<- [(_ & ? & ?) _] _ _ _ _]. done. Qed.

Lemma resumes_restore d tip hist h b rh x s :
  ledger d tip hist → hist !! h = Some (b, rh) → header_hash (bk_header b) = Ok x → refines s (restarted rh) →
  ∃ c, restore h x b s = Some c ∧ bc_tip c = x ∧ tip_block c = b ∧ bc_state c = s ∧ resumes hist h c.
Proof.
  intros Hl Hb Hx Hs. pose proof (le_entry _ _ _ Hl _ _ _ Hb) as He. destruct (entry_time _ _ _ _ He) as [Ht Hh].
  assert (1 ≤ h ≤ tip) as Hr by (apply (le_heights _ _ _ Hl); by eexists).
  assert (cs_network s = TESTNET) as Hn by (rewrite (rf_network _ _ Hs); apply (en_network _ _ _ _ He)).
  destruct (restore_spec h x b s) as (c & Ec & Hok & Etip & Eb & Es & En & Ei & Ecp & Ef);
    [apply He|lia|done|done|intros ->; by eapply le_first|].
  exists c. split_and!; try done. split; try done.
  - unfold chain_height. rewrite Eb. apply He.
  - rewrite Eb. exists rh, (restarted rh). split; [done|]. split; [done|]. split.
    + by rewrite Es.
    + apply restarted_ok, He.
    + apply (agree_free rh); [done|apply He].
    + by rewrite Eb.
  - intros id k. rewrite Ei. rewrite lookup_empty. done.
Qed.

Lemma resumes_push d tip hist k c b r c' x :
  ledger d tip hist → resumes hist k c → hist !! (k + 1) = Some (b, r) →
  push_block c b = (c', Ok x) → resumes hist (k + 1) c'.
Proof.
  intros Hl [Hok Hk (rk & rr & Hhist & Ha & Hrep) Hn Hi [Hcp Hf]] Hb. unfold push_block.
  destruct (push_block_with_gc c b) as [c1 [a|e]] eqn:Ep; [|done]. cbn [rmap]. intros [= -> _].
  pose proof (le_entry _ _ _ Hl _ _ _ Hb) as He. destruct (entry_time _ _ _ _ He) as [Ht _].
  destruct (le_rules _ _ _ Hl _ _ _ _ _ Hhist Hb) as [Hfree Hrules].
  assert (agree (registry_gc (bk_timestamp (tip_block c)) rk) (expired c rr)) as Hag by by apply agree_gc.
  destruct (push_accepted c rr b c' a Hok Hrep Ht) as (r' & [Hp Hr' Hrep' _]); [by eapply block_free_agree|done|].
  split.
  - apply Hp.
  - rewrite (pu_height _ _ _ _ Hp). by rewrite Hk.
  - rewrite (pu_tip_block _ _ _ _ Hp). exists r, r'. split; [done|]. split; [|done]. by eapply registry_block_agree.
  - by rewrite (pu_network _ _ _ _ Hp).
  - intros id h. rewrite (pu_included _ _ _ _ Hp), (pu_height _ _ _ _ Hp), Hk.
    rewrite prune_included_lookup, record_included_lookup, (en_height _ _ _ _ He).
    + intros [[[Hc ->]|[_ E]] Hlt]; [split_and!; [lia|lia|done|eauto]|]. apply Hi in E as (? & _ & ?). split_and!; [lia|lia|done|done].
    + intros id' h'. rewrite record_included_lookup, (en_height _ _ _ _ He). intros [[_ ->]|[_ E]]; [lia|]. apply Hi in E. lia.
  - by rewrite (pu_checkpoints _ _ _ _ Hp), (pu_finalized _ _ _ _ Hp).
Qed.

Lemma heights_cons lo hi : lo ≤ hi → heights lo hi = lo :: heights (lo + 1) hi.
Proof.
  intros Hh. unfold heights. replace (N.to_nat (hi + 1 - lo)) with (S (N.to_nat (hi + 1 - (lo + 1)))) by lia.
  cbn [seq map]. rewrite N.add_0_r. f_equal. rewrite <- seq_shift, map_map. apply map_ext. lia.
Qed.
Lemma heights_nil lo hi : hi < lo → heights lo hi = [].
Proof. intros Hh. unfold heights. by replace (N.to_nat (hi + 1 - lo)) with 0%nat by lia. Qed.
Lemma heights_elem lo hi h : h ∈ heights lo hi ↔ lo ≤ h ≤ hi.
Proof.
  unfold heights. rewrite list_elem_of_fmap. setoid_rewrite elem_of_seq. split.
  - intros (i & -> & ?). lia.
  - intros ?. exists (N.to_nat (h - lo)). lia.
Qed.

Lemma resumes_suffix db d tip hist k c c' :
  represents db d → ledger d tip hist → resumes hist k c → k ≤ tip →
  replay_suffix (heights (k + 1) tip) db c = Some c' → resumes hist tip c'.
Proof.
  intros Hd Hl Hc Hk. remember (N.to_nat (tip - k)) as n eqn:En. revert k c Hc Hk En.
  induction n as [|n IH]; intros k c Hc Hk En.
  { rewrite heights_nil by lia. intros [= <-]. by replace tip with k by lia. }
  rewrite heights_cons by lia. cbn [replay_suffix].
  destruct (proj2 (le_heights _ _ _ Hl (k + 1))) as [[b r] Hb]; [lia|].
  rewrite (stored_announcing _ _ _ _ _ Hd (le_entry _ _ _ Hl _ _ _ Hb)).
  destruct (push_block c b) as [c1 [x|e]] eqn:Ep; [|done]. apply IH; [by eapply resumes_push|lia..].
Qed.
(** ** The two loaders *)

Lemma snapshot_resumes db d tip hist network x c :
  represents db d → ledger d tip hist →
  try_load_from_snapshot db network tip x = Some c → resumes hist tip c ∧ bc_tip c = x.
Proof.
  intros Hd Hl. unfold try_load_from_snapshot. rewrite (snapshot_meta_spec _ _ Hd). cbn [to_option mbind option_bind].
  destruct (k_snapshot d) as [[h y]|] eqn:Es; [|done]. cbn [fmap option_fmap option_map mbind option_bind fst snd sm_height sm_tip_hash].
  destruct (le_snapshot _ _ _ Hl _ _ Es) as (_ & b & rh & Hb & Hy & ED & ET).
  pose proof (le_entry _ _ _ Hl _ _ _ Hb) as He.
  destruct (_ || _) eqn:Eg; [done|]. apply orb_false_iff in Eg as [_ Hlt%N.leb_gt].
  rewrite (stored_announcing _ _ _ _ _ Hd He). cbn [to_option mbind option_bind]. rewrite Hy.
  cbn [to_option mbind option_bind]. unfold arr_eqb at 1. rewrite bool_decide_true by done. cbn [negb].
  unfold snapshot_domains, snapshot_tlds.
  destruct (load_states_spec (t_snapshot_domains db) (t_snapshot_tlds db) rh) as (s & -> & Hs);
    [by rewrite (rp_snapshot_domains _ _ Hd), ED|by rewrite (rp_snapshot_tlds _ _ Hd), ET|apply He..|].
  cbn [to_option mbind option_bind].
  destruct (resumes_restore _ _ _ _ _ _ _ _ Hl Hb Hy Hs) as (c0 & -> & _ & _ & _ & Hc0). cbn [mbind option_bind].
  destruct (replay_suffix _ _ _) as [c1|] eqn:Er; [|done]. cbn [mbind option_bind].
  apply (resumes_suffix _ _ _ _ _ _ _ Hd Hl Hc0) in Er as Hc1; [|lia].
  unfold arr_eqb. case_bool_decide as Et; [|done]. cbn [negb]. case_bool_decide; [|done]. by intros [= <-].
Qed.

Lemma full_resumes db d tip hist r b x :
  represents db d → ledger d tip hist → k_domains d = stored_domains r → k_tlds d = stored_tlds r →
  hist !! tip = Some (b, r) → header_hash (bk_header b) = Ok x →
  ∃ c, load_from_full_state db TESTNET tip b x = Ok c ∧ resumes hist tip c ∧ bc_tip c = x ∧
    refines (bc_state c) (restarted r) ∧ bc_finalized c = None.
Proof.
  intros Hd Hl ED ET Hb Hx. pose proof (le_entry _ _ _ Hl _ _ _ Hb) as He. unfold load_from_full_state.
  destruct (load_states_spec (t_domains db) (t_tlds db) r) as (s & Es & Hs);
    [by rewrite (rp_domains _ _ Hd), ED|by rewrite (rp_tlds _ _ Hd), ET|apply He..|].
  unfold iterate_domains, iterate_tlds. rewrite Es. cbn [rbind].
  destruct (resumes_restore _ _ _ _ _ _ _ _ Hl Hb Hx Hs) as (c0 & E0 & Htip & _ & Es0 & Hc0). unfold restored. rewrite E0.
  cbn [ok_or rbind]. unfold network_id. rewrite (rs_network _ _ _ Hc0). rewrite bool_decide_true by done. cbn [negb].
  exists c0. split_and!; try done; [by rewrite Es0|apply (rs_finality _ _ _ Hc0)].
Qed.

(** The ledger says nothing of the domains of the tip. *)
Lemma ledger_domains d D tip hist : ledger (k_with_domains D d) tip hist → ledger d tip hist.
Proof. intros [? ? He ? ? ?]. split; try done. intros h b rh Hh. destruct (He h b rh Hh). by split. Qed.

(** The index after the last step of a restart: that of the live chain. *)
Lemma index_rebuilt db d D c r hist c' :
  represents db d → mirrors (k_with_domains D d) c r hist → 0 < chain_height c → chain_height c' = chain_height c →
  (∀ (id : hash) h, bc_included c' !! id = Some h →
    1 ≤ h ≤ chain_height c ∧ chain_height c < h + REPLAY_WINDOW_BLOCKS ∧ ∃ b rh, hist !! h = Some (b, rh) ∧ carries b id) →
  ∃ c2, rebuild_replay_index_from_store db c' (chain_height c) = Ok c2 ∧ c2 = with_included (bc_included c) c'.
Proof.
  intros Hd Hm Hpos Ehc Hinc. pose proof (ledger_domains _ _ _ _ (mi_ledger _ _ _ _ Hm)) as Hl. pose proof (mi_ok _ _ _ _ Hm) as Hok.
  destruct (mi_replay _ _ _ _ Hm) as [Hw Hi]. unfold rebuild_replay_index_from_store.
  assert (read_verified_marker db = Ok None) as ->.
  { pose proof (rp_marker_row _ _ Hd) as Er. pose proof (mi_marker _ _ _ _ Hm) as Em. cbn [k_with_domains k_marker] in Em. rewrite Em in Er. exact Er. }
  cbn [rbind]. set (start := N.max _ 1).
  destruct (replay_entries_spec db d _ hist (heights start (chain_height c)) Hd Hl) as (es & -> & Hes).
  { intros h Hh%heights_elem. unfold start in *. lia. }
  cbn [rbind]. eexists. split; [done|]. unfold rebuild_replay_index. rewrite Ehc.
  assert (∀ (id : hash) h b rh, start ≤ h ≤ chain_height c → hist !! h = Some (b, rh) → carries b id →
    bc_included c !! id = Some h) as Hin.
  { intros id h b rh Hh Hb Hcar. apply Hi. unfold start, REPLAY_WINDOW_BLOCKS in *. split_and!; [lia|lia|lia|].
    exists b. split; [|done]. destruct (proj2 (block_is_Some c h Hok)) as [b' Hb'].
    { right. unfold wide, first_height, RAM_WINDOW_BLOCKS in *. lia. }
    destruct (mi_window _ _ _ _ Hm h b') as [rh' Hb2]; [lia|done|]. rewrite Hb in Hb2. by injection Hb2 as -> _. }
  f_equal. apply index_fold.
  - intros id h (Hh%heights_elem & b & rh & Hb & Hcar)%Hes. split; [|by eapply Hin].
    apply orb_false_iff. unfold start, REPLAY_WINDOW_BLOCKS in *. split; [apply N.ltb_ge|apply N.leb_gt]; lia.
  - apply map_subseteq_spec. intros id h (Hh & Hlt & b & rh & Hb & Hcar)%Hinc.
    eapply Hin; [|done..]. unfold start, REPLAY_WINDOW_BLOCKS in *. lia.
  - intros id h (Hh & Hle & Hlt & b & Hb & Hcar)%Hi. left. apply Hes. split.
    + apply heights_elem. unfold start, REPLAY_WINDOW_BLOCKS in *. lia.
    + destruct (mi_window _ _ _ _ Hm h b) as [rh Hrh]; [lia|done|]. eauto.
Qed.

Lemma index_resumes db d c r hist c' :
  represents db d → mirrors d c r hist → 0 < chain_height c → resumes hist (chain_height c) c' →
  ∃ c2, rebuild_replay_index_from_store db c' (chain_height c) = Ok c2 ∧ c2 = with_included (bc_included c) c'.
Proof.
  intros Hd Hm Hpos Hc'. rewrite <- (with_own_domains d) in Hm.
  eapply index_rebuilt; [exact Hd|exact Hm|exact Hpos|apply Hc'|apply (rs_included _ _ _ Hc')].
Qed.

(** ** The network of a loaded chain *)

Lemma load_states_network da ta rd rt s : load_states da ta rd rt = Ok s → cs_network s = TESTNET.
Proof.
  unfold load_states. set (P := λ s : ChainState, cs_network s = TESTNET).
  destruct (for_pages _ _ da _ _ _) as [[s1|]|] eqn:E1; try done. cbn [default id from_option rbind].
  assert (P s1) as P1.
  { eapply (for_pages_invariant P); [|apply (eq_refl : P ChainState_new)|exact E1]. intros b [i e] b' Hb. unfold visit_domain.
    destruct (DomainStateBytes_decode _) as [st|]; [|done]. cbn [rbind]. unfold restore_domain.
    destruct (is_Some_dec _); [done|]. intros [= <-]. exact Hb. }
  destruct (for_pages _ _ ta _ _ _) as [[s2|]|] eqn:E2; try done. cbn [default id from_option]. intros [= <-].
  eapply (for_pages_invariant P); [|exact P1|exact E2]. intros b [i e] b' Hb. unfold visit_tld.
  destruct (TldStateBytes_decode _) as [st|]; [|done]. cbn [rbind]. unfold restore_tld.
  destruct (is_Some_dec _); [done|]. intros [= <-]. exact Hb.
Qed.

Lemma restore_network h x b s c : restore h x b s = Some c → bc_network c = cs_network s.
Proof. unfold restore. destruct (negb _); [done|]. by intros [= <-]. Qed.

Lemma evict_network c : bc_network (evict_below_window c) = bc_network c.
Proof. unfold evict_below_window. destruct (finality_floor c); [|done]. by case_match. Qed.

Lemma push_network c b : bc_network (push_block_with_gc c b).1 = bc_network c.
Proof.
  unfold push_block_with_gc. destruct (check_block c b); [|done]. destruct (gc_expired_journaled _ _ _) as [σ gc].
  destruct (apply_block_txs _ _ σ) as [[s j] [u|e]]; [|done]. cbn [fst]. unfold Chain.append_block.
  cbn [with_included bc_network]. by rewrite evict_network.
Qed.

Lemma suffix_network hs db c c' : replay_suffix hs db c = Some c' → bc_network c' = bc_network c.
Proof.
  revert c. induction hs as [|h hs IH]; intros c; cbn [replay_suffix]; [by intros [= <-]|].
  destruct (block_announcing h db) as [b|]; [|done]. pose proof (push_network c b) as Hn. unfold push_block.
  destruct (push_block_with_gc c b) as [c1 [a|]]; [|done]. cbn [rmap fst] in *. intros E%IH. congruence.
Qed.

Lemma snapshot_network db network tip x c :
  try_load_from_snapshot db network tip x = Some c → np_network_id network = np_network_id TESTNET.
Proof.
  unfold try_load_from_snapshot. intros (m & _ & E)%bind_Some. apply bind_Some in E as (m' & _ & E).
  destruct (_ || _); [done|]. apply bind_Some in E as (b & _ & E). apply bind_Some in E as (y & _ & E).
  destruct (negb _); [done|]. apply bind_Some in E as (s & Es & E). apply bind_Some in E as (c0 & Ec0 & E).
  apply bind_Some in E as (c1 & Ec1 & E). destruct (negb _); [done|].
  destruct (bool_decide_reflect (network_id c1 = np_network_id network)) as [<-|]; [|done].
  unfold network_id. rewrite (suffix_network _ _ _ _ Ec1), (restore_network _ _ _ _ _ Ec0).
  destruct (load_states _ _ _ _) as [s'|] eqn:El; [|done]. injection Es as ->. by rewrite (load_states_network _ _ _ _ _ El).
Qed.

Lemma full_network db network tip b x c :
  load_from_full_state db network tip b x = Ok c → np_network_id network = np_network_id TESTNET.
Proof.
  unfold load_from_full_state. intros (s & Es & E)%rbind_Ok. apply rbind_Ok in E as (c1 & Ec1 & E).
  destruct (bool_decide_reflect (network_id c1 = np_network_id network)) as [<-|]; [|done].
  unfold network_id, restored in *. destruct (restore _ _ _ _) as [c2|] eqn:Er; [|done]. injection Ec1 as ->.
  by rewrite (restore_network _ _ _ _ _ Er), (load_states_network _ _ _ _ _ Es).
Qed.

(** ** Loading the chain *)

(** Up to the choice of the loader. *)
Lemma load_chain_tip db d D c r hist :
  represents db d → mirrors (k_with_domains D d) c r hist → 0 < chain_height c →
  load_chain db TESTNET =
    match try_load_from_snapshot db TESTNET (chain_height c) (bc_tip c) with
    | Some chain => rebuild_replay_index_from_store db chain (chain_height c)
    | None =>
        let? chain := load_from_full_state db TESTNET (chain_height c) (tip_block c) (bc_tip c) in
        rebuild_replay_index_from_store db chain (chain_height c)
    end.
Proof.
  intros Hd Hm Hpos. pose proof (ledger_domains _ _ _ _ (mi_ledger _ _ _ _ Hm)) as Hl. pose proof (mi_ok _ _ _ _ Hm) as Hok.
  pose proof (le_entry _ _ _ Hl _ _ _ (mi_last _ _ _ _ Hm Hpos)) as He.
  pose proof (ok_tip _ Hok) as Hx. unfold load_chain.
  assert (store_tip db = Ok (chain_height c, bc_tip c)) as ->.
  { rewrite <- (mi_tip _ _ _ _ Hm). exact (rp_tip_row _ _ Hd). }
  cbn [rbind]. destruct (N.eqb_spec (chain_height c) 0) as [|_]; [lia|].
  assert (read_verified_marker db = Ok None) as ->.
  { pose proof (rp_marker_row _ _ Hd) as Er. pose proof (mi_marker _ _ _ _ Hm) as Em. cbn [k_with_domains k_marker] in Em. rewrite Em in Er. exact Er. }
  cbn [rbind]. rewrite (block_at_height_spec _ _ _ Hd). pose proof He as [_ Hwf (x & bytes & Hx' & Eb & Ek) _ _ _].
  rewrite Ek. cbn [fmap option_fmap option_map snd rbind].
  rewrite (@decode_complete_roundtrip _ Block_c Block_lawful _ bytes Hwf Eb). cbn [map_err rbind].
  rewrite (en_height _ _ _ _ He), N.eqb_refl. cbn [negb]. rewrite Hx. cbn [map_err rbind].
  unfold arr_eqb. by rewrite bool_decide_true by done.
Qed.

Lemma load_full db d c r hist :
  represents db d → mirrors d c r hist → 0 < chain_height c → k_snapshot d = None →
  ∃ c', load_chain db TESTNET = Ok (with_included (bc_included c) c') ∧
    refines (bc_state c') (restarted r) ∧ bc_finalized c' = None.
Proof.
  intros Hd Hm Hpos Es. rewrite (load_chain_tip db d (k_domains d) c r hist Hd) by (by rewrite ?with_own_domains).
  assert (try_load_from_snapshot db TESTNET (chain_height c) (bc_tip c) = None) as ->.
  { unfold try_load_from_snapshot. by rewrite (snapshot_meta_spec _ _ Hd), Es. }
  destruct (full_resumes _ _ _ _ r _ _ Hd (mi_ledger _ _ _ _ Hm) (mi_domains _ _ _ _ Hm) (mi_tlds _ _ _ _ Hm)
    (mi_last _ _ _ _ Hm Hpos) (ok_tip _ (mi_ok _ _ _ _ Hm))) as (c' & -> & Hc' & Ht & Hs & Hf).
  cbn [rbind]. destruct (index_resumes _ _ _ _ _ _ Hd Hm Hpos Hc') as (c2 & -> & ->). by exists c'.
Qed.

Lemma load_resumes db d c r hist :
  represents db d → mirrors d c r hist → 0 < chain_height c →
  ∃ c', load_chain db TESTNET = Ok (with_included (bc_included c) c') ∧
    resumes hist (chain_height c) c' ∧ bc_tip c' = bc_tip c.
Proof.
  intros Hd Hm Hpos. rewrite (load_chain_tip db d (k_domains d) c r hist Hd) by (by rewrite ?with_own_domains). pose proof (mi_ledger _ _ _ _ Hm) as Hl.
  destruct (try_load_from_snapshot db TESTNET (chain_height c) (bc_tip c)) as [c'|] eqn:Es.
  - destruct (snapshot_resumes _ _ _ _ _ _ _ Hd Hl Es) as [Hc' Ht].
    destruct (index_resumes _ _ _ _ _ _ Hd Hm Hpos Hc') as (c2 & -> & ->). by exists c'.
  - destruct (full_resumes _ _ _ _ r _ _ Hd Hl (mi_domains _ _ _ _ Hm) (mi_tlds _ _ _ _ Hm)
      (mi_last _ _ _ _ Hm Hpos) (ok_tip _ (mi_ok _ _ _ _ Hm))) as (c' & -> & Hc' & Ht & _).
    cbn [rbind]. destruct (index_resumes _ _ _ _ _ _ Hd Hm Hpos Hc') as (c2 & -> & ->). by exists c'.
Qed.

(** A disk that lost domains of the tip, and that never froze a state:
    the chain that is loaded does not have them. *)
Lemma load_lost db d c r r2 hist :
  represents db d → mirrors (k_with_domains (stored_domains r) d) c r hist → 0 < chain_height c → k_snapshot d = None →
  k_domains d = stored_domains r2 → r_tlds r2 = r_tlds r → r_network r2 = r_network r → registry_ok r2 → collision_free r2 →
  ∃ c', load_chain db TESTNET = Ok (with_included (bc_included c) c') ∧
    chain_height c' = chain_height c ∧ bc_tip c' = bc_tip c ∧ refines (bc_state c') (restarted r2).
Proof.
  intros Hd Hm Hpos Es ED ET EN Hok2 Hc2. rewrite (load_chain_tip db d (stored_domains r) c r hist Hd Hm Hpos).
  assert (try_load_from_snapshot db TESTNET (chain_height c) (bc_tip c) = None) as ->.
  { unfold try_load_from_snapshot. by rewrite (snapshot_meta_spec _ _ Hd), Es. }
  pose proof (mi_ledger _ _ _ _ Hm) as Hl. pose proof (mi_last _ _ _ _ Hm Hpos) as Hlast.
  pose proof (le_entry _ _ _ Hl _ _ _ Hlast) as He. destruct (entry_time _ _ _ _ He) as [_ Hh].
  destruct (load_states_spec (t_domains db) (t_tlds db) r2) as (s & Els & Hs);
    [by rewrite (rp_domains _ _ Hd), ED|rewrite (rp_tlds _ _ Hd); unfold stored_tlds; rewrite ET; f_equal; exact (mi_tlds _ _ _ _ Hm)
    |done|done|rewrite EN; apply (mi_network _ _ _ _ Hm)|].
  unfold load_from_full_state, iterate_domains, iterate_tlds. rewrite Els. cbn [rbind].
  destruct (restore_spec (chain_height c) (bc_tip c) (tip_block c) s) as (c0 & Ec & _ & Etip & Eb & Est & En & Ei & _);
    [apply He|lia|apply (ok_tip _ (mi_ok _ _ _ _ Hm))|rewrite (rf_network _ _ Hs); etrans; [exact EN|apply (mi_network _ _ _ _ Hm)]| |].
  { intros E1. apply (le_first _ _ _ Hl _ r). by rewrite <- E1 at 1. }
  unfold restored. rewrite Ec. cbn [ok_or rbind]. unfold network_id. rewrite En, bool_decide_true by done. cbn [negb rbind].
  assert (chain_height c0 = chain_height c) as Eh by (unfold chain_height; by rewrite Eb).
  destruct (index_rebuilt db d (stored_domains r) c r hist c0 Hd Hm Hpos Eh) as (c2 & -> & ->).
  { intros id h. by rewrite Ei, lookup_empty. }
  exists c0. split_and!; [done..|]. by rewrite Est.
Qed.
End resume.
