(* ===== verification/RestartProps.v ===== *)
(** * Properties of persistence and restart *)

From S2P Require Import Prelude Bytes Crypto Commitment Smt Names Icann Codec Checkpoint Pow Tx Wire.
From S2P Require Import State StateSpec StateProofs StateProps Blocks BlocksProps Chain ChainProofs ChainProps.
From S2P Require Import StateBytes Redb Store StoreSpec StorePaging StoreProofs StoreProps Persist PersistProofs.
From S2P Require Import Restart Mirror Resume.

Section props.
Context `{Crypto} `{RedbLaws} `{!Faults}.
#[local] Existing Instances laws_heights laws_bytes.

(** ** A node that stores its chain *)

(** What a stored push assumes: the numbers of the block fit their
    types, no two names collide under BLAKE3, the counters have room, and
    no domain is expired and registered again by the same block. *)
Record storable (c : Blockchain) (r : Registry) (b : Block) (a : AppliedBlock) : Prop := {
  so_wf : Block_wf b;
  so_free : block_collision_free c r b = true;
  so_gone id : id ∈ ab_gc_removed_domains a → r_domains (block_outcome c r b).1 !! id = None;
  so_domains : count (r_domains r) + MAX_TXS_PER_BLOCK < U64;
  so_tlds : count (r_tlds r) + MAX_TXS_PER_BLOCK < U64 }.

(** A node on the test network, from a new file: blocks pushed and
    stored with the domains they expired, blocks refused, checkpoints,
    records cached for the DHT. *)
Inductive node_run : Db → Blockchain → Registry → Prop :=
| node_new db : store_open empty_db = (db, Ok tt) → node_run db (chain_for_network TESTNET) (empty_registry TESTNET)
| node_block db c r b c' a db' :
    node_run db c r → push_block_with_gc c b = (c', Ok a) → storable c r b a →
    store_block_with_removals c' b (ab_hash a) (ab_gc_removed_domains a) db = (db', Ok tt) →
    node_run db' c' (block_outcome c r b).1
| node_refused db c r b c' e :
    node_run db c r → block_collision_free c r b = true → push_block_with_gc c b = (c', Err e) → node_run db c' r
| node_checkpoint db c r cp c' res : node_run db c r → accept_checkpoint c cp = (c', res) → node_run db c' r
| node_cache db c r id record : node_run db c r → node_run (put_dht_cache id record db).1 c r.

Lemma node_mirrors db c r : node_run db c r → ∃ d hist, represents db d ∧ mirrors d c r hist.
Proof.
  induction 1 as [db E|db c r b c' a db' _ (d & hist & Hd & Hm) Ep [Hwf Hf Hg HD HT] Es
    |db c r b c' e _ (d & hist & Hd & Hm) Hf Ep|db c r cp c' res _ (d & hist & Hd & Hm) E
    |db c r id record _ (d & hist & Hd & Hm)].
  - exists fresh_disk, ∅. split; [by apply open_fresh|apply fresh_mirrors].
  - destruct (store_mirrors db d c r hist b c' a db') as (d' & ? & ?); try done; [by apply run_block_free|]. eauto.
  - destruct (push_refused c r b c' e (mi_state _ _ _ _ Hm) (run_block_free _ _ _ Hf) Ep) as (s & Ec & Hs).
    exists d, hist. split; [done|]. eapply mirrors_frame; [done..| |done]. by eapply step_push.
  - exists d, hist. split; [done|]. by eapply mirrors_accept.
  - destruct (store_write_simulates (WPutDht id record) d db Hd I) as [(e & E & _)|Hsim]; cbn [store_write disk_write] in *.
    { exists d, hist. by rewrite E. }
    destruct (MAX_DHT_CACHE_ENTRY <? blen record); [exists d, hist; by rewrite Hsim|].
    destruct Hsim as (db' & -> & Hd'). eexists _, hist. split; [exact Hd'|]. destruct Hm as [? ? ? ? ? ? ? ? ? ? ? Hl].
    split; try done. destruct Hl as [? ? He ? ? ?]. split; try done. intros h b rh Hh. destruct (He h b rh Hh). by split.
Qed.

(** C8. The store mirrors the chain, in the scope of [node_run]: a node of
    the test network, from a new file, that extends its chain block by
    block — no sister of the tip and no branch adopted, no restart — and
    whose accepted blocks were stored and are [storable]: numbers that fit,
    no hash collision, room in the counters, no domain that one block
    expires and registers again.  After every step of such a node the tip
    the store holds is the chain's, its domains and TLDs are those of the
    state — each read back exactly, and as many as are counted — and every
    block from 1 to the tip is stored and decodes, those in memory to
    themselves. *)
Theorem store_mirrors_chain db c r :
  node_run db c r →
  store_tip db = Ok (chain_height c, bc_tip c) ∧
  (∀ id, domain_state id db = Ok (DomainStateBytes_from <$> cs_domain (bc_state c) id)) ∧
  (∀ id, tld_state id db = Ok (TldStateBytes_from <$> cs_tld (bc_state c) id)) ∧
  domain_count db = Ok (cs_domain_count (bc_state c)) ∧ tld_count db = Ok (cs_tld_count (bc_state c)) ∧
  (∀ h, 1 ≤ h ≤ chain_height c → is_ok (block_announcing h db) = true) ∧
  (∀ h b, 1 ≤ h → block c h = Some b → block_announcing h db = Ok b).
Proof.
  intros (d & hist & Hd & Hm)%node_mirrors. pose proof (mi_state _ _ _ _ Hm) as Hs.
  pose proof (mi_ledger _ _ _ _ Hm) as Hl. split_and!.
  - rewrite <- (mi_tip _ _ _ _ Hm). by apply rp_tip_row.
  - intros id. rewrite (domain_state_spec _ _ _ Hd), (mi_domains _ _ _ _ Hm).
    rewrite (refines_domain _ _ _ (rp_refines _ _ Hs) (rp_ok _ _ Hs)). unfold stored_domains. rewrite lookup_fmap.
    destruct (r_domains r !! id) as [st|]; [|done]. cbn [fmap option_fmap option_map]. by rewrite reread_from.
  - intros id. rewrite (refines_tld _ _ _ (rp_refines _ _ Hs) (rp_free _ _ Hs)).
    rewrite (tld_state_spec _ _ _ Hd), (mi_tlds _ _ _ _ Hm). unfold stored_tlds. by rewrite lookup_fmap.
  - rewrite (domain_count_spec _ _ Hd), (mi_domains _ _ _ _ Hm), (rf_domain_count _ _ (rp_refines _ _ Hs)).
    unfold count, stored_domains. by rewrite map_size_fmap.
  - rewrite (tld_count_spec _ _ Hd), (mi_tlds _ _ _ _ Hm), (rf_tld_count _ _ (rp_refines _ _ Hs)).
    unfold count, stored_tlds. by rewrite map_size_fmap.
  - intros h Hh. apply (le_heights _ _ _ Hl) in Hh as [[b rh] Hb].
    by rewrite (stored_announcing _ _ _ _ _ Hd (le_entry _ _ _ Hl _ _ _ Hb)).
  - intros h b Hh Hb. destruct (mi_window _ _ _ _ Hm h b Hh Hb) as [rh Hrh].
    apply (stored_announcing _ _ _ _ _ Hd (le_entry _ _ _ Hl _ _ _ Hrh)).
Qed.

(** C7. Restart, in the scope of [node_run]: a node of the test network,
    from a new file, whose accepted blocks extend its tip, are [storable]
    and were stored — no sister or branch adopted and no restart before,
    no domain that one block expires and registers again.  Whenever such a
    node stops, the chain is loaded again from its store — through the
    frozen state and the blocks above it, or through the full state — at
    the same height, with the same tip and tip block, the same live
    domains and TLDs and so the same state root, expiry queue and
    reference counts, and the same anti-replay index; the result is a
    well-formed chain. *)
Theorem restart_restores_chain db c r :
  node_run db c r →
  ∃ c', load_chain db TESTNET = Ok c' ∧ chain_ok c' ∧
    chain_height c' = chain_height c ∧ bc_tip c' = bc_tip c ∧ tip_block c' = tip_block c ∧
    bc_network c' = bc_network c ∧ bc_included c' = bc_included c ∧
    state_root_smt (bc_state c') = state_root_smt (bc_state c) ∧
    cs_backend (bc_state c') = cs_backend (bc_state c) ∧
    cs_expirations (bc_state c') = cs_expirations (bc_state c) ∧
    cs_owner_refcounts (bc_state c') = cs_owner_refcounts (bc_state c).
Proof.
  intros (d & hist & Hd & Hm)%node_mirrors. pose proof (mi_state _ _ _ _ Hm) as Hs. pose proof (mi_ok _ _ _ _ Hm) as Hok.
  destruct (mi_network _ _ _ _ Hm) as [Hn _]. destruct (decide (chain_height c = 0)) as [E0|Hne].
  - exists (chain_for_network TESTNET). rewrite (mi_genesis _ _ _ _ Hm E0) in Hs.
    destruct (agree_root _ _ _ _ (for_network_refines TESTNET) (rp_refines _ _ Hs)) as (? & ? & ? & ?); [done|].
    pose proof (genesis_tip_block c Hok E0) as Et.
    split_and!; try done.
    + unfold load_chain. assert (store_tip db = Ok (chain_height c, bc_tip c)) as ->.
      { rewrite <- (mi_tip _ _ _ _ Hm). by apply rp_tip_row. }
      cbn [rbind]. by rewrite E0.
    + apply chain_for_network_ok.
    + by rewrite (genesis_tip c Hok E0), Hn.
    + by rewrite Et, Hn.
    + apply map_eq. intros id. transitivity (None : option N); [apply lookup_empty|]. symmetry. apply eq_None_not_Some.
      intros [h Hi]. apply (mi_replay _ _ _ _ Hm) in Hi. lia.
  - destruct (load_resumes db d c r hist Hd Hm) as (c' & Ec & Hc' & Htip); [lia|]. eexists. split; [exact Ec|].
    destruct (rs_entry _ _ _ Hc') as (r1 & r2 & Hh & Ha & Hs'). rewrite (mi_last _ _ _ _ Hm) in Hh by lia.
    injection Hh as Et <-. destruct (agree_root _ _ _ _ (rp_refines _ _ Hs) (rp_refines _ _ Hs') Ha) as (? & ? & ? & ?).
    split_and!; try done.
    + eapply chain_ok_frame; [..|apply (rs_ok _ _ _ Hc')]; done.
    + apply (rs_height _ _ _ Hc').
    + by rewrite Hn, <- (rs_network _ _ _ Hc').
Qed.
(** ** What a restart loses *)

Lemma select_committee_nil seed size : select_committee seed [] size = [].
Proof. unfold select_committee. change (btree_set []) with (@nil PublicKey). by destruct size. Qed.

(** A restart forgets who the validators are: on a node whose state
    was never frozen (a chain of at most 64 blocks) the loaded chain has
    no signer key, no ban, no grace window and no finalized checkpoint,
    so its validator pool and its committee are empty and it accepts
    blocks of any producer; a slashed validator is no longer banned, and
    a lapsed domain can be taken by anyone. *)
Theorem restart_forgets_validators db c r :
  node_run db c r → 0 < chain_height c ≤ SNAPSHOT_INTERVAL →
  ∃ c', load_chain db TESTNET = Ok c' ∧
    cs_owner_keys (bc_state c') = ∅ ∧ cs_banned (bc_state c') = ∅ ∧ cs_grace (bc_state c') = ∅ ∧
    bc_finalized c' = None ∧ eligible_validators (bc_state c') = [] ∧
    (∀ rec, committee c' rec = []) ∧ ∀ t, allowed_producers c' t = ∅.
Proof.
  intros (d & hist & Hd & Hm)%node_mirrors Hh. pose proof (mi_ledger _ _ _ _ Hm) as Hl.
  destruct (load_full db d c r hist Hd Hm) as (c' & -> & Hs & Hf).
  { lia. } { destruct (k_snapshot d) as [[h x]|] eqn:Es; [|done]. destruct (le_snapshot _ _ _ Hl h x Es). lia. }
  eexists. split; [done|]. cbn [with_included bc_state bc_finalized].
  assert (eligible_validators (bc_state c') = []) as He.
  { unfold eligible_validators. rewrite (rf_keys _ _ Hs).
    assert (∀ l : list hash, omap (λ o, (∅ : gmap OwnerId PublicKey) !! o) l = []) as Ho.
    { induction l as [|o l IH]; [done|]. cbn. by rewrite lookup_empty. }
    cbn [restarted r_keys]. by rewrite Ho. }
  split_and!; [apply (rf_keys _ _ Hs)|apply (rf_banned _ _ Hs)|apply (rf_grace _ _ Hs)|done|done|..].
  - intros rec. unfold committee. cbn [bc_finalized with_included bc_state]. rewrite Hf, He.
    destruct (rec =? 0); [apply select_committee_nil|done].
  - intros t. unfold allowed_producers. cbn [bc_finalized with_included bc_state]. by rewrite Hf, He.
Qed.

(** ** Expired and registered again by one block *)

(** A registry without the domains [l], as a restart knows it. *)
Definition without (l : list DomainId) (r : Registry) : Registry :=
  mkRegistry (r_network r) (deletes l (r_domains r)) (r_tlds r) ∅ ∅ ∅.

Lemma without_subset l r : r_domains (without l r) ⊆ r_domains r.
Proof. apply map_subseteq_spec. intros id st. cbn. rewrite deletes_lookup. by case_decide. Qed.

Lemma without_ok l r : registry_ok r → registry_ok (without l r).
Proof.
  intros [Hd _ _]. split; [|intros id [? Hid]; cbn in Hid; by rewrite lookup_empty in Hid|apply map_Forall_empty].
  intros id st Hid. apply (Hd id), (lookup_weaken _ _ _ _ Hid), without_subset.
Qed.

Lemma without_free l r : collision_free r → collision_free (without l r).
Proof.
  intros [Hdis Hleaf]. assert (∀ id x, r_leaves (without l r) !! id = Some x → r_leaves r !! id = Some x) as Hsub.
  { intros id x. unfold r_leaves. rewrite !both_lookup. cbn. rewrite deletes_lookup.
    destruct (r_domains r !! id) as [st|] eqn:E; case_decide; try done.
    rewrite Hdis by by eexists. done. }
  split.
  - intros id Hid. cbn. apply Hdis. by eapply lookup_weaken_is_Some, without_subset.
  - intros id id' x E1%Hsub E2%Hsub. by eapply Hleaf.
Qed.

Lemma without_stored l r : stored_domains (without l r) = deletes l (stored_domains r).
Proof.
  apply map_eq. intros id. unfold stored_domains. rewrite deletes_lookup, !lookup_fmap. cbn. rewrite deletes_lookup.
  by case_decide.
Qed.

Lemma without_fewer l r (id : DomainId) :
  id ∈ l → is_Some (r_domains r !! id) → (size (r_domains (without l r)) < size (r_domains r))%nat.
Proof.
  intros Hin Hid. apply map_subset_size. split; [apply without_subset|]. intros Hsub.
  eapply lookup_weaken_is_Some in Hsub; [|exact Hid]. cbn in Hsub. rewrite deletes_lookup, decide_True in Hsub by done.
  by destruct Hsub.
Qed.

(** C26. A domain that one block expires and registers again is lost by
    the store.  On a node of the test network whose store mirrors its
    chain, a block is accepted and stored without an error; a domain that
    it expired ([ab_gc_removed_domains]) is live again in its state.  The
    store then has the tip of the chain and every other domain, but not
    this one: the removals of the delta come after its upserts.  As long
    as no state was frozen — up to height 64 — a restart loads a chain of
    that height with that tip and without the domain. *)
Theorem reregistered_domain_lost db c r b c' a db' (id : DomainId) st :
  node_run db c r → push_block_with_gc c b = (c', Ok a) → Block_wf b → block_collision_free c r b = true →
  count (r_domains r) + MAX_TXS_PER_BLOCK < U64 → count (r_tlds r) + MAX_TXS_PER_BLOCK < U64 →
  store_block_with_removals c' b (ab_hash a) (ab_gc_removed_domains a) db = (db', Ok tt) →
  id ∈ ab_gc_removed_domains a → cs_domain (bc_state c') id = Some st →
  store_tip db' = Ok (chain_height c', bc_tip c') ∧ domain_state id db' = Ok None ∧
  (∀ k : DomainId, k ∉ ab_gc_removed_domains a →
    domain_state k db' = Ok (DomainStateBytes_from <$> cs_domain (bc_state c') k)) ∧
  (chain_height c' ≤ SNAPSHOT_INTERVAL → ∃ c2, load_chain db' TESTNET = Ok c2 ∧
    chain_height c2 = chain_height c' ∧ bc_tip c2 = bc_tip c' ∧ cs_domain (bc_state c2) id = None ∧
    cs_domain_count (bc_state c2) < cs_domain_count (bc_state c') ∧
    ∀ k : DomainId, k ∉ ab_gc_removed_domains a → cs_domain (bc_state c2) k = cs_domain (bc_state c') k).
Proof.
  intros (d & hist & Hd & Hm)%node_mirrors Ep Hwf Hf HD HT Es Hin Hlive.
  destruct (store_mirrors_removed db d c r hist b c' a db') as (d' & Hd' & Hacc & ED & Hm'); try done; [by apply run_block_free|].
  set (r' := (block_outcome c r b).1) in *. set (l := ab_gc_removed_domains a) in *.
  pose proof (mi_state _ _ _ _ Hm') as Hs. pose proof (refines_domain _ _ id (rp_refines _ _ Hs) (rp_ok _ _ Hs)) as Eid.
  assert (∀ k : DomainId, domain_state k db' = Ok (reread <$> (if decide (k ∈ l) then None else stored_domains r' !! k))) as Hds.
  { intros k. by rewrite (domain_state_spec _ _ _ Hd'), ED, deletes_lookup. }
  split_and!.
  - etrans; [exact (rp_tip_row _ _ Hd')|]. f_equal. exact (mi_tip _ _ _ _ Hm').
  - by rewrite Hds, decide_True.
  - intros k Hk. rewrite Hds, decide_False by done. rewrite (refines_domain _ _ k (rp_refines _ _ Hs) (rp_ok _ _ Hs)).
    unfold stored_domains. rewrite lookup_fmap. destruct (r_domains r' !! k) as [x|]; [|done].
    cbn [fmap option_fmap option_map]. by rewrite reread_from.
  - intros Hh. assert (0 < chain_height c') as Hpos by (rewrite (pu_height _ _ _ _ (ac_pushed _ _ _ _ _ _ Hacc)); lia).
    assert (k_snapshot d' = None) as Esn.
    { destruct (k_snapshot d') as [[h x]|] eqn:E; [|done]. destruct (le_snapshot _ _ _ (mi_ledger _ _ _ _ Hm') h x E). lia. }
    destruct (load_lost db' d' c' r' (without l r') _ Hd' Hm' Hpos Esn) as (c0 & El & Eh & Et & Hs0);
      [by rewrite without_stored|done|done|by apply without_ok, Hs|by apply without_free, Hs|].
    eexists. split; [exact El|]. split; [exact Eh|]. split; [exact Et|]. cbn [with_included bc_state].
    assert (∀ k : DomainId, cs_domain (bc_state c0) k = if decide (k ∈ l) then None else cs_domain (bc_state c') k) as Hk.
    { intros k. rewrite (refines_domain _ _ k Hs0) by by apply restarted_ok, without_ok, Hs.
      rewrite (refines_domain _ _ k (rp_refines _ _ Hs) (rp_ok _ _ Hs)). cbn. apply deletes_lookup. }
    split_and!.
    + by rewrite Hk, decide_True.
    + rewrite (rf_domain_count _ _ Hs0), (rf_domain_count _ _ (rp_refines _ _ Hs)).
      pose proof (without_fewer l r' id Hin) as Hlt. cbn [restarted r_domains]. rewrite <- Eid, Hlive in Hlt.
      specialize (Hlt ltac:(by eexists)). lia.
    + intros k Hk'. by rewrite Hk, decide_False.
Qed.

(** Only a test-network chain is ever loaded again: both loaders
    build the state with [ChainState::new], that of the test network, and
    then compare its network with the one that is requested; so whatever
    a store with at least one block holds, starting it for any other
    network is an error. *)
Theorem other_network_never_restarts db network h x :
  np_network_id network ≠ np_network_id TESTNET → store_tip db = Ok (h, x) → h ≠ 0 →
  is_ok (load_chain db network) = false.
Proof.
  intros Hn Et Hh. apply not_true_is_false. intros [c Ec]%is_ok_Ok. revert Ec. unfold load_chain. rewrite Et. cbn [rbind].
  destruct (N.eqb_spec h 0) as [|_]; [done|]. intros (m & _ & E)%rbind_Ok. apply rbind_Ok in E as (o & _ & E).
  apply rbind_Ok in E as (bytes & _ & E). apply rbind_Ok in E as (b & _ & E). destruct (negb _); [done|].
  apply rbind_Ok in E as (y & _ & E). destruct (negb _); [done|].
  destruct (try_load_from_snapshot _ _ _ _) as [c1|] eqn:Es; [by apply Hn, (snapshot_network _ _ _ _ _ Es)|].
  apply rbind_Ok in E as (c1 & Ef & _). by apply Hn, (full_network _ _ _ _ _ _ Ef).
Qed.
End props.
