(* ===== verification/Snapshot.v ===== *)
(** * Verified snapshots ([scone-blockchain]: [snapshot_verify.rs];
    [scone-storage]: [verified_snapshot.rs])

    The manifest and the pages that carry the state of a finalized block,
    their encodings and hashes, the export from a store, and the import
    that recomputes the state root from the entries before it writes
    anything.  The marker of an import is in [Store]. *)

From S2P Require Import Prelude Bytes Crypto Commitment Smt Names Icann Codec Checkpoint Pow Tx Wire State StateSpec.
From S2P Require Import Blocks Chain StateBytes Redb Store StorePaging Persist.

(** ** Recomputing the state root *)

Section verify.
Context `{Crypto}.

(** [scone-blockchain/src/snapshot_verify.rs:90-95 top_hash] *)
Definition top_hash (root : hash) : hash := hash256 [ascii "SCONE-STATE-SMT-V1" ++ arr_list root].

(** The tree of a list of entries. *)
Definition entries_smt (ds : list (DomainId * DomainState)) (ts : list (TldId * TldState)) : Smt :=
  let t := fold_left (λ t e, smt_insert t (smt_key e.1) (domain_leaf_v2 e.1 e.2)) ds smt_new in
  fold_left (λ t e, smt_insert t (smt_key e.1) (tld_leaf_v2 e.1 e.2)) ts t.

(** [scone-blockchain/src/snapshot_verify.rs:61-75 recompute_state_root] *)
Definition recompute_state_root (ds : list (DomainId * DomainState)) (ts : list (TldId * TldState)) : hash :=
  top_hash (smt_root (entries_smt ds ts)).
End verify.

(** ** The manifest *)

(** [scone-storage/src/verified_snapshot.rs:67-67 MANIFEST_TAG] *)
Definition MANIFEST_TAG : list byte := ascii "SCONE-SNAP-MAN-V1".
(** [scone-storage/src/verified_snapshot.rs:69-69 PAGE_TAG] *)
Definition PAGE_TAG : list byte := ascii "SCONE-SNAP-PAGE-V1".
(** [scone-storage/src/verified_snapshot.rs:72-72 PAGE_HASH_TAG] *)
Definition PAGE_HASH_TAG : list byte := ascii "SCONE-SNAP-PAGE-HASH".
(** [scone-storage/src/verified_snapshot.rs:74-74 MANIFEST_HASH_TAG] *)
Definition MANIFEST_HASH_TAG : list byte := ascii "SCONE-SNAP-MAN-HASH".
(** [scone-storage/src/verified_snapshot.rs:82-82 VERIFIED_SNAPSHOT_PAGE_ENTRIES] *)
Definition VERIFIED_SNAPSHOT_PAGE_ENTRIES : N := 256.
(** [scone-storage/src/verified_snapshot.rs:87-87 MAX_VERIFIED_SNAPSHOT_PAGE_ENTRIES] *)
Definition MAX_VERIFIED_SNAPSHOT_PAGE_ENTRIES : N := 10000.
(** [scone-storage/src/verified_snapshot.rs:90-90 MAX_VERIFIED_SNAPSHOT_PAGES] *)
Definition MAX_VERIFIED_SNAPSHOT_PAGES : N := N.shiftl 1 20.

(** [scone-storage/src/verified_snapshot.rs:112-129 VerifiedSnapshotManifest] *)
Record VerifiedSnapshotManifest := mkManifest {
  mf_height : N;
  mf_tip_hash : hash;
  mf_state_root : hash;
  mf_page_count : N;
  mf_domain_count : N;
  mf_tld_count : N;
  mf_page_hashes : list hash }.

(** [scone-storage/src/verified_snapshot.rs:134-147 VerifiedSnapshotManifest::encode] *)
Definition Manifest_encode (m : VerifiedSnapshotManifest) : list byte :=
  MANIFEST_TAG ++ be_bytes 8 (mf_height m) ++ arr_list (mf_tip_hash m) ++ arr_list (mf_state_root m) ++
  be_bytes 4 (mf_page_count m) ++ be_bytes 8 (mf_domain_count m) ++ be_bytes 8 (mf_tld_count m) ++
  concat (map arr_list (mf_page_hashes m)).

(** [bytes[at..at + n]], and what is left after [at += n]. *)
Definition cut (n : nat) (bytes : list byte) : list byte * list byte := (take n bytes, drop n bytes).

(** The [n] hashes at the front of [bytes]. *)
Fixpoint cut_hashes (n : nat) (bytes : list byte) : list hash :=
  match n with
  | O => []
  | S n => let '(h, bytes) := cut 32 bytes in arr_of 32 h :: cut_hashes n bytes
  end.

(** [scone-storage/src/verified_snapshot.rs:156-199 VerifiedSnapshotManifest::decode] *)
Definition Manifest_decode (bytes : list byte) : result StorageError VerifiedSnapshotManifest :=
  let header := (length MANIFEST_TAG + 8 + 32 + 32 + 4 + 8 + 8)%nat in
  if (length bytes <? header)%nat || negb (bool_decide (take (length MANIFEST_TAG) bytes = MANIFEST_TAG)) then Err Corrupted
  else
    let len := length bytes in
    let '(_, bytes) := cut (length MANIFEST_TAG) bytes in
    let '(height, bytes) := cut 8 bytes in
    let '(tip_hash, bytes) := cut 32 bytes in
    let '(state_root, bytes) := cut 32 bytes in
    let '(page_count, bytes) := cut 4 bytes in
    let page_count := be_val page_count in
    let '(domain_count, bytes) := cut 8 bytes in
    let '(tld_count, bytes) := cut 8 bytes in
    if MAX_VERIFIED_SNAPSHOT_PAGES <? page_count then Err Corrupted
    else if negb (len =? header + 32 * N.to_nat page_count)%nat then Err Corrupted
    else Ok (mkManifest (be_val height) (arr_of 32 tip_hash) (arr_of 32 state_root) page_count
      (be_val domain_count) (be_val tld_count) (cut_hashes (N.to_nat page_count) bytes)).

(** ** Pages *)

(** [scone-storage/src/verified_snapshot.rs:213-228 SnapshotEntry] *)
Inductive SnapshotEntry :=
| SnapDomain (id : DomainId) (state : DomainStateBytes)
| SnapTld (id : TldId) (state : TldStateBytes).

#[global] Instance SnapshotEntry_eq_dec : EqDecision SnapshotEntry.
Proof. solve_decision. Defined.

(** [scone-storage/src/verified_snapshot.rs:242-253 SnapshotPage] *)
Record SnapshotPage := mkPage {
  pg_index : N;
  pg_height : N;
  pg_state_root : hash;
  pg_entries : list SnapshotEntry }.

(** [scone-storage/src/verified_snapshot.rs:266-273 SnapshotPage::encode]: one entry. *)
Definition entry_encode (e : SnapshotEntry) : list byte :=
  let '(kind, id, state) :=
    match e with
    | SnapDomain id state => (x01, arr_list id, DomainStateBytes_as_encoded state)
    | SnapTld id state => (x02, arr_list id, TldStateBytes_as_encoded state)
    end in
  kind :: id ++ be_bytes 2 (N.of_nat (length state)) ++ state.

(** [scone-storage/src/verified_snapshot.rs:258-276 SnapshotPage::encode] *)
Definition Page_encode (p : SnapshotPage) : list byte :=
  PAGE_TAG ++ be_bytes 4 (pg_index p) ++ be_bytes 8 (pg_height p) ++ arr_list (pg_state_root p) ++
  be_bytes 4 (N.of_nat (length (pg_entries p))) ++ concat (map entry_encode (pg_entries p)).

(** [bytes.get(at..at + n)] and [at += n]. *)
Definition get (n : nat) (bytes : list byte) : result StorageError (list byte * list byte) :=
  if (length bytes <? n)%nat then Err Corrupted else Ok (cut n bytes).

(** [scone-storage/src/verified_snapshot.rs:309-353 SnapshotPage::decode]: the
    entries, and the bytes after them. *)
Fixpoint decode_entries (n : nat) (bytes : list byte) : result StorageError (list SnapshotEntry * list byte) :=
  match n with
  | O => Ok ([], bytes)
  | S n =>
      let? (kind, bytes) := get 1 bytes in
      let? (id, bytes) := get 32 bytes in
      let id := arr_of 32 id in
      let? (len, bytes) := get 2 bytes in
      let len := N.to_nat (be_val len) in
      let? (state_bytes, bytes) := get len bytes in
      let? entry :=
        if bool_decide (kind = [x01]) then
          if negb (len =? DOMAIN_STATE_LEN_SOME)%nat && negb (len =? DOMAIN_STATE_LEN_NONE)%nat then Err Corrupted
          else Ok (SnapDomain id (arr_of 89 state_bytes))
        else if bool_decide (kind = [x02]) then
          if negb (len =? TLD_STATE_LEN)%nat then Err Corrupted
          else Ok (SnapTld id (arr_of 34 state_bytes))
        else Err Corrupted in
      let? (entries, bytes) := decode_entries n bytes in
      Ok (entry :: entries, bytes)
  end.

(** [scone-storage/src/verified_snapshot.rs:287-363 SnapshotPage::decode] *)
Definition Page_decode (bytes : list byte) : result StorageError SnapshotPage :=
  let header := (length PAGE_TAG + 4 + 8 + 32 + 4)%nat in
  if (length bytes <? header)%nat || negb (bool_decide (take (length PAGE_TAG) bytes = PAGE_TAG)) then Err Corrupted
  else
    let '(_, bytes) := cut (length PAGE_TAG) bytes in
    let '(index, bytes) := cut 4 bytes in
    let '(height, bytes) := cut 8 bytes in
    let '(state_root, bytes) := cut 32 bytes in
    let '(entry_count, bytes) := cut 4 bytes in
    let entry_count := be_val entry_count in
    if MAX_VERIFIED_SNAPSHOT_PAGE_ENTRIES <? entry_count then Err Corrupted
    else
      let? (entries, bytes) := decode_entries (N.to_nat entry_count) bytes in
      if negb (length bytes =? 0)%nat then Err Corrupted
      else Ok (mkPage (be_val index) (be_val height) (arr_of 32 state_root) entries).

Section snapshot.
Context `{Crypto}.

(** [scone-storage/src/verified_snapshot.rs:203-205 VerifiedSnapshotManifest::hash] *)
Definition Manifest_hash (m : VerifiedSnapshotManifest) : hash := hash256 [MANIFEST_HASH_TAG; Manifest_encode m].
(** [scone-storage/src/verified_snapshot.rs:367-369 SnapshotPage::hash] *)
Definition Page_hash (p : SnapshotPage) : hash := hash256 [PAGE_HASH_TAG; Page_encode p].

(** ** Export *)

(** [scone-storage/src/verified_snapshot.rs:533-551 page_entry_slot]: an
    entry is pushed on the page this returns. *)
Definition page_push (checkpoint : Checkpoint) (h : N) (pages : list SnapshotPage) (e : SnapshotEntry)
    : list SnapshotPage :=
  let fresh := mkPage (N.of_nat (length pages) mod 2 ^ 32) h (state_root (data checkpoint)) [e] in
  match last pages with
  | Some p =>
      if VERIFIED_SNAPSHOT_PAGE_ENTRIES <=? N.of_nat (length (pg_entries p)) then pages ++ [fresh]
      else take (length pages - 1) pages ++
             [mkPage (pg_index p) (pg_height p) (pg_state_root p) (pg_entries p ++ [e])]
  | None => pages ++ [fresh]
  end.

Context `{Redb}.

(** The pages so far, and the number of entries pushed. *)
Definition export_visit {A} (mk : hash → A → SnapshotEntry) (cp : Checkpoint) (h : N)
    (acc : list SnapshotPage * N) (e : hash * A) : result StorageError (list SnapshotPage * N) :=
  Ok (page_push cp h acc.1 (mk e.1 e.2), acc.2 + 1).

(** [scone-storage/src/verified_snapshot.rs:482-514 export_verified_snapshot]: the
    two paging loops; a table has at most as many pages as rows. *)
Definition export_pages (store : Db) (cp : Checkpoint) (h : N) : result StorageError (list SnapshotPage * N * N) :=
  let p := VERIFIED_SNAPSHOT_PAGE_ENTRIES in
  let rounds (t : tb (list byte)) := S (length (tb_range None t)) in
  let? (pages, domain_count) := default (Err Corrupted)
    (for_pages (N.to_nat p) (rounds (t_snapshot_domains store)) (λ c, snapshot_domains c p store)
       (export_visit SnapDomain cp h) None ([], 0)) in
  let? (pages, tld_count) := default (Err Corrupted)
    (for_pages (N.to_nat p) (rounds (t_snapshot_tlds store)) (λ c, snapshot_tlds c p store)
       (export_visit SnapTld cp h) None (pages, 0)) in
  Ok (pages, domain_count, tld_count).

(** [scone-storage/src/verified_snapshot.rs:438-529 export_verified_snapshot] *)
Definition export_verified_snapshot (store : Db) (cp : Checkpoint)
    : result StorageError (VerifiedSnapshotManifest * list (list byte)) :=
  let? meta := snapshot_meta store in
  let? meta := ok_or meta SnapshotUnavailable in
  if? sm_height meta =? 0 return SnapshotUnavailable;
  if? negb (sm_height meta =? height (data cp)) return SnapshotUnavailable;
  if? negb (arr_eqb (sm_tip_hash meta) (block_hash (data cp))) return SnapshotUnavailable;
  let? anchor_bytes := block_at_height (sm_height meta) store in
  let? anchor_bytes := ok_or anchor_bytes SnapshotUnavailable in
  let? anchor := map_err (λ _, Corrupted) (decode_complete (dec Block_c) anchor_bytes) in
  if? negb (bk_height anchor =? sm_height meta) return Corrupted;
  let? recomputed := map_err (λ _, Corrupted) (header_hash (bk_header anchor)) in
  if? negb (arr_eqb recomputed (sm_tip_hash meta)) return SnapshotUnavailable;
  let? (pages, domain_count, tld_count) := export_pages store cp (sm_height meta) in
  Ok (mkManifest (sm_height meta) (sm_tip_hash meta) (state_root (data cp)) (N.of_nat (length pages) mod 2 ^ 32)
        domain_count tld_count (map Page_hash pages),
      map Page_encode pages).

(** ** Import *)

(** What the loop over the pages collects. *)
Record Imported := mkImported {
  im_domains : list (DomainId * DomainStateBytes);
  im_tlds : list (TldId * TldStateBytes);
  im_domains_dec : list (DomainId * DomainState);
  im_tlds_dec : list (TldId * TldState);
  im_last_domain : option hash;
  im_last_tld : option hash }.

(** [last.is_some_and(|prev| id <= prev)] *)
Definition not_ascending (last : option hash) (id : hash) : bool :=
  match last with Some prev => bool_decide (bytes_le (arr_list id) (arr_list prev)) | None => false end.

(** [scone-storage/src/verified_snapshot.rs:662-682 import_verified_snapshot]: the
    entries of a page. *)
Definition import_entry (im : Imported) (e : SnapshotEntry) : result StorageError Imported :=
  match e with
  | SnapDomain id state =>
      if not_ascending (im_last_domain im) id then Err SnapshotRejected
      else
        let? decoded := DomainStateBytes_decode (DomainStateBytes_as_encoded state) in
        Ok (mkImported (im_domains im ++ [(id, state)]) (im_tlds im) (im_domains_dec im ++ [(id, decoded)])
          (im_tlds_dec im) (Some id) (im_last_tld im))
  | SnapTld id state =>
      if not_ascending (im_last_tld im) id then Err SnapshotRejected
      else
        let? decoded := TldStateBytes_decode (TldStateBytes_as_encoded state) in
        Ok (mkImported (im_domains im) (im_tlds im ++ [(id, state)]) (im_domains_dec im)
          (im_tlds_dec im ++ [(id, decoded)]) (im_last_domain im) (Some id))
  end.

(** [scone-storage/src/verified_snapshot.rs:645-683 import_verified_snapshot]: the
    loop over the pages, from the page of index [i]. *)
Fixpoint import_pages (m : VerifiedSnapshotManifest) (i : nat) (pages : list (list byte)) (im : Imported)
    : result StorageError Imported :=
  match pages with
  | [] => Ok im
  | raw :: pages =>
      let? page := Page_decode raw in
      if? negb (pg_index page =? N.of_nat i mod 2 ^ 32) return SnapshotRejected;
      if? negb (pg_height page =? mf_height m) return SnapshotRejected;
      if? negb (arr_eqb (pg_state_root page) (mf_state_root m)) return SnapshotRejected;
      if? negb (arr_eqb (Page_hash page) (nth i (mf_page_hashes m) (arr_zero 32))) return SnapshotRejected;
      let? im := rfold import_entry (pg_entries page) im in
      import_pages m (S i) pages im
  end.

(** [scone-storage/src/verified_snapshot.rs:602-701 import_verified_snapshot]: everything
    before the write. *)
Definition import_checked (store : Db) (cp : Checkpoint) (m : VerifiedSnapshotManifest) (pages : list (list byte))
    : result StorageError Imported :=
  let n := N.of_nat (length pages) in
  if? negb (mf_page_count m =? n) || negb (length (mf_page_hashes m) =? length pages)%nat return SnapshotRejected;
  if? mul64 MAX_VERIFIED_SNAPSHOT_PAGE_ENTRIES n <? sat_add64 (mf_domain_count m) (mf_tld_count m)
    return SnapshotRejected;
  if? negb (mf_height m =? height (data cp)) return SnapshotRejected;
  if? negb (arr_eqb (mf_tip_hash m) (block_hash (data cp))) return SnapshotRejected;
  if? negb (arr_eqb (mf_state_root m) (state_root (data cp))) return SnapshotRejected;
  if? mf_height m =? 0 return SnapshotRejected;
  let? (tip_height, _) := store_tip store in
  if? negb (tip_height =? 0) return SnapshotUnavailable;
  let? im := import_pages m 0 pages (mkImported [] [] [] [] None None) in
  if? negb (N.of_nat (length (im_domains im)) =? mf_domain_count m) return SnapshotRejected;
  if? negb (N.of_nat (length (im_tlds im)) =? mf_tld_count m) return SnapshotRejected;
  if? negb (arr_eqb (recompute_state_root (im_domains_dec im) (im_tlds_dec im)) (mf_state_root m))
    return SnapshotRejected;
  Ok im.

(** [scone-storage/src/verified_snapshot.rs:596-709 import_verified_snapshot] *)
Definition import_verified_snapshot `{!Faults} (store : Db) (cp : Checkpoint) (m : VerifiedSnapshotManifest)
    (pages : list (list byte)) : Db * result StorageError unit :=
  match import_checked store cp m pages with
  | Err e => (store, Err e)
  | Ok im =>
      write_verified_snapshot (im_domains im) (im_tlds im)
        (mkMarker (mf_height m) (mf_tip_hash m) (Manifest_hash m)) store
  end.
End snapshot.
