(* ===== verification/SnapshotProofs.v ===== *)
(** * Verified snapshots: encodings, pages, the recomputed root *)

From S2P Require Import Prelude Bytes Crypto Commitment Smt SmtProofs SmtBinding Names Icann Codec Checkpoint Pow Tx.
From S2P Require Import Wire State StateSpec StateProofs StateProps StateBinding Blocks Chain StateBytes Redb Store.
From S2P Require Import StoreSpec StorePaging StoreProofs StoreProps Persist Restart Snapshot.

(** ** Encodings *)

Lemma cut_app n (a b : list byte) : length a = n → cut n (a ++ b) = (a, b).
Proof. intros <-. unfold cut. by rewrite take_app_length, drop_app_length. Qed.

Lemma get_app n (a b : list byte) : length a = n → get n (a ++ b) = Ok (a, b).
Proof.
  intros Hn. unfold get. rewrite cut_app by done. rewrite length_app, Hn.
  destruct (Nat.ltb_spec (n + length b) n); [lia|done].
Qed.

Lemma get_Ok n bytes a b : get n bytes = Ok (a, b) → bytes = a ++ b ∧ length a = n.
Proof.
  unfold get. destruct (Nat.ltb_spec (length bytes) n); [done|]. unfold cut. intros [= <- <-].
  rewrite take_drop, length_take. split; [done|lia].
Qed.

(** Fields cut one after the other. *)
Ltac cuts :=
  repeat rewrite cut_app by (rewrite ?length_be_bytes, ?arr_length; done); cbv beta iota zeta.

Definition manifest_ok (m : VerifiedSnapshotManifest) : Prop :=
  mf_height m < U64 ∧ mf_domain_count m < U64 ∧ mf_tld_count m < U64 ∧
  mf_page_count m ≤ MAX_VERIFIED_SNAPSHOT_PAGES ∧ mf_page_count m = N.of_nat (length (mf_page_hashes m)).

Lemma cut_hashes_app hs : cut_hashes (length hs) (concat (map arr_list hs)) = hs.
Proof.
  induction hs as [|h hs IH]; [done|]. cbn [length map concat cut_hashes].
  rewrite cut_app by apply arr_length. by rewrite arr_of_list, IH.
Qed.

Lemma be_val_be_bytes_32 v : v < 2 ^ 32 → be_val (be_bytes 4 v) = v.
Proof. intros Hv. rewrite be_val_be_bytes. by apply N.mod_small. Qed.
Lemma be_val_be_bytes_16 v : v < 2 ^ 16 → be_val (be_bytes 2 v) = v.
Proof. intros Hv. rewrite be_val_be_bytes. by apply N.mod_small. Qed.

Lemma length_hashes (hs : list hash) : length (concat (map arr_list hs)) = (32 * length hs)%nat.
Proof. induction hs as [|h hs IH]; [done|]. cbn [map concat length]. rewrite length_app, arr_length, IH. lia. Qed.

Lemma Manifest_roundtrip m : manifest_ok m → Manifest_decode (Manifest_encode m) = Ok m.
Proof.
  intros (Hh & Hd & Ht & Hp & Hl). unfold Manifest_decode, Manifest_encode.
  rewrite take_app_length. rewrite bool_decide_true by done. cbn [negb].
  rewrite !length_app, !length_be_bytes, !arr_length, length_hashes.
  destruct (Nat.ltb_spec (length MANIFEST_TAG + (8 + (32 + (32 + (4 + (8 + (8 + 32 * length (mf_page_hashes m))))))))
    (length MANIFEST_TAG + 8 + 32 + 32 + 4 + 8 + 8)); [lia|]. cbn [orb]. cuts.
  assert (mf_page_count m < 2 ^ 32) as Hp32 by (unfold MAX_VERIFIED_SNAPSHOT_PAGES in Hp; change (2 ^ 32) with 4294967296; change (N.shiftl 1 20) with 1048576 in Hp; lia).
  rewrite !be_val_be_bytes_64, be_val_be_bytes_32, !arr_of_list by done.
  rewrite (proj2 (N.ltb_ge _ _)) by done. rewrite Hl, Nat2N.id.
  destruct (Nat.eqb_spec (length MANIFEST_TAG + (8 + (32 + (32 + (4 + (8 + (8 + 32 * length (mf_page_hashes m)))))))) (length MANIFEST_TAG + 8 + 32 + 32 + 4 + 8 + 8 + 32 * length (mf_page_hashes m))); [|lia].
  cbn [negb]. rewrite cut_hashes_app, <- Hl. by destruct m.
Qed.

(** An entry whose unused bytes are zero, as [DomainStateBytes::from] and
    the tables give it. *)
Definition entry_exact (e : SnapshotEntry) : Prop :=
  match e with SnapDomain _ st => reread st = st | SnapTld _ _ => True end.

Lemma decode_entry e n rest :
  entry_exact e →
  decode_entries (S n) (entry_encode e ++ rest) =
    let? (es, bytes) := decode_entries n rest in Ok (e :: es, bytes).
Proof.
  intros He. cbn [decode_entries]. destruct e as [id st|id st]; unfold entry_encode; cbn [app].
  - change (x01 :: ?l) with ([x01] ++ l). rewrite get_app by done. cbn [rbind].
    rewrite <- !app_assoc, get_app by apply arr_length. cbn [rbind]. rewrite get_app by apply length_be_bytes. cbn [rbind].
    set (l := DomainStateBytes_as_encoded st).
    assert (length l = DOMAIN_STATE_LEN_SOME ∨ length l = DOMAIN_STATE_LEN_NONE) as Hl by apply length_encoded.
    assert (be_val (be_bytes 2 (N.of_nat (length l))) = N.of_nat (length l)) as ->.
    { apply be_val_be_bytes_16. destruct Hl as [-> | ->]; done. }
    rewrite Nat2N.id, get_app by done. cbn [rbind]. rewrite bool_decide_true by done.
    assert (negb (length l =? DOMAIN_STATE_LEN_SOME)%nat && negb (length l =? DOMAIN_STATE_LEN_NONE)%nat = false) as ->
      by (destruct Hl as [-> | ->]; done).
    cbn [rbind]. rewrite arr_of_list. unfold entry_exact, reread in He. fold l in He. by rewrite He.
  - change (x02 :: ?l) with ([x02] ++ l). rewrite get_app by done. cbn [rbind].
    rewrite <- !app_assoc, get_app by apply arr_length. cbn [rbind]. rewrite get_app by apply length_be_bytes. cbn [rbind].
    set (l := TldStateBytes_as_encoded st).
    assert (l = arr_list st) as El by (apply take_ge; by rewrite arr_length).
    assert (length l = TLD_STATE_LEN) as Hl by (rewrite El; apply arr_length). rewrite Hl.
    change (be_val (be_bytes 2 (N.of_nat TLD_STATE_LEN))) with (N.of_nat TLD_STATE_LEN).
    rewrite Nat2N.id, get_app by done. cbn [rbind]. rewrite bool_decide_false, bool_decide_true by done.
    cbn [Nat.eqb TLD_STATE_LEN negb rbind]. by rewrite !arr_of_list, El, arr_of_list.
Qed.

Definition page_ok (p : SnapshotPage) : Prop :=
  pg_index p < 2 ^ 32 ∧ pg_height p < U64 ∧
  N.of_nat (length (pg_entries p)) ≤ MAX_VERIFIED_SNAPSHOT_PAGE_ENTRIES ∧ Forall entry_exact (pg_entries p).

Lemma Page_roundtrip p : page_ok p → Page_decode (Page_encode p) = Ok p.
Proof.
  intros (Hi & Hh & Hn & He). unfold Page_decode, Page_encode. rewrite take_app_length, bool_decide_true by done. cbn [negb].
  rewrite !length_app, !length_be_bytes, !arr_length.
  destruct (Nat.ltb_spec (length PAGE_TAG + (4 + (8 + (32 + (4 + length (concat (map entry_encode (pg_entries p)))))))) (length PAGE_TAG + 4 + 8 + 32 + 4)); [lia|].
  cbn [orb]. cuts.
  assert (N.of_nat (length (pg_entries p)) < 2 ^ 32) as Hn32
    by (unfold MAX_VERIFIED_SNAPSHOT_PAGE_ENTRIES in Hn; change (2 ^ 32) with 4294967296; lia).
  rewrite !be_val_be_bytes_32, be_val_be_bytes_64, arr_of_list by done. rewrite (proj2 (N.ltb_ge _ _)) by done.
  rewrite Nat2N.id.
  assert (∀ es, Forall entry_exact es → decode_entries (length es) (concat (map entry_encode es)) = Ok (es, [])) as Hes.
  { clear. induction 1 as [|e es He Hes IH]; [done|]. cbn [length map concat]. rewrite decode_entry by done. by rewrite IH. }
  rewrite Hes by done. cbn [rbind length Nat.eqb negb]. by destruct p.
Qed.

Lemma concat_cut_hashes n (b : list byte) :
  length b = (32 * n)%nat → concat (map arr_list (cut_hashes n b)) = b ∧ length (cut_hashes n b) = n.
Proof.
  revert b. induction n as [|n IH]; intros b Hb; cbn [cut_hashes cut map concat length].
  { by destruct b. }
  destruct (IH (drop 32 b)) as [E1 E2]; [rewrite length_drop; lia|]. rewrite E1, E2.
  rewrite arr_of_length by (rewrite length_take; lia). by rewrite take_drop.
Qed.

Lemma be_val_lt_32 l : length l = 4%nat → be_val l < 2 ^ 32.
Proof. intros E. unfold be_val. pose proof (le_val_lt (reverse l)) as Hl. by rewrite length_reverse, E in Hl. Qed.

(** The manifest has one encoding. *)
Lemma Manifest_canonical bytes m : Manifest_decode bytes = Ok m → manifest_ok m ∧ Manifest_encode m = bytes.
Proof.
  unfold Manifest_decode. set (tag := length MANIFEST_TAG).
  destruct (Nat.ltb_spec (length bytes) (tag + 8 + 32 + 32 + 4 + 8 + 8)) as [|Hlen]; [done|].
  case_bool_decide as Htag; [|done]. cbn [negb orb]. unfold cut.
  set (b1 := drop tag bytes). set (b2 := drop 8 b1). set (b3 := drop 32 b2). set (b4 := drop 32 b3).
  set (b5 := drop 4 b4). set (b6 := drop 8 b5). set (b7 := drop 8 b6).
  assert (length b1 = length bytes - tag)%nat as L1 by apply length_drop.
  assert (length b2 = length bytes - tag - 8)%nat as L2 by (unfold b2; rewrite length_drop; lia).
  assert (length b3 = length bytes - tag - 40)%nat as L3 by (unfold b3; rewrite length_drop; lia).
  assert (length b4 = length bytes - tag - 72)%nat as L4 by (unfold b4; rewrite length_drop; lia).
  assert (length b5 = length bytes - tag - 76)%nat as L5 by (unfold b5; rewrite length_drop; lia).
  assert (length b6 = length bytes - tag - 84)%nat as L6 by (unfold b6; rewrite length_drop; lia).
  assert (length b7 = length bytes - tag - 92)%nat as L7 by (unfold b7; rewrite length_drop; lia).
  destruct (N.ltb_spec MAX_VERIFIED_SNAPSHOT_PAGES (be_val (take 4 b4))) as [|Hp]; [done|].
  destruct (Nat.eqb_spec (length bytes) (tag + 8 + 32 + 32 + 4 + 8 + 8 + 32 * N.to_nat (be_val (take 4 b4)))) as [El|];
    [|done]. cbn [negb]. intros [= <-].
  destruct (concat_cut_hashes (N.to_nat (be_val (take 4 b4))) b7) as [Ec Eh]; [lia|].
  assert (∀ n (b : list byte), (n ≤ length b)%nat → length (take n b) = n) as Ht by (intros; rewrite length_take; lia).
  split.
  - unfold manifest_ok. cbn [mf_height mf_domain_count mf_tld_count mf_page_count mf_page_hashes]. rewrite Eh, N2Nat.id.
    split_and!; try done; apply be_val_lt_64, Ht; lia.
  - unfold Manifest_encode. cbn [mf_height mf_tip_hash mf_state_root mf_domain_count mf_tld_count mf_page_count mf_page_hashes].
    rewrite Ec, !be_bytes_be_val_n, !arr_of_length by (apply Ht; lia).
    rewrite <- Htag. unfold b7, b6, b5, b4, b3, b2, b1. by rewrite !take_drop.
Qed.

(** ** The recomputed root *)

Section root.
Context `{Crypto}.

Lemma fold_smt_insert {A} (leaf : hash → A → hash) (l : list (hash * A)) t :
  sc_wf t →
  let t' := fold_left (λ t e, smt_insert t (smt_key e.1) (leaf e.1 e.2)) l t in
  sc_wf t' ∧ ∀ k x, sc_has t' k x ↔ sc_has t k x ∨ ∃ id a, (id, a) ∈ l ∧ k = smt_key id ∧ x = leaf id a.
Proof.
  revert t. induction l as [|[id a] l IH]; intros t Ht; cbn [fold_left fst snd].
  { split; [done|]. intros k x. split; [by left|]. intros [?|(? & ? & ?%not_elem_of_nil & _)]; done. }
  destruct (IH (smt_insert t (smt_key id) (leaf id a))) as [Hw Hh]; [apply sc_wf_insert; [done|apply smt_key_ok]|].
  split; [done|]. intros k x. rewrite Hh, sc_has_insert by (done || apply smt_key_ok). setoid_rewrite elem_of_cons. split.
  - intros [[[-> ->]|?]|(i & b & ? & ?)]; [right; exists id, a; auto|by left|right; exists i, b; auto].
  - intros [?|(i & b & [[= -> ->]|?] & -> & ->)]; [auto|auto|right; exists i, b; auto].
Qed.

Lemma entries_smt_holds ds ts : holds (entries_smt ds ts) ds ts.
Proof.
  unfold entries_smt. destruct (fold_smt_insert domain_leaf_v2 ds smt_new) as [Hw Hh]; [apply sc_wf_empty|].
  set (t := fold_left _ ds smt_new) in *. destruct (fold_smt_insert tld_leaf_v2 ts t Hw) as [Hw' Hh'].
  set (t' := fold_left _ ts t) in *. split; [exact Hw'|]. intros k l. change (smt_has t' k l) with (sc_has t' k l).
  rewrite Hh', Hh. split; [intros [[E|?]|?]; [by apply sc_has_empty in E|by left|by right]|tauto].
Qed.

(** The tree of a registry's entries is the tree of its state. *)
Lemma entries_smt_live s r ds ts :
  refines s r → collision_free r → ds ≡ₚ map_to_list (r_domains r) → ts ≡ₚ map_to_list (r_tlds r) →
  entries_smt ds ts ≡ cs_smt s.
Proof.
  intros Hs Hc Hds Hts. pose proof (committed_holds _ _ (rf_smt _ _ Hs) Hc) as [Hw Hh].
  pose proof (entries_smt_holds ds ts) as [Hw' Hh'].
  apply (sc_canonical (SetCommitment := smt_commitment)); [done..|]. intros k l.
  change (sc_has (entries_smt ds ts) k l) with (smt_has (entries_smt ds ts) k l).
  change (sc_has (cs_smt s) k l) with (smt_has (cs_smt s) k l). rewrite Hh, Hh'. by setoid_rewrite Hds; setoid_rewrite Hts.
Qed.

Lemma recompute_live s r ds ts :
  refines s r → collision_free r → ds ≡ₚ map_to_list (r_domains r) → ts ≡ₚ map_to_list (r_tlds r) →
  recompute_state_root ds ts = state_root_smt s.
Proof.
  intros Hs Hc Hds Hts. unfold recompute_state_root, top_hash, state_root_smt.
  by rewrite (entries_smt_live s r ds ts).
Qed.
End root.

(** ** Checking an import *)

Section import.
Context `{Crypto}.

(** Entries in strictly ascending order of identifiers, the last one
    remembered, each decoded. *)
Record collected {A B} (decode : A → result StorageError B) (l : list (hash * A)) (dec : list (hash * B))
    (last_id : option hash) : Prop := {
  cl_dec : Forall2 (λ e e', e.1 = e'.1 ∧ decode e.2 = Ok e'.2) l dec;
  cl_sorted : StronglySorted bytes_lt (arr_list <$> l.*1);
  cl_last : last_id = last l.*1 }.

Lemma collected_push {A B} (decode : A → result StorageError B) l dec last_id (id : hash) a b :
  collected decode l dec last_id → not_ascending last_id id = false → decode a = Ok b →
  collected decode (l ++ [(id, a)]) (dec ++ [(id, b)]) (Some id).
Proof.
  intros [Hd Hs ->] Hn Hb. split.
  - apply Forall2_app; [done|]. by repeat constructor.
  - rewrite !fmap_app. apply StronglySorted_app. split_and!; [|done|repeat constructor].
    intros x y Hx Hy%list_elem_of_singleton. subst y. destruct (last l.*1) as [p|] eqn:El; cbn [not_ascending] in Hn.
    + apply bool_decide_eq_false in Hn. assert (bytes_lt (arr_list p) (arr_list id)) as Hlt.
      { destruct (bytes_lt_total (arr_list p) (arr_list id)) as [?|[E|?]]; [done|..]; exfalso; apply Hn;
          apply bytes_le_lt; [left|by right]. by apply arr_eq in E as ->. }
      apply last_Some in El as [l' El]. rewrite El, fmap_app in Hs, Hx. apply StronglySorted_app in Hs as (Hall & _ & _).
      apply elem_of_app in Hx as [Hx|Hx%list_elem_of_singleton]; [|by subst x].
      transitivity (arr_list p); [|done]. apply Hall; [done|]. by left.
    + apply last_None in El. rewrite El in Hx. by apply not_elem_of_nil in Hx.
  - rewrite fmap_app. cbn [fmap list_fmap fst]. by rewrite last_snoc.
Qed.

Definition decode_domain (b : DomainStateBytes) : result StorageError DomainState :=
  DomainStateBytes_decode (DomainStateBytes_as_encoded b).
Definition decode_tld (b : TldStateBytes) : result StorageError TldState :=
  TldStateBytes_decode (TldStateBytes_as_encoded b).

Record imported_ok (im : Imported) : Prop := {
  io_domains : collected decode_domain (im_domains im) (im_domains_dec im) (im_last_domain im);
  io_tlds : collected decode_tld (im_tlds im) (im_tlds_dec im) (im_last_tld im) }.

Lemma import_entry_ok im e im' : imported_ok im → import_entry im e = Ok im' → imported_ok im'.
Proof.
  intros [Hd Ht]. destruct e as [id st|id st]; cbn [import_entry];
    (destruct (not_ascending _ id) eqn:En; [done|]); intros (b & Eb & E%Ok_inj)%rbind_Ok; subst im';
    split; cbn; try done; by eapply collected_push.
Qed.

Lemma import_pages_ok m i pages im im' : imported_ok im → import_pages m i pages im = Ok im' → imported_ok im'.
Proof.
  revert i im. induction pages as [|raw pages IH]; intros i im Hi; cbn [import_pages]; [by intros [= <-]|].
  intros (p & _ & E)%rbind_Ok. do 4 (destruct (negb _); [done|]). apply rbind_Ok in E as (im1 & E1 & E).
  eapply IH; [|exact E]. eapply (rfold_invariant imported_ok); [|exact Hi|exact E1]. intros; by eapply import_entry_ok.
Qed.

Lemma imported_empty : imported_ok (mkImported [] [] [] [] None None).
Proof. by split; split; constructor. Qed.

Lemma collected_NoDup {A B} (decode : A → result StorageError B) l dec last_id : collected decode l dec last_id → NoDup l.*1.
Proof.
  intros [_ Hs _]. apply (NoDup_fmap_1 arr_list). induction Hs as [|x l' Hs IH Hx]; [constructor|].
  constructor; [|done]. intros Hin. rewrite Forall_forall in Hx. apply Hx in Hin. by apply bytes_lt_irrefl in Hin.
Qed.

Lemma collected_elem {A B} (decode : A → result StorageError B) l dec last_id (id : hash) b :
  collected decode l dec last_id → (id, b) ∈ dec ↔ ∃ a, (id, a) ∈ l ∧ decode a = Ok b.
Proof.
  intros [Hd _ _]. induction Hd as [|[i a] [i' b'] l dec [Ei Ea] Hd IH]; cbn in *.
  { split; [by intros ?%not_elem_of_nil|by intros (? & ?%not_elem_of_nil & _)]. }
  subst i'. rewrite elem_of_cons, IH. setoid_rewrite elem_of_cons. split.
  - intros [[= -> ->]|(x & ? & ?)]; eauto.
  - intros (x & [[= -> ->]|?] & Ex); [left; congruence|eauto].
Qed.

(** What a successful check has established. *)
Record checked (cp : Checkpoint) (m : VerifiedSnapshotManifest) (im : Imported) : Prop := {
  ch_imported : imported_ok im;
  ch_height : mf_height m = height (data cp) ∧ mf_height m ≠ 0;
  ch_tip : mf_tip_hash m = block_hash (data cp);
  ch_root : recompute_state_root (im_domains_dec im) (im_tlds_dec im) = state_root (data cp);
  ch_domains : N.of_nat (length (im_domains im)) = mf_domain_count m;
  ch_tlds : N.of_nat (length (im_tlds im)) = mf_tld_count m }.

Lemma import_checked_Ok `{Redb} db cp m pages im :
  import_checked db cp m pages = Ok im → checked cp m im ∧ ∃ x, store_tip db = Ok (0, x).
Proof.
  unfold import_checked. cbv zeta. destruct (_ || _); [done|]. destruct (_ <? _); [done|].
  destruct (N.eqb_spec (mf_height m) (height (data cp))) as [Hh|]; [|done]. cbn [negb]. unfold arr_eqb.
  case_bool_decide as Hx; [|done]. case_bool_decide as Hr; [|done]. cbn [negb].
  destruct (N.eqb_spec (mf_height m) 0) as [|Hne]; [done|]. intros ([t x] & Et & E)%rbind_Ok.
  destruct (N.eqb_spec t 0) as [->|]; [|done]. cbn [negb] in E. apply rbind_Ok in E as (im1 & Ei & E).
  destruct (N.eqb_spec (N.of_nat (length (im_domains im1))) (mf_domain_count m)); [|done].
  destruct (N.eqb_spec (N.of_nat (length (im_tlds im1))) (mf_tld_count m)); [|done]. cbn [negb] in E.
  case_bool_decide as Hc; [|done]. cbn [negb] in E. injection E as ->. split; [|by exists x].
  split; try done; [|congruence]. eapply import_pages_ok; [apply imported_empty|exact Ei].
Qed.
End import.
