(* ===== verification/SnapshotTransfer.v ===== *)
(** * From one store to another

    Pages are filled in order and cut at 256 entries; importing what was
    exported collects the entries again. *)

From S2P Require Import Prelude Bytes Crypto Commitment Smt SmtProofs SmtBinding Names Icann Codec Checkpoint Pow Tx.
From S2P Require Import Wire State StateSpec StateProofs StateProps StateBinding Blocks BlocksProps Chain StateBytes Redb.
From S2P Require Import Store StoreSpec StorePaging StoreProofs StoreProps Persist PersistProofs Restart Mirror Resume Snapshot SnapshotProofs.

Section transfer.
Context `{Crypto}.
Implicit Types (cp : Checkpoint) (pages : list SnapshotPage).

(** ** Pages *)

Record paged cp (h : N) pages (l : list SnapshotEntry) : Prop := {
  pd_concat : concat (map pg_entries pages) = l;
  pd_page i p : pages !! i = Some p →
    pg_index p = N.of_nat i mod 2 ^ 32 ∧ pg_height p = h ∧ pg_state_root p = state_root (data cp) ∧
    (0 < length (pg_entries p) ≤ N.to_nat VERIFIED_SNAPSHOT_PAGE_ENTRIES)%nat }.

Lemma paged_nil cp h : paged cp h [] [].
Proof. split; [done|]. by intros [|i] p. Qed.

Lemma paged_push cp h pages l e : paged cp h pages l → paged cp h (page_push cp h pages e) (l ++ [e]).
Proof.
  intros [Hc Hp]. unfold page_push.
  assert (paged cp h (pages ++ [mkPage (N.of_nat (length pages) mod 2 ^ 32) h (state_root (data cp)) [e]]) (l ++ [e])) as Hnew.
  { split; [by rewrite map_app, concat_app, Hc|]. intros i p [Hi|[Hi Hi']]%lookup_app_Some; [by apply Hp|].
    apply list_lookup_singleton_Some in Hi' as [Ei <-]. cbn. replace i with (length pages) by lia.
    unfold VERIFIED_SNAPSHOT_PAGE_ENTRIES. split_and!; (done || lia). }
  destruct (last pages) as [p|] eqn:El; [|done].
  destruct (N.leb_spec VERIFIED_SNAPSHOT_PAGE_ENTRIES (N.of_nat (length (pg_entries p)))) as [|Hlt]; [done|].
  apply last_Some in El as [ps ->]. rewrite length_app. cbn [length]. replace (length ps + 1 - 1)%nat with (length ps) by lia.
  rewrite take_app_length. destruct (Hp (length ps) p) as (Ei & Eh & Er & _).
  { rewrite lookup_app_r, Nat.sub_diag by lia. done. }
  split.
  - rewrite <- Hc, !map_app, !concat_app. cbn [map concat pg_entries]. by rewrite !app_nil_r, app_assoc.
  - intros i q [Hi|[Hi Hi']]%lookup_app_Some; [apply Hp; by apply lookup_app_l_Some|].
    apply list_lookup_singleton_Some in Hi' as [Ej <-]. cbn. replace i with (length ps) by lia. split_and!; try done.
    + rewrite length_app. cbn. lia.
    + rewrite length_app. cbn. unfold VERIFIED_SNAPSHOT_PAGE_ENTRIES in *. lia.
Qed.

Lemma paged_pushes cp h pages l l' : paged cp h pages l → paged cp h (fold_left (page_push cp h) l' pages) (l ++ l').
Proof.
  revert pages l. induction l' as [|e l' IH]; intros pages l Hp; cbn [fold_left]; [by rewrite app_nil_r|].
  replace (l ++ e :: l') with ((l ++ [e]) ++ l') by (by rewrite <- app_assoc). by apply IH, paged_push.
Qed.

Lemma paged_bounds cp h pages l :
  paged cp h pages l → (length pages ≤ length l)%nat ∧ (length l ≤ N.to_nat VERIFIED_SNAPSHOT_PAGE_ENTRIES * length pages)%nat.
Proof.
  intros [<- Hp]. assert (Forall (λ p, (0 < length (pg_entries p) ≤ N.to_nat VERIFIED_SNAPSHOT_PAGE_ENTRIES)%nat) pages) as Hf.
  { apply Forall_forall. intros p [i Hi]%list_elem_of_lookup. by apply (Hp i p). }
  clear Hp. induction Hf as [|p pages Hp Hf IH]; cbn [map concat length]; [lia|]. rewrite length_app. lia.
Qed.

(** ** Importing pages *)

Lemma import_paged m i (pages : list SnapshotPage) im :
  Forall page_ok pages →
  (∀ j p, pages !! j = Some p → pg_index p = N.of_nat (i + j) mod 2 ^ 32 ∧ pg_height p = mf_height m ∧
    pg_state_root p = mf_state_root m ∧ nth (i + j) (mf_page_hashes m) (arr_zero 32) = Page_hash p) →
  import_pages m i (map Page_encode pages) im = rfold import_entry (concat (map pg_entries pages)) im.
Proof.
  intros Hok. revert i im. induction Hok as [|p pages Hp Hok IH]; intros i im Hm; cbn [map import_pages concat rfold]; [done|].
  rewrite Page_roundtrip by done. cbn [rbind]. destruct (Hm 0%nat p eq_refl) as (E1 & E2 & E3 & E4).
  rewrite Nat.add_0_r in *. rewrite E1, N.eqb_refl, E2, N.eqb_refl, E3, E4. unfold arr_eqb.
  rewrite !bool_decide_true by done. cbn [negb]. rewrite rfold_app.
  destruct (rfold import_entry (pg_entries p) im) as [im1|]; [|done]. cbn [rbind]. apply IH.
  intros j q Hj. replace (S i + j)%nat with (i + S j)%nat by lia. by apply Hm.
Qed.

(** Entries in order are all collected. *)
Lemma not_ascending_lt (p id : hash) : bytes_lt (arr_list p) (arr_list id) → not_ascending (Some p) id = false.
Proof.
  intros Hlt. cbn. apply bool_decide_eq_false. intros [E|Hlt']%bytes_le_lt.
  - rewrite E in Hlt. by apply bytes_lt_irrefl in Hlt.
  - by apply (bytes_lt_asym _ _ Hlt).
Qed.

Definition after_last {A} (last_id : option hash) (l : list (hash * A)) : Prop :=
  ∀ p, last_id = Some p → Forall (λ e, bytes_lt (arr_list p) (arr_list e.1)) l.

Lemma after_last_step {A} last_id (id : hash) (a : A) l :
  after_last last_id ((id, a) :: l) → StronglySorted (key_lt id_key) ((id, a) :: l) →
  not_ascending last_id id = false ∧ after_last (Some id) l.
Proof.
  intros Ha [Hs Hl]%StronglySorted_cons. split.
  - destruct last_id as [p|]; [|done]. apply not_ascending_lt. specialize (Ha p eq_refl). by apply Forall_cons in Ha as [? _].
  - by intros p [= <-].
Qed.

Lemma import_domains (l : list (hash * DomainState)) im :
  StronglySorted (key_lt id_key) l → after_last (im_last_domain im) l → Forall (λ e, fits e.2) l →
  ∃ last_id, rfold import_entry ((λ e, SnapDomain e.1 (DomainStateBytes_from e.2)) <$> l) im =
    Ok (mkImported (im_domains im ++ ((λ e, (e.1, DomainStateBytes_from e.2)) <$> l)) (im_tlds im)
      (im_domains_dec im ++ l) (im_tlds_dec im) last_id (im_last_tld im)).
Proof.
  revert im. induction l as [|[id st] l IH]; intros im Hs Ha Hf; cbn [fmap list_fmap rfold].
  { exists (im_last_domain im). rewrite !app_nil_r. by destruct im. }
  destruct (after_last_step _ _ _ _ Ha Hs) as [En Ha']. apply StronglySorted_cons in Hs as [_ Hs].
  apply Forall_cons in Hf as [Hst Hf]. cbn [import_entry fst snd]. rewrite En, encoded_row, decode_domain_row by done. cbn [rbind].
  destruct (IH (mkImported (im_domains im ++ [(id, DomainStateBytes_from st)]) (im_tlds im) (im_domains_dec im ++ [(id, st)])
    (im_tlds_dec im) (Some id) (im_last_tld im)) Hs Ha' Hf) as [x E]. exists x. rewrite E. cbn. by rewrite <- !app_assoc.
Qed.

Lemma import_tlds (l : list (hash * TldState)) im :
  StronglySorted (key_lt id_key) l → after_last (im_last_tld im) l →
  ∃ last_id, rfold import_entry ((λ e, SnapTld e.1 (TldStateBytes_from e.2)) <$> l) im =
    Ok (mkImported (im_domains im) (im_tlds im ++ ((λ e, (e.1, TldStateBytes_from e.2)) <$> l))
      (im_domains_dec im) (im_tlds_dec im ++ l) (im_last_domain im) last_id).
Proof.
  revert im. induction l as [|[id st] l IH]; intros im Hs Ha; cbn [fmap list_fmap rfold].
  { exists (im_last_tld im). rewrite !app_nil_r. by destruct im. }
  destruct (after_last_step _ _ _ _ Ha Hs) as [En Ha']. apply StronglySorted_cons in Hs as [_ Hs].
  cbn [import_entry fst snd]. rewrite En, tld_encoded_row, decode_tld_row. cbn [rbind].
  destruct (IH (mkImported (im_domains im) (im_tlds im ++ [(id, TldStateBytes_from st)]) (im_domains_dec im)
    (im_tlds_dec im ++ [(id, st)]) (im_last_domain im) (Some id)) Hs Ha') as [x E]. exists x. rewrite E. cbn. by rewrite <- !app_assoc.
Qed.
End transfer.

(** ** Exporting *)

Section export.
Context `{Crypto} `{RedbLaws}.
#[local] Existing Instances laws_heights laws_bytes.

Definition domain_entries (r : Registry) : list SnapshotEntry :=
  (λ e, SnapDomain e.1 (DomainStateBytes_from e.2)) <$> in_order (r_domains r).
Definition tld_entries (r : Registry) : list SnapshotEntry :=
  (λ e, SnapTld e.1 (TldStateBytes_from e.2)) <$> in_order (r_tlds r).
(** The entries of a registry, in the order of an export. *)
Definition entries_of (r : Registry) : list SnapshotEntry := domain_entries r ++ tld_entries r.

Lemma rfold_export {A} (mk : hash → A → SnapshotEntry) cp h (l : list (hash * A)) pages n :
  rfold (export_visit mk cp h) l (pages, n) =
    Ok (fold_left (page_push cp h) ((λ e, mk e.1 e.2) <$> l) pages, n + N.of_nat (length l)).
Proof.
  revert pages n. induction l as [|e l IH]; intros pages n; cbn [rfold fmap list_fmap fold_left length].
  { by rewrite N.add_0_r. }
  unfold export_visit at 1. cbn [rbind fst snd]. rewrite IH. do 2 f_equal. lia.
Qed.

(** One paging loop of the export. *)
Lemma export_loop {A} (mk : hash → A → SnapshotEntry) (f : A → list byte) (g : A → A)
    (decode : list byte → list byte → result StorageError (hash * A)) cap (t : tb (list byte)) (m : gmap hash A) cp h pages :
  (∀ (id : hash) a, decode (arr_list id) (f a) = Ok (id, g a)) → tb_view t = rows f m →
  VERIFIED_SNAPSHOT_PAGE_ENTRIES ≤ cap →
  for_pages (N.to_nat VERIFIED_SNAPSHOT_PAGE_ENTRIES) (S (length (tb_range None t)))
    (λ c, page decode cap t c VERIFIED_SNAPSHOT_PAGE_ENTRIES) (export_visit mk cp h) None (pages, 0) =
  Some (Ok (fold_left (page_push cp h) ((λ e, mk e.1 e.2) <$> (seen g <$> in_order m)) pages, count m)).
Proof.
  intros Hdec Hv Hcap. rewrite (page_loop_total f g decode Hdec None m); [|done|done|].
  - rewrite rest_None, rfold_export. rewrite length_fmap. unfold count. by rewrite <- length_map_to_list, (Permutation_length (in_order_perm m)).
  - rewrite (range_rows f m t None Hv), length_fmap, rest_None.
    rewrite filter_all by (by apply Forall_forall). unfold VERIFIED_SNAPSHOT_PAGE_ENTRIES. lia.
Qed.

Lemma export_pages_spec db d r cp h :
  represents db d → k_snapshot_domains d = stored_domains r → k_snapshot_tlds d = stored_tlds r →
  export_pages db cp h = Ok (fold_left (page_push cp h) (entries_of r) [], count (r_domains r), count (r_tlds r)).
Proof.
  intros Hd ED ET. unfold export_pages, snapshot_domains, snapshot_tlds.
  rewrite (export_loop SnapDomain DomainStateBytes_as_encoded reread decode_domains_entry _ _ (stored_domains r) cp h []);
    [|apply decode_domains_row|by rewrite (rp_snapshot_domains _ _ Hd), ED|done].
  cbn [default id rbind].
  rewrite (export_loop SnapTld TldStateBytes_as_encoded id decode_tlds_entry _ _ (stored_tlds r) cp h);
    [|apply decode_tlds_row|by rewrite (rp_snapshot_tlds _ _ Hd), ET|done].
  cbn [default id rbind]. rewrite seen_domains, seen_tlds, <- fold_left_app. unfold entries_of, domain_entries, tld_entries.
  rewrite <- !list_fmap_compose. unfold count, stored_domains, stored_tlds. by rewrite !map_size_fmap.
Qed.

Lemma entries_exact r : Forall entry_exact (entries_of r).
Proof.
  apply Forall_app. split; apply Forall_fmap, Forall_forall; intros [id st] _; cbn; [apply reread_from|done].
Qed.

Lemma paged_ok cp h pages l : h < U64 → Forall entry_exact l → paged cp h pages l → Forall page_ok pages.
Proof.
  intros Hh He [<- Hp]. apply Forall_forall. intros p Hin. pose proof Hin as [i Hi]%list_elem_of_lookup.
  destruct (Hp i p Hi) as (Ei & Eh & _ & Hl). unfold page_ok. rewrite Ei, Eh. split_and!; [by apply N.mod_lt|done| |].
  - unfold VERIFIED_SNAPSHOT_PAGE_ENTRIES, MAX_VERIFIED_SNAPSHOT_PAGE_ENTRIES in *. lia.
  - rewrite Forall_forall in He |- *. intros e Hin'. apply He. apply list_elem_of_In, in_concat.
    exists (pg_entries p). split; [|by apply list_elem_of_In]. by apply list_elem_of_In, list_elem_of_fmap_2.
Qed.

Definition exported_pages (cp : Checkpoint) (h : N) (r : Registry) : list SnapshotPage :=
  fold_left (page_push cp h) (entries_of r) [].
Definition exported_manifest (cp : Checkpoint) (h : N) (x : hash) (r : Registry) : VerifiedSnapshotManifest :=
  mkManifest h x (state_root (data cp)) (N.of_nat (length (exported_pages cp h r)) mod 2 ^ 32)
    (count (r_domains r)) (count (r_tlds r)) (map Page_hash (exported_pages cp h r)).

Lemma exported_paged cp h r : paged cp h (exported_pages cp h r) (entries_of r).
Proof. apply (paged_pushes cp h [] []), paged_nil. Qed.

Lemma length_entries r : length (entries_of r) = N.to_nat (count (r_domains r) + count (r_tlds r)).
Proof.
  unfold entries_of, domain_entries, tld_entries. rewrite length_app, !length_fmap.
  rewrite !(Permutation_length (in_order_perm _)), !length_map_to_list. unfold count. lia.
Qed.

(** An export from the disk of a node, for the block of its snapshot. *)
Lemma export_spec `{!Faults} db d tip hist cp h x b r :
  represents db d → ledger d tip hist → k_snapshot d = Some (h, x) → hist !! h = Some (b, r) →
  height (data cp) = h → block_hash (data cp) = x →
  export_verified_snapshot db cp = Ok (exported_manifest cp h x r, map Page_encode (exported_pages cp h r)).
Proof.
  intros Hd Hl Es Hb Eh Ex. destruct (le_snapshot _ _ _ Hl _ _ Es) as ([Hlo _] & b' & r' & Hb' & Hx & ED & ET).
  rewrite Hb in Hb'. injection Hb' as <- <-. destruct (le_entry _ _ _ Hl _ _ _ Hb) as [Hbh Hwf (y & bytes & Hy & Eb & Ek) _ _ _].
  unfold export_verified_snapshot. rewrite (snapshot_meta_spec _ _ Hd), Es.
  cbn [fmap option_fmap option_map rbind ok_or sm_height sm_tip_hash fst snd].
  destruct (N.eqb_spec h 0) as [->|_]; [unfold SNAPSHOT_INTERVAL in Hlo; lia|].
  rewrite Eh, N.eqb_refl, Ex. unfold arr_eqb at 1. rewrite bool_decide_true by done. cbn [negb].
  rewrite (block_at_height_spec _ _ _ Hd), Ek. cbn [fmap option_fmap option_map snd rbind ok_or].
  rewrite (@decode_complete_roundtrip _ Block_c Block_lawful b bytes Hwf Eb). cbn [map_err rbind].
  rewrite Hbh, N.eqb_refl, Hx. cbn [negb map_err rbind]. unfold arr_eqb at 1. rewrite bool_decide_true by done. cbn [negb].
  by rewrite (export_pages_spec db d r cp h Hd ED ET).
Qed.

Lemma registry_entries_fit r : registry_ok r → Forall (λ e : hash * DomainState, fits e.2) (in_order (r_domains r)).
Proof.
  intros Hok. apply Forall_forall. intros [id st] Hin. rewrite in_order_perm in Hin. apply elem_of_map_to_list in Hin.
  by destruct (ok_domains _ Hok _ _ Hin).
Qed.

(** What an importer collects from the pages of an export. *)
Lemma import_exported cp h x r :
  h < U64 → registry_ok r →
  ∃ d t, import_pages (exported_manifest cp h x r) 0 (map Page_encode (exported_pages cp h r)) (mkImported [] [] [] [] None None) =
    Ok (mkImported ((λ e, (e.1, DomainStateBytes_from e.2)) <$> in_order (r_domains r))
      ((λ e, (e.1, TldStateBytes_from e.2)) <$> in_order (r_tlds r)) (in_order (r_domains r)) (in_order (r_tlds r)) d t).
Proof.
  intros Hh Hok. pose proof (exported_paged cp h r) as Hp. rewrite import_paged.
  2:{ eapply paged_ok; [exact Hh|apply entries_exact|exact Hp]. }
  2:{ intros j p Hj. destruct (pd_page _ _ _ _ Hp j p Hj) as (Ej & Eh & Er & _). split_and!; [done..|]. cbn [mf_page_hashes exported_manifest Nat.add].
      apply nth_lookup_Some. change (map Page_hash) with (fmap (M := list) Page_hash). rewrite list_lookup_fmap. by rewrite Hj. }
  rewrite (pd_concat _ _ _ _ Hp). unfold entries_of. rewrite rfold_app. unfold domain_entries, tld_entries.
  destruct (import_domains (in_order (r_domains r)) (mkImported [] [] [] [] None None)) as [dl E];
    [apply in_order_sorted|done|by apply registry_entries_fit|].
  rewrite E. cbn [rbind im_domains im_tlds im_domains_dec im_tlds_dec im_last_tld app].
  match goal with |- context [rfold _ _ ?im] => destruct (import_tlds (in_order (r_tlds r)) im) as [tl E'] end;
    [apply in_order_sorted|done|]. rewrite E'. by exists dl, tl.
Qed.

Lemma exported_count cp h r :
  count (r_domains r) + count (r_tlds r) < 2 ^ 32 →
  let n := N.of_nat (length (exported_pages cp h r)) in
  n < 2 ^ 32 ∧ count (r_domains r) + count (r_tlds r) ≤ VERIFIED_SNAPSHOT_PAGE_ENTRIES * n.
Proof.
  intros Hn. destruct (paged_bounds _ _ _ _ (exported_paged cp h r)) as [Hb1 Hb2]. rewrite length_entries in Hb1, Hb2.
  unfold VERIFIED_SNAPSHOT_PAGE_ENTRIES in *. lia.
Qed.

Definition stored_entries {A B} (f : A → B) (m : gmap hash A) : list (hash * B) := (λ e, (e.1, f e.2)) <$> in_order m.

(** The checks of an import pass on an export. *)
Lemma export_checked db2 y s cp h x r :
  store_tip db2 = Ok (0, y) → h < U64 → h ≠ 0 → registry_ok r → collision_free r → refines s r →
  height (data cp) = h → block_hash (data cp) = x → state_root (data cp) = state_root_smt s →
  count (r_domains r) + count (r_tlds r) < 2 ^ 32 →
  ∃ im, import_checked db2 cp (exported_manifest cp h x r) (map Page_encode (exported_pages cp h r)) = Ok im ∧
    im_domains im = stored_entries DomainStateBytes_from (r_domains r) ∧
    im_tlds im = stored_entries TldStateBytes_from (r_tlds r).
Proof.
  intros Ht Hh H0' Hok Hc Hs Eh Ex Er Hn. destruct (exported_count cp h r Hn) as [Hl Hm].
  destruct (import_exported cp h x r Hh Hok) as (dl & tl & Ei). unfold import_checked.
  cbn [mf_height mf_tip_hash mf_state_root mf_page_count mf_domain_count mf_tld_count mf_page_hashes exported_manifest] in *.
  rewrite !length_map, (N.mod_small _ _ Hl), N.eqb_refl, Nat.eqb_refl. cbn [negb orb].
  set (n := N.of_nat (length (exported_pages cp h r))) in *.
  destruct (N.ltb_spec (mul64 MAX_VERIFIED_SNAPSHOT_PAGE_ENTRIES n) (sat_add64 (count (r_domains r)) (count (r_tlds r)))) as [Hlt|_].
  { unfold mul64, sat_add64, MAX_VERIFIED_SNAPSHOT_PAGE_ENTRIES, VERIFIED_SNAPSHOT_PAGE_ENTRIES in *.
    unfold wrap64 in Hlt. rewrite N.mod_small in Hlt by (change (2 ^ 32) with 4294967296 in Hl; change U64 with 18446744073709551616; lia). lia. }
  rewrite Eh, N.eqb_refl, Ex, Er. unfold arr_eqb. rewrite !bool_decide_true by done. cbn [negb].
  rewrite (proj2 (N.eqb_neq h 0) H0'), Ht. cbn [rbind N.eqb negb].
  rewrite Ei. cbn [rbind im_domains im_tlds im_domains_dec im_tlds_dec].
  rewrite !length_fmap, !(Permutation_length (in_order_perm _)), !length_map_to_list. unfold count. rewrite !N.eqb_refl. cbn [negb].
  rewrite (recompute_live s r) by (done || apply in_order_perm). rewrite bool_decide_true by done. cbn [negb].
  eexists. split; [done|]. by split.
Qed.
End export.
