(* ===== verification/SnapshotProps.v ===== *)
(** * Properties of verified snapshots *)

From S2P Require Import Prelude Bytes Crypto Commitment Smt SmtProofs SmtBinding Names Icann Codec Checkpoint Pow Tx.
From S2P Require Import Wire State StateSpec StateProofs StateProps StateBinding Blocks BlocksProps Chain ChainProofs ChainProps.
From S2P Require Import StateBytes Redb Store StoreSpec StorePaging StoreProofs StoreProps Persist PersistProofs.
From S2P Require Import Restart Mirror Resume Snapshot SnapshotProofs SnapshotTransfer.

Section props.
Context `{Crypto}.

(** The root that an importer recomputes from the entries of a state,
    in any order, is bit for bit the root the live node commits to. *)
Theorem recompute_is_live_root s r ds ts :
  refines s r → collision_free r → ds ≡ₚ map_to_list (r_domains r) → ts ≡ₚ map_to_list (r_tlds r) →
  recompute_state_root ds ts = state_root_smt s.
Proof. apply recompute_live. Qed.

(** Snapshot encodings: a well-formed page and a well-formed manifest
    are read back from their bytes, and the manifest has no other
    encoding. *)
Theorem snapshot_codec :
  (∀ p, page_ok p → Page_decode (Page_encode p) = Ok p) ∧
  (∀ bytes m, Manifest_decode bytes = Ok m ↔ manifest_ok m ∧ bytes = Manifest_encode m).
Proof.
  split; [exact Page_roundtrip|]. intros bytes m. split.
  - intros [Hm <-]%Manifest_canonical. done.
  - intros [Hm ->]. by apply Manifest_roundtrip.
Qed.

Context `{RedbLaws} `{!Faults}.
#[local] Existing Instances laws_heights laws_bytes.

(** A stored domain row stands for a live domain. *)
Definition stands_for (row : option DomainStateBytes) (st : option DomainState) : Prop :=
  match row, st with
  | None, None => True
  | Some b, Some st => ∃ st', decode_domain b = Ok st' ∧ norm st' = st
  | _, _ => False
  end.

Lemma tld_from_decoded b st : decode_tld b = Ok st → b = TldStateBytes_from st.
Proof.
  unfold decode_tld, TldStateBytes_as_encoded. intros E%decode_tld_canonical. apply arr_eq.
  rewrite take_ge in E by (by rewrite arr_length). rewrite E. unfold TldStateBytes_from. fold (tld_row st).
  rewrite arr_of_id by (rewrite length_tld_row; unfold TLD_STATE_LEN; lia). rewrite length_tld_row.
  change (34 - TLD_STATE_LEN)%nat with 0%nat. by rewrite app_nil_r.
Qed.

Lemma encoded_reread b : DomainStateBytes_as_encoded (reread b) = DomainStateBytes_as_encoded b.
Proof.
  unfold reread. set (l := DomainStateBytes_as_encoded b).
  assert (length l ≤ 89)%nat as Hl by (destruct (length_encoded b) as [E|E]; fold l in E; rewrite E; unfold DOMAIN_STATE_LEN_SOME, DOMAIN_STATE_LEN_NONE; lia).
  unfold DomainStateBytes_as_encoded at 1. rewrite arr_of_id by done.
  assert (∀ z, nth 0 (l ++ z) x00 = nth 0 (arr_list b) x00) as Etag.
  { intros z. unfold l, DomainStateBytes_as_encoded. pose proof (arr_length b) as Hb. destruct (arr_list b) as [|t tl]; [done|].
    by destruct (byte_eqb _ _). }
  rewrite Etag. unfold l, DomainStateBytes_as_encoded. rewrite length_take, arr_length.
  destruct (byte_eqb (nth 0 b x00) TAG_WITH_HASH).
  - rewrite take_app_le by (rewrite length_take, arr_length; unfold DOMAIN_STATE_LEN_SOME, DOMAIN_STATE_LEN_NONE; lia).
    by rewrite take_take, Nat.min_id.
  - rewrite take_app_le by (rewrite length_take, arr_length; unfold DOMAIN_STATE_LEN_NONE; lia).
    by rewrite take_take, Nat.min_id.
Qed.

Lemma decode_reread b : decode_domain (reread b) = decode_domain b.
Proof. unfold decode_domain. by rewrite encoded_reread. Qed.

Lemma inserted_cases {A} (l : list (hash * A)) (id : hash) :
  NoDup l.*1 →
  (∃ a, (id, a) ∈ l ∧ inserts l ∅ !! id = Some a) ∨ (id ∉ l.*1 ∧ inserts l ∅ !! id = None).
Proof.
  intros Hn. destruct (inserts_lookup l ∅ id Hn) as [I1 I2]. destruct (decide (id ∈ l.*1)) as [Hin|Hni].
  - apply list_elem_of_fmap in Hin as ([i a] & -> & Hin). left. exists a. split; [done|]. by apply I1.
  - right. split; [done|]. rewrite I2 by done. apply lookup_empty.
Qed.

Lemma collected_decodes {A B} (decode : A → result StorageError B) l dec last_id (id : hash) a :
  collected decode l dec last_id → (id, a) ∈ l → ∃ b, decode a = Ok b.
Proof.
  intros [Hd _ _] Hin. apply list_elem_of_lookup in Hin as [i Hi].
  destruct (Forall2_lookup_l _ _ _ _ _ Hd Hi) as ([id' b] & _ & _ & Eb). by exists b.
Qed.

(** The entries of a snapshot whose root is that of a state are the
    entries of the state. *)
Lemma snapshot_entries s r cp m im :
  checked cp m im → refines s r → registry_ok r → collision_free r → state_root_smt s = state_root (data cp) →
  injective_on (root_preimages (entries_smt (im_domains_dec im) (im_tlds_dec im)) (im_domains_dec im) (im_tlds_dec im) ++
    registry_preimages s r) →
  (∀ (id : hash) st, r_domains r !! id = Some st ↔ ∃ b st', (id, b) ∈ im_domains im ∧ decode_domain b = Ok st' ∧ norm st' = st) ∧
  (∀ (id : hash) st, r_tlds r !! id = Some st ↔ (id, TldStateBytes_from st) ∈ im_tlds im).
Proof.
  intros Hch Hs Hok Hc Hroot Hi. destruct (ch_imported _ _ _ Hch) as [Hd Ht].
  pose proof (ch_root _ _ _ Hch) as Er. rewrite <- Hroot in Er.
  set (ds := im_domains_dec im) in *. set (ts := im_tlds_dec im) in *.
  assert (blake3 (state_bytes (smt_root (entries_smt ds ts))) = blake3 (state_bytes (smt_root (cs_smt s)))) as Eb.
  { rewrite <- state_root_eq, <- Er. unfold recompute_state_root, top_hash, hash256. cbn [concat]. by rewrite app_nil_r. }
  pose proof (entries_smt_holds ds ts) as H1s. pose proof (committed_holds _ _ (rf_smt _ _ Hs) Hc) as H2s.
  assert (Forall (λ e, fits e.2) ds) as Hf.
  { apply Forall_forall. intros [id st] Hin. apply (collected_elem _ _ _ _ _ _ Hd) in Hin as (b & _ & E).
    by apply decode_domain_canonical in E as [? _]. }
  pose proof (registry_fits r Hok) as Hf'.
  destruct (root_entries _ _ _ _ _ _ H1s H2s Hf Hf' Hi Eb) as [D1 T1].
  assert (injective_on (registry_preimages s r ++ root_preimages (entries_smt ds ts) ds ts)) as Hi' by fewer_preimages Hi.
  destruct (root_entries _ _ _ _ _ _ H2s H1s Hf' Hf Hi' (eq_sym Eb)) as [D2 T2].
  assert (∀ (id : hash) st, r_domains r !! id = Some st → norm st = st) as Hnorm
    by (intros id st E; apply norm_ok; by eapply (ok_domains _ Hok)).
  split; intros id st; split.
  - intros E. destruct (D2 id st) as (st' & Hin & En); [by apply elem_of_map_to_list|].
    apply (collected_elem _ _ _ _ _ _ Hd) in Hin as (b & Hin & Eb'). exists b, st'.
    rewrite <- En. by rewrite (Hnorm id st E).
  - intros (b & st' & Hin & Ed & <-). destruct (D1 id st') as (st2 & Hin2%elem_of_map_to_list & En).
    { apply (collected_elem _ _ _ _ _ _ Hd). by exists b. }
    by rewrite En, (Hnorm _ _ Hin2).
  - intros E%elem_of_map_to_list. apply T2 in E. apply (collected_elem _ _ _ _ _ _ Ht) in E as (b & Hin & Eb').
    by rewrite <- (tld_from_decoded _ _ Eb').
  - intros Hin. apply elem_of_map_to_list, T1, (collected_elem _ _ _ _ _ _ Ht). exists (TldStateBytes_from st).
    split; [done|]. unfold decode_tld. rewrite tld_encoded_row. apply decode_tld_row.
Qed.
(** C18. An import is authentic and all or nothing: given a finalized
    checkpoint whose root is that of the registry [r], importing any
    manifest and pages — from anyone — into an empty store either leaves
    the store as it was, or ends with the tip on the finalized block and
    exactly the domains and TLDs of [r], unless two of the values hashed
    for the two roots collide. *)
Theorem import_authentic db d cp m pages s r db' res :
  represents db d → k_domains d = ∅ → k_tlds d = ∅ →
  mf_height m < U64 → mf_domain_count m < U64 → mf_tld_count m < U64 →
  refines s r → registry_ok r → collision_free r → state_root_smt s = state_root (data cp) →
  (∀ im, import_checked db cp m pages = Ok im →
    injective_on (root_preimages (entries_smt (im_domains_dec im) (im_tlds_dec im)) (im_domains_dec im) (im_tlds_dec im) ++
      registry_preimages s r)) →
  import_verified_snapshot db cp m pages = (db', res) →
  (res ≠ Ok tt → db' = db) ∧
  (res = Ok tt →
    store_tip db' = Ok (height (data cp), block_hash (data cp)) ∧
    (∀ id, ∃ row, domain_state id db' = Ok row ∧ stands_for row (r_domains r !! id)) ∧
    (∀ id, tld_state id db' = Ok (TldStateBytes_from <$> r_tlds r !! id))).
Proof.
  intros Hd HD HT Hh Hnd Hnt Hs Hok Hc Hroot Hinj. unfold import_verified_snapshot.
  destruct (import_checked db cp m pages) as [im|e] eqn:Ei; [|by intros [= <- <-]].
  destruct (import_checked_Ok _ _ _ _ _ Ei) as [Hch _].
  destruct (snapshot_entries _ _ _ _ _ Hch Hs Hok Hc Hroot (Hinj im eq_refl)) as [ED ET].
  pose proof (ch_imported _ _ _ Hch) as [Hid Hit]. pose proof (collected_NoDup _ _ _ _ Hid) as Nd.
  pose proof (collected_NoDup _ _ _ _ Hit) as Nt.
  set (w := WImport (im_domains im) (im_tlds im) (mkMarker (mf_height m) (mf_tip_hash m) (Manifest_hash m))).
  assert (write_ok w d) as Hw.
  { cbn [write_ok w mk_height]. rewrite (ch_domains _ _ _ Hch), (ch_tlds _ _ _ Hch). by split_and!. }
  intros E. change (store_write w db = (db', res)) in E.
  destruct (store_write_simulates w d db Hd Hw) as [(e & Er & _)|Hsim]; [rewrite E in Er; by injection Er as -> ->|].
  rewrite E in Hsim. cbn [disk_write w] in Hsim. unfold disk_import in Hsim.
  destruct (negb _); cbn [rbind] in Hsim; [by injection Hsim as -> ->|]. destruct Hsim as (db2 & [= <- ->] & Hd').
  split; [done|]. intros _. destruct (ch_height _ _ _ Hch) as [Eh _]. split_and!.
  - rewrite <- Eh, <- (ch_tip _ _ _ Hch). by apply (rp_tip_row _ _ Hd').
  - intros id. rewrite (domain_state_spec _ _ _ Hd'). cbn [k_domains]. rewrite HD. eexists. split; [done|].
    destruct (inserted_cases (im_domains im) id Nd) as [(b & Hin & ->)|[Hni ->]]; cbn [fmap option_fmap option_map].
    + destruct (collected_decodes _ _ _ _ _ _ Hid Hin) as [st' Est].
      rewrite (proj2 (ED id (norm st'))) by (by exists b, st'). exists st'. by rewrite decode_reread.
    + destruct (r_domains r !! id) as [st|] eqn:Er; [|done]. apply ED in Er as (b & st' & Hin & _).
      apply Hni. by apply (list_elem_of_fmap_2 fst) in Hin.
  - intros id. rewrite (tld_state_spec _ _ _ Hd'). cbn [k_tlds]. rewrite HT. f_equal.
    destruct (inserted_cases (im_tlds im) id Nt) as [(b & Hin & ->)|[Hni ->]].
    + destruct (collected_decodes _ _ _ _ _ _ Hit Hin) as [st' Est].
      rewrite (tld_from_decoded _ _ Est) in Hin |- *. by rewrite (proj2 (ET id st') Hin).
    + destruct (r_tlds r !! id) as [st|] eqn:Er; [|done]. apply ET in Er.
      exfalso. apply Hni. by apply (list_elem_of_fmap_2 fst) in Er.
Qed.

(** ** From one node to the next *)

Lemma inserts_stored {A B} (f : A → B) (m : gmap hash A) : inserts (stored_entries f m) ∅ = f <$> m.
Proof.
  assert ((stored_entries f m).*1 = (in_order m).*1) as E1.
  { unfold stored_entries. rewrite <- list_fmap_compose. by apply list_fmap_ext. }
  assert (NoDup (stored_entries f m).*1) as Hn by (rewrite E1, in_order_perm; apply NoDup_fst_map_to_list).
  apply map_eq. intros id. destruct (inserts_lookup (stored_entries f m) ∅ id Hn) as [I1 I2]. rewrite lookup_fmap.
  destruct (m !! id) as [a|] eqn:Em; cbn [fmap option_fmap option_map].
  - apply I1. apply list_elem_of_fmap. exists (id, a). split; [done|]. rewrite in_order_perm. by apply elem_of_map_to_list.
  - rewrite I2, lookup_empty; [done|]. rewrite E1, in_order_perm. intros ([i a] & -> & Hin%elem_of_map_to_list)%list_elem_of_fmap.
    cbn in Em. congruence.
Qed.

Lemma stored_entries_NoDup {A B} (f : A → B) (m : gmap hash A) : NoDup (stored_entries f m).*1.
Proof.
  unfold stored_entries. rewrite <- list_fmap_compose. change (fst ∘ _) with (@fst hash A). rewrite in_order_perm.
  apply NoDup_fst_map_to_list.
Qed.

(** The disk of a node right after an import. *)
Definition imported_disk (h : N) (x : hash) (r : Registry) (mh : hash) (d : Disk) : Disk :=
  mkDisk (k_blocks d) (k_by_hash d) (stored_domains r) (stored_tlds r) (k_names d) (k_reverse d) (k_dht d)
    (h, x) (Some (mkMarker h x mh)) (k_extra d) (Some (h, x)) (stored_domains r) (stored_tlds r).

Lemma import_export_step db2 d2 s cp h x r :
  represents db2 d2 → (k_tip d2).1 = 0 → k_domains d2 = ∅ → k_tlds d2 = ∅ →
  h < U64 → h ≠ 0 → registry_ok r → collision_free r → refines s r →
  height (data cp) = h → block_hash (data cp) = x → state_root (data cp) = state_root_smt s →
  count (r_domains r) + count (r_tlds r) < 2 ^ 32 →
  let m := exported_manifest cp h x r in
  simulates (import_verified_snapshot db2 cp m (map Page_encode (exported_pages cp h r))) db2
    (Ok (imported_disk h x r (Manifest_hash m) d2)).
Proof.
  intros Hd Ht HD HT Hh Hne Hok Hc Hs Eh Ex Er Hn m. unfold import_verified_snapshot.
  destruct (k_tip d2) as [t y] eqn:Etip. cbn in Ht. subst t.
  destruct (export_checked db2 y s cp h x r) as (im & Ei & ED & ET); try done.
  { unfold store_tip. by rewrite (rp_tip_row _ _ Hd), Etip. }
  fold m in Ei. rewrite Ei.
  pose proof (store_write_simulates (WImport (im_domains im) (im_tlds im) (mkMarker (mf_height m) (mf_tip_hash m) (Manifest_hash m))) d2 db2 Hd) as Hsim.
  cbn [store_write write_ok disk_write mk_height] in Hsim. unfold disk_import in Hsim. rewrite Etip in Hsim. cbn [fst N.eqb negb] in Hsim.
  rewrite HD, HT, ED, ET, !inserts_stored in Hsim. rewrite ED, ET. apply Hsim. split_and!; try done; [apply stored_entries_NoDup..| |].
  - unfold stored_entries. rewrite length_fmap, (Permutation_length (in_order_perm _)), length_map_to_list. fold (count (r_domains r)).
    change U64 with 18446744073709551616. change (2 ^ 32) with 4294967296 in Hn. lia.
  - unfold stored_entries. rewrite length_fmap, (Permutation_length (in_order_perm _)), length_map_to_list. fold (count (r_tlds r)).
    change U64 with 18446744073709551616. change (2 ^ 32) with 4294967296 in Hn. lia.
Qed.

(** The frozen state of a node, its block and its registry. *)
Record exports db d (tip h : N) (x : hash) (b : Block) (r : Registry) (hist : History) : Prop := {
  ex_disk : represents db d;
  ex_ledger : ledger d tip hist;
  ex_snapshot : k_snapshot d = Some (h, x);
  ex_block : hist !! h = Some (b, r);
  ex_count : count (r_domains r) + count (r_tlds r) < 2 ^ 32 }.

(** The checkpoint that finalizes the block [x] at [h], and the root of [r]. *)
Definition finalizes (cp : Checkpoint) (h : N) (x : hash) (r : Registry) : Prop :=
  height (data cp) = h ∧ block_hash (data cp) = x ∧ ∃ s, refines s r ∧ state_root (data cp) = state_root_smt s.

(** A node that has no block and no state yet. *)
Record unborn db d : Prop := {
  ub_disk : represents db d;
  ub_tip : (k_tip d).1 = 0;
  ub_domains : k_domains d = ∅;
  ub_tlds : k_tlds d = ∅;
  ub_blocks : k_blocks d = ∅ }.

Lemma exports_bounds db d tip h x b r hist :
  exports db d tip h x b r hist → h < U64 ∧ h ≠ 0 ∧ entry_ok d h b r ∧ header_hash (bk_header b) = Ok x.
Proof.
  intros [Hd Hl Es Hb _]. destruct (le_snapshot _ _ _ Hl _ _ Es) as ([Hlo _] & b' & r' & Hb' & Hx & _ & _).
  rewrite Hb in Hb'. injection Hb' as <- <-. split_and!; try done; [|unfold SNAPSHOT_INTERVAL in Hlo; lia|by eapply le_entry].
  apply (rp_snapshot_64 _ _ Hd _ Es).
Qed.

(** A snapshot transfers: what a node exports for a finalized block
    passes every check of an importer, which ends — unless its disk
    refuses the write — with exactly the names of the exporter at that
    block. *)
Theorem export_import db d tip h x b r hist cp db2 d2 :
  exports db d tip h x b r hist → finalizes cp h x r → unborn db2 d2 →
  ∃ m pages, export_verified_snapshot db cp = Ok (m, pages) ∧
    simulates (import_verified_snapshot db2 cp m pages) db2 (Ok (imported_disk h x r (Manifest_hash m) d2)).
Proof.
  intros Hx (Eh & Ex & s & Hs & Er) [Hd2 Ht2 HD2 HT2 _]. destruct (exports_bounds _ _ _ _ _ _ _ _ Hx) as (Hh & Hne & He & _).
  destruct Hx as [Hd Hl Es Hb Hn]. exists (exported_manifest cp h x r), (map Page_encode (exported_pages cp h r)). split.
  - by eapply export_spec.
  - eapply import_export_step; (done || apply He).
Qed.

(** The index of one block. *)
Lemma one_height_fold (es : list (TxId * N)) (f : N → bool) (h : N) (m : gmap TxId N) (id : hash) k :
  Forall (λ e, e.2 = h) es → f h = false →
  fold_left (λ m '(id, h), if f h then m else <[id := h]> m) es m !! id = Some k ↔
    (id, h) ∈ es ∧ k = h ∨ (id, h) ∉ es ∧ m !! id = Some k.
Proof.
  intros Hes Hf. revert m. induction Hes as [|[i h'] es E Hes IH]; intros m; cbn [fold_left].
  { split; [right; split; [by intros ?%not_elem_of_nil|done]|by intros [[?%not_elem_of_nil _]|[_ ?]]]. }
  cbn in E. subst h'. rewrite Hf, IH, elem_of_cons. destruct (decide (i = id)) as [->|Hne].
  - rewrite lookup_insert_eq. destruct (decide ((id, h) ∈ es)); naive_solver.
  - rewrite lookup_insert_ne by done. naive_solver.
Qed.

(** The chain of a restart right after an import and its anchor. *)
Lemma load_imported db d h x b r mh d2 :
  entry_ok d2 h b r → header_hash (bk_header b) = Ok x → h < U64 → h ≠ 0 → (h = 1 → bh_prev_hash (bk_header b) = genesis_hash TESTNET) →
  represents db d → k_tip d = (h, x) → k_marker d = Some (mkMarker h x mh) → k_snapshot d = Some (h, x) →
  k_domains d = stored_domains r → k_tlds d = stored_tlds r →
  k_blocks d !! h = k_blocks d2 !! h →
  ∃ c, load_chain db TESTNET = Ok c ∧ chain_ok c ∧ chain_height c = h ∧ bc_tip c = x ∧ tip_block c = b ∧
    ChainProps.represents c (restarted r) ∧
    ∀ id k, bc_included c !! id = Some k ↔ k = h ∧ carries b id.
Proof.
  intros He Hx Hh Hne Hfirst Hd Ht Hm Hs HD HT Hk. destruct He as [Hbh Hwf (y & bytes & Hy & Eb & Ek) Hok Hc Hn].
  rewrite Hx in Hy. injection Hy as <-. rewrite <- Hk in Ek.
  assert (block_at_height h db = Ok (Some bytes)) as Ebk by (by rewrite (block_at_height_spec _ _ _ Hd), Ek).
  assert (block_announcing h db = Ok b) as Ean.
  { unfold block_announcing, stored_block. rewrite Ebk. cbn [rbind ok_or].
    rewrite (@decode_complete_roundtrip _ Block_c Block_lawful b bytes Hwf Eb). cbn [map_err rbind]. by rewrite Hbh, N.eqb_refl. }
  pose proof (rp_marker_row _ _ Hd) as Em. rewrite Hm in Em. change (read_verified_marker db = Ok (Some (mkMarker h x mh))) in Em.
  unfold load_chain, store_tip. rewrite (rp_tip_row _ _ Hd), Ht. cbn [rbind]. rewrite (proj2 (N.eqb_neq h 0) Hne), Em. cbn [rbind].
  rewrite Ebk. cbn [rbind]. rewrite (@decode_complete_roundtrip _ Block_c Block_lawful b bytes Hwf Eb). cbn [map_err rbind].
  rewrite Hbh, N.eqb_refl, Hx. cbn [negb map_err rbind]. unfold arr_eqb at 1. rewrite bool_decide_true by done. cbn [negb].
  assert (try_load_from_snapshot db TESTNET h x = None) as ->.
  { unfold try_load_from_snapshot. rewrite (snapshot_meta_spec _ _ Hd), Hs. cbn. by rewrite N.leb_refl, orb_true_r. }
  unfold load_from_full_state.
  destruct (load_states_spec (t_domains db) (t_tlds db) r) as (s & Es & Hsr);
    [by rewrite (rp_domains _ _ Hd), HD|by rewrite (rp_tlds _ _ Hd), HT|done..|].
  unfold iterate_domains, iterate_tlds. rewrite Es. cbn [rbind].
  destruct (restore_spec h x b s) as (c & Ec & Hcok & Etip & Etb & Est & En & Ei & _);
    [done|lia|done|by rewrite (rf_network _ _ Hsr)|done|].
  unfold restored. rewrite Ec. cbn [ok_or rbind]. unfold network_id. rewrite En, bool_decide_true by done. cbn [negb rbind].
  unfold rebuild_replay_index_from_store. rewrite Em. cbn [rbind mk_height].
  set (start := N.max _ 1). assert ((if start <? h then h else start) = h) as ->.
  { destruct (N.ltb_spec start h); [done|]. unfold start in *. lia. }
  rewrite heights_cons, heights_nil by lia. cbn [replay_entries]. rewrite Ean. cbn [rbind]. eexists. split; [done|].
  unfold rebuild_replay_index. rewrite Ei, app_nil_r.
  assert (chain_height c = h) as Eh by (unfold chain_height; by rewrite Etb). rewrite Eh.
  split_and!; try done.
  - by destruct Hcok; split.
  - split; [change (refines (bc_state c) (restarted r)); by rewrite Est|by apply restarted_ok|by apply (agree_free r)|].
    change (bk_timestamp (tip_block c) < U64). rewrite Etb. by destruct Hwf as [(_ & ? & ?) _].
  - intros id k. cbn [bc_included with_included]. rewrite (one_height_fold _ (λ k, (h <? k) || (k <=? h - REPLAY_WINDOW_BLOCKS)) h).
    { rewrite lookup_empty, list_elem_of_omap. split.
      - intros [[(tx & Hin & E) ->]|[_ ?]]; [|done]. split; [done|]. exists tx. split; [done|].
        destruct (transaction_id tx) as [y|]; [by injection E as ->|done].
      - intros [-> (tx & Hin & E)]. left. split; [|done]. exists tx. by rewrite E. }
    + apply Forall_forall. intros [y k'] (tx & _ & E)%list_elem_of_omap. cbn.
      destruct (transaction_id tx); [by injection E as _ ->|done].
    + apply orb_false_iff. unfold REPLAY_WINDOW_BLOCKS. split; [apply N.ltb_ge|apply N.leb_gt]; lia.
Qed.

(** Bootstrap: a node without blocks or names that imports the export
    of another node and stores the anchor block starts, at every restart,
    with a chain on the finalized block: its names are those of the
    exporter at that block and nothing else, and only the transactions of
    that block are known as included. *)
Theorem bootstrap_resumes db d tip h x b r hist cp db2 d2 m pages bytes db3 db4 :
  exports db d tip h x b r hist → finalizes cp h x r → unborn db2 d2 →
  export_verified_snapshot db cp = Ok (m, pages) → enc Block_c b = Ok bytes →
  import_verified_snapshot db2 cp m pages = (db3, Ok tt) →
  append_bootstrap_anchor h x bytes db3 = (db4, Ok tt) →
  ∃ c, load_chain db4 TESTNET = Ok c ∧ chain_ok c ∧ chain_height c = h ∧ bc_tip c = x ∧ tip_block c = b ∧
    ChainProps.represents c (restarted r) ∧
    ∀ id k, bc_included c !! id = Some k ↔ k = h ∧ carries b id.
Proof.
  intros Hex (Eh & Ex & s & Hs & Er) [Hd2 Ht2 HD2 HT2 HB2] Eexp Ebytes Eimp Eanc.
  destruct (exports_bounds _ _ _ _ _ _ _ _ Hex) as (Hh & Hne & He & Hx). destruct Hex as [Hd Hl Es Hb Hn].
  rewrite (export_spec db d tip hist cp h x b r) in Eexp by done. injection Eexp as <- <-.
  pose proof (import_export_step db2 d2 s cp h x r Hd2 Ht2 HD2 HT2 Hh Hne (en_registry _ _ _ _ He) (en_free _ _ _ _ He) Hs Eh Ex Er Hn) as [(e & Ee & _)|(db3' & E3 & Hd3)];
    rewrite Eimp in *; [done|]. injection E3 as <-.
  set (mh := Manifest_hash _) in Hd3.
  pose proof (store_write_simulates (WAnchor h x bytes) _ _ Hd3 I) as Hsim. cbn [store_write disk_write] in Hsim.
  rewrite Eanc in Hsim. unfold disk_anchor in Hsim. cbn [imported_disk k_marker ok_or rbind mk_height mk_tip_hash k_tip fst k_blocks] in Hsim.
  unfold arr_eqb in Hsim. rewrite N.eqb_refl, bool_decide_true, HB2, lookup_empty in Hsim by done. cbn [negb orb] in Hsim.
  destruct Hsim as [(e & Ee & _)|(db4' & E4 & Hd4)]; [done|]. injection E4 as <-.
  eapply (load_imported db4 _ h x b r mh (k_with_block h x bytes (imported_disk h x r mh d2))); try done.
  - destruct He. split; try done. exists x, bytes. split_and!; try done. apply lookup_insert_eq.
  - intros ->. by eapply le_first.
Qed.
End props.
