(* ===== verification/Records.v ===== *)
(** * Record content ([scone-core]: [record.rs]; [scone-protocol]: [record.rs], [hash.rs])

    The DNS records of a domain are kept off the chain, which commits to
    the hash of their encoding.  A record set is encoded in the order of
    the encodings of its records, each once: the hash does not depend on
    the order in which they are listed. *)

From S2P Require Import Prelude Bytes Crypto Names Codec Checkpoint Tx Wire.

(** ** Data *)

(** [scone-core/src/record.rs:16-34 RecordData] *)
Inductive RecordData :=
| RdA (ip : arr 4)
| RdAaaa (ip : arr 16)
| RdCname (name : DomainName)
| RdMx (preference : N) (exchange : DomainName)
| RdTxt (text : list byte)
| RdNs (name : DomainName)
| RdUnknown (type_code : N) (rdata : list byte).

#[global] Instance RecordData_eq_dec : EqDecision RecordData.
Proof. solve_decision. Defined.

(** [scone-core/src/record.rs:44-53 DnsRecord] *)
Record DnsRecord := mkDnsRecord {
  dr_domain_id : DomainId;
  dr_sequence : N;
  dr_expiration : N;
  dr_records : list RecordData }.

#[global] Instance DnsRecord_eq_dec : EqDecision DnsRecord.
Proof. solve_decision. Defined.

(** [scone-core/src/record.rs:106-110 SignedDnsRecord]: the signature is
    opaque bytes. *)
Record SignedDnsRecord := mkSignedDnsRecord {
  sr_record : DnsRecord;
  sr_owner : OwnerId;
  sr_signature : list byte }.

#[global] Instance SignedDnsRecord_eq_dec : EqDecision SignedDnsRecord.
Proof. solve_decision. Defined.

(** [scone-core/src/record.rs:62-70 DnsRecord::validate] *)
Definition DnsRecord_validate (r : DnsRecord) : result SconeError unit :=
  if dr_sequence r =? 0 then Err (InvalidSequence 0)
  else match dr_records r with [] => Err InvalidRecord | _ => Ok tt end.

(** ** One record *)

(** [scone-protocol/src/record.rs:20-33 dns_type] *)
Definition DNS_A : N := 1.
Definition DNS_NS : N := 2.
Definition DNS_CNAME : N := 5.
Definition DNS_MX : N := 15.
Definition DNS_TXT : N := 16.
Definition DNS_AAAA : N := 28.

(** [scone-protocol/src/record.rs:35-45 is_known] *)
Definition is_known (code : N) : bool :=
  (code =? DNS_A) || (code =? DNS_NS) || (code =? DNS_CNAME) || (code =? DNS_MX) || (code =? DNS_TXT) ||
  (code =? DNS_AAAA).

(** [scone-protocol/src/record.rs:47-49 put_type] *)
Definition put_type (code : N) : eresult := Ok (put_u64 code).
(** [scone-protocol/src/record.rs:51-54 take_type] *)
Definition take_type : parser N :=
  let* code := take_u64 in
  if code <=? 0xffff then pret code else pfail (IntegerOutOfRange "record type code").
Definition type_c : codec N := mkCodec put_type take_type (λ v, v ≤ 0xffff).

Definition txt_c : codec (list byte) := string_c MAX_TXT_LEN "TXT length".
Definition unknown_c : codec (list byte) := bounded_c MAX_UNKNOWN_DATA "unknown record data length".

(** [scone-protocol/src/record.rs:58-110 RecordData::encode] *)
Definition RecordData_encode (r : RecordData) : eresult :=
  match r with
  | RdA ip => cat [enc type_c DNS_A; enc (array_c 4) ip]
  | RdAaaa ip => cat [enc type_c DNS_AAAA; enc (array_c 16) ip]
  | RdCname name => cat [enc type_c DNS_CNAME; enc DomainName_c name]
  | RdMx preference exchange => cat [enc type_c DNS_MX; enc u16_c preference; enc DomainName_c exchange]
  | RdTxt text => cat [enc type_c DNS_TXT; enc txt_c text]
  | RdNs name => cat [enc type_c DNS_NS; enc DomainName_c name]
  | RdUnknown code rdata =>
      if is_known code
      then Err (Validation InvalidFormat)
      else cat [enc type_c code; enc unknown_c rdata]
  end.

(** [scone-protocol/src/record.rs:114-137 RecordData::decode]: the payload of a type. *)
Definition decode_payload (code : N) : parser RecordData :=
  if code =? DNS_A then let* ip := dec (array_c 4) in pret (RdA ip)
  else if code =? DNS_AAAA then let* ip := dec (array_c 16) in pret (RdAaaa ip)
  else if code =? DNS_CNAME then let* name := dec DomainName_c in pret (RdCname name)
  else if code =? DNS_MX then
    let* preference := dec u16_c in
    let* exchange := dec DomainName_c in
    pret (RdMx preference exchange)
  else if code =? DNS_TXT then let* text := dec txt_c in pret (RdTxt text)
  else if code =? DNS_NS then let* name := dec DomainName_c in pret (RdNs name)
  else let* rdata := dec unknown_c in pret (RdUnknown code rdata).

(** [scone-protocol/src/record.rs:112-139 RecordData::decode] *)
Definition RecordData_decode : parser RecordData := let* code := dec type_c in decode_payload code.

Definition RecordData_wf (r : RecordData) : Prop :=
  match r with
  | RdA _ | RdAaaa _ => True
  | RdCname name | RdNs name => DomainName_valid name
  | RdMx preference exchange => preference ≤ 0xffff ∧ DomainName_valid exchange
  | RdTxt text => utf8_valid text = true
  | RdUnknown code _ => code ≤ 0xffff ∧ is_known code = false
  end.
Definition RecordData_c : codec RecordData := mkCodec RecordData_encode RecordData_decode RecordData_wf.

#[global] Instance type_lawful : Lawful type_c.
Proof. by apply narrow_lawful. Qed.
#[global] Instance txt_lawful : Lawful txt_c.
Proof. by apply string_lawful. Qed.
#[global] Instance unknown_lawful : Lawful unknown_c.
Proof. by apply bounded_lawful. Qed.

(** An encoded record is not empty. *)
Lemma put_u64_nonempty v : put_u64 v ≠ [].
Proof. unfold put_u64. cbn [MAX_VARINT_LEN put_u64_loop]. by destruct (_ =? 0). Qed.

Lemma RecordData_encode_nonempty r bs : RecordData_encode r = Ok bs → bs ≠ [].
Proof.
  destruct r; cbn [RecordData_encode]; [..|destruct (is_known _); [done|]]; intros E; apply cat_cons in E as (a & b & [= <-] & _ & ->);
    intros [E _]%app_nil; by apply put_u64_nonempty in E.
Qed.

Lemma unknown_payload code : is_known code = false → decode_payload code = (let* rdata := dec unknown_c in pret (RdUnknown code rdata)).
Proof.
  unfold is_known, decode_payload. intros (((((E1 & E2)%orb_false_iff & E3)%orb_false_iff & E4)%orb_false_iff & E5)%orb_false_iff & E6)%orb_false_iff.
  by rewrite E1, E2, E3, E4, E5, E6.
Qed.

(** The payload of each known type. *)
Lemma known_payload code :
  is_known code = true →
  code = DNS_A ∨ code = DNS_AAAA ∨ code = DNS_CNAME ∨ code = DNS_MX ∨ code = DNS_TXT ∨ code = DNS_NS.
Proof. unfold is_known. rewrite !orb_true_iff, !N.eqb_eq. tauto. Qed.

Ltac one_field :=
  let x := fresh in intros x;
  match type of x with pbind (dec ?c) _ _ = Ok _ =>
    apply (pbind_canonical c) in x as (? & ? & ? & ? & ? & -> & x); apply pret_Ok in x as [<- <-] end.

#[global] Instance RecordData_lawful : Lawful RecordData_c.
Proof.
  split; cbn [cwf enc dec RecordData_c].
  - intros rd bs r Hw E. unfold RecordData_decode.
    assert (∃ code b t, enc type_c code = Ok b ∧ code ≤ 0xffff ∧ bs = b ++ t ∧ decode_payload code (t ++ r) = Ok (rd, r))
      as (code & b & t & Eb & Hc & -> & Ed); [|rewrite <- app_assoc, (pbind_dec type_c _ code) by done; exact Ed].
    destruct rd as [ip|ip|name|pref ex|text|name|code rdat]; cbn [RecordData_encode RecordData_wf] in *.
    7: destruct Hw as [Hc Hk]; rewrite Hk in E.
    all: apply cat_cons in E as (b & t & Eb & E & ->); do 2 eexists; exists t; split_and!; [exact Eb|done|done|].
    7: rewrite unknown_payload by done.
    all: cat_inv E; unfold decode_payload; cbn [N.eqb DNS_A DNS_AAAA DNS_CNAME DNS_MX DNS_TXT DNS_NS Pos.eqb];
      try match type of Hw with _ ∧ _ => destruct Hw end; codec_read; done.
  - intros i a r (code & bs & m & Hc & Eb & -> & E)%(pbind_canonical type_c).
    destruct (is_known code) eqn:Ek.
    + apply known_payload in Ek as [->|[->|[->|[->|[->| ->]]]]]; revert E; unfold decode_payload;
        cbn [N.eqb DNS_A DNS_AAAA DNS_CNAME DNS_MX DNS_TXT DNS_NS Pos.eqb].
      4: { intros (p & b1 & m1 & Hp & E1 & -> & (ex & b2 & m2 & Hex & E2 & -> & [<- <-]%pret_Ok)%(pbind_canonical DomainName_c))%(pbind_canonical u16_c).
           split; [done|]. cbn [RecordData_encode]. codec_write. }
      all: one_field; (split; [done|]); cbn [RecordData_encode]; codec_write.
    + rewrite unknown_payload in E by done. revert E. one_field. split; [done|]. cbn [RecordData_encode]. rewrite Ek. codec_write.
Qed.

(** ** Record sets *)

(** The encodings of the records, in the order given. *)
Fixpoint encode_all (rs : list RecordData) : result ProtocolError (list (list byte)) :=
  match rs with
  | [] => Ok []
  | r :: rs => let? e := enc RecordData_c r in let? es := encode_all rs in Ok (e :: es)
  end.

(** [encoded.windows(2).any(|w| w[0] == w[1])] *)
Fixpoint adjacent_eq (l : list (list byte)) : bool :=
  match l with
  | a :: (b :: _) as l => bool_decide (a = b) || adjacent_eq l
  | _ => false
  end.

(** [scone-protocol/src/record.rs:171-194 DnsRecord::encode] *)
Definition DnsRecord_encode (r : DnsRecord) : eresult :=
  let? _ := map_err Validation (DnsRecord_validate r) in
  if? MAX_RECORDS_PER_SET <? N.of_nat (length (dr_records r)) return LimitExceeded "record set size";
  let? encoded := encode_all (dr_records r) in
  let encoded := merge_sort bytes_le encoded in
  if? adjacent_eq encoded return NonCanonical "duplicate record in set";
  cat [enc id_c (dr_domain_id r); enc u64_c (dr_sequence r); enc u64_c (dr_expiration r);
       Ok (put_u64 (N.of_nat (length encoded))); Ok (concat encoded)].

(** [scone-protocol/src/record.rs:207-215 DnsRecord::decode]: the loop. *)
Fixpoint decode_records (n : nat) (previous : list byte) : parser (list RecordData) :=
  match n with
  | O => pret []
  | S n =>
      let* record := dec RecordData_c in
      let* encoded := plift (enc RecordData_c record) in
      if bool_decide (bytes_le encoded previous) then pfail (NonCanonical "record set not sorted")
      else
        let* records := decode_records n encoded in
        pret (record :: records)
  end.

(** [scone-protocol/src/record.rs:196-225 DnsRecord::decode] *)
Definition DnsRecord_decode : parser DnsRecord :=
  let* domain_id := dec id_c in
  let* sequence := dec u64_c in
  let* expiration := dec u64_c in
  let* count := take_u64 in
  if MAX_RECORDS_PER_SET <? count then pfail (LimitExceeded "record set size")
  else
    let* records := decode_records (N.to_nat count) [] in
    let record := mkDnsRecord domain_id sequence expiration records in
    plift (let? _ := map_err Validation (DnsRecord_validate record) in Ok record).

Definition encodings (rs : list RecordData) (es : list (list byte)) : Prop :=
  Forall2 (λ r e, enc RecordData_c r = Ok e) rs es.

(** A record set as a decoder returns it. *)
Definition DnsRecord_wf (r : DnsRecord) : Prop :=
  dr_sequence r < U64 ∧ dr_expiration r < U64 ∧ Forall RecordData_wf (dr_records r) ∧
  ∃ es, encodings (dr_records r) es ∧ StronglySorted bytes_lt es.
Definition DnsRecord_c : codec DnsRecord := mkCodec DnsRecord_encode DnsRecord_decode DnsRecord_wf.

(** [scone-protocol/src/record.rs:143-160 Signature::encode]: and its
    decoder. *)
Definition opaque_signature_c : codec (list byte) := bounded_c MAX_SIGNATURE_LEN "signature length".

(** [scone-protocol/src/record.rs:230-236 SignedDnsRecord::encode] *)
Definition SignedDnsRecord_encode (r : SignedDnsRecord) : eresult :=
  cat [enc DnsRecord_c (sr_record r); enc id_c (sr_owner r); enc opaque_signature_c (sr_signature r)].

(** [scone-protocol/src/record.rs:238-246 SignedDnsRecord::decode] *)
Definition SignedDnsRecord_decode : parser SignedDnsRecord :=
  let* record := dec DnsRecord_c in
  let* owner := dec id_c in
  let* signature := dec opaque_signature_c in
  pret (mkSignedDnsRecord record owner signature).

Definition SignedDnsRecord_c : codec SignedDnsRecord :=
  mkCodec SignedDnsRecord_encode SignedDnsRecord_decode (λ r, DnsRecord_wf (sr_record r)).

(** [scone-protocol/src/hash.rs:8-8 RECORD_HASH_VERSION] *)
Definition RECORD_HASH_VERSION : list byte := ascii "SCONE-RECORD-V1".

(** [scone-protocol/src/hash.rs:24-27 record_hash]; [None]: the [expect]
    panics on a record that cannot be encoded. *)
Definition record_hash_of `{Crypto} (r : DnsRecord) : option hash :=
  match enc DnsRecord_c r with
  | Ok encoded => Some (hash256 [RECORD_HASH_VERSION; encoded])
  | Err _ => None
  end.

(** ** The codec of record sets *)

Lemma encode_all_Ok rs es : encode_all rs = Ok es ↔ encodings rs es.
Proof.
  unfold encodings. revert es. induction rs as [|r rs IH]; intros es; cbn [encode_all].
  { split; [intros [= <-]; constructor|by intros ->%Forall2_nil_inv_l]. }
  rewrite rbind_Ok. setoid_rewrite rbind_Ok. split.
  - intros (e & He & es' & Hes%IH & [= <-]). by constructor.
  - intros (e & es' & He & Hes & ->)%Forall2_cons_inv_l. exists e. split; [done|]. exists es'. by rewrite IH.
Qed.

Lemma encodings_length rs es : encodings rs es → length rs = length es.
Proof. apply Forall2_length. Qed.

(** Sorted without equal neighbours: strictly sorted. *)
Lemma adjacent_eq_sorted l : StronglySorted bytes_le l → adjacent_eq l = false ↔ StronglySorted bytes_lt l.
Proof.
  induction 1 as [|a l Hs IH Ha]; [split; [constructor|done]|]. destruct l as [|b l]; [split; [by repeat constructor|done]|].
  change (adjacent_eq (a :: b :: l)) with (bool_decide (a = b) || adjacent_eq (b :: l)).
  rewrite orb_false_iff, bool_decide_eq_false, IH, (StronglySorted_cons _ _ a). split.
  - intros [Hne Hlt]. split; [|done]. apply Forall_cons in Ha as [[->|Hab]%bytes_le_lt Ha]; [done|].
    constructor; [done|]. apply StronglySorted_cons in Hlt as [Hb _]. eapply Forall_impl; [exact Hb|].
    intros x Hx. by transitivity b.
  - intros [Hlt Hss]. split; [|done]. intros ->. apply Forall_cons in Hlt as [Hlt _]. by apply bytes_lt_irrefl in Hlt.
Qed.

Lemma sorted_le l : StronglySorted bytes_lt l → StronglySorted bytes_le l.
Proof.
  induction 1 as [|a l Hs IH Ha]; constructor; [done|]. eapply Forall_impl; [exact Ha|]. intros x Hx. apply bytes_le_lt. by right.
Qed.

Lemma merge_sort_sorted l : StronglySorted bytes_lt l → merge_sort bytes_le l = l.
Proof.
  intros Hl. apply (StronglySorted_unique bytes_le); [apply (StronglySorted_merge_sort bytes_le)|by apply sorted_le|apply merge_sort_Permutation].
Qed.

Lemma bytes_lt_nil e : e ≠ [] → bytes_lt [] e.
Proof. by destruct e. Qed.
Lemma not_le_lt a b : ¬ bytes_le a b ↔ bytes_lt b a.
Proof.
  rewrite bytes_le_lt. destruct (bytes_lt_total a b) as [|[->|]].
  - split; [tauto|]. intros. exfalso. by eapply bytes_lt_asym.
  - split; [tauto|]. intros []%bytes_lt_irrefl.
  - split; [done|]. intros _ [->|]; [by eapply bytes_lt_irrefl|by eapply bytes_lt_asym].
Qed.

Lemma decode_records_roundtrip rs es prev r :
  Forall RecordData_wf rs → encodings rs es → StronglySorted bytes_lt (prev :: es) →
  decode_records (length rs) prev (concat es ++ r) = Ok (rs, r).
Proof.
  intros Hw He. revert prev Hw. induction He as [|rd e rs es Ee He IH]; intros prev Hw Hs; [done|].
  apply Forall_cons in Hw as [Hrd Hw]. apply StronglySorted_cons in Hs as [Hp Hs]. apply Forall_cons in Hp as [Hp _].
  cbn [length decode_records concat]. rewrite <- app_assoc, (pbind_dec RecordData_c _ rd) by done.
  rewrite (pbind_step _ _ _ e (concat es ++ r)) by (apply plift_Ok; done).
  rewrite bool_decide_false by by apply not_le_lt. by rewrite (pbind_step _ _ _ rs r) by by apply IH.
Qed.

Lemma decode_records_canonical n prev i rs r :
  decode_records n prev i = Ok (rs, r) →
  Forall RecordData_wf rs ∧ length rs = n ∧
  ∃ es, encodings rs es ∧ StronglySorted bytes_lt (prev :: es) ∧ i = concat es ++ r.
Proof.
  revert prev i rs. induction n as [|n IH]; intros prev i rs; cbn [decode_records].
  { intros [<- <-]%pret_Ok. split_and!; [constructor|done|]. exists []. split_and!; [constructor|by repeat constructor|done]. }
  intros (rd & e & m & Hrd & Ee & -> & (e' & m' & [Ee' ->]%plift_Ok & E)%pbind_Ok)%(pbind_canonical RecordData_c).
  rewrite Ee in Ee'. injection Ee' as <-. case_bool_decide as Hle; [done|]. apply not_le_lt in Hle.
  apply pbind_Ok in E as (rs' & m' & E & [<- <-]%pret_Ok). apply IH in E as (Hw & <- & es & He & Hs & ->).
  split_and!; [by constructor|done|]. exists (e :: es). split_and!; [by constructor| |by cbn; rewrite <- app_assoc].
  constructor; [done|]. constructor; [done|]. apply StronglySorted_cons in Hs as [Ha _]. eapply Forall_impl; [exact Ha|].
  intros x Hx. by transitivity e.
Qed.

Lemma DnsRecord_encode_Ok r bs :
  DnsRecord_encode r = Ok bs ↔
  DnsRecord_validate r = Ok tt ∧ N.of_nat (length (dr_records r)) ≤ MAX_RECORDS_PER_SET ∧
  ∃ es, encodings (dr_records r) es ∧ StronglySorted bytes_lt (merge_sort bytes_le es) ∧
    bs = arr_list (dr_domain_id r) ++ put_u64 (dr_sequence r) ++ put_u64 (dr_expiration r) ++
         put_u64 (N.of_nat (length es)) ++ concat (merge_sort bytes_le es).
Proof.
  unfold DnsRecord_encode. destruct (DnsRecord_validate r) as [[]|e]; cbn [map_err rbind]; [|by split; [|intros [? _]]].
  destruct (N.ltb_spec MAX_RECORDS_PER_SET (N.of_nat (length (dr_records r)))) as [|Hl].
  { split; [done|intros (_ & ? & _); lia]. }
  split.
  - intros (es & He%encode_all_Ok & E)%rbind_Ok. split_and!; [done..|]. exists es.
    destruct (adjacent_eq _) eqn:Ea; [done|]. apply adjacent_eq_sorted in Ea; [|apply (StronglySorted_merge_sort bytes_le)].
    split_and!; [done..|]. cat_inv E. injection He0 as <-. injection He1 as <-. injection He2 as <-. injection He3 as <-.
    injection He4 as <-. by rewrite (Permutation_length (merge_sort_Permutation bytes_le es)), app_nil_r.
  - intros (_ & _ & es & He & Hs & ->). apply rbind_Ok. exists es. split; [by apply encode_all_Ok|].
    rewrite (proj2 (adjacent_eq_sorted _ (StronglySorted_merge_sort bytes_le es)) Hs).
    rewrite (Permutation_length (merge_sort_Permutation bytes_le es)).
    cbn [cat rbind enc id_c array_c u64_c]. unfold put_array, u64_encode. cbn [rbind]. by rewrite app_nil_r.
Qed.

Lemma encodings_unique rs es es' : encodings rs es → encodings rs es' → es = es'.
Proof.
  intros He. revert es'. induction He as [|r e rs es Ee He IH]; intros es' He'; [by apply Forall2_nil_inv_l in He'|].
  apply Forall2_cons_inv_l in He' as (e' & es2 & Ee' & He' & ->). rewrite (IH _ He'). congruence.
Qed.

#[global] Instance DnsRecord_lawful : Lawful DnsRecord_c.
Proof.
  split; cbn [cwf enc dec DnsRecord_c].
  - intros rd bs r (Hs & Hx & Hw & es & He & Hso) (Hv & Hl & es' & He' & Hso' & ->)%DnsRecord_encode_Ok.
    rewrite (encodings_unique _ _ _ He' He) in *. rewrite merge_sort_sorted by done. rewrite <- !app_assoc.
    unfold DnsRecord_decode. rewrite (pbind_dec id_c _ (dr_domain_id rd)) by done.
    rewrite (pbind_dec u64_c _ (dr_sequence rd)), (pbind_dec u64_c _ (dr_expiration rd)) by done.
    rewrite <- (encodings_length _ _ He).
    rewrite (pbind_step _ _ _ (N.of_nat (length (dr_records rd))) (concat es ++ r))
      by (apply take_put_u64; unfold MAX_RECORDS_PER_SET, U64 in *; lia).
    rewrite (proj2 (N.ltb_ge _ _)), Nat2N.id by done.
    rewrite (pbind_step _ _ _ (dr_records rd) r).
    + unfold plift. destruct rd as [d s x l]. cbn [dr_domain_id dr_sequence dr_expiration dr_records] in *. by rewrite Hv.
    + apply decode_records_roundtrip; [done..|]. constructor; [done|]. apply Forall_forall. intros e (i & Hi)%list_elem_of_lookup.
      destruct (Forall2_lookup_r _ _ _ _ _ He Hi) as (x & _ & Ex). by apply bytes_lt_nil, (RecordData_encode_nonempty x).
  - intros i rd r E. unfold DnsRecord_decode in E.
    apply (pbind_canonical id_c) in E as (d & b1 & m1 & _ & [= <-] & -> & E).
    apply (pbind_canonical u64_c) in E as (s & b2 & m2 & Hs & [= <-] & -> & E).
    apply (pbind_canonical u64_c) in E as (x & b3 & m3 & Hx & [= <-] & -> & E).
    apply pbind_Ok in E as (n & m4 & [Hn ->]%take_u64_canonical & E).
    destruct (N.ltb_spec MAX_RECORDS_PER_SET n) as [|Hl]; [done|].
    apply pbind_Ok in E as (rs & m5 & (Hw & Hlen & es & He & Hso & ->)%decode_records_canonical & E).
    apply plift_Ok in E as [([] & Hv%map_err_Ok & [= <-])%rbind_Ok ->]. apply StronglySorted_cons in Hso as [_ Hso].
    split; [split_and!; [done..|]; by exists es|]. eexists. split.
    + apply DnsRecord_encode_Ok. split; [done|]. cbn [dr_records dr_domain_id dr_sequence dr_expiration]. split; [lia|].
      exists es. rewrite merge_sort_sorted by done. done.
    + rewrite <- (encodings_length _ _ He), Hlen, N2Nat.id by done. by rewrite <- !app_assoc.
Qed.

#[global] Instance opaque_signature_lawful : Lawful opaque_signature_c.
Proof. by apply bounded_lawful. Qed.

#[global] Instance SignedDnsRecord_lawful : Lawful SignedDnsRecord_c.
Proof.
  split; cbn [cwf enc dec SignedDnsRecord_c].
  - intros [rd o sg] bs r Hw E. cbn [sr_record] in Hw. unfold SignedDnsRecord_encode in E. cat_inv E. unfold SignedDnsRecord_decode.
    cbn [sr_record sr_owner sr_signature] in *. by codec_read.
  - intros i a r E. unfold SignedDnsRecord_decode in E. dec_inv E. apply pret_Ok in E as [<- <-]. split; [done|].
    unfold SignedDnsRecord_encode. cbn [sr_record sr_owner sr_signature]. codec_write.
Qed.

(** ** The canonical order *)

Definition encoding (r : RecordData) : list byte := default [] (to_option (enc RecordData_c r)).
Definition record_le (a b : RecordData) : Prop := bytes_le (encoding a) (encoding b).
#[global] Instance record_le_dec : RelDecision record_le.
Proof. intros a b. unfold record_le. apply _. Defined.
#[global] Instance record_le_trans : Transitive record_le.
Proof. intros a b c. unfold record_le. apply transitivity. Qed.
#[global] Instance record_le_total : Total record_le.
Proof. intros a b. unfold record_le. apply total, _. Qed.

(** The record as a reader gets it. *)
Definition canonical_record (r : DnsRecord) : DnsRecord :=
  mkDnsRecord (dr_domain_id r) (dr_sequence r) (dr_expiration r) (merge_sort record_le (dr_records r)).

Lemma encodings_map rs es : encodings rs es → es = encoding <$> rs.
Proof.
  induction 1 as [|r e rs es Ee He IH]; [done|]. cbn [fmap list_fmap]. unfold encoding at 1. rewrite Ee. by rewrite <- IH.
Qed.

Lemma encodings_perm rs es rs' : encodings rs es → rs ≡ₚ rs' → encodings rs' (encoding <$> rs').
Proof.
  intros He Hp. unfold encodings. apply Forall2_fmap_r, Forall_Forall2_diag. rewrite <- Hp. apply Forall_forall.
  intros r (i & Hi)%list_elem_of_lookup. destruct (Forall2_lookup_l _ _ _ _ _ He Hi) as (e & _ & Ee).
  change (enc RecordData_c r = Ok (encoding r)). unfold encoding. by rewrite Ee.
Qed.

Lemma canonical_encodings rs es :
  encodings rs es → encodings (merge_sort record_le rs) (merge_sort bytes_le es).
Proof.
  intros He. assert (merge_sort bytes_le es = encoding <$> merge_sort record_le rs) as ->.
  { rewrite (encodings_map _ _ He). apply (StronglySorted_unique bytes_le).
    - apply (StronglySorted_merge_sort bytes_le).
    - pose proof (StronglySorted_merge_sort record_le rs) as Hs. induction Hs as [|r l Hs IH Ha]; [constructor|].
      rewrite fmap_cons. constructor; [done|]. by apply Forall_fmap.
    - by rewrite !merge_sort_Permutation. }
  apply (encodings_perm rs es); [done|]. by rewrite merge_sort_Permutation.
Qed.
