(* ===== verification/Messages.v ===== *)
(** * Gossip messages ([scone-protocol]: [message.rs])

    The envelope of what nodes send each other, and its encoding: a
    discriminant byte and a payload.  A message travels in a frame that
    announces its length ([scone-network]: [behaviour.rs]). *)

From S2P Require Import Prelude Bytes Crypto Names Codec Checkpoint Tx Wire Blocks BlocksProps Records.

(** [scone-protocol/src/message.rs:21-45 msg_type] *)
Definition HELLO : byte := x01.
Definition PING : byte := x02.
Definition PONG : byte := x03.
Definition GET_BLOCK : byte := x04.
Definition GET_BLOCKS : byte := x05.
Definition BLOCK : byte := x06.
Definition TRANSACTION : byte := x07.
Definition GET_RECORD : byte := x08.
Definition RECORD : byte := x09.
Definition CHECKPOINT : byte := x0a.
Definition GET_CHECKPOINTS : byte := x0b.

(** [scone-protocol/src/message.rs:50-93 Message] *)
Inductive Message :=
| MsgHello (version : N)
| MsgPing
| MsgPong
| MsgGetBlock (bhash : BlockHash)
| MsgGetBlocks (start_height max_blocks : N)
| MsgBlock (b : Block)
| MsgTransaction (tx : Transaction)
| MsgGetRecord (domain_id : DomainId)
| MsgRecord (r : SignedDnsRecord)
| MsgCheckpoint (cp : Checkpoint)
| MsgGetCheckpoints.

Section messages.
Context `{Crypto}.

(** [scone-protocol/src/message.rs:95-154 Message::encode] *)
Definition Message_encode (m : Message) : eresult :=
  match m with
  | MsgHello version =>
      if (version =? 0) || (PROTOCOL_VERSION <? version) then Err (UnsupportedVersion version)
      else cat [Ok [HELLO]; enc u64_c version]
  | MsgPing => Ok [PING]
  | MsgPong => Ok [PONG]
  | MsgGetBlock bhash => cat [Ok [GET_BLOCK]; enc id_c bhash]
  | MsgGetBlocks start_height max_blocks =>
      if MAX_BLOCKS_PER_REQUEST <? max_blocks then Err (LimitExceeded "max_blocks")
      else cat [Ok [GET_BLOCKS]; enc u64_c start_height; enc u64_c max_blocks]
  | MsgBlock b => cat [Ok [BLOCK]; enc Block_c b]
  | MsgTransaction tx => cat [Ok [TRANSACTION]; enc Transaction_c tx]
  | MsgGetRecord domain_id => cat [Ok [GET_RECORD]; enc id_c domain_id]
  | MsgRecord r => cat [Ok [RECORD]; enc SignedDnsRecord_c r]
  | MsgCheckpoint cp => cat [Ok [CHECKPOINT]; enc Checkpoint_c cp]
  | MsgGetCheckpoints => Ok [GET_CHECKPOINTS]
  end.

(** [scone-protocol/src/message.rs:156-199 Message::decode] *)
Definition Message_decode : parser Message :=
  let* disc := take_u8 in
  if byte_eqb disc HELLO then
    let* version := dec u64_c in
    if (version =? 0) || (PROTOCOL_VERSION <? version) then pfail (UnsupportedVersion version)
    else pret (MsgHello version)
  else if byte_eqb disc PING then pret MsgPing
  else if byte_eqb disc PONG then pret MsgPong
  else if byte_eqb disc GET_BLOCK then let* bhash := dec id_c in pret (MsgGetBlock bhash)
  else if byte_eqb disc GET_BLOCKS then
    let* start_height := dec u64_c in
    let* max_blocks := dec u64_c in
    if MAX_BLOCKS_PER_REQUEST <? max_blocks then pfail (LimitExceeded "max_blocks")
    else pret (MsgGetBlocks start_height max_blocks)
  else if byte_eqb disc BLOCK then let* b := dec Block_c in pret (MsgBlock b)
  else if byte_eqb disc TRANSACTION then let* tx := dec Transaction_c in pret (MsgTransaction tx)
  else if byte_eqb disc GET_RECORD then let* domain_id := dec id_c in pret (MsgGetRecord domain_id)
  else if byte_eqb disc RECORD then let* r := dec SignedDnsRecord_c in pret (MsgRecord r)
  else if byte_eqb disc CHECKPOINT then let* cp := dec Checkpoint_c in pret (MsgCheckpoint cp)
  else if byte_eqb disc GET_CHECKPOINTS then pret MsgGetCheckpoints
  else pfail (UnknownDiscriminant "message" (Byte.to_N disc)).

Definition Message_wf (m : Message) : Prop :=
  match m with
  | MsgHello version => cwf u64_c version
  | MsgGetBlocks start_height max_blocks => cwf u64_c start_height ∧ cwf u64_c max_blocks
  | MsgBlock b => cwf Block_c b
  | MsgTransaction tx => cwf Transaction_c tx
  | MsgRecord r => cwf SignedDnsRecord_c r
  | MsgCheckpoint cp => cwf Checkpoint_c cp
  | _ => True
  end.
Definition Message_c : codec Message := mkCodec Message_encode Message_decode Message_wf.

(** ** The codec is lawful *)

(** The decoder on a known discriminant. *)
Ltac message_step :=
  match goal with |- context [pbind take_u8 ?k (?d :: ?l)] => change (pbind take_u8 k (d :: l)) with (k d l) end;
  cbv beta;
  repeat match goal with |- context [byte_eqb ?a ?b] =>
    let v := eval vm_compute in (byte_eqb a b) in change (byte_eqb a b) with v; cbn iota end.

#[global] Instance Message_lawful : Lawful Message_c.
Proof.
  split; cbn [cwf enc dec Message_c].
  - intros m bs r Hw E. unfold Message_decode, Message_encode, Message_wf in *.
    destruct m as [v| | |x|s n|b|tx|d|rd|cp|].
    1: destruct (_ || _) eqn:Ev; [done|]. 5: destruct (_ <? _) eqn:Ev; [done|].
    5: destruct Hw as [Hs Hm].
    2,3,11: injection E as <-; cbn [app]; message_step; done.
    all: cat_inv E; apply Ok_inj in He; subst; cbn [app]; message_step; codec_read; rewrite ?Ev; done.
  - intros i m r E. unfold Message_decode in E.
    apply pbind_Ok in E as (disc & i1 & ->%take_u8_Ok & E).
    repeat match type of E with (if byte_eqb disc ?k then _ else _) _ = _ =>
      let Ed := fresh "Ed" in destruct (byte_eqb disc k) eqn:Ed;
      [apply byte_eqb_eq in Ed as ->; dec_inv E;
       try match type of E with (if ?c then _ else _) _ = _ => destruct c eqn:Ev; [done|] end;
       apply pret_Ok in E as [<- ->]; (split; [done|]); unfold Message_encode; rewrite ?Ev;
       first [eexists; split; [reflexivity|done]
             |eexists; split; [apply cat_Ok; [reflexivity|]; repeat (apply cat_Ok; [eassumption|]); apply cat_nil_Ok
                              |by rewrite <- ?app_assoc, ?app_nil_r]]
      |]
    end; try done.
Qed.

(** ** Frames *)

(** [scone-protocol/src/limits.rs:39-39 MAX_MESSAGE_LEN] *)
Definition MAX_MESSAGE_LEN : N := 1024 * 1024.
(** [scone-network/src/behaviour.rs:46-46 LEN_PREFIX] *)
Definition LEN_PREFIX : nat := 4.

(** The errors of the frame codec, all of them [io::Error]s. *)
Inductive FrameError :=
| UnexpectedEof
| FrameTooLarge (len : N)
| BadMessage (e : ProtocolError).

(** [read_exact]: the next [n] bytes of the stream. *)
Definition read_exact (n : nat) (io : list byte) : result FrameError (list byte * list byte) :=
  if (length io <? n)%nat then Err UnexpectedEof else Ok (take n io, drop n io).

(** [scone-network/src/behaviour.rs:88-102 SconeCodec::read_frame]: the
    frame and the rest of the stream. *)
Definition read_frame (io : list byte) : result FrameError (list byte * list byte) :=
  let? (len_bytes, io) := read_exact LEN_PREFIX io in
  let len := be_val len_bytes in
  if? MAX_MESSAGE_LEN <? len return FrameTooLarge len;
  read_exact (N.to_nat len) io.

(** [scone-network/src/behaviour.rs:106-114 SconeCodec::write_frame]: the
    bytes written. *)
Definition write_frame (bytes : list byte) : result FrameError (list byte) :=
  if? U32_MAX <? blen bytes return FrameTooLarge (blen bytes);
  Ok (be_bytes 4 (blen bytes) ++ bytes).

(** [scone-network/src/behaviour.rs:137-149 SconeCodec::read_request]: and
    [read_response], with [decode_message]. *)
Definition read_message (io : list byte) : result FrameError (Message * list byte) :=
  let? (frame, io) := read_frame io in
  let? m := map_err BadMessage (decode_complete (dec Message_c) frame) in
  Ok (m, io).

(** [scone-network/src/behaviour.rs:151-173 SconeCodec::write_request]: and
    [write_response], with [encode_message]. *)
Definition write_message (m : Message) : result FrameError (list byte) :=
  let? bytes := map_err BadMessage (enc Message_c m) in write_frame bytes.

Lemma read_exact_app a b : read_exact (length a) (a ++ b) = Ok (a, b).
Proof.
  unfold read_exact. rewrite length_app. destruct (Nat.ltb_spec (length a + length b) (length a)); [lia|].
  by rewrite take_app_length, drop_app_length.
Qed.

Lemma read_written bytes io rest :
  write_frame bytes = Ok io →
  read_frame (io ++ rest) = if MAX_MESSAGE_LEN <? blen bytes then Err (FrameTooLarge (blen bytes)) else Ok (bytes, rest).
Proof.
  unfold write_frame. destruct (N.ltb_spec U32_MAX (blen bytes)) as [|Hl]; [done|]. intros E%Ok_inj. subst io. unfold read_frame.
  rewrite <- app_assoc. change LEN_PREFIX with 4%nat.
  assert (read_exact 4 (be_bytes 4 (blen bytes) ++ bytes ++ rest) = Ok (be_bytes 4 (blen bytes), bytes ++ rest)) as ->.
  { rewrite <- (length_be_bytes 4 (blen bytes)) at 1. apply read_exact_app. }
  cbn [rbind]. rewrite be_val_be_bytes, N.mod_small by (change (256 ^ N.of_nat 4) with 4294967296; unfold U32_MAX in Hl; lia).
  destruct (N.ltb_spec MAX_MESSAGE_LEN (blen bytes)); [done|]. unfold blen. rewrite Nat2N.id. apply read_exact_app.
Qed.
End messages.
