(* ===== verification/MessagesProps.v ===== *)
(** * Properties of record sets and messages *)

From S2P Require Import Prelude Bytes Crypto SmtBinding Names Codec Checkpoint Tx Wire WireProps Blocks BlocksProps Records Messages.

(** ** Record sets *)

Lemma canonical_record_wf r es :
  dr_sequence r < U64 → dr_expiration r < U64 → Forall RecordData_wf (dr_records r) →
  encodings (dr_records r) es → StronglySorted bytes_lt (merge_sort bytes_le es) → DnsRecord_wf (canonical_record r).
Proof.
  intros Hs Hx Hw He Hso. split_and!; cbn; [done..| |].
  - by rewrite (merge_sort_Permutation record_le).
  - exists (merge_sort bytes_le es). split; [by apply canonical_encodings|done].
Qed.

Lemma DnsRecord_validate_perm r r' :
  dr_sequence r = dr_sequence r' → dr_records r ≡ₚ dr_records r' → DnsRecord_validate r = DnsRecord_validate r'.
Proof.
  intros Es Hp. unfold DnsRecord_validate. rewrite Es. destruct (_ =? 0); [done|]. apply Permutation_length in Hp.
  by destruct (dr_records r), (dr_records r').
Qed.

(** The order of the records does not matter. *)
Lemma DnsRecord_encode_perm r r' bs :
  dr_domain_id r = dr_domain_id r' → dr_sequence r = dr_sequence r' → dr_expiration r = dr_expiration r' →
  dr_records r ≡ₚ dr_records r' → DnsRecord_encode r = Ok bs → DnsRecord_encode r' = Ok bs.
Proof.
  intros Ed Es Ex Hp (Hv & Hl & es & He & Hso & ->)%DnsRecord_encode_Ok. apply DnsRecord_encode_Ok.
  split; [by rewrite <- (DnsRecord_validate_perm r r')|]. split; [by rewrite <- Hp|].
  exists (encoding <$> dr_records r'). pose proof (encodings_perm _ _ _ He Hp) as He'. split; [done|].
  assert (merge_sort bytes_le (encoding <$> dr_records r') = merge_sort bytes_le es) as ->.
  { apply (StronglySorted_unique bytes_le); [apply (StronglySorted_merge_sort bytes_le)..|].
    rewrite !merge_sort_Permutation, (encodings_map _ _ He). by rewrite Hp. }
  split; [done|]. rewrite length_fmap, <- (Permutation_length Hp), (encodings_length _ _ He). by rewrite Ed, Es, Ex.
Qed.

(** A record set is a set on the wire: its encoding, hence the hash
    that the chain commits to, is the same in any order of its records,
    and a reader gets it back in the canonical order, once each. *)
Theorem record_set_order r r' bs :
  dr_sequence r < U64 → dr_expiration r < U64 → Forall RecordData_wf (dr_records r) →
  dr_domain_id r = dr_domain_id r' → dr_sequence r = dr_sequence r' → dr_expiration r = dr_expiration r' →
  dr_records r ≡ₚ dr_records r' → enc DnsRecord_c r = Ok bs →
  enc DnsRecord_c r' = Ok bs ∧ decode_complete (dec DnsRecord_c) bs = Ok (canonical_record r) ∧
  dr_records (canonical_record r) ≡ₚ dr_records r' ∧ NoDup (dr_records r').
Proof.
  intros Hs Hx Hw Ed Es Ex Hp E. pose proof E as (Hv & Hl & es & He & Hso & _)%DnsRecord_encode_Ok.
  assert (dr_records (canonical_record r) ≡ₚ dr_records r) as Hc by apply (merge_sort_Permutation record_le).
  split_and!.
  - by eapply (DnsRecord_encode_perm r r').
  - apply (decode_complete_roundtrip DnsRecord_c); [by eapply canonical_record_wf|].
    by eapply (DnsRecord_encode_perm r (canonical_record r)).
  - by rewrite Hc.
  - rewrite <- Hp. apply (NoDup_fmap_1 encoding). rewrite <- (encodings_map _ _ He), <- (merge_sort_Permutation bytes_le es).
    clear -Hso. induction Hso as [|e l Hso IH Ha]; constructor; [|done]. intros Hin. rewrite Forall_forall in Ha.
    by apply Ha, bytes_lt_irrefl in Hin.
Qed.

Section messages.
Context `{Crypto}.

(** [record_hash] does not panic on a record that was decoded. *)
Lemma decoded_record_hash bytes record :
  decode_complete (dec SignedDnsRecord_c) bytes = Ok record → is_Some (record_hash_of (sr_record record)).
Proof.
  intros (_ & E)%(decode_complete_canonical SignedDnsRecord_c). apply cat_cons in E as (b & ? & E & _).
  unfold record_hash_of. rewrite E. by eexists.
Qed.

(** Same hash, same set of records. *)
Lemma record_hash_inj r r' bs bs' :
  DnsRecord_wf r → DnsRecord_wf r' → enc DnsRecord_c r = Ok bs → enc DnsRecord_c r' = Ok bs' →
  injective_on [RECORD_HASH_VERSION ++ bs; RECORD_HASH_VERSION ++ bs'] →
  record_hash_of r = record_hash_of r' → r = r'.
Proof.
  intros Hw Hw' E E' Hi. unfold record_hash_of. rewrite E, E'. unfold hash256. cbn [concat]. rewrite !app_nil_r.
  intros Eh. injection Eh as Eh. apply Hi in Eh; [|by repeat constructor..]. apply (app_inv_head RECORD_HASH_VERSION) in Eh as ->.
  destruct (enc_inj DnsRecord_c r r' bs' bs' [] [] Hw Hw' E E' eq_refl) as [? _]. done.
Qed.

(** Messages: the bytes that decode to a message are its encoding and
    no others, and what a peer writes on a stream is read back exactly
    when its encoding is at most [MAX_MESSAGE_LEN] bytes long. *)
Theorem message_framing m :
  (∀ bytes, decode_complete (dec Message_c) bytes = Ok m ↔ Message_wf m ∧ enc Message_c m = Ok bytes) ∧
  (∀ io rest, Message_wf m → write_message m = Ok io →
    ∃ bytes, enc Message_c m = Ok bytes ∧
    read_message (io ++ rest) = if MAX_MESSAGE_LEN <? blen bytes then Err (FrameTooLarge (blen bytes)) else Ok (m, rest)).
Proof.
  split.
  - intros bytes. split; [apply (decode_complete_canonical Message_c)|].
    intros [Hw E]. by apply (decode_complete_roundtrip Message_c).
  - intros io rest Hw (bytes & E%map_err_Ok & Ew)%rbind_Ok. exists bytes. split; [done|]. unfold read_message.
    rewrite (read_written _ _ _ Ew). destruct (_ <? _); [done|]. cbn [rbind].
    by rewrite (decode_complete_roundtrip Message_c m bytes Hw E).
Qed.

(** The encoding of a block of equal transactions. *)
Lemma cat_repeat (e : list byte) n : cat (repeat (Ok e) n) = Ok (concat (repeat e n)).
Proof. induction n as [|n IH]; [done|]. cbn [repeat cat rbind concat]. by rewrite IH. Qed.

Lemma length_concat_repeat (e : list byte) n : length (concat (repeat e n)) = (n * length e)%nat.
Proof. induction n as [|n IH]; [done|]. cbn [repeat concat Nat.mul]. by rewrite length_app, IH. Qed.

Lemma repeat_block_encode hd tx hb tb n :
  N.of_nat n ≤ MAX_TXS_PER_BLOCK → enc BlockHeader_c hd = Ok hb → enc Transaction_c tx = Ok tb →
  ∃ bytes, enc Block_c (mkBlock hd (repeat tx n)) = Ok bytes ∧
    blen bytes = blen hb + blen (put_u64 (N.of_nat n)) + N.of_nat n * blen tb.
Proof.
  intros Hn Eh Et. cbn [enc Block_c]. unfold Block_encode. cbn [bk_transactions bk_header]. rewrite repeat_length.
  rewrite (proj2 (N.ltb_ge _ _)) by done. rewrite map_repeat, Et. eexists. split.
  - apply cat_Ok; [exact Eh|]. apply cat_Ok; [reflexivity|]. apply cat_repeat.
  - unfold blen. rewrite !length_app, length_concat_repeat. lia.
Qed.
End messages.

Module MessagesScenario.
#[local] Existing Instance Toy.crypto.

Definition key (b : byte) : PublicKey := arr_of 32 [b].
Definition long_name : DomainName :=
  repeat x61 63 ++ [DOT] ++ repeat x62 63 ++ [DOT] ++ repeat x63 63 ++ [DOT] ++ repeat x64 57 ++ ascii ".uip".
Definition long_tx : Transaction :=
  TxRegisterDomain (register_domain_on NetworkId_TESTNET long_name 1700000000 (repeat x00 256) (key x01) (arr_of 64 [x2a])).
Definition header : BlockHeader := mkBlockHeader 1 1 (arr_zero 32) (arr_zero 32) 1700000000 [].
(** 4096 transactions of the largest size. *)
Definition long_block : Block := mkBlock header (repeat long_tx 4096).

Definition header_bytes : list byte := match enc BlockHeader_c header with Ok b => b | Err _ => [] end.
Definition tx_bytes : list byte := match enc Transaction_c long_tx with Ok b => b | Err _ => [] end.

Lemma long_tx_wf : Transaction_wf long_tx.
Proof. cbn. unfold RegisterDomain_wf. split_and!; by vm_compute. Qed.

(** The limits of the wire format do not fit the frames: a block
    within every limit, which the codec encodes and decodes, cannot be
    sent to a peer, which refuses its frame. *)
Theorem oversized_block :
  Message_wf (MsgBlock long_block) ∧ N.of_nat (length (bk_transactions long_block)) ≤ MAX_TXS_PER_BLOCK ∧
  ∃ io len, write_message (MsgBlock long_block) = Ok io ∧ read_message io = Err (FrameTooLarge len) ∧ MAX_MESSAGE_LEN < len.
Proof.
  assert (Message_wf (MsgBlock long_block)) as Hw.
  { split; [by repeat split|]. apply Forall_forall. intros tx Hin%list_elem_of_In%repeat_spec. subst tx. exact long_tx_wf. }
  split; [exact Hw|]. split; [cbn [bk_transactions long_block]; rewrite repeat_length; done|].
  destruct (repeat_block_encode header long_tx header_bytes tx_bytes 4096) as (bytes & Eb & El);
    [done|by vm_compute|by vm_compute|].
  assert (blen bytes = 2842698) as El' by (rewrite El; by vm_compute). clear El.
  assert (enc Message_c (MsgBlock long_block) = Ok (BLOCK :: bytes ++ [])) as Em.
  { change (cat [Ok [BLOCK]; enc Block_c long_block] = Ok ([BLOCK] ++ bytes ++ [])).
    apply cat_Ok; [done|]. apply cat_Ok; [exact Eb|done]. }
  rewrite app_nil_r in Em. assert (blen (BLOCK :: bytes) = 2842699) as Ef by (unfold blen in *; cbn [length]; lia).
  exists (be_bytes 4 2842699 ++ BLOCK :: bytes), 2842699.
  assert (write_frame (BLOCK :: bytes) = Ok (be_bytes 4 2842699 ++ BLOCK :: bytes)) as Ew by (unfold write_frame; by rewrite Ef).
  split_and!; [unfold write_message; by rewrite Em| |done].
  unfold read_message. pose proof (read_written _ _ [] Ew) as Er. rewrite app_nil_r, Ef in Er. by rewrite Er.
Qed.

(** A record set given out of order. *)
Definition a_record : RecordData := RdA (arr_of 4 [xc0; x00; x02; x01]).
Definition mx_record : RecordData := RdMx 10 (ascii "mail.uip").
Definition txt_record : RecordData := RdTxt (ascii "hello").
Definition site_id : DomainId := arr_of 32 [x11].
Definition listed : DnsRecord := mkDnsRecord site_id 1 0 [mx_record; txt_record; a_record].
Definition listed' : DnsRecord := mkDnsRecord site_id 1 0 [txt_record; a_record; mx_record].
Definition listed_bytes : list byte := match enc DnsRecord_c listed with Ok b => b | Err _ => [] end.

Lemma record_set_order_witness :
  enc DnsRecord_c listed = Ok listed_bytes ∧ listed ≠ listed' ∧ enc DnsRecord_c listed' = Ok listed_bytes.
Proof.
  split; [by vm_compute|]. split; [done|].
  apply (record_set_order listed listed' listed_bytes); try by vm_compute.
  - by repeat (constructor; [by vm_compute|]).
  - change ([mx_record; txt_record; a_record] ≡ₚ [txt_record; a_record; mx_record]).
    apply (Permutation_cons_append [txt_record; a_record] mx_record).
Defined.
End MessagesScenario.
