(* ===== verification/Mempool.v ===== *)
(** * The mempool ([scone-network]: [mempool.rs])

    Pending transactions, at most a capacity, each once: a list of
    identifiers in the order of insertion and a map of the transactions.
    [queue] is what they stand for, the transactions in that order. *)

From S2P Require Import Prelude Bytes Crypto Names Codec Checkpoint Tx Wire Blocks.

(** [scone-network/src/mempool.rs:23-23 MAX_PENDING_PER_DOMAIN] *)
Definition MAX_PENDING_PER_DOMAIN : nat := 4.

(** [scone-network/src/mempool.rs:31-48 domain_key] *)
Definition domain_key (tx : Transaction) : option hash :=
  match tx with
  | TxRegisterDomain r => Some (rd_domain_id r)
  | TxUpdateDomain u => Some (ud_domain_id u)
  | TxAssignDomain a => Some (ad_domain_id a)
  | TxRenewDomain r => Some (rn_domain_id r)
  | TxTransferDomain t => Some (td_domain_id t)
  | TxRegisterTld t => Some (rt_tld_id t)
  | TxTransferTld t => Some (tt_tld_id t)
  | TxRevokeTld r => Some (rv_tld_id r)
  | TxSetTldOpen s => Some (so_tld_id s)
  | TxSlash _ => None
  end.

(** [scone-network/src/mempool.rs:52-57 Mempool] *)
Record Mempool := mkMempool {
  mp_capacity : nat;
  mp_order : list TxId;
  mp_entries : gmap TxId Transaction }.

(** [scone-network/src/mempool.rs:62-68 Mempool::new] *)
Definition Mempool_new (capacity : nat) : Mempool := mkMempool capacity [] ∅.
(** [scone-network/src/mempool.rs:78-80 Mempool::len] *)
Definition mempool_len (m : Mempool) : nat := size (mp_entries m).
(** [scone-network/src/mempool.rs:84-86 Mempool::is_empty] *)
Definition mempool_is_empty (m : Mempool) : bool := (mempool_len m =? 0)%nat.

(** [NetworkError::LimitExceeded("mempool capacity")] *)
Inductive MempoolError := MempoolFull.

(** [scone-network/src/mempool.rs:101-111 Mempool::insert] *)
Definition mempool_insert (id : TxId) (tx : Transaction) (m : Mempool) : Mempool * result MempoolError bool :=
  if bool_decide (is_Some (mp_entries m !! id)) then (m, Ok false)
  else if (mp_capacity m <=? mempool_len m)%nat then (m, Err MempoolFull)
  else (mkMempool (mp_capacity m) (mp_order m ++ [id]) (<[id := tx]> (mp_entries m)), Ok true).

(** [scone-network/src/mempool.rs:115-117 Mempool::contains] *)
Definition mempool_contains (id : TxId) (m : Mempool) : bool := bool_decide (is_Some (mp_entries m !! id)).

(** [scone-network/src/mempool.rs:122-127 Mempool::count_for_domain] *)
Definition count_for_domain (key : hash) (m : Mempool) : nat :=
  length (filter (λ tx, domain_key tx = Some key) (map_to_list (mp_entries m)).*2).

(** [ids.iter().filter_map(|id| self.entries.remove(id))]: the values
    removed, and the map that is left. *)
Fixpoint take_entries (ids : list TxId) (entries : gmap TxId Transaction)
    : list Transaction * gmap TxId Transaction :=
  match ids with
  | [] => ([], entries)
  | id :: ids =>
      let '(txs, rest) := take_entries ids (delete id entries) in
      (match entries !! id with Some tx => tx :: txs | None => txs end, rest)
  end.

(** [scone-network/src/mempool.rs:132-138 Mempool::drain_up_to] *)
Definition drain_up_to (max : nat) (m : Mempool) : Mempool * list Transaction :=
  let n := Nat.min max (length (mp_order m)) in
  let '(txs, entries) := take_entries (take n (mp_order m)) (mp_entries m) in
  (mkMempool (mp_capacity m) (drop n (mp_order m)) entries, txs).

(** [scone-network/src/mempool.rs:141-145 Mempool::remove] *)
Definition mempool_remove (id : TxId) (m : Mempool) : Mempool :=
  if bool_decide (is_Some (mp_entries m !! id))
  then mkMempool (mp_capacity m) (filter (λ other, other ≠ id) (mp_order m)) (delete id (mp_entries m))
  else m.

(** ** The queue it implements *)

Notation Queue := (list (TxId * Transaction)).

Definition queue (m : Mempool) : Queue := omap (λ id, pair id <$> mp_entries m !! id) (mp_order m).

Definition queue_insert (capacity : nat) (id : TxId) (tx : Transaction) (q : Queue) : Queue * result MempoolError bool :=
  if bool_decide (id ∈ q.*1) then (q, Ok false)
  else if (capacity <=? length q)%nat then (q, Err MempoolFull)
  else (q ++ [(id, tx)], Ok true).
Definition queue_remove (id : TxId) (q : Queue) : Queue := filter (λ e, e.1 ≠ id) q.
Definition queue_drain (max : nat) (q : Queue) : Queue * list Transaction := (drop max q, (take max q).*2).
Definition queue_count (key : hash) (q : Queue) : nat := length (filter (λ e, domain_key e.2 = Some key) q).

(** The order lists the keys of the map, once each. *)
Record mempool_ok (m : Mempool) : Prop := {
  mk_nodup : NoDup (mp_order m);
  mk_keys id : id ∈ mp_order m ↔ is_Some (mp_entries m !! id);
  mk_bound : (length (mp_order m) ≤ mp_capacity m)%nat }.

Lemma mempool_new_ok capacity : mempool_ok (Mempool_new capacity).
Proof.
  split; cbn; [constructor| |lia]. intros id. rewrite lookup_empty. split; [by intros ?%not_elem_of_nil|by intros []].
Qed.

Lemma queue_spec (entries : gmap TxId Transaction) order :
  (∀ id, id ∈ order → is_Some (entries !! id)) →
  (omap (λ id, pair id <$> entries !! id) order : Queue).*1 = order.
Proof.
  induction order as [|id order IH]; intros Hk; [done|]. destruct (Hk id) as [tx Ei]; [by left|].
  cbn [omap list_omap]. rewrite Ei. cbn. f_equal. apply IH. intros i Hi. apply Hk. by right.
Qed.

Lemma queue_keys m : mempool_ok m → (queue m).*1 = mp_order m.
Proof. intros Hm. apply queue_spec. intros id. apply (mk_keys _ Hm). Qed.

Lemma queue_elem m id tx : mempool_ok m → (id, tx) ∈ queue m ↔ mp_entries m !! id = Some tx.
Proof.
  intros Hm. unfold queue. rewrite list_elem_of_omap. split.
  - intros (i & _ & E). destruct (mp_entries m !! i) as [t|] eqn:Ei; [|done]. by injection E as -> ->.
  - intros E. exists id. rewrite E. split; [|done]. apply (mk_keys _ Hm). by eexists.
Qed.

Lemma queue_perm m : mempool_ok m → queue m ≡ₚ map_to_list (mp_entries m).
Proof.
  intros Hm. apply NoDup_Permutation; [|apply NoDup_map_to_list|].
  - apply (NoDup_fmap_1 fst). rewrite queue_keys by done. apply Hm.
  - intros [id tx]. by rewrite queue_elem, elem_of_map_to_list by done.
Qed.

Lemma mempool_len_queue m : mempool_ok m → mempool_len m = length (queue m).
Proof. intros Hm. unfold mempool_len. by rewrite (Permutation_length (queue_perm m Hm)), length_map_to_list. Qed.

Lemma queue_agree (entries entries' : gmap TxId Transaction) order :
  (∀ id, id ∈ order → entries' !! id = entries !! id) →
  (omap (λ id, pair id <$> entries' !! id) order : Queue) = omap (λ id, pair id <$> entries !! id) order.
Proof.
  induction order as [|id order IH]; intros Hk; [done|]. cbn [omap list_omap]. rewrite Hk by by left.
  rewrite IH; [done|]. intros i Hi. apply Hk. by right.
Qed.

(** ** The operations on the queue *)

Lemma insert_refines id tx m :
  mempool_ok m →
  let '(m', r) := mempool_insert id tx m in
  mempool_ok m' ∧ mp_capacity m' = mp_capacity m ∧ (queue m', r) = queue_insert (mp_capacity m) id tx (queue m).
Proof.
  intros Hm. unfold mempool_insert, queue_insert. rewrite (mempool_len_queue m Hm).
  rewrite (bool_decide_ext (id ∈ (queue m).*1) (is_Some (mp_entries m !! id))) by (by rewrite queue_keys, (mk_keys _ Hm)).
  case_bool_decide as Hin; [done|]. destruct (Nat.leb_spec (mp_capacity m) (length (queue m))) as [|Hl]; [done|].
  assert (length (queue m) = length (mp_order m)) as El by (rewrite <- (queue_keys m Hm); by rewrite length_fmap).
  split_and!; [split; cbn| done|].
  - apply NoDup_app. split_and!; [apply Hm| |apply NoDup_singleton]. intros i Hi ->%list_elem_of_singleton.
    by apply (mk_keys _ Hm) in Hi.
  - intros i. rewrite elem_of_app, list_elem_of_singleton, (mk_keys _ Hm), lookup_insert_is_Some'. naive_solver.
  - rewrite length_app. cbn. lia.
  - f_equal. unfold queue. cbn [mp_entries mp_order]. rewrite omap_app. cbn. rewrite lookup_insert_eq. cbn. f_equal.
    apply queue_agree. intros i Hi. apply lookup_insert_ne. intros ->. by apply (mk_keys _ Hm) in Hi.
Qed.

Lemma omap_filter_ne (entries : gmap TxId Transaction) id order :
  (omap (λ i, pair i <$> delete id entries !! i) (filter (λ i, i ≠ id) order) : Queue) =
    filter (λ e, e.1 ≠ id) (omap (λ i, pair i <$> entries !! i) order : Queue).
Proof.
  induction order as [|i order IH]; [done|]. cbn [omap list_omap]. rewrite filter_cons. case_decide as Hi.
  - cbn [omap list_omap]. rewrite lookup_delete_ne by done. destruct (entries !! i) as [t|]; cbn [fmap option_fmap option_map]; [|done].
    rewrite filter_cons_True by done. by rewrite IH.
  - destruct (entries !! i) as [t|]; cbn [fmap option_fmap option_map]; [|done]. by rewrite filter_cons_False by (cbn; tauto).
Qed.

Lemma remove_refines id m :
  mempool_ok m →
  mempool_ok (mempool_remove id m) ∧ mp_capacity (mempool_remove id m) = mp_capacity m ∧
  queue (mempool_remove id m) = queue_remove id (queue m).
Proof.
  intros Hm. unfold mempool_remove. case_bool_decide as Hin.
  - split_and!; [split; cbn|done|by apply omap_filter_ne].
    + apply NoDup_filter, Hm.
    + intros i. rewrite list_elem_of_filter, (mk_keys _ Hm), lookup_delete_is_Some. naive_solver.
    + pose proof (length_filter (λ other, other ≠ id) (mp_order m)). pose proof (mk_bound _ Hm). lia.
  - split_and!; [done..|]. unfold queue_remove. symmetry. apply filter_all, Forall_forall. intros [i tx] Hi E. cbn in E. subst i.
    apply queue_elem in Hi; [|done]. apply Hin. by eexists.
Qed.

Lemma take_entries_spec ids entries :
  NoDup ids → (∀ id, id ∈ ids → is_Some (entries !! id)) →
  (take_entries ids entries).1 = (omap (λ i, pair i <$> entries !! i) ids : Queue).*2 ∧
  ∀ id, (take_entries ids entries).2 !! id = if decide (id ∈ ids) then None else entries !! id.
Proof.
  revert entries. induction ids as [|i ids IH]; intros entries Hn Hk; cbn [take_entries].
  { split; [done|]. intros id. rewrite decide_False; [done|]. by intros ?%not_elem_of_nil. }
  apply NoDup_cons in Hn as [Hni Hn]. destruct (IH (delete i entries)) as [IH1 IH2]; [done| |].
  { intros id Hid. rewrite lookup_delete_ne by (by intros ->). apply Hk. by right. }
  destruct (take_entries ids (delete i entries)) as [txs rest]. cbn [fst snd] in *. split.
  - destruct (Hk i) as [tx Ei]; [by left|]. cbn [omap list_omap]. rewrite Ei. cbn. f_equal. rewrite IH1. f_equal.
    apply queue_agree. intros j Hj. apply lookup_delete_ne. by intros ->.
  - intros id. rewrite IH2. destruct (decide (id = i)) as [->|Hne].
    + rewrite (decide_True (P := i ∈ i :: ids)) by by left. rewrite decide_False by done. apply lookup_delete_eq.
    + rewrite lookup_delete_ne by done. destruct (decide (id ∈ ids)) as [Hin|Hni'].
      * by rewrite decide_True by by right.
      * rewrite decide_False; [done|]. by intros [?|?]%elem_of_cons.
Qed.

Lemma drain_refines max m :
  mempool_ok m →
  let '(m', txs) := drain_up_to max m in
  mempool_ok m' ∧ mp_capacity m' = mp_capacity m ∧ (queue m', txs) = queue_drain max (queue m).
Proof.
  intros Hm. unfold drain_up_to. set (n := Nat.min max (length (mp_order m))).
  assert (∀ i, i ∈ take n (mp_order m) → i ∈ drop n (mp_order m) → False) as Hdisj.
  { intros i H1 H2. pose proof (mk_nodup _ Hm) as Hn. rewrite <- (take_drop n (mp_order m)) in Hn. apply NoDup_app in Hn as (_ & Hn & _).
    by apply (Hn i). }
  destruct (take_entries_spec (take n (mp_order m)) (mp_entries m)) as [E1 E2].
  { eapply sublist_NoDup; [apply (mk_nodup _ Hm)|apply sublist_take]. }
  { intros id Hid. apply (mk_keys _ Hm). rewrite <- (take_drop n). apply elem_of_app. by left. }
  destruct (take_entries _ _) as [txs entries]. cbn [fst snd] in *. split_and!; [split; cbn|done|].
  - eapply sublist_NoDup; [apply (mk_nodup _ Hm)|apply sublist_drop].
  - intros id. rewrite E2. case_decide as Hid.
    + split; [intros ?; by destruct (Hdisj id)|by intros []].
    + rewrite <- (mk_keys _ Hm). rewrite <- (take_drop n (mp_order m)) at 2. rewrite elem_of_app. tauto.
  - rewrite length_drop. pose proof (mk_bound _ Hm). lia.
  - assert (omap (λ i, pair i <$> mp_entries m !! i) (take n (mp_order m)) = take max (queue m) ∧
            omap (λ i, pair i <$> mp_entries m !! i) (drop n (mp_order m)) = drop max (queue m)) as [Et Ed].
    { assert (length (omap (λ i, pair i <$> mp_entries m !! i) (take n (mp_order m)) : Queue) = n) as El.
      { rewrite <- (length_fmap fst), queue_spec; [rewrite length_take; lia|]. intros i Hi. apply (mk_keys _ Hm).
        rewrite <- (take_drop n). apply elem_of_app. by left. }
      assert (length (queue m) = length (mp_order m)) as Eq by (rewrite <- (queue_keys m Hm); by rewrite length_fmap).
      assert (take max (queue m) = take n (queue m) ∧ drop max (queue m) = drop n (queue m)) as [-> ->].
      { unfold n. destruct (Nat.min_spec max (length (mp_order m))) as [[_ ->]|[Hle ->]]; [done|].
        rewrite <- Eq, firstn_all, drop_all, take_ge, drop_ge by lia. done. }
      assert (queue m = omap (λ i, pair i <$> mp_entries m !! i) (take n (mp_order m)) ++
                        omap (λ i, pair i <$> mp_entries m !! i) (drop n (mp_order m))) as Eqq.
      { unfold queue. by rewrite <- omap_app, take_drop. }
      rewrite Eqq. by rewrite take_app_length', drop_app_length' by done. }
    unfold queue_drain. rewrite E1, Et. f_equal. rewrite <- Ed. unfold queue. cbn [mp_entries mp_order].
    apply queue_agree. intros i Hi. rewrite E2. rewrite decide_False; [done|]. intros Hi'. by apply (Hdisj i).
Qed.

Lemma count_refines key m : mempool_ok m → count_for_domain key m = queue_count key (queue m).
Proof.
  intros Hm. unfold count_for_domain, queue_count. rewrite (queue_perm m Hm). generalize (map_to_list (mp_entries m)).
  intros l. induction l as [|[i tx] l IH]; [done|]. rewrite fmap_cons. cbn [snd].
  destruct (decide (domain_key tx = Some key)).
  - rewrite !filter_cons_True by done. cbn [length]. by rewrite IH.
  - by rewrite !filter_cons_False by done.
Qed.

(** ** Histories *)

Inductive MempoolOp :=
| OpInsert (id : TxId) (tx : Transaction)
| OpRemove (id : TxId)
| OpDrain (max : nat)
| OpContains (id : TxId)
| OpCount (key : hash).

Inductive MempoolOut :=
| OutInsert (r : result MempoolError bool)
| OutUnit
| OutTxs (txs : list Transaction)
| OutBool (b : bool)
| OutCount (n : nat).

Definition mempool_step (op : MempoolOp) (m : Mempool) : Mempool * MempoolOut :=
  match op with
  | OpInsert id tx => let '(m, r) := mempool_insert id tx m in (m, OutInsert r)
  | OpRemove id => (mempool_remove id m, OutUnit)
  | OpDrain max => let '(m, txs) := drain_up_to max m in (m, OutTxs txs)
  | OpContains id => (m, OutBool (mempool_contains id m))
  | OpCount key => (m, OutCount (count_for_domain key m))
  end.

Definition queue_step (capacity : nat) (op : MempoolOp) (q : Queue) : Queue * MempoolOut :=
  match op with
  | OpInsert id tx => let '(q, r) := queue_insert capacity id tx q in (q, OutInsert r)
  | OpRemove id => (queue_remove id q, OutUnit)
  | OpDrain max => let '(q, txs) := queue_drain max q in (q, OutTxs txs)
  | OpContains id => (q, OutBool (bool_decide (id ∈ q.*1)))
  | OpCount key => (q, OutCount (queue_count key q))
  end.

Fixpoint run_ops {A} (step : MempoolOp → A → A * MempoolOut) (ops : list MempoolOp) (a : A) : A * list MempoolOut :=
  match ops with
  | [] => (a, [])
  | op :: ops =>
      let '(a, o) := step op a in
      let '(a, os) := run_ops step ops a in
      (a, o :: os)
  end.

Lemma step_refines op m :
  mempool_ok m →
  let '(m', o) := mempool_step op m in
  mempool_ok m' ∧ mp_capacity m' = mp_capacity m ∧ (queue m', o) = queue_step (mp_capacity m) op (queue m).
Proof.
  intros Hm. destruct op as [id tx|id|max|id|key]; cbn [mempool_step queue_step].
  - pose proof (insert_refines id tx m Hm) as Hr. destruct (mempool_insert id tx m) as [m' r]. destruct Hr as (Hm' & Hc & E).
    split_and!; [done..|]. by rewrite <- E.
  - destruct (remove_refines id m Hm) as (Hm' & Hc & E). split_and!; [done..|]. by rewrite E.
  - pose proof (drain_refines max m Hm) as Hr. destruct (drain_up_to max m) as [m' txs]. destruct Hr as (Hm' & Hc & E).
    split_and!; [done..|]. by rewrite <- E.
  - split_and!; [done..|]. do 2 f_equal. unfold mempool_contains. apply bool_decide_ext. by rewrite queue_keys, (mk_keys _ Hm).
  - split_and!; [done..|]. by rewrite count_refines.
Qed.

(** C37. From an empty mempool, any sequence of operations gives the answers
    of a bounded first-in first-out queue without duplicates: insertions
    at the back, refused when full and ignored when present, removals by
    identifier, drains from the front; the map and the order never
    disagree. *)
Theorem mempool_refines_queue capacity ops :
  let '(m, outs) := run_ops mempool_step ops (Mempool_new capacity) in
  let '(q, outs') := run_ops (queue_step capacity) ops [] in
  mempool_ok m ∧ queue m = q ∧ outs = outs' ∧ mempool_len m = length q ∧ (length q ≤ capacity)%nat ∧ NoDup q.*1.
Proof.
  assert (∀ m, mempool_ok m → mp_capacity m = capacity →
    let '(m', outs) := run_ops mempool_step ops m in
    let '(q, outs') := run_ops (queue_step capacity) ops (queue m) in
    mempool_ok m' ∧ mp_capacity m' = capacity ∧ queue m' = q ∧ outs = outs') as Hrun.
  { induction ops as [|op ops IH]; intros m Hm Hc; [done|]. cbn [run_ops].
    pose proof (step_refines op m Hm) as Hs. destruct (mempool_step op m) as [m1 o]. destruct Hs as (Hm1 & Hc1 & Eq).
    rewrite Hc in *. rewrite <- Eq. specialize (IH m1 Hm1 Hc1).
    destruct (run_ops mempool_step ops m1) as [m2 os], (run_ops (queue_step capacity) ops (queue m1)) as [q2 os'].
    destruct IH as (? & ? & ? & ->). done. }
  specialize (Hrun _ (mempool_new_ok capacity) eq_refl). change (queue (Mempool_new capacity)) with ([] : Queue) in Hrun.
  destruct (run_ops mempool_step ops _) as [m outs], (run_ops (queue_step capacity) ops []) as [q outs'].
  destruct Hrun as (Hm & Hc & <- & <-). split_and!; try done; [by apply mempool_len_queue| |].
  - rewrite <- (length_fmap fst), queue_keys, <- Hc by done. apply Hm.
  - rewrite queue_keys by done. apply Hm.
Qed.
