(* ===== verification/Anchor.v ===== *)
(** * The anchor loop's memory ([scone-network]: [relay/anchor.rs])

    Signatures of checkpoints not yet finalized, collected per content:
    merging, the cap on the number of contents, the aggregate of a
    quorum.  The methods that read and change the chain are in [Relay]. *)

From S2P Require Import Prelude Bytes Crypto Commitment Smt Names Codec Checkpoint Tx Wire State StateSpec Blocks Chain.
From S2P Require Import StateBytes Redb Store StoreSpec StorePaging Signer.

(** [scone-network/src/relay/anchor.rs:46-46 MAX_PENDING_CHECKPOINTS] *)
Definition MAX_PENDING_CHECKPOINTS : nat := 256.

(** [scone-network/src/relay/anchor.rs:68-72 PendingCheckpoint]: a
    [BTreeMap] is a map, read in the order of its keys. *)
Record PendingCheckpoint := mkPending {
  pc_data : CheckpointData;
  pc_signatures : gmap PublicKey Signature }.

(** [scone-network/src/relay/anchor.rs:51-59 AnchorLoop]: of the opened
    key file, the signing key; the public key is derived from it. *)
Record AnchorLoop := mkAnchorLoop {
  al_anchor : option SigningKey;
  al_guard : option SignerGuard;
  al_pending : gmap hash PendingCheckpoint }.

(** [scone-network/src/relay/anchor.rs:106-112 AnchorLoop::passive] *)
Definition passive : AnchorLoop := mkAnchorLoop None None ∅.

(** [scone-network/src/relay/anchor.rs:79-103 AnchorLoop::load]: once the
    key file is opened. *)
Definition armed (sk : SigningKey) (guard : SignerGuard) : AnchorLoop := mkAnchorLoop (Some sk) (Some guard) ∅.

(** [scone-network/src/relay/anchor.rs:118-120 AnchorLoop::signing_key] *)
Definition signing_key (a : AnchorLoop) : option SigningKey := al_anchor a.

Definition with_pending (p : gmap hash PendingCheckpoint) (a : AnchorLoop) : AnchorLoop :=
  mkAnchorLoop (al_anchor a) (al_guard a) p.
Definition with_guard (g : SignerGuard) (a : AnchorLoop) : AnchorLoop :=
  mkAnchorLoop (al_anchor a) (Some g) (al_pending a).

(** [BTreeMap::extend]. *)
Definition extend (sigs : list (PublicKey * Signature)) (m : gmap PublicKey Signature) : gmap PublicKey Signature :=
  fold_left (λ m e, <[e.1 := e.2]> m) sigs m.

(** The keys of a [BTreeMap], ascending. *)
Definition btree_keys {A} (m : gmap hash A) : list hash := (in_order m).*1.

Section anchor.
Context `{Crypto}.

(** [scone-network/src/relay/anchor.rs:125-137 AnchorLoop::merge] *)
Definition merge_signatures (d : CheckpointData) (sigs : list (PublicKey * Signature)) (a : AnchorLoop) : AnchorLoop * bool :=
  let h := signing_hash d in
  let entry := default (mkPending d ∅) (al_pending a !! h) in
  let before := size (pc_signatures entry) in
  let signatures := extend sigs (pc_signatures entry) in
  (with_pending (<[h := mkPending (pc_data entry) signatures]> (al_pending a)) a, negb (size signatures =? before)%nat).

(** [scone-network/src/relay/anchor.rs:141-143 AnchorLoop::drop_pending] *)
Definition drop_pending (h : hash) (a : AnchorLoop) : AnchorLoop := with_pending (delete h (al_pending a)) a.

(** The [while] loop of [enforce_cap]: as many rounds as there are
    entries are enough. *)
Fixpoint evict_smallest (fuel : nat) (p : gmap hash PendingCheckpoint) : gmap hash PendingCheckpoint :=
  match fuel with
  | O => p
  | S fuel =>
      if (MAX_PENDING_CHECKPOINTS <? size p)%nat
      then match btree_keys p with [] => p | h :: _ => evict_smallest fuel (delete h p) end
      else p
  end.

(** [scone-network/src/relay/anchor.rs:146-151 AnchorLoop::enforce_cap] *)
Definition enforce_cap (a : AnchorLoop) : AnchorLoop :=
  with_pending (evict_smallest (size (al_pending a)) (al_pending a)) a.

(** [scone-network/src/relay/anchor.rs:156-178 AnchorLoop::aggregate_if_quorum]: the
    signatures come out of the map sorted by key. *)
Definition aggregate_if_quorum (h : hash) (com : list PublicKey) (quorum : nat) (a : AnchorLoop) : option Checkpoint :=
  pending ← al_pending a !! h;
  let signatures := filter (λ e, e.1 ∈ com) (in_order (pc_signatures pending)) in
  if (length signatures <? quorum)%nat then None
  else Some (mkCheckpoint (pc_data pending) signatures).

(** ** Lemmas *)

Lemma evict_bounded fuel p : (size p ≤ fuel)%nat → (size (evict_smallest fuel p) ≤ MAX_PENDING_CHECKPOINTS)%nat.
Proof.
  revert p. induction fuel as [|fuel IH]; intros p Hf; cbn [evict_smallest]; [lia|].
  destruct (Nat.ltb_spec MAX_PENDING_CHECKPOINTS (size p)) as [Hlt|]; [|done].
  destruct (btree_keys p) as [|h l] eqn:Ek.
  - unfold btree_keys in Ek. apply fmap_nil_inv in Ek. pose proof (in_order_perm p) as Hp. rewrite Ek in Hp.
    apply Permutation_nil_l in Hp. assert (size p = 0%nat) as E0; [|lia].
    rewrite <- length_map_to_list. by rewrite <- Hp.
  - apply IH. assert (is_Some (p !! h)) as [x Hx].
    { assert (h ∈ (in_order p).*1) as Hin by (unfold btree_keys in Ek; rewrite Ek; by left).
      apply list_elem_of_fmap in Hin as ([i x] & -> & Hin). rewrite in_order_perm in Hin. exists x. by apply elem_of_map_to_list. }
    rewrite map_size_delete_Some by by eexists. lia.
Qed.

Lemma evict_subseteq fuel p : evict_smallest fuel p ⊆ p.
Proof.
  revert p. induction fuel as [|fuel IH]; intros p; cbn [evict_smallest]; [done|].
  destruct (_ <? _)%nat; [|done]. destruct (btree_keys p) as [|h l]; [done|].
  etransitivity; [apply IH|apply delete_subseteq].
Qed.

Lemma enforce_cap_bounded a : (size (al_pending (enforce_cap a)) ≤ MAX_PENDING_CHECKPOINTS)%nat.
Proof. by apply evict_bounded. Qed.
End anchor.
