(* ===== verification/Relay.v ===== *)
(** * The relay ([scone-network]: [relay.rs], [relay/], [sync.rs])

    The one task that owns the chain, the store, the mempool and the
    swarm.  The state is passed explicitly; what the relay hands to the
    swarm and to the clients of the control RPC is appended to a log.
    This file has the acceptance of blocks and transactions, the
    production of blocks, the anchor loop and the messages of peers;
    [RelayRpc] has the control RPC and the lookups in the DHT. *)

From S2P Require Import Prelude Bytes Crypto Commitment Smt Names Codec Checkpoint Tx Wire State StateSpec Blocks Chain.
From S2P Require Import ForkChoice StateBytes Redb Store StoreSpec StorePaging Persist Signer.
From S2P Require Import Records Messages Mempool Anchor.

(** The identifiers that [libp2p] and the RPC server give. *)
Class Swarm := {
  PeerId : Type; QueryId : Type; Client : Type;
  #[global] peer_eq :: EqDecision PeerId;
  #[global] peer_countable :: Countable PeerId;
  #[global] query_eq :: EqDecision QueryId }.

(** [scone-network/src/error.rs:9-59 NetworkError]: the errors that the
    relay raises or passes on.  [NeDiverged] is none of them: it stands for
    a loop that has not ended when its fuel has. *)
Inductive NetworkError :=
| NeLimitExceeded (what : string)
| NeProtocol (e : ProtocolError)
| NeBlockchain (e : BlockchainError)
| NeStorage (e : StorageError)
| NePeer
| NeInvalidRpc
| NeRecordRejected
| NeDht
| NeIo
| NeDiverged.

(** [scone-network/src/config.rs:22-22 MAX_DHT_WAITERS] *)
Definition MAX_DHT_WAITERS : nat := 256.
(** [scone-network/src/relay/swarm.rs:32-32 MAX_SYNC_ROUNDS] *)
Definition MAX_SYNC_ROUNDS : N := 10000.
(** [scone-network/src/sync.rs:7-7 MAX_BLOCKS_PER_RESPONSE] *)
Definition MAX_BLOCKS_PER_RESPONSE : N := MAX_BLOCKS_PER_REQUEST.
(** [scone-network/src/relay/task.rs:18-18 DHT_LOOKUP_TIMEOUT]: in
    milliseconds, the unit of [Instant] here. *)
Definition DHT_LOOKUP_TIMEOUT : N := 30000.

(** [scone-network/src/relay/task.rs:74-79 SyncState] *)
Record SyncState := mkSyncState { ss_next : N; ss_rounds : N }.

(** What an RPC client is answered, without the rendering in JSON. *)
Inductive RpcResponse :=
| RpcStatus (network : NetworkId) (tip : hash) (height : N) (peers : nat) (domain_count : N)
    (mempool checkpoints : nat) (finalized_epoch : option N)
| RpcTx (id : TxId)
| RpcDomain (id : DomainId) (st : option DomainState)
| RpcInfo (id : DomainId) (st : option DomainState) (dns : list RecordData)
| RpcResolved (id : DomainId) (st : option DomainState) (dns : list (N * N * list byte))
| RpcPublished (id : DomainId)
| RpcRecord (bytes : list byte)
| RpcError (e : NetworkError)
| RpcTooManyLookups
| RpcKeyMismatch
| RpcNotOnChain
| RpcBadRecord (e : ProtocolError)
| RpcNotFound
| RpcTimedOut.

(** [scone-network/src/relay/task.rs:25-30 DhtWaiter] *)
Record DhtWaiter `{Swarm} := mkWaiter {
  dw_id : QueryId;
  dw_domain_id : DomainId;
  dw_reply : option Client;
  dw_deadline : N }.
Arguments mkWaiter {_} _ _ _ _.

(** What leaves the relay. *)
Inductive Output `{Swarm} :=
| SendRequest (peer : PeerId) (m : Message)
| SendResponse (peer : PeerId) (m : Message)
| KadPut (key value : list byte)
| KadGet (key : list byte)
| Reply (client : Client) (r : RpcResponse).

Section relay.
Context `{Crypto} `{Redb} `{!Faults} `{Swarm}.

(** [scone-network/src/relay.rs:76-93 Relay]: of the swarm, the log of
    what it was given; of the configuration nothing that changes; with
    the signer's file. *)
Record Relay := mkRelay {
  rl_store : Db;
  rl_chain : Blockchain;
  rl_mempool : Mempool;
  rl_peers : list PeerId;
  rl_sync : gmap PeerId SyncState;
  rl_dht_waiters : list DhtWaiter;
  rl_anchor : AnchorLoop;
  rl_disk : Signer.Disk;
  rl_outbox : list Output }.

Definition with_store (x : Db) (r : Relay) : Relay :=
  mkRelay x (rl_chain r) (rl_mempool r) (rl_peers r) (rl_sync r) (rl_dht_waiters r) (rl_anchor r) (rl_disk r) (rl_outbox r).
Definition with_chain (x : Blockchain) (r : Relay) : Relay :=
  mkRelay (rl_store r) x (rl_mempool r) (rl_peers r) (rl_sync r) (rl_dht_waiters r) (rl_anchor r) (rl_disk r) (rl_outbox r).
Definition with_mempool (x : Mempool) (r : Relay) : Relay :=
  mkRelay (rl_store r) (rl_chain r) x (rl_peers r) (rl_sync r) (rl_dht_waiters r) (rl_anchor r) (rl_disk r) (rl_outbox r).
Definition with_peers (x : list PeerId) (r : Relay) : Relay :=
  mkRelay (rl_store r) (rl_chain r) (rl_mempool r) x (rl_sync r) (rl_dht_waiters r) (rl_anchor r) (rl_disk r) (rl_outbox r).
Definition with_sync (x : gmap PeerId SyncState) (r : Relay) : Relay :=
  mkRelay (rl_store r) (rl_chain r) (rl_mempool r) (rl_peers r) x (rl_dht_waiters r) (rl_anchor r) (rl_disk r) (rl_outbox r).
Definition with_waiters (x : list DhtWaiter) (r : Relay) : Relay :=
  mkRelay (rl_store r) (rl_chain r) (rl_mempool r) (rl_peers r) (rl_sync r) x (rl_anchor r) (rl_disk r) (rl_outbox r).
Definition with_signer (a : AnchorLoop) (d : Signer.Disk) (r : Relay) : Relay :=
  mkRelay (rl_store r) (rl_chain r) (rl_mempool r) (rl_peers r) (rl_sync r) (rl_dht_waiters r) a d (rl_outbox r).
Definition on_anchor (f : AnchorLoop → AnchorLoop) (r : Relay) : Relay :=
  with_signer (f (rl_anchor r)) (rl_disk r) r.
Definition emit (out : list Output) (r : Relay) : Relay :=
  mkRelay (rl_store r) (rl_chain r) (rl_mempool r) (rl_peers r) (rl_sync r) (rl_dht_waiters r) (rl_anchor r) (rl_disk r)
    (rl_outbox r ++ out).

(** The sending loops: to every peer but [skip], in order. *)
Definition send_to (peers : list PeerId) (m : Message) (skip : option PeerId) : list Output :=
  map (λ p, SendRequest p m) (filter (λ p, Some p ≠ skip) peers).
Definition broadcast (m : Message) (skip : option PeerId) (r : Relay) : Relay :=
  emit (send_to (rl_peers r) m skip) r.

(** ** The anchor loop *)

(** [scone-network/src/relay/anchor.rs:293-301 Relay::broadcast_checkpoint] *)
Definition broadcast_checkpoint (cp : Checkpoint) (skip : option PeerId) (r : Relay) : Relay :=
  broadcast (MsgCheckpoint cp) skip r.

(** [scone-network/src/relay/anchor.rs:200-242 Relay::try_propose_checkpoint]: [o] is
    what becomes of the signer's file, if it is written. *)
Definition try_propose_checkpoint (o : WriteOutcome) (r : Relay) : Relay :=
  match al_anchor (rl_anchor r) with
  | None => r
  | Some sk =>
      let pk := sk_public_key sk in
      let com := committee (rl_chain r) 0 in
      if (length com <? MIN_FINALITY_COMMITTEE_SIZE)%nat then r
      else if negb (bool_decide (pk ∈ com)) then r
      else
        match propose_checkpoint (rl_chain r) with
        | None => r
        | Some d =>
            match al_guard (rl_anchor r) with
            | None => r
            | Some guard =>
                let '(guard, disk, res) := authorize guard sk d o (rl_disk r) in
                let r := with_signer (with_guard guard (rl_anchor r)) disk r in
                match res with
                | Ok sig =>
                    let '(anchor, first) := merge_signatures d [(pk, sig)] (rl_anchor r) in
                    let r := with_signer anchor (rl_disk r) r in
                    if first then broadcast_checkpoint (mkCheckpoint d [(pk, sig)]) None r else r
                | Err _ => r
                end
            end
        end
  end.

(** [scone-network/src/relay/anchor.rs:249-288 Relay::try_finalize_all]: the
    body of the loop. *)
Definition try_finalize (h : hash) (r : Relay) : Relay :=
  match al_pending (rl_anchor r) !! h with
  | None => r
  | Some pending =>
      match check_checkpoint_data (rl_chain r) (pc_data pending) with
      | Err _ => on_anchor (drop_pending h) r
      | Ok _ =>
          let com := committee (rl_chain r) (recovery (pc_data pending)) in
          match aggregate_if_quorum h com (quorum_for (length com)) (rl_anchor r) with
          | None => r
          | Some cp =>
              let '(c, res) := accept_checkpoint (rl_chain r) cp in
              let r := on_anchor (drop_pending h) (with_chain c r) in
              match res with
              | Ok true => broadcast_checkpoint cp None r
              | _ => r
              end
          end
      end
  end.

(** [scone-network/src/relay/anchor.rs:246-289 Relay::try_finalize_all] *)
Definition try_finalize_all (r : Relay) : Relay :=
  fold_left (λ r h, try_finalize h r) (btree_keys (al_pending (rl_anchor r))) r.

(** [scone-network/src/relay/anchor.rs:186-190 Relay::anchor_after_block] *)
Definition anchor_after_block (o : WriteOutcome) (r : Relay) : Relay :=
  on_anchor enforce_cap (try_finalize_all (try_propose_checkpoint o r)).

(** [scone-network/src/relay/anchor.rs:308-354 Relay::accept_checkpoint_message] *)
Definition accept_checkpoint_message (cp : Checkpoint) (from : option PeerId) (r : Relay)
    : Relay * result NetworkError unit :=
  if existsb (λ c, bool_decide (data c = data cp)) (bc_checkpoints (rl_chain r)) then (r, Ok tt)
  else
    match check_checkpoint_data (rl_chain r) (data cp) with
    | Err e => (r, Err (NeBlockchain e))
    | Ok _ =>
        let h := signing_hash (data cp) in
        let '(anchor, new) := merge_signatures (data cp) (signatures cp) (rl_anchor r) in
        let r := try_finalize_all (with_signer (enforce_cap anchor) (rl_disk r) r) in
        if new && forallb (λ c, negb (arr_eqb (Checkpoint_hash c) h)) (bc_checkpoints (rl_chain r))
        then (broadcast_checkpoint cp from r, Ok tt)
        else (r, Ok tt)
    end.

(** [scone-network/src/relay/anchor.rs:360-376 Relay::handle_get_checkpoints] *)
Definition handle_get_checkpoints (peer : PeerId) (r : Relay) : Relay * Message :=
  let window := bc_checkpoints (rl_chain r) in
  (emit (map (λ cp, SendRequest peer (MsgCheckpoint cp)) (removelast window)) r,
   match last window with Some cp => MsgCheckpoint cp | None => MsgPong end).

(** ** Blocks *)

(** [scone-network/src/relay/chain.rs:38-47 Relay::accept_block]: the test
    for a duplicate. *)
Definition already_canonical (c : Blockchain) (b : Block) (hash : BlockHash) : bool :=
  (bk_height b <=? chain_height c) &&
  match block c (bk_height b) with
  | Some canonical => bool_decide (header_hash (bk_header canonical) = Ok hash)
  | None => false
  end.

(** [scone-network/src/relay/chain.rs:66-70 Relay::accept_block]: the
    included transactions leave the mempool. *)
Definition forget_included (txs : list Transaction) (m : Mempool) : Mempool :=
  fold_left (λ m tx, match transaction_id tx with Ok id => mempool_remove id m | Err _ => m end) txs m.

(** [scone-network/src/relay/chain.rs:36-82 Relay::accept_block] *)
Definition accept_block (o : WriteOutcome) (b : Block) (from : option PeerId) (r : Relay)
    : Relay * result NetworkError BlockHash :=
  match header_hash (bk_header b) with
  | Err e => (r, Err (NeBlockchain e))
  | Ok hash =>
      if already_canonical (rl_chain r) b hash then (r, Ok hash)
      else
        let '(c, attached) := try_attach (rl_chain r) b in
        let r := with_chain c r in
        match attached with
        | Err e => (r, Err (NeBlockchain e))
        | Ok applied =>
            let '(db, stored) :=
              store_block_with_removals c b (ab_hash applied) (ab_gc_removed_domains applied) (rl_store r) in
            let r := with_store db r in
            match stored with
            | Err e => (r, Err (NeStorage e))
            | Ok _ =>
                let r := with_mempool (forget_included (bk_transactions b) (rl_mempool r)) r in
                (anchor_after_block o (broadcast (MsgBlock b) from r), Ok hash)
            end
        end
  end.

(** ** Transactions *)

(** A rule on the owner of a registered TLD, of a live domain. *)
Definition owned_tld (s : ChainState) (id : TldId) (o : OwnerId) : result BlockchainError unit :=
  let? tld := ok_or (cs_tld s id) UnknownTld in
  if negb (arr_eqb (ts_owner tld) o) then Err NotTldOwner else Ok tt.
Definition owned_domain (s : ChainState) (id : DomainId) (o : OwnerId) : result BlockchainError unit :=
  let? st := ok_or (cs_domain s id) UnknownDomain in
  if negb (arr_eqb (ds_owner st) o) then Err NotOwner else Ok tt.
Definition unregistered (s : ChainState) (id : DomainId) : result BlockchainError unit :=
  if bool_decide (is_Some (cs_domain s id)) then Err DomainAlreadyRegistered else Ok tt.

(** [scone-network/src/relay/chain.rs:149-278 Relay::precheck_state]: it
    reads the chain; the addition wraps as in a release build. *)
Definition precheck_state (c : Blockchain) (tx : Transaction) : result BlockchainError unit :=
  let s := bc_state c in
  let network := np_network_id (bc_network c) in
  if negb (bool_decide (tx_network tx = network)) then Err (WrongNetwork (tx_network tx) network)
  else
    match tx with
    | TxRegisterDomain t =>
        let? tld := ok_or (cs_tld s (TldId_from_tld (DomainName_tld (rd_name t)))) UnknownTld in
        if negb (ts_open tld) then Err TldClosed else unregistered s (rd_domain_id t)
    | TxUpdateDomain t =>
        let? st := ok_or (cs_domain s (ud_domain_id t)) UnknownDomain in
        if negb (add64 (ds_sequence st) 1 =? ud_sequence t)
        then Err (ErrInvalidSequence (add64 (ds_sequence st) 1) (ud_sequence t))
        else if negb (arr_eqb (ds_owner st) (ud_owner t)) then Err NotOwner
        else Ok tt
    | TxRegisterTld t =>
        if bool_decide (is_Some (cs_tld s (rt_tld_id t))) then Err TldAlreadyRegistered else Ok tt
    | TxTransferTld t => owned_tld s (tt_tld_id t) (tt_owner t)
    | TxRevokeTld t => owned_tld s (rv_tld_id t) (rv_owner t)
    | TxSetTldOpen t => owned_tld s (so_tld_id t) (so_owner t)
    | TxAssignDomain t =>
        let? _ := owned_tld s (TldId_from_tld (DomainName_tld (ad_name t))) (ad_owner t) in
        unregistered s (ad_domain_id t)
    | TxRenewDomain t => owned_domain s (rn_domain_id t) (rn_owner t)
    | TxTransferDomain t => owned_domain s (td_domain_id t) (td_owner t)
    | TxSlash _ => Ok tt
    end.

(** [scone-network/src/relay/chain.rs:118-129 Relay::accept_transaction]: the
    cap per namespace. *)
Definition over_domain_cap (tx : Transaction) (m : Mempool) : bool :=
  match domain_key tx with
  | Some key => (MAX_PENDING_PER_DOMAIN <=? count_for_domain key m)%nat
  | None => false
  end.

(** [scone-network/src/relay/chain.rs:92-144 Relay::accept_transaction] *)
Definition accept_transaction (tx : Transaction) (from : option PeerId) (r : Relay)
    : Relay * result NetworkError TxId :=
  let checked :=
    let? _ := validate_transaction tx in
    let? _ := precheck_state (rl_chain r) tx in
    let? id := transaction_id tx in
    if is_tx_included (rl_chain r) id then Err TxReplay else Ok id in
  match checked with
  | Err e => (r, Err (NeBlockchain e))
  | Ok id =>
      if over_domain_cap tx (rl_mempool r) then (r, Err (NeLimitExceeded "mempool per-domain cap"))
      else
        let '(m, inserted) := mempool_insert id tx (rl_mempool r) in
        let r := with_mempool m r in
        match inserted with
        | Err MempoolFull => (r, Err (NeLimitExceeded "mempool capacity"))
        | Ok false => (r, Ok id)
        | Ok true => (broadcast (MsgTransaction tx) from r, Ok id)
        end
  end.

(** ** Production *)

(** [scone-network/src/relay/chain.rs:339-343 Relay::produce_if_ready] *)
Definition devnet_key : SigningKey :=
  arr_of 32 [xd0; x1d; xca; x5e; xba; xdc; x0f; xfe; x7e; x11; x0b; xad; x5c; x0c; x0f; xfe;
             xe3; x0c; x0d; xe5; xca; x0f; xfe; xe0; x0b; x0a; xd0; xca; x5e; x0e; x0d; xe5].

(** [scone-network/src/relay/chain.rs:344-354 Relay::produce_if_ready] *)
Definition candidate_block (now : N) (candidates : list Transaction) (r : Relay) : result BlockchainError Block :=
  let producer := default devnet_key (signing_key (rl_anchor r)) in
  let c := rl_chain r in
  build_with (with_producer producer (with_timestamp now (builder_after (chain_height c) (bc_tip c)))) candidates.

(** [scone-network/src/relay/chain.rs:312-325 Relay::produce_if_ready]: a
    drained transaction that is neither included nor stale. *)
Definition still_valid (c : Blockchain) (tx : Transaction) : bool :=
  negb (replayed c tx) && is_ok (precheck_state c tx).

(** [scone-network/src/relay/chain.rs:333-391 Relay::produce_if_ready]: the
    candidates, shorter by the last one after each refusal.  [clock] is
    what [unix_now] answers, call after call, and [k] counts the calls;
    [true] when a block was produced. *)
Fixpoint produce_batch (clock : nat → N) (o : WriteOutcome) (fuel k : nat) (candidates : list Transaction) (r : Relay)
    : Relay * result NetworkError bool * nat :=
  match candidates, fuel with
  | [], _ => (r, Ok false, k)
  | _, O => (r, Err NeDiverged, k)
  | _, S fuel =>
      match candidate_block (clock k) candidates r with
      | Err e => (r, Err (NeBlockchain e), S k)
      | Ok b =>
          let '(c, pushed) := push_block_with_gc (rl_chain r) b in
          let r := with_chain c r in
          match pushed with
          | Err _ => produce_batch clock o fuel (S k) (removelast candidates) r
          | Ok applied =>
              let '(db, stored) :=
                store_block_with_removals c b (ab_hash applied) (ab_gc_removed_domains applied) (rl_store r) in
              let r := with_store db r in
              match stored with
              | Err e => (r, Err (NeStorage e), S k)
              | Ok _ => (anchor_after_block o (broadcast (MsgBlock b) None r), Ok true, S k)
              end
          end
      end
  end.

(** [scone-network/src/relay/chain.rs:301-394 Relay::produce_if_ready]: the
    outer loop. *)
Fixpoint produce_loop (clock : nat → N) (o : WriteOutcome) (fuel k : nat) (r : Relay)
    : Relay * result NetworkError unit :=
  if mempool_is_empty (rl_mempool r) then (r, Ok tt)
  else
    match fuel with
    | O => (r, Err NeDiverged)
    | S fuel =>
        let '(m, drained) := drain_up_to (N.to_nat MAX_TXS_PER_BLOCK) (rl_mempool r) in
        let r := with_mempool m r in
        let candidates := filter (λ tx, still_valid (rl_chain r) tx = true) drained in
        let '(r, produced, k) := produce_batch clock o (length candidates) k candidates r in
        match produced with
        | Err e => (r, Err e)
        | Ok true => (r, Ok tt)
        | Ok false => produce_loop clock o fuel k r
        end
    end.

(** [scone-network/src/relay/chain.rs:300-395 Relay::produce_if_ready]: as
    many rounds of the loop as transactions are pending. *)
Definition produce_if_ready (clock : nat → N) (o : WriteOutcome) (r : Relay) : Relay * result NetworkError unit :=
  produce_loop clock o (mempool_len (rl_mempool r)) 0 r.

(** ** Serving blocks *)

(** [scone-network/src/sync.rs:34-46 serve_blocks]: [n] heights from [height] on. *)
Fixpoint serve_from (c : Blockchain) (store : Db) (n : nat) (height : N) : result NetworkError (list Block) :=
  match n with
  | O => Ok []
  | S n =>
      match block c height with
      | Some b => let? bs := serve_from c store n (height + 1) in Ok (b :: bs)
      | None =>
          let? stored := map_err NeStorage (block_at_height height store) in
          match stored with
          | None => Ok []
          | Some bytes =>
              let? b := map_err NeProtocol (decode_complete (dec Block_c) bytes) in
              let? bs := serve_from c store n (height + 1) in Ok (b :: bs)
          end
      end
  end.

(** [scone-network/src/sync.rs:19-48 serve_blocks] *)
Definition serve_blocks (c : Blockchain) (store : Db) (start_height max_blocks : N) : result NetworkError (list Block) :=
  let max := N.min max_blocks MAX_BLOCKS_PER_RESPONSE in
  let last := N.min (N.min (start_height + max) U64_MAX) (chain_height c + 1) in
  serve_from c store (N.to_nat (last - start_height)) start_height.

(** ** Records *)

(** [scone-network/src/relay/rpc_dispatch.rs:332-347 Relay::verify_record_against_chain]: never
    an error; a record that was decoded has a hash ([decoded_record_hash]). *)
Definition verify_record_against_chain (c : Blockchain) (record : SignedDnsRecord) : bool :=
  match cs_domain (bc_state c) (dr_domain_id (sr_record record)) with
  | None => false
  | Some st =>
      if negb (arr_eqb (ds_owner st) (sr_owner record)) then false
      else if negb (ds_sequence st =? dr_sequence (sr_record record)) then false
      else
        match ds_record_hash st with
        | Some expected => bool_decide (record_hash_of (sr_record record) = Some expected)
        | None => false
        end
  end.

(** ** Messages of peers *)

(** [scone-network/src/relay/swarm.rs:83-92 Relay::request_sync_batch] *)
Definition request_sync_batch (peer : PeerId) (from : N) (r : Relay) : Relay :=
  emit [SendRequest peer (MsgGetBlocks from 1)] r.

(** [scone-network/src/relay/swarm.rs:144-148 Relay::handle_peer_message]: the
    scan of the heights [n], [n - 1], … 1. *)
Fixpoint find_block (c : Blockchain) (x : BlockHash) (n : nat) : option Block :=
  match n with
  | O => None
  | S m =>
      match block c (N.of_nat n) with
      | Some b => if bool_decide (header_hash (bk_header b) = Ok x) then Some b else find_block c x m
      | None => find_block c x m
      end
  end.

(** [scone-network/src/relay/swarm.rs:166-176 Relay::handle_peer_message]: the
    sync driver; [rounds] is 32 bits wide. *)
Definition continue_sync (peer : PeerId) (height : N) (r : Relay) : Relay :=
  match rl_sync r !! peer with
  | Some st =>
      if height =? ss_next st then
        let st := mkSyncState (add64 (ss_next st) 1) ((ss_rounds st + 1) mod 2 ^ 32) in
        let r := with_sync (<[peer := st]> (rl_sync r)) r in
        if ss_rounds st <? MAX_SYNC_ROUNDS then request_sync_batch peer (ss_next st) r else r
      else r
  | None => r
  end.

(** [scone-network/src/relay/swarm.rs:127-208 Relay::handle_peer_message] *)
Definition handle_peer_message (o : WriteOutcome) (peer : PeerId) (message : Message) (r : Relay)
    : Relay * result NetworkError Message :=
  let pong {A} (out : Relay * result NetworkError A) : Relay * result NetworkError Message :=
    let '(r, res) := out in (r, rmap (λ _, MsgPong) res) in
  match message with
  | MsgHello version =>
      if (version =? 0) || (PROTOCOL_VERSION <? version) then (r, Err NePeer)
      else (r, Ok (MsgHello PROTOCOL_VERSION))
  | MsgPing | MsgPong => (r, Ok MsgPong)
  | MsgGetBlock bhash =>
      match find_block (rl_chain r) bhash (N.to_nat (chain_height (rl_chain r))) with
      | Some b => (r, Ok (MsgBlock b))
      | None => (r, Ok MsgPong)
      end
  | MsgGetBlocks start_height _ =>
      (r, rmap (λ blocks, match blocks with b :: _ => MsgBlock b | [] => MsgPong end)
            (serve_blocks (rl_chain r) (rl_store r) start_height 1))
  | MsgBlock b =>
      match accept_block o b (Some peer) r with
      | (r, Err e) => (r, Err e)
      | (r, Ok _) => (continue_sync peer (bk_height b) r, Ok MsgPong)
      end
  | MsgTransaction tx => pong (accept_transaction tx (Some peer) r)
  | MsgGetRecord domain_id =>
      match dht_cache domain_id (rl_store r) with
      | Some bytes => (r, map_err NeProtocol (rmap MsgRecord (decode_complete (dec SignedDnsRecord_c) bytes)))
      | None => (r, Ok MsgPong)
      end
  | MsgRecord record =>
      if verify_record_against_chain (rl_chain r) record then
        match enc SignedDnsRecord_c record with
        | Err e => (r, Err (NeProtocol e))
        | Ok encoded =>
            let '(db, stored) := put_dht_cache (dr_domain_id (sr_record record)) encoded (rl_store r) in
            pong (with_store db r, map_err NeStorage stored)
        end
      else (r, Err NeRecordRejected)
  | MsgCheckpoint cp => pong (accept_checkpoint_message cp (Some peer) r)
  | MsgGetCheckpoints => let '(r, m) := handle_get_checkpoints peer r in (r, Ok m)
  end.

(** ** Events of the swarm *)

(** The events that change the relay, but those of Kademlia. *)
Inductive PeerEvent :=
| Established (peer : PeerId)
| Closed (peer : PeerId)
| Request (peer : PeerId) (m : Message)
| Response (peer : PeerId) (m : Message)
| OutboundFailure (peer : PeerId).

(** [scone-network/src/relay/swarm.rs:95-122 Relay::handle_reqres]: [open],
    whether the channel of a request still takes the response. *)
Definition handle_request (o : WriteOutcome) (open : bool) (peer : PeerId) (m : Message) (r : Relay)
    : Relay * result NetworkError unit :=
  match handle_peer_message o peer m r with
  | (r, Err e) => (r, Err e)
  | (r, Ok response) => if open then (emit [SendResponse peer response] r, Ok tt) else (r, Err NePeer)
  end.

(** [scone-network/src/relay/swarm.rs:36-80 Relay::handle_swarm_event] *)
Definition handle_peer_event (o : WriteOutcome) (open : bool) (e : PeerEvent) (r : Relay)
    : Relay * result NetworkError unit :=
  match e with
  | Established peer =>
      let peers := if bool_decide (peer ∈ rl_peers r) then rl_peers r else rl_peers r ++ [peer] in
      let from := add64 (chain_height (rl_chain r)) 1 in
      (request_sync_batch peer from
         (with_sync (<[peer := mkSyncState from 0]> (rl_sync r)) (with_peers peers r)), Ok tt)
  | Closed peer =>
      (with_sync (delete peer (rl_sync r)) (with_peers (filter (λ p, p ≠ peer) (rl_peers r)) r), Ok tt)
  | Request peer m => handle_request o open peer m r
  | Response peer m => let '(r, res) := handle_peer_message o peer m r in (r, rmap (λ _, tt) res)
  | OutboundFailure peer => (with_sync (delete peer (rl_sync r)) r, Ok tt)
  end.

(** [scone-network/src/relay.rs:106-158 Relay::new]: once the store is
    open and the swarm is built. *)
Definition Relay_new (store : Db) (network : NetworkParams) (capacity : nat) (anchor : AnchorLoop) (disk : Signer.Disk)
    : result NetworkError Relay :=
  let? c := map_err NeStorage (load_chain store network) in
  if negb (bool_decide (np_network_id (bc_network c) = np_network_id network)) then Err NePeer
  else Ok (mkRelay store c (Mempool_new capacity) [] ∅ [] anchor disk []).
End relay.
