(* ===== verification/Hex.v ===== *)
(** * Hexadecimal ([scone-network]: [relay/hex.rs])

    The texts of the control RPC.  Lower case is written, either case is
    read. *)

From S2P Require Import Prelude Bytes.

Definition hex_digits : list byte := ascii "0123456789abcdef".

(** [scone-network/src/relay/hex.rs:10-18 hex] *)
Definition hex (bytes : list byte) : list byte :=
  concat (map (λ b,
    [nth (N.to_nat (Byte.to_N b / 16)) hex_digits x00; nth (N.to_nat (Byte.to_N b mod 16)) hex_digits x00]) bytes).

(** The value of a digit, of either case: [is_ascii_hexdigit] and
    [from_str_radix]. *)
Definition hex_value (b : byte) : option N :=
  let v := Byte.to_N b in
  if (48 <=? v) && (v <=? 57) then Some (v - 48)
  else if (97 <=? v) && (v <=? 102) then Some (v - 87)
  else if (65 <=? v) && (v <=? 70) then Some (v - 55)
  else None.

Fixpoint hex_pairs (text : list byte) : list byte :=
  match text with
  | a :: b :: text => byte_of_N (16 * default 0 (hex_value a) + default 0 (hex_value b)) :: hex_pairs text
  | _ => []
  end.

(** [scone-network/src/relay/hex.rs:23-31 hex_decode]: of the trimmed
    text; [None], for [InvalidRpc]. *)
Definition hex_decode (text : list byte) : option (list byte) :=
  if negb (Nat.even (length text)) || negb (forallb (λ b, bool_decide (is_Some (hex_value b))) text)
  then None
  else Some (hex_pairs text).


(** ** Reading what was written *)

Lemma hex_value_digit n : n < 16 → hex_value (nth (N.to_nat n) hex_digits x00) = Some n.
Proof.
  intros Hn. assert (bool_decide (hex_value (nth (N.to_nat n) hex_digits x00) = Some n) = true) as E%bool_decide_eq_true_1; [|done].
  revert n Hn. by apply (forall_below 16 (λ n, bool_decide (hex_value (nth (N.to_nat n) hex_digits x00) = Some n))).
Qed.

Lemma hex_cons b bytes : hex (b :: bytes) =
  nth (N.to_nat (Byte.to_N b / 16)) hex_digits x00 :: nth (N.to_nat (Byte.to_N b mod 16)) hex_digits x00 :: hex bytes.
Proof. done. Qed.

Lemma byte_nibbles b : Byte.to_N b / 16 < 16 ∧ Byte.to_N b mod 16 < 16.
Proof.
  pose proof (byte_to_N_bounded b). split; [|by apply N.mod_lt]. apply N.Div0.div_lt_upper_bound. lia.
Qed.

Lemma hex_pairs_hex bytes : hex_pairs (hex bytes) = bytes.
Proof.
  induction bytes as [|b bytes IH]; [done|]. rewrite hex_cons. cbn [hex_pairs]. rewrite IH. f_equal.
  destruct (byte_nibbles b) as [H1 H2]. rewrite !hex_value_digit by done. cbn [default].
  rewrite <- (byte_of_N_to_N b) at 3. f_equal. symmetry. by apply N.div_mod.
Qed.

Lemma hex_digits_valid bytes : forallb (λ b, bool_decide (is_Some (hex_value b))) (hex bytes) = true.
Proof.
  induction bytes as [|b bytes IH]; [done|]. rewrite hex_cons. cbn [forallb]. destruct (byte_nibbles b) as [H1 H2].
  rewrite !hex_value_digit, IH by done. by rewrite bool_decide_eq_true_2 by by eexists.
Qed.

Lemma hex_even bytes : Nat.even (length (hex bytes)) = true.
Proof. induction bytes as [|b bytes IH]; [done|]. by rewrite hex_cons. Qed.

Lemma hex_roundtrip bytes : hex_decode (hex bytes) = Some bytes.
Proof. unfold hex_decode. by rewrite hex_even, hex_digits_valid, hex_pairs_hex. Qed.
