(* ===== verification/Dns.v ===== *)
(** * The DNS server ([scone-network]: [dns.rs])

    The strict subset of the DNS wire format that the server reads and
    writes, the selection of answers, the bounded cache, and the handling
    of one packet: cache, authoritative path, upstream servers.  The
    sockets are left out: what an upstream replies is an argument, and so
    is the resolver, which asks the relay. *)

From S2P Require Import Prelude Bytes Names Icann Codec Records Hex.

(** [scone-network/src/dns.rs:63-75 CLASS_IN, TYPE_A, RCODE_NOERROR] *)
Definition CLASS_IN : N := 1.
Definition TYPE_A : N := 1.
Definition TYPE_NS : N := 2.
Definition TYPE_CNAME : N := 5.
Definition TYPE_MX : N := 15.
Definition TYPE_TXT : N := 16.
Definition TYPE_AAAA : N := 28.
Definition TYPE_ANY : N := 255.
Definition RCODE_NOERROR : N := 0.
Definition RCODE_SERVFAIL : N := 2.
Definition RCODE_NXDOMAIN : N := 3.
Definition RCODE_REFUSED : N := 5.

(** [scone-network/src/dns.rs:78-78 MAX_PACKET_LEN] *)
Definition MAX_PACKET_LEN : N := 4096.
(** [scone-network/src/dns.rs:82-82 MAX_TCP_QUERY] *)
Definition MAX_TCP_QUERY : N := 512.
(** [scone-network/src/dns.rs:86-86 MAX_TCP_RESPONSE] *)
Definition MAX_TCP_RESPONSE : N := 65535.
(** [scone-network/src/dns.rs:96-96 UDP_PAYLOAD_LIMIT] *)
Definition UDP_PAYLOAD_LIMIT : N := 512.
(** [scone-network/src/dns.rs:98-98 ANSWER_TTL] *)
Definition ANSWER_TTL : N := 60.
(** [scone-network/src/dns.rs:100-100 MAX_FALLBACK_TTL] *)
Definition MAX_FALLBACK_TTL : N := 600.

(** [scone-network/src/dns.rs:113-119 Resolved] *)
Record Resolved := mkResolved { rs_rdata : list (N * list byte); rs_registered : bool }.

(** [scone-network/src/dns.rs:730-730 WireAnswer]: type, TTL, data. *)
Record WireAnswer := mkAnswer { an_type : N; an_ttl : N; an_rdata : list byte }.

#[global] Instance WireAnswer_eq_dec : EqDecision WireAnswer.
Proof. solve_decision. Defined.

(** ** Reading *)

(** [scone-network/src/dns.rs:468-473 Query] *)
Record Query := mkQuery { q_id : N; q_rd : bool; q_name : list byte; q_qtype : N }.

#[global] Instance Query_eq_dec : EqDecision Query.
Proof. solve_decision. Defined.

Definition is_ascii_uppercase (b : byte) : bool := (65 <=? Byte.to_N b) && (Byte.to_N b <=? 90).
Definition UNDERSCORE : byte := x5f.

(** [u8::to_ascii_lowercase], what [to_lowercase] does to ASCII. *)
Definition to_lower (b : byte) : byte := if is_ascii_uppercase b then byte_of_N (Byte.to_N b + 32) else b.

(** A byte of a label on the wire. *)
Definition wire_label_byte (b : byte) : bool :=
  is_ascii_lowercase b || is_ascii_uppercase b || is_ascii_digit b || byte_eqb b HYPHEN || byte_eqb b UNDERSCORE.

(** [len & 0xC0 != 0] *)
Definition is_pointer (len : byte) : bool := negb (N.land (Byte.to_N len) 0xC0 =? 0).

(** [scone-network/src/dns.rs:487-508 parse_query]: the labels from [i] on
    and the position after them; each round moves on, so the length of
    the packet is enough fuel. *)
Fixpoint parse_labels (fuel i : nat) (b : list byte) : option (list (list byte) * nat) :=
  match fuel with
  | O => None
  | S fuel =>
      len ← b !! i;
      if Byte.to_N len =? 0 then Some ([], S i)
      else if is_pointer len then None
      else
        let n := N.to_nat (Byte.to_N len) in
        lab ← get_range (S i) (S i + n) b;
        if negb ((1 <=? length lab)%nat && (length lab <=? 63)%nat) || negb (forallb wire_label_byte lab) then None
        else
          '(labels, j) ← parse_labels fuel (S i + n) b;
          Some (map to_lower lab :: labels, j)
  end.

(** [scone-network/src/dns.rs:475-523 parse_query] *)
Definition parse_query (b : list byte) : option Query :=
  if (length b <? 12)%nat then None
  else
    let flags := be_val (slice 2 4 b) in
    if N.testbit flags 15 then None
    else if negb (be_val (slice 4 6 b) =? 1) then None
    else
      '(labels, i) ← parse_labels (length b) 12 b;
      if (length labels <? 2)%nat || (16 <? length labels)%nat then None
      else
        qtype ← be_val <$> get_range i (i + 2) b;
        qclass ← be_val <$> get_range (i + 2) (i + 4) b;
        if negb (qclass =? CLASS_IN) then None
        else Some (mkQuery (be_val (slice 0 2 b)) (N.testbit flags 8) (join_dot labels) qtype).

(** [scone-network/src/dns.rs:598-608 question_bytes]: the position after the name. *)
Fixpoint skip_name (fuel i : nat) (b : list byte) : option nat :=
  match fuel with
  | O => None
  | S fuel =>
      len ← b !! i;
      if Byte.to_N len =? 0 then Some (S i)
      else if is_pointer len then None
      else skip_name fuel (S i + N.to_nat (Byte.to_N len)) b
  end.

(** [scone-network/src/dns.rs:596-610 question_bytes] *)
Definition question_bytes (b : list byte) : option (list byte) :=
  i ← skip_name (length b) 12 b;
  get_range 12 (i + 4) b.

(** ** Writing *)

(** [scone-network/src/dns.rs:561-571 build_response_bounded]: one answer,
    with the name of the question; the length of the data saturates. *)
Definition answer_bytes (qname : list byte) (a : WireAnswer) : list byte :=
  qname ++ be_bytes 2 (an_type a) ++ be_bytes 2 CLASS_IN ++ be_bytes 4 (an_ttl a) ++
  be_bytes 2 (N.min (blen (an_rdata a)) 65535) ++ an_rdata a.

(** [scone-network/src/dns.rs:558-573 build_response_bounded]: the answers
    that fit, up to the first that does not. *)
Fixpoint fitting (budget used : N) (qname : list byte) (answers : list WireAnswer) : list WireAnswer :=
  match answers with
  | [] => []
  | a :: answers =>
      let need := blen qname + 10 + blen (an_rdata a) in
      if budget <? used + need then [] else a :: fitting budget (used + need) qname answers
  end.

(** [QR | RD | RA | RCODE], with [AA] and [TC]. *)
Definition response_flags (rd authoritative truncated : bool) (rcode : N) : N :=
  N.lor (N.lor (N.lor (N.lor 0x8000 (if rd then 0x0100 else 0)) 0x0080) rcode)
    (N.lor (if authoritative then 0x0400 else 0) (if truncated then 0x0200 else 0)).

(** The header: one question, [ancount] answers. *)
Definition header_bytes (id flags ancount : N) : list byte :=
  be_bytes 2 id ++ be_bytes 2 flags ++ be_bytes 2 1 ++ be_bytes 2 ancount ++ be_bytes 2 0 ++ be_bytes 2 0.

(** [scone-network/src/dns.rs:534-592 build_response_bounded] *)
Definition build_response_bounded (q : Query) (original : list byte) (answers : list WireAnswer) (rcode : N)
    (authoritative : bool) (budget : N) : list byte :=
  match question_bytes original with
  | None => header_bytes (q_id q) (response_flags (q_rd q) false false rcode) 0
  | Some question =>
      let qname := take (length question - 4) question in
      let kept := fitting budget (12 + blen question) qname answers in
      let truncated := (length kept <? length answers)%nat in
      header_bytes (q_id q) (response_flags (q_rd q) authoritative truncated rcode) (N.of_nat (length kept)) ++
      question ++ concat (map (answer_bytes qname) kept)
  end.

(** [str::trim_end_matches('.')] *)
Definition trim_end_dots (s : list byte) : list byte :=
  let fix drop_dots (r : list byte) := match r with b :: r' => if byte_eqb b DOT then drop_dots r' else r | [] => [] end in
  reverse (drop_dots (reverse s)).

(** [scone-network/src/dns.rs:613-621 encode_name]: a length over 255 is written 0. *)
Definition encode_name (name : list byte) : list byte :=
  concat (map (λ label, byte_of_N (if blen label <=? 255 then blen label else 0) :: label)
            (split_dot (trim_end_dots name))) ++ [x00].

(** [scone-network/src/dns.rs:652-660 char_strings] *)
Definition char_strings (b : list byte) : list byte :=
  match b with
  | [] => [x00]
  | _ => concat (map (λ c, byte_of_N (blen c) :: c) (chunks (length b) 255 b))
  end.

(** [scone-network/src/dns.rs:624-649 encode_rdata] *)
Definition encode_rdata (r : RecordData) : option (N * list byte) :=
  match r with
  | RdA ip => Some (TYPE_A, arr_list ip)
  | RdAaaa ip => Some (TYPE_AAAA, arr_list ip)
  | RdCname n => Some (TYPE_CNAME, encode_name n)
  | RdNs n => Some (TYPE_NS, encode_name n)
  | RdMx preference exchange => Some (TYPE_MX, be_bytes 2 preference ++ encode_name exchange)
  | RdTxt s => Some (TYPE_TXT, char_strings s)
  | RdUnknown type_code rdata => Some (type_code, rdata)
  end.

(** [scone-network/src/dns.rs:665-678 encode_rdata_pub]: the type, the TTL
    and the hexadecimal text of the data. *)
Definition encode_rdata_pub (r : RecordData) : option (N * N * list byte) :=
  '(tc, rd) ← encode_rdata r;
  Some (tc, ANSWER_TTL, hex rd).

(** ** The authoritative path *)

(** [scone-network/src/dns.rs:453-464 select_answers]: the relative name is not used. *)
Definition select_answers (q : Query) (resolved : Resolved) : list WireAnswer :=
  let addr_query := (q_qtype q =? TYPE_A) || (q_qtype q =? TYPE_AAAA) in
  map (λ e, mkAnswer e.1 ANSWER_TTL e.2)
    (filter (λ e, (q_qtype q =? TYPE_ANY) || (e.1 =? q_qtype q) || (addr_query && (e.1 =? TYPE_CNAME)) = true)
       (rs_rdata resolved)).

(** [label.starts_with('-')], [ends_with], the length and the bytes of a label. *)
Definition candidate_label (label : list byte) : bool :=
  ((1 <=? length label) && (length label <=? 63))%nat &&
  negb (bool_decide (head label = Some HYPHEN)) && negb (bool_decide (last label = Some HYPHEN)) &&
  forallb (λ b, label_byte b || byte_eqb b UNDERSCORE) label.

(** [scone-network/src/dns.rs:426-447 scone_candidate] *)
Definition scone_candidate (name : list byte) : bool :=
  let labels := split_dot name in
  forallb candidate_label labels &&
  (length name <=? DomainName_MAX_TOTAL_LEN)%nat && (2 <=? length labels)%nat &&
  match last labels with
  | Some tld =>
      ((1 <=? length tld) && (length tld <=? TldName_MAX_LEN))%nat && forallb label_byte tld && negb (is_icann_tld tld)
  | None => false
  end.

(** ** Upstream servers *)

(** [scone-network/src/dns.rs:721-727 reply_matches] *)
Definition reply_matches (resp txid question : list byte) : bool :=
  (12 <=? length resp)%nat && bool_decide (take 2 resp = txid) &&
  N.testbit (be_val (slice 2 3 resp)) 7 &&
  bool_decide (get_range 12 (12 + length question) resp = Some question).

(** [scone-network/src/dns.rs:689-718 forward]: what each upstream gives
    back, [None] when the socket fails or times out. *)
Fixpoint first_reply (upstreams : list (option (list byte))) (txid question : list byte) : option (list byte) :=
  match upstreams with
  | [] => None
  | None :: upstreams => first_reply upstreams txid question
  | Some buf :: _ => if reply_matches buf txid question then Some buf else None
  end.
(** [scone-network/src/dns.rs:689-691 forward]: the question and the identifier. *)
Definition forward (query : list byte) (upstreams : list (option (list byte))) : option (list byte) :=
  question ← question_bytes query;
  first_reply upstreams (take 2 query) question.

(** [scone-network/src/dns.rs:740-742 extract_answers]: a name is skipped
    label by label, a pointer as if it were a label. *)
Fixpoint skip_labels (fuel i : nat) (b : list byte) : nat :=
  match fuel with
  | O => i
  | S fuel =>
      match b !! i with
      | Some l => if Byte.to_N l =? 0 then i else skip_labels fuel (S i + N.to_nat (Byte.to_N l)) b
      | None => i
      end
  end.

(** [scone-network/src/dns.rs:746-757 extract_answers]: [n] answers from [i] on. *)
Fixpoint take_answers (n i : nat) (resp : list byte) : option (list WireAnswer) :=
  match n with
  | O => Some []
  | S n =>
      let i := S (skip_labels (length resp) i resp) in
      tc ← be_val <$> get_range i (i + 2) resp;
      ttl ← be_val <$> get_range (i + 4) (i + 8) resp;
      rdlen ← be_val <$> get_range (i + 8) (i + 10) resp;
      rdata ← get_range (i + 10) (i + 10 + N.to_nat rdlen) resp;
      rest ← take_answers n (i + 10 + N.to_nat rdlen) resp;
      Some (mkAnswer tc (N.min ttl MAX_FALLBACK_TTL) rdata :: rest)
  end.

(** [scone-network/src/dns.rs:734-760 extract_answers] *)
Definition extract_answers (resp : list byte) : option (list WireAnswer * N) :=
  if (length resp <? 12)%nat then None
  else
    let ancount := be_val (slice 6 8 resp) in
    answers ← take_answers (N.to_nat ancount) (skip_labels (length resp) 12 resp + 5) resp;
    Some (answers, foldl N.max 0 (map an_ttl answers)).

(** ** The cache *)

(** [scone-network/src/dns.rs:768-773 CacheEntry] *)
Record CacheEntry := mkCacheEntry {
  ce_answers : list WireAnswer;
  ce_rcode : N;
  ce_ttl : N;
  ce_authoritative : bool }.

Notation CacheKey := (list byte * N)%type.

(** [scone-network/src/dns.rs:778-783 Cache]: with the instant of each
    entry, in milliseconds. *)
Record Cache := mkCache {
  ca_entries : gmap CacheKey (CacheEntry * N);
  ca_order : list CacheKey;
  ca_capacity : nat;
  ca_ttl_cap : N }.

(** [scone-network/src/dns.rs:794-801 Cache::with_bounds] *)
Definition Cache_with_bounds (capacity : nat) (ttl_cap : N) : Cache := mkCache ∅ [] (Nat.max capacity 1) ttl_cap.

(** [scone-network/src/dns.rs:805-811 Cache::get] *)
Definition cache_get (now : N) (name : list byte) (qtype : N) (c : Cache) : option CacheEntry :=
  '(entry, at_) ← ca_entries c !! (name, qtype);
  if N.max (N.min (ce_ttl entry) (ca_ttl_cap c)) 1 <=? (now - at_) / 1000 then None else Some entry.

(** [scone-network/src/dns.rs:820-826 Cache::put]: the eviction loop; each
    round takes a key out of the order. *)
Fixpoint cache_evict (order : list CacheKey) (capacity : nat) (entries : gmap CacheKey (CacheEntry * N))
    : list CacheKey * gmap CacheKey (CacheEntry * N) :=
  if (capacity <? size entries)%nat then
    match order with
    | old :: order => cache_evict order capacity (delete old entries)
    | [] => ([], entries)
    end
  else (order, entries).

(** [scone-network/src/dns.rs:814-827 Cache::put] *)
Definition cache_put (now : N) (name : list byte) (qtype : N) (entry : CacheEntry) (c : Cache) : Cache :=
  let key := (name, qtype) in
  let order := if bool_decide (is_Some (ca_entries c !! key)) then ca_order c else ca_order c ++ [key] in
  let '(order, entries) := cache_evict order (ca_capacity c) (<[key := (entry, now)]> (ca_entries c)) in
  mkCache entries order (ca_capacity c) (ca_ttl_cap c).

(** [scone-network/src/dns.rs:831-833 Cache::len] *)
Definition cache_len (c : Cache) : nat := size (ca_entries c).

(** ** One packet *)

Section server.
(** What the relay answers for an apex: [Err], a local failure. *)
Variable resolver : list byte → result unit (option Resolved).

(** [scone-network/src/dns.rs:394-418 authoritative]: the suffixes of
    [labels], the longest first, down to two labels. *)
Fixpoint search_apex (q : Query) (labels : list (list byte)) : list WireAnswer * N :=
  match labels with
  | _ :: ((_ :: _) as parent) =>
      match resolver (join_dot labels) with
      | Ok (Some resolved) => (select_answers q resolved, RCODE_NOERROR)
      | Ok None => search_apex q parent
      | Err _ => ([], RCODE_SERVFAIL)
      end
  | _ => ([], RCODE_NXDOMAIN)
  end.

(** [scone-network/src/dns.rs:388-421 authoritative] *)
Definition authoritative (q : Query) : list WireAnswer * N := search_apex q (split_dot (q_name q)).

(** Only these answers are cached. *)
Definition cacheable (rcode : N) : bool := (rcode =? RCODE_NOERROR) || (rcode =? RCODE_NXDOMAIN).

(** [scone-network/src/dns.rs:327-366 handle_packet_transport]: the reply
    of an upstream, cached and passed through or cut. *)
Definition pass_through (now : N) (q : Query) (data resp : list byte) (cache : Cache) (budget : N) : Cache * list byte :=
  let up_rcode := match resp !! 3%nat with Some b => N.land (Byte.to_N b) 0x0F | None => RCODE_NOERROR end in
  let extracted := if cacheable up_rcode then extract_answers resp else None in
  let cache :=
    match extracted with
    | Some (ans, ttl) =>
        cache_put now (q_name q) (q_qtype q) (mkCacheEntry ans up_rcode (N.min ttl MAX_FALLBACK_TTL) false) cache
    | None => cache
    end in
  if blen resp <=? budget then (cache, resp)
  else
    let '(ans, rcode) := match extracted with Some (ans, _) => (ans, up_rcode) | None => ([], RCODE_SERVFAIL) end in
    (cache, build_response_bounded q data ans rcode false budget).

(** [scone-network/src/dns.rs:301-385 handle_packet_transport]: [now] when
    the packet arrives, [later] when its answer is known. *)
Definition handle_packet_transport (now later : N) (data : list byte) (upstreams : list (option (list byte)))
    (cache : Cache) (budget : N) : Cache * option (list byte) :=
  match parse_query data with
  | None => (cache, None)
  | Some q =>
      match cache_get now (q_name q) (q_qtype q) cache with
      | Some e =>
          (cache, Some (build_response_bounded q data (ce_answers e) (ce_rcode e) (ce_authoritative e) budget))
      | None =>
          let answer '(answers, rcode) :=
            let cache :=
              if cacheable rcode
              then cache_put later (q_name q) (q_qtype q) (mkCacheEntry answers rcode ANSWER_TTL true) cache
              else cache in
            (cache, Some (build_response_bounded q data answers rcode (cacheable rcode) budget)) in
          if scone_candidate (q_name q) then answer (authoritative q)
          else
            match upstreams with
            | [] => answer ([], RCODE_REFUSED)
            | _ =>
                match forward data upstreams with
                | Some resp => let '(cache, out) := pass_through later q data resp cache budget in (cache, Some out)
                | None => answer ([], RCODE_SERVFAIL)
                end
            end
      end
  end.

(** [scone-network/src/dns.rs:288-295 handle_packet] *)
Definition handle_packet (now later : N) (data : list byte) (upstreams : list (option (list byte))) (cache : Cache)
    : Cache * option (list byte) :=
  handle_packet_transport now later data upstreams cache MAX_PACKET_LEN.
End server.
