(* ===== verification/RelayRpc.v ===== *)
(** * The control RPC, the lookups in the DHT and the loop of the relay
    ([scone-network]: [relay/rpc_dispatch.rs], [relay.rs])

    Requests of local clients are answered at once, or parked until a
    Kademlia query ends or its deadline passes.  Records are served from
    the local cache, after they are checked against the chain.  Every
    event that the one task handles is one step on the relay. *)

From S2P Require Import Prelude Bytes Crypto Commitment Smt Names Codec Checkpoint Tx Wire State StateSpec Blocks Chain.
From S2P Require Import StateBytes Redb Store StoreSpec StorePaging Persist Signer.
From S2P Require Import Records Messages Mempool Anchor Relay Hex Dns.

(** ** The control RPC *)

(** [Vec::swap_remove]: the last element takes the place. *)
Definition swap_remove {A} (i : nat) (l : list A) : list A :=
  match last l with
  | Some x => take (length l - 1) (<[i := x]> l)
  | None => []
  end.

(** [scone-network/src/rpc.rs:36-60 RpcRequest]: hexadecimal texts trimmed. *)
Inductive RpcRequest :=
| RqStatus
| RqSubmitTx (tx_hex : list byte)
| RqLookup (name : list byte)
| RqPutRecord (record_hex : list byte)
| RqGetRecord (name : list byte)
| RqDomainInfo (name : list byte)
| RqResolveLocal (name : list byte).

Section rpc.
Context `{Crypto} `{Redb} `{!Faults} `{Swarm}.

(** [scone-network/src/relay/task.rs:33-45 DhtWaiter::fresh, with_reply] *)
Definition fresh (id : QueryId) (domain_id : DomainId) (client : Client) (now : N) : DhtWaiter :=
  mkWaiter id domain_id (Some client) (now + DHT_LOOKUP_TIMEOUT).

(** [scone-network/src/relay/task.rs:51-55 DhtWaiter::send] *)
Definition send (w : DhtWaiter) (response : RpcResponse) (r : Relay) : Relay :=
  match dw_reply w with Some client => emit [Reply client response] r | None => r end.

(** A name of a request, as an identifier. *)
Definition requested (name : list byte) : result SconeError DomainId := rmap DomainId_from_name (DomainName_new name).

(** [scone-network/src/relay/rpc_dispatch.rs:87-95 Relay::submit_tx_hex] *)
Definition submit_tx_hex (tx_hex : list byte) (r : Relay) : Relay * result NetworkError TxId :=
  let decoded :=
    let? bytes := ok_or (hex_decode tx_hex) NeInvalidRpc in
    if MAX_MESSAGE_LEN <? blen bytes then Err (NeLimitExceeded "transaction size")
    else map_err NeProtocol (decode_complete (dec Transaction_c) bytes) in
  match decoded with
  | Err e => (r, Err e)
  | Ok tx => accept_transaction tx None r
  end.

(** [scone-network/src/relay/rpc_dispatch.rs:98-116 Relay::lookup] *)
Definition lookup_domain (name : list byte) (r : Relay) : result NetworkError RpcResponse :=
  let? id := map_err (λ e, NeBlockchain (Core e)) (requested name) in
  Ok (RpcDomain id (cs_domain (bc_state (rl_chain r)) id)).

(** [scone-network/src/relay/rpc_dispatch.rs:120-148 Relay::put_record_hex]:
    [accepted], whether Kademlia takes the record. *)
Definition put_record_hex (accepted : bool) (record_hex : list byte) (r : Relay) : Relay * result NetworkError DomainId :=
  let decoded :=
    let? bytes := ok_or (hex_decode record_hex) NeInvalidRpc in
    if MAX_DHT_CACHE_ENTRY <? blen bytes then Err (NeLimitExceeded "record size")
    else map_err NeProtocol (decode_complete (dec SignedDnsRecord_c) bytes) in
  match decoded with
  | Err e => (r, Err e)
  | Ok record =>
      if negb (verify_record_against_chain (rl_chain r) record) then (r, Err NeRecordRejected)
      else
        match enc SignedDnsRecord_c record with
        | Err e => (r, Err (NeProtocol e))
        | Ok encoded =>
            let id := dr_domain_id (sr_record record) in
            let r := emit [KadPut (arr_list id) encoded] r in
            if negb accepted then (r, Err NeDht)
            else
              let '(db, stored) := put_dht_cache id encoded (rl_store r) in
              (with_store db r, map_err NeStorage (rmap (λ _, id) stored))
        end
  end.

(** [scone-network/src/relay/rpc_dispatch.rs:155-161 Relay::start_dht_get]:
    [query] is the identifier that Kademlia gives. *)
Definition start_dht_get (query : QueryId) (now : N) (client : Client) (name : list byte) (r : Relay)
    : Relay * result NetworkError DhtWaiter :=
  match requested name with
  | Err _ => (r, Err NeInvalidRpc)
  | Ok id => (emit [KadGet (arr_list id)] r, Ok (fresh query id client now))
  end.

(** [scone-network/src/relay/rpc_dispatch.rs:185-193 Relay::domain_info]: the
    records of the cached entry, when it passes the check. *)
Definition cached_records (id : DomainId) (r : Relay) : list RecordData :=
  match dht_cache id (rl_store r) with
  | Some bytes =>
      match decode_complete (dec SignedDnsRecord_c) bytes with
      | Ok record =>
          if verify_record_against_chain (rl_chain r) record then dr_records (sr_record record) else []
      | Err _ => []
      end
  | None => []
  end.

(** [scone-network/src/relay/rpc_dispatch.rs:171-203 Relay::domain_info]: the
    records, without the rendering in JSON. *)
Definition domain_info (name : list byte) (r : Relay) : result NetworkError RpcResponse :=
  let? id := map_err (λ e, NeBlockchain (Core e)) (requested name) in
  let st := cs_domain (bc_state (rl_chain r)) id in
  Ok (RpcInfo id st (match st with Some _ => cached_records id r | None => [] end)).

(** [scone-network/src/relay/rpc_dispatch.rs:212-241 Relay::resolve_local]: each
    record of the cached entry as type, TTL and hexadecimal data. *)
Definition resolve_local (name : list byte) (r : Relay) : result NetworkError RpcResponse :=
  let? id := map_err (λ e, NeBlockchain (Core e)) (requested name) in
  let st := cs_domain (bc_state (rl_chain r)) id in
  Ok (RpcResolved id st (match st with Some _ => omap encode_rdata_pub (cached_records id r) | None => [] end)).

(** [scone-network/src/relay.rs:449-456 decode_hex_static]: not trimmed,
    or else as [hex_decode]. *)
Definition decode_hex_static (text : list byte) : option (list byte) := hex_decode text.

(** [scone-network/src/relay.rs:274-308 Relay::run]: the resolver of the
    DNS server, over an RPC connection that does not fail. *)
Definition dns_resolver (r : Relay) (name : list byte) : result unit (option Resolved) :=
  match resolve_local name r with
  | Ok (RpcResolved _ st dns) =>
      match st with
      | Some _ =>
          Ok (Some (mkResolved
            (omap (λ '(tc, _, text), if tc <? 2 ^ 16 then pair tc <$> decode_hex_static text else None) dns) true))
      | None => Ok None
      end
  | Ok _ => Ok None
  | Err _ => Err tt
  end.

(** What a request becomes; [Parked], when it waits for the DHT. *)
Inductive Dispatched := Now (response : RpcResponse) | Parked (w : DhtWaiter).

Definition answer {A} (f : A → RpcResponse) (res : result NetworkError A) : Dispatched :=
  Now (match res with Ok a => f a | Err e => RpcError e end).

(** What Kademlia, the clock and the RPC server give to a request. *)
Record RequestEnv := mkRequestEnv { re_accepted : bool; re_query : QueryId; re_now : N; re_client : Client }.

(** [scone-network/src/relay/rpc_dispatch.rs:31-44 Relay::dispatch]:
    [Status]; without the identifier of the node. *)
Definition status (r : Relay) : RpcResponse :=
  RpcStatus (network_id (rl_chain r)) (bc_tip (rl_chain r)) (chain_height (rl_chain r)) (length (rl_peers r))
    (cs_domain_count (bc_state (rl_chain r))) (mempool_len (rl_mempool r)) (length (bc_checkpoints (rl_chain r)))
    (epoch ∘ data ∘ fb_checkpoint <$> bc_finalized (rl_chain r)).

(** [scone-network/src/relay/rpc_dispatch.rs:29-84 Relay::dispatch] *)
Definition dispatch (env : RequestEnv) (request : RpcRequest) (r : Relay) : Relay * Dispatched :=
  match request with
  | RqStatus => (r, Now (status r))
  | RqSubmitTx tx_hex => let '(r, res) := submit_tx_hex tx_hex r in (r, answer RpcTx res)
  | RqLookup name => (r, answer id (lookup_domain name r))
  | RqPutRecord record_hex =>
      let '(r, res) := put_record_hex (re_accepted env) record_hex r in (r, answer RpcPublished res)
  | RqGetRecord name =>
      if (MAX_DHT_WAITERS <=? length (rl_dht_waiters r))%nat then (r, Now RpcTooManyLookups)
      else
        let '(r, res) := start_dht_get (re_query env) (re_now env) (re_client env) name r in
        (r, match res with Ok w => Parked w | Err e => Now (RpcError e) end)
  | RqDomainInfo name => (r, answer id (domain_info name r))
  | RqResolveLocal name => (r, answer id (resolve_local name r))
  end.

(** [scone-network/src/relay.rs:412-426 Relay::run]: a request is answered or parked. *)
Definition handle_command (env : RequestEnv) (request : RpcRequest) (r : Relay) : Relay :=
  match dispatch env request r with
  | (r, Now response) => emit [Reply (re_client env) response] r
  | (r, Parked w) => with_waiters (rl_dht_waiters r ++ [w]) r
  end.

(** ** Parked lookups *)

(** [scone-network/src/relay/rpc_dispatch.rs:244-246 Relay::next_dht_deadline] *)
Definition next_dht_deadline (r : Relay) : option N :=
  match map dw_deadline (rl_dht_waiters r) with
  | [] => None
  | d :: ds => Some (fold_left N.min ds d)
  end.

(** The loop of [expire_stale_dht_waiters]: each round removes a waiter
    or goes to the next, so their number is enough fuel. *)
Fixpoint expire_from (fuel i : nat) (now : N) (r : Relay) : Relay :=
  match fuel with
  | O => r
  | S fuel =>
      match rl_dht_waiters r !! i with
      | None => r
      | Some w =>
          if dw_deadline w <=? now
          then expire_from fuel i now (send w RpcTimedOut (with_waiters (swap_remove i (rl_dht_waiters r)) r))
          else expire_from fuel (S i) now r
      end
  end.

(** [scone-network/src/relay/rpc_dispatch.rs:249-260 Relay::expire_stale_dht_waiters] *)
Definition expire_stale_dht_waiters (now : N) (r : Relay) : Relay :=
  expire_from (length (rl_dht_waiters r)) 0 now r.

(** How a query progresses: [KadOther], in a way no waiter is told. *)
Inductive KadResult := FoundRecord (key value : list byte) | KadNotFound | KadOther.

(** [scone-network/src/relay/rpc_dispatch.rs:296-317 Relay::handle_kad]: the
    answer to a record under the right key, and what the cache becomes. *)
Definition resolve_found (w : DhtWaiter) (value : list byte) (r : Relay) : Relay * RpcResponse :=
  match decode_complete (dec SignedDnsRecord_c) value with
  | Ok record =>
      if verify_record_against_chain (rl_chain r) record
      then (with_store (put_dht_cache (dw_domain_id w) value (rl_store r)).1 r, RpcRecord value)
      else (r, RpcNotOnChain)
  | Err e => (r, RpcBadRecord e)
  end.

(** [scone-network/src/relay/rpc_dispatch.rs:270-327 Relay::handle_kad] *)
Definition handle_kad (query_id : QueryId) (res : KadResult) (r : Relay) : Relay :=
  match list_find (λ w, dw_id w = query_id) (rl_dht_waiters r) with
  | None => r
  | Some (position, w) =>
      let removed := with_waiters (swap_remove position (rl_dht_waiters r)) r in
      match res with
      | FoundRecord key value =>
          if negb (bool_decide (key = arr_list (dw_domain_id w))) then send w RpcKeyMismatch removed
          else let '(r, response) := resolve_found w value removed in send w response r
      | KadNotFound => send w RpcNotFound removed
      | KadOther => r
      end
  end.
End rpc.

(** ** The loop *)

Section run.
Context `{Crypto} `{Redb} `{!Faults} `{Swarm}.

(** [scone-network/src/relay.rs:388-393 Relay::run]: what wakes the loop up. *)
Inductive Wake :=
| WakeCommand (env : RequestEnv) (request : RpcRequest)
| WakePeer (open : bool) (e : PeerEvent)
| WakeKad (query_id : QueryId) (res : KadResult)
| WakeProduce (clock : nat → N)
| WakeDhtExpire (now : N).

(** [scone-network/src/relay.rs:411-444 Relay::run]: one round, with its
    error: that of an event of the swarm is only logged, that of a
    production ends the loop.  [o] is what becomes of the signer's file in
    this round. *)
Definition relay_step (o : WriteOutcome) (w : Wake) (r : Relay) : Relay * result NetworkError unit :=
  match w with
  | WakeCommand env request => (handle_command env request r, Ok tt)
  | WakePeer open e => handle_peer_event o open e r
  | WakeKad query_id res => (handle_kad query_id res r, Ok tt)
  | WakeProduce clock => produce_if_ready clock o r
  | WakeDhtExpire now => (expire_stale_dht_waiters now r, Ok tt)
  end.

(** A relay from its start; whether a round failed does not matter. *)
Inductive relay_runs (r0 : Relay) : Relay → Prop :=
| runs_start : relay_runs r0 r0
| runs_step r o w : relay_runs r0 r → relay_runs r0 (relay_step o w r).1.
End run.
