(* ===== verification/DnsProofs.v ===== *)
(** * Lemmas on the DNS wire format

    Names on the wire, where they end, and the answers behind them. *)

From S2P Require Import Prelude Bytes Names Icann Codec Records Hex Dns.

(** ** Ranges of a packet *)

Lemma get_range_at {A} (pre l post b : list A) i j :
  b = pre ++ l ++ post → i = length pre → j = (i + length l)%nat → get_range i j b = Some l.
Proof.
  intros -> -> ->. unfold get_range, slice. rewrite !length_app.
  destruct (Nat.leb_spec (length pre + length l) (length pre + (length l + length post))); [|lia].
  rewrite drop_app_length. replace (length pre + length l - length pre)%nat with (length l) by lia.
  by rewrite take_app_length.
Qed.

Lemma get_range_Some {A} (b l : list A) i j :
  (i ≤ j)%nat → get_range i j b = Some l → b = take i b ++ l ++ drop j b ∧ length l = (j - i)%nat ∧ (j ≤ length b)%nat.
Proof.
  unfold get_range, slice. intros Hij. destruct (Nat.leb_spec j (length b)) as [Hj|]; [|done]. intros [= <-].
  split_and!; [|rewrite length_take, length_drop; lia|done].
  rewrite <- (take_drop i b) at 1. f_equal. rewrite <- (take_drop (j - i) (drop i b)) at 1. f_equal.
  rewrite drop_drop. f_equal. lia.
Qed.

Lemma lookup_at {A} (pre post : list A) x : (pre ++ x :: post) !! length pre = Some x.
Proof. by rewrite lookup_app_r, Nat.sub_diag by lia. Qed.

(** ** Names on the wire *)

Definition wire_label (l : list byte) : Prop := (1 ≤ length l ≤ 63)%nat ∧ forallb wire_label_byte l = true.

(** Length-prefixed labels and the root. *)
Definition name_wire (labels : list (list byte)) : list byte :=
  concat (map (λ l, byte_of_N (blen l) :: l) labels) ++ [x00].

Lemma name_wire_cons l ls : name_wire (l :: ls) = byte_of_N (blen l) :: l ++ name_wire ls.
Proof. unfold name_wire. cbn. by rewrite <- app_assoc. Qed.

Lemma length_name_wire ls : (length ls < length (name_wire ls))%nat.
Proof.
  induction ls as [|l ls IH]; [cbn; lia|]. rewrite name_wire_cons. cbn [length]. rewrite length_app. lia.
Qed.

Lemma label_length_byte (l : list byte) : (length l ≤ 63)%nat → Byte.to_N (byte_of_N (blen l)) = blen l.
Proof. intros Hl. rewrite byte_to_N_of_N. apply N.mod_small. unfold blen. lia. Qed.

Lemma short_not_pointer n : n < 64 → N.land n 0xC0 = 0.
Proof.
  intros Hn. apply N.eqb_eq. revert n Hn. apply (forall_below 64 (λ n, N.land n 0xC0 =? 0)). done.
Qed.

Lemma label_not_pointer (l : list byte) : (length l ≤ 63)%nat → is_pointer (byte_of_N (blen l)) = false.
Proof.
  intros Hl. unfold is_pointer. rewrite label_length_byte by done. by rewrite short_not_pointer by (unfold blen; lia).
Qed.

(** What the three loops do on a label length. *)
Lemma label_step (l : list byte) : wire_label l →
  (Byte.to_N (byte_of_N (blen l)) =? 0) = false ∧ is_pointer (byte_of_N (blen l)) = false ∧
  N.to_nat (Byte.to_N (byte_of_N (blen l))) = length l.
Proof.
  intros [Hl _]. rewrite label_length_byte, label_not_pointer by lia. split_and!; [|done|unfold blen; lia].
  apply N.eqb_neq. unfold blen. lia.
Qed.

Lemma extend_pre (pre l ls post : list byte) x :
  pre ++ (x :: l ++ ls) ++ post = (pre ++ x :: l) ++ ls ++ post ∧ (S (length pre) + length l)%nat = length (pre ++ x :: l).
Proof. split; [by rewrite <- !app_assoc; cbn; rewrite <- app_assoc|rewrite length_app; cbn; lia]. Qed.

Lemma parse_labels_wire ls fuel pre post :
  Forall wire_label ls → (length ls < fuel)%nat →
  parse_labels fuel (length pre) (pre ++ name_wire ls ++ post) =
    Some (map (map to_lower) ls, length pre + length (name_wire ls))%nat.
Proof.
  intros Hls. revert fuel pre. induction Hls as [|l ls Hl Hls IH]; intros fuel pre Hf.
  { destruct fuel as [|fuel]; [cbn in Hf; lia|]. cbn [parse_labels]. change (name_wire [] ++ post) with (x00 :: post).
    rewrite lookup_at. cbn [mbind option_bind]. change (Byte.to_N x00 =? 0) with true. cbn iota.
    do 2 f_equal. change (length (name_wire [])) with 1%nat. lia. }
  destruct fuel as [|fuel]; [cbn in Hf; lia|]. cbn [length] in Hf. rewrite name_wire_cons.
  destruct (label_step l Hl) as (E0 & Ep & En). cbn [parse_labels app]. rewrite lookup_at. cbn [mbind option_bind].
  rewrite E0, Ep, En. cbn iota.
  rewrite (get_range_at (pre ++ [byte_of_N (blen l)]) l (name_wire ls ++ post))
    by (rewrite ?length_app; cbn; rewrite <- ?app_assoc; cbn; done || lia).
  cbn [mbind option_bind]. destruct Hl as [Hlen ->].
  rewrite (proj2 (Nat.leb_le 1 (length l))), (proj2 (Nat.leb_le (length l) 63)) by lia. cbn [andb negb orb].
  destruct (extend_pre pre l (name_wire ls) post (byte_of_N (blen l))) as [E1 E2]. cbn [app] in E1. rewrite E1, E2.
  rewrite IH by lia. cbn. do 2 f_equal. rewrite <- E2, length_app. lia.
Qed.

Lemma parse_labels_inv fuel i b ls j :
  parse_labels fuel i b = Some (ls, j) → (i ≤ length b)%nat →
  ∃ raw pre post, b = pre ++ name_wire raw ++ post ∧ length pre = i ∧ j = (i + length (name_wire raw))%nat ∧
    ls = map (map to_lower) raw ∧ Forall wire_label raw.
Proof.
  revert i ls j. induction fuel as [|fuel IH]; intros i ls j; [done|]. cbn [parse_labels].
  destruct (b !! i) as [len|] eqn:Ei; [|done]. cbn [mbind option_bind]. intros E Hi.
  destruct (N.eqb_spec (Byte.to_N len) 0) as [E0|Hn].
  { injection E as <- <-. exists [], (take i b), (drop (S i) b). rewrite length_take.
    assert (len = x00) as -> by (by apply byte_to_N_inj).
    split_and!; [by rewrite <- (take_drop_middle b i x00 Ei) at 1|lia| |done|done].
    change (length (name_wire [])) with 1%nat. lia. }
  destruct (is_pointer len); [done|]. set (n := N.to_nat (Byte.to_N len)) in *.
  destruct (get_range _ _ _) as [lab|] eqn:Eg; [|done]. cbn [mbind option_bind] in E.
  destruct (_ || _) eqn:El; [done|]. apply orb_false_iff in El as [El1 El2].
  apply negb_false_iff, andb_true_iff in El1 as [El1%Nat.leb_le El3%Nat.leb_le]. apply negb_false_iff in El2.
  destruct (parse_labels fuel _ _) as [[ls' j']|] eqn:Er; [|done]. cbn in E. injection E as <- <-.
  apply get_range_Some in Eg as (Eb & Elen & Hle); [|lia].
  destruct (IH _ _ _ Er) as (raw & pre & post & Eb' & Epre & -> & -> & Hraw); [done|].
  assert (take (S i) b = take i b ++ [len]) as Et by (apply take_S_r; done).
  assert (length lab = n) as Eln by lia.
  assert (len = byte_of_N (blen lab)) as Elb.
  { unfold blen. rewrite Eln. unfold n. rewrite N2Nat.id. by rewrite byte_of_N_to_N. }
  exists (lab :: raw), (take i b), post. rewrite length_take. split_and!; [|lia| |done|].
  - rewrite name_wire_cons, <- Elb. assert (take (S i + n) b = take i b ++ len :: lab) as Ep.
    { apply (app_inv_tail (drop (S i + n) b)). rewrite take_drop. rewrite Eb at 1. rewrite Et, <- !app_assoc. done. }
    assert (pre = take (S i + n) b) as Epre'.
    { assert (S i + n = length pre)%nat as -> by lia. rewrite Eb'. symmetry. apply take_app_length. }
    rewrite Eb' at 1. rewrite Epre', Ep, <- !app_assoc. cbn. by rewrite <- ?app_assoc.
  - rewrite name_wire_cons. cbn [length]. rewrite length_app. lia.
  - constructor; [|done]. split; [lia|done].
Qed.

Lemma skip_name_wire ls fuel pre post :
  Forall wire_label ls → (length ls < fuel)%nat →
  skip_name fuel (length pre) (pre ++ name_wire ls ++ post) = Some (length pre + length (name_wire ls))%nat.
Proof.
  intros Hls. revert fuel pre. induction Hls as [|l ls Hl Hls IH]; intros [|fuel] pre Hf; try (cbn in Hf; lia).
  { change (name_wire [] ++ post) with (x00 :: post). cbn [skip_name]. rewrite lookup_at. cbn. f_equal. lia. }
  cbn [length] in Hf. rewrite name_wire_cons. destruct (label_step l Hl) as (E0 & Ep & En).
  cbn [skip_name app]. rewrite lookup_at. cbn [mbind option_bind]. rewrite E0, Ep, En. cbn iota.
  destruct (extend_pre pre l (name_wire ls) post (byte_of_N (blen l))) as [E1 E2]. cbn [app] in E1. rewrite E1, E2.
  rewrite IH by lia. f_equal. rewrite <- E2. cbn [length]. rewrite length_app. lia.
Qed.

Lemma skip_labels_wire ls fuel pre post :
  Forall wire_label ls → (length ls < fuel)%nat →
  S (skip_labels fuel (length pre) (pre ++ name_wire ls ++ post)) = (length pre + length (name_wire ls))%nat.
Proof.
  intros Hls. revert fuel pre. induction Hls as [|l ls Hl Hls IH]; intros [|fuel] pre Hf; try (cbn in Hf; lia).
  { change (name_wire [] ++ post) with (x00 :: post). cbn [skip_labels]. rewrite lookup_at. cbn. lia. }
  cbn [length] in Hf. rewrite name_wire_cons. destruct (label_step l Hl) as (E0 & Ep & En).
  cbn [skip_labels app]. rewrite lookup_at, E0, En.
  destruct (extend_pre pre l (name_wire ls) post (byte_of_N (blen l))) as [E1 E2]. cbn [app] in E1. rewrite E1, E2.
  rewrite IH by lia. rewrite <- E2. cbn [length]. rewrite length_app. lia.
Qed.

(** ** Queries *)

(** A question: name, type, class. *)
Definition question_wire (raw : list (list byte)) (qtype : N) : list byte :=
  name_wire raw ++ be_bytes 2 qtype ++ be_bytes 2 CLASS_IN.

(** The packets [parse_query] reads. *)
Record packet (b : list byte) (q : Query) (raw : list (list byte)) (hd post : list byte) : Prop := {
  pk_bytes : b = hd ++ question_wire raw (q_qtype q) ++ post;
  pk_header : length hd = 12%nat;
  pk_id : q_id q = be_val (slice 0 2 b);
  pk_rd : q_rd q = N.testbit (be_val (slice 2 4 b)) 8;
  pk_query : N.testbit (be_val (slice 2 4 b)) 15 = false;
  pk_one : be_val (slice 4 6 b) = 1;
  pk_labels : Forall wire_label raw;
  pk_count : (2 ≤ length raw ≤ 16)%nat;
  pk_name : q_name q = join_dot (map (map to_lower) raw);
  pk_qtype : q_qtype q < 2 ^ 16 }.

Lemma be_val_2 l : length l = 2%nat → be_bytes 2 (be_val l) = l ∧ be_val l < 2 ^ 16.
Proof.
  intros El. split; [by apply be_bytes_be_val_n|]. unfold be_val. pose proof (le_val_lt (reverse l)) as Hl.
  by rewrite length_reverse, El in Hl.
Qed.

Lemma parse_query_inv b q : parse_query b = Some q → ∃ raw hd post, packet b q raw hd post.
Proof.
  unfold parse_query. destruct (Nat.ltb_spec (length b) 12) as [|Hlen]; [done|].
  destruct (N.testbit _ 15) eqn:Eq; [done|]. destruct (N.eqb_spec (be_val (slice 4 6 b)) 1) as [E1|]; [|done]. cbn [negb].
  destruct (parse_labels _ _ _) as [[ls i]|] eqn:Ep; [|done]. cbn [mbind option_bind].
  apply parse_labels_inv in Ep as (raw & pre & post & Eb & Epre & -> & -> & Hraw); [|done].
  rewrite length_map. destruct (_ || _) eqn:Ec; [done|].
  apply orb_false_iff in Ec as [Ec1%Nat.ltb_ge Ec2%Nat.ltb_ge].
  destruct (get_range _ (_ + 2) b) as [ty|] eqn:Et; [|done]. destruct (get_range _ (_ + 4) b) as [cl|] eqn:Ecl; [|done].
  cbn. destruct (N.eqb_spec (be_val cl) CLASS_IN) as [Ecc|]; [|done]. cbn. intros [= <-].
  apply get_range_Some in Et as (Eb1 & El1 & Hl1); [|lia]. apply get_range_Some in Ecl as (Eb2 & El2 & Hl2); [|lia].
  set (i := (12 + length (name_wire raw))%nat) in *.
  destruct (be_val_2 ty) as [Ety Hty]; [lia|]. destruct (be_val_2 cl) as [Ecl' _]; [lia|]. rewrite Ecc in Ecl'.
  exists raw, pre, (drop (i + 4) b). split; cbn [q_id q_rd q_name q_qtype]; try done.
  unfold question_wire. rewrite Ety, Ecl', <- !app_assoc.
  assert (take i b = pre ++ name_wire raw) as Ei.
  { rewrite Eb, app_assoc. unfold i. rewrite <- Epre, <- length_app. apply take_app_length. }
  assert (take (i + 2) b = pre ++ name_wire raw ++ ty) as Ei2.
  { apply (app_inv_tail (drop (i + 2) b)). rewrite take_drop. rewrite Eb1 at 1. by rewrite Ei, <- !app_assoc. }
  rewrite Eb2 at 1. by rewrite Ei2, <- !app_assoc.
Qed.

Lemma packet_question b q raw hd post : packet b q raw hd post → question_bytes b = Some (question_wire raw (q_qtype q)).
Proof.
  intros [Eb Eh _ _ _ _ Hl _ _ _]. unfold question_bytes. rewrite Eb at 2.
  unfold question_wire at 1. rewrite <- !app_assoc, <- Eh. rewrite skip_name_wire; [|done|].
  - cbn [mbind option_bind]. apply (get_range_at hd _ post); [done|done|].
    unfold question_wire. rewrite !length_app, !length_be_bytes. lia.
  - pose proof (length_name_wire raw). rewrite Eb. unfold question_wire. rewrite !length_app. lia.
Qed.

(** Conversely, such a packet is read. *)
Lemma parse_query_packet b q raw hd post : packet b q raw hd post → parse_query b = Some q.
Proof.
  intros Hp. destruct Hp as [Eb Eh Ei Erd Eq E1 Hl Hc En Ht]. unfold parse_query.
  assert (length b = (12 + (length (name_wire raw) + 4 + length post)))%nat as Elen.
  { rewrite Eb. unfold question_wire. rewrite !length_app, !length_be_bytes. lia. }
  rewrite (proj2 (Nat.ltb_ge _ _)), Eq, E1 by lia. cbn [negb N.eqb Pos.eqb].
  assert (parse_labels (length b) 12 b = Some (map (map to_lower) raw, 12 + length (name_wire raw)))%nat as ->.
  { rewrite Elen. rewrite Eb. unfold question_wire. rewrite <- app_assoc, <- Eh. apply parse_labels_wire; [done|].
    pose proof (length_name_wire raw). lia. }
  cbn [mbind option_bind]. rewrite length_map.
  rewrite (proj2 (Nat.ltb_ge (length raw) 2)), (proj2 (Nat.ltb_ge 16 (length raw))) by lia. cbn [orb].
  assert (∀ pre l post', b = (hd ++ name_wire raw ++ pre) ++ l ++ post' →
    get_range (12 + length (name_wire raw) + length pre) (12 + length (name_wire raw) + length pre + length l) b = Some l) as Hg.
  { intros pre l post' E. apply (get_range_at (hd ++ name_wire raw ++ pre) l post'); [done| |done].
    rewrite !length_app. lia. }
  pose proof (Hg [] (be_bytes 2 (q_qtype q)) (be_bytes 2 CLASS_IN ++ post)) as Hg1.
  pose proof (Hg (be_bytes 2 (q_qtype q)) (be_bytes 2 CLASS_IN) post) as Hg2.
  rewrite (length_be_bytes 2 (q_qtype q)) in Hg1, Hg2. rewrite (length_be_bytes 2 CLASS_IN) in Hg2. cbn [length] in Hg1. rewrite Nat.add_0_r in Hg1.
  replace (12 + length (name_wire raw) + 4)%nat with (12 + length (name_wire raw) + 2 + 2)%nat by lia.
  rewrite Hg1, Hg2.
  2,3: rewrite Eb at 1; unfold question_wire; by rewrite <- ?app_assoc.
  cbn [fmap option_fmap option_map mbind option_bind]. change (be_val (be_bytes 2 CLASS_IN) =? CLASS_IN) with true.
  cbn [negb]. rewrite be_val_be_bytes, N.mod_small by done. rewrite <- Ei, <- En, <- Erd. by destruct q.
Qed.

(** ** Answers *)

Record answer_ok (a : WireAnswer) : Prop := {
  ao_type : an_type a < 2 ^ 16;
  ao_ttl : an_ttl a < 2 ^ 32;
  ao_rdata : blen (an_rdata a) ≤ 65535 }.

(** An answer as the fallback parser reads it: the TTL is clamped. *)
Definition clamped (a : WireAnswer) : WireAnswer := mkAnswer (an_type a) (N.min (an_ttl a) MAX_FALLBACK_TTL) (an_rdata a).

Lemma length_answer qname a : length (answer_bytes qname a) = (length qname + 10 + length (an_rdata a))%nat.
Proof. unfold answer_bytes. rewrite !length_app, !length_be_bytes. lia. Qed.

Lemma take_answers_wire raw kept pre post :
  Forall wire_label raw → Forall answer_ok kept →
  take_answers (length kept) (length pre) (pre ++ concat (map (answer_bytes (name_wire raw)) kept) ++ post) =
    Some (map clamped kept).
Proof.
  intros Hraw Hk. revert pre. induction Hk as [|a kept Ha Hk IH]; intros pre; [done|]. cbn [length take_answers map concat].
  rewrite <- app_assoc. set (b := pre ++ answer_bytes (name_wire raw) a ++ _).
  set (more := concat (map (answer_bytes (name_wire raw)) kept) ++ post) in *.
  assert (b = pre ++ name_wire raw ++ (be_bytes 2 (an_type a) ++ be_bytes 2 CLASS_IN ++ be_bytes 4 (an_ttl a) ++
    be_bytes 2 (N.min (blen (an_rdata a)) 65535) ++ an_rdata a ++ more)) as Eb.
  { unfold b, answer_bytes. by rewrite <- !app_assoc. }
  assert (S (skip_labels (length b) (length pre) b) = length pre + length (name_wire raw))%nat as Es.
  { rewrite Eb at 2. apply skip_labels_wire; [done|]. pose proof (length_name_wire raw). rewrite Eb, !length_app. lia. }
  rewrite Es. set (i := (length pre + length (name_wire raw))%nat).
  assert (∀ p l post', b = (pre ++ name_wire raw ++ p) ++ l ++ post' → get_range (i + length p) (i + length p + length l) b = Some l)
    as Hg.
  { intros p l post' E. apply (get_range_at (pre ++ name_wire raw ++ p) l post'); [done| |done]. unfold i. rewrite !length_app. lia. }
  assert (N.to_nat (N.min (blen (an_rdata a)) 65535) = length (an_rdata a)) as Emin.
  { destruct Ha as [_ _ Hl]. unfold blen in *. lia. }
  pose proof (Hg [] (be_bytes 2 (an_type a)) (be_bytes 2 CLASS_IN ++ be_bytes 4 (an_ttl a) ++
    be_bytes 2 (N.min (blen (an_rdata a)) 65535) ++ an_rdata a ++ more)) as H1.
  pose proof (Hg (be_bytes 2 (an_type a) ++ be_bytes 2 CLASS_IN) (be_bytes 4 (an_ttl a))
    (be_bytes 2 (N.min (blen (an_rdata a)) 65535) ++ an_rdata a ++ more)) as H2.
  pose proof (Hg (be_bytes 2 (an_type a) ++ be_bytes 2 CLASS_IN ++ be_bytes 4 (an_ttl a))
    (be_bytes 2 (N.min (blen (an_rdata a)) 65535)) (an_rdata a ++ more)) as H3.
  pose proof (Hg (be_bytes 2 (an_type a) ++ be_bytes 2 CLASS_IN ++ be_bytes 4 (an_ttl a) ++
    be_bytes 2 (N.min (blen (an_rdata a)) 65535)) (an_rdata a) more) as H4.
  clear Hg. revert H1 H2 H3 H4. rewrite !length_app, !length_be_bytes, Eb. cbn [length]. rewrite <- Eb.
  replace (i + (2 + 2))%nat with (i + 4)%nat by lia. replace (i + 4 + 4)%nat with (i + 8)%nat by lia.
  replace (i + (2 + (2 + 4)))%nat with (i + 8)%nat by lia. replace (i + (2 + (2 + (4 + 2))))%nat with (i + 10)%nat by lia.
  replace (i + 8 + 2)%nat with (i + 10)%nat by lia. rewrite Nat.add_0_r.
  intros H1 H2 H3 H4. rewrite H1, H2, H3 by (by rewrite <- !app_assoc). cbn [fmap option_fmap option_map mbind option_bind].
  rewrite !be_val_be_bytes. destruct Ha as [Ht Hl Hr].
  rewrite (N.mod_small (an_type a)), (N.mod_small (an_ttl a)), (N.mod_small (N.min _ _)) by (done || (unfold blen in *; lia)).
  rewrite Emin, H4 by (by rewrite <- !app_assoc). cbn [mbind option_bind].
  assert (i + 10 + length (an_rdata a) = length (pre ++ answer_bytes (name_wire raw) a))%nat as ->.
  { rewrite length_app, length_answer. unfold i. lia. }
  unfold b. rewrite app_assoc. unfold more. rewrite IH. done.
Qed.

(** ** Responses *)

Lemma fitting_spec qname budget used answers :
  ∃ rest, answers = fitting budget used qname answers ++ rest ∧
    let size := blen (concat (map (answer_bytes qname) (fitting budget used qname answers))) in
    (used ≤ budget → used + size ≤ budget) ∧
    (∀ a rest', rest = a :: rest' → budget < used + size + blen (answer_bytes qname a)).
Proof.
  revert used. induction answers as [|a answers IH]; intros used; cbn [fitting].
  { exists []. unfold blen. cbn [map concat length]. split_and!; [done|lia|done]. }
  assert (blen (answer_bytes qname a) = blen qname + 10 + blen (an_rdata a)) as Ea.
  { unfold blen. rewrite length_answer. lia. }
  destruct (N.ltb_spec budget (used + (blen qname + 10 + blen (an_rdata a)))) as [Hlt|Hge].
  - exists (a :: answers). unfold blen in *. cbn [map concat length]. split_and!; [done|lia|].
    intros a' rest' [= -> ->]. lia.
  - destruct (IH (used + (blen qname + 10 + blen (an_rdata a)))) as (rest & E & H1 & H2). exists rest. cbn [app map concat].
    split_and!; [by rewrite E at 1| |]; unfold blen in *; rewrite length_app; [lia|].
    intros a' rest' Er. specialize (H2 a' rest' Er). lia.
Qed.

Lemma length_header id flags n : length (header_bytes id flags n) = 12%nat.
Proof. unfold header_bytes. by rewrite !length_app, !length_be_bytes. Qed.

(** The fields of a header. *)
Lemma header_fields id flags n l :
  id < 2 ^ 16 → flags < 2 ^ 16 → n < 2 ^ 16 →
  be_val (slice 0 2 (header_bytes id flags n ++ l)) = id ∧ be_val (slice 2 4 (header_bytes id flags n ++ l)) = flags ∧
  be_val (slice 4 6 (header_bytes id flags n ++ l)) = 1 ∧ be_val (slice 6 8 (header_bytes id flags n ++ l)) = n.
Proof.
  intros H1 H2 H3.
  assert (∀ v, be_bytes 2 v = [byte_of_N (v / 256); byte_of_N v]) as Hb by done.
  assert (∀ v, v < 2 ^ 16 → be_val [byte_of_N (v / 256); byte_of_N v] = v) as Hv.
  { intros v Hv. rewrite <- Hb, be_val_be_bytes. by apply N.mod_small. }
  unfold header_bytes. rewrite !Hb. unfold slice. cbn [app take drop Nat.sub].
  split_and!; [apply (Hv id H1)|apply (Hv flags H2)|reflexivity|apply (Hv n H3)].
Qed.

Lemma response_flags_lt rd aa tc rcode : rcode < 16 → response_flags rd aa tc rcode < 2 ^ 16.
Proof.
  intros Hr. apply N.ltb_lt. revert rcode Hr.
  apply (forall_below 16 (λ rcode, response_flags rd aa tc rcode <? 2 ^ 16)). by destruct rd, aa, tc.
Qed.

(** The bits of the flags. *)
Lemma response_flags_bits rd aa tc rcode : rcode < 16 →
  let f := response_flags rd aa tc rcode in
  N.testbit f 15 = true ∧ N.testbit f 10 = aa ∧ N.testbit f 9 = tc ∧ N.testbit f 8 = rd ∧ f mod 16 = rcode.
Proof.
  intros Hr. cbv zeta.
  pose proof (forall_below 16 (λ rcode, let f := response_flags rd aa tc rcode in
    N.testbit f 15 && Bool.eqb (N.testbit f 10) aa && Bool.eqb (N.testbit f 9) tc && Bool.eqb (N.testbit f 8) rd &&
    (f mod 16 =? rcode))) as Hall. cbv zeta in Hall.
  specialize (Hall ltac:(by destruct rd, aa, tc) rcode Hr). rewrite !andb_true_iff, !eqb_true_iff, N.eqb_eq in Hall. tauto.
Qed.
