(* ===== verification/DnsProps.v ===== *)
(** * Properties of the DNS server *)

From S2P Require Import Prelude Bytes Names Icann Codec Records Hex Dns DnsProofs.

(** ** Responses *)

Lemma question_name raw qtype :
  take (length (question_wire raw qtype) - 4) (question_wire raw qtype) = name_wire raw.
Proof.
  unfold question_wire. rewrite !length_app, !length_be_bytes.
  replace (length (name_wire raw) + (2 + 2) - 4)%nat with (length (name_wire raw)) by lia. apply take_app_length.
Qed.

Lemma packet_long data q raw hd post : packet data q raw hd post → (12 ≤ length data)%nat.
Proof. intros Hp. rewrite (pk_bytes _ _ _ _ _ Hp), length_app, (pk_header _ _ _ _ _ Hp). lia. Qed.

Lemma be_val_first2 b : (12 ≤ length b)%nat → be_bytes 2 (be_val (slice 0 2 b)) = take 2 b ∧ be_val (slice 0 2 b) < 2 ^ 16.
Proof. intros Hl. unfold slice. rewrite drop_0, Nat.sub_0_r. apply be_val_2. rewrite length_take. lia. Qed.

(** The bit QR, in the third byte. *)
Lemma header_qr id flags n l : flags < 2 ^ 16 →
  N.testbit (be_val (slice 2 3 (header_bytes id flags n ++ l))) 7 = N.testbit flags 15.
Proof.
  intros Hf. unfold header_bytes. change (be_bytes 2 id) with [byte_of_N (id / 256); byte_of_N id].
  change (be_bytes 2 flags) with [byte_of_N (flags / 256); byte_of_N flags].
  change (slice 2 3 _) with [byte_of_N (flags / 256)]. unfold be_val.
  change (le_val (reverse [byte_of_N (flags / 256)])) with (Byte.to_N (byte_of_N (flags / 256)) + 256 * 0).
  rewrite byte_to_N_of_N, N.mul_0_r, N.add_0_r, N.mod_small.
  - by rewrite <- (N.shiftr_div_pow2 _ 8), N.shiftr_spec'.
  - apply N.Div0.div_lt_upper_bound. lia.
Qed.

(** What a response carries, cut to the budget. *)
Lemma response_shape data q raw hd post answers rcode aa budget :
  packet data q raw hd post →
  ∃ rest,
    let kept := fitting budget (12 + blen (question_wire raw (q_qtype q))) (name_wire raw) answers in
    answers = kept ++ rest ∧
    build_response_bounded q data answers rcode aa budget =
      header_bytes (q_id q) (response_flags (q_rd q) aa (negb (bool_decide (rest = []))) rcode) (N.of_nat (length kept)) ++
      question_wire raw (q_qtype q) ++ concat (map (answer_bytes (name_wire raw)) kept) ∧
    (12 + blen (question_wire raw (q_qtype q)) ≤ budget →
      blen (build_response_bounded q data answers rcode aa budget) ≤ budget) ∧
    (∀ a rest', rest = a :: rest' → budget <
      blen (build_response_bounded q data answers rcode aa budget) + blen (answer_bytes (name_wire raw) a)).
Proof.
  intros Hp. unfold build_response_bounded. rewrite (packet_question _ _ _ _ _ Hp).
  rewrite question_name.
  destruct (fitting_spec (name_wire raw) budget (12 + blen (question_wire raw (q_qtype q))) answers) as (rest & E & H1 & H2).
  exists rest. cbv zeta. set (kept := fitting _ _ _ _) in *.
  assert ((length kept <? length answers)%nat = negb (bool_decide (rest = []))) as ->.
  { rewrite E at 1. rewrite length_app. destruct rest as [|a rest]; cbn [length].
    - rewrite bool_decide_eq_true_2 by done. apply Nat.ltb_ge. lia.
    - rewrite bool_decide_eq_false_2 by done. apply Nat.ltb_lt. lia. }
  split_and!; [done|done| |]; unfold blen in *; rewrite !length_app, length_header; [lia|].
  intros a rest' Er. specialize (H2 a rest' Er). lia.
Qed.

(** C35. A response reads back: the parser of upstream replies finds in it
    the longest prefix of the answers that fits the budget, with their
    types, data and clamped TTLs; it matches the query it answers, and
    would not be taken for a query.  AA, RD and the rcode are what the
    caller says, TC is set exactly when answers were left out, the budget
    is kept if the question alone fits, and no further answer would
    fit. *)
Theorem response_readable data q answers rcode aa budget :
  parse_query data = Some q → Forall answer_ok answers → N.of_nat (length answers) < 2 ^ 16 → rcode < 16 →
  ∃ question kept rest,
    let out := build_response_bounded q data answers rcode aa budget in
    let flags := be_val (slice 2 4 out) in
    question_bytes data = Some question ∧ answers = kept ++ rest ∧
    extract_answers out = Some (map clamped kept, foldl N.max 0 (map an_ttl (map clamped kept))) ∧
    reply_matches out (take 2 data) question = true ∧ parse_query out = None ∧
    N.testbit flags 10 = aa ∧ N.testbit flags 8 = q_rd q ∧ flags mod 16 = rcode ∧
    (N.testbit flags 9 = true ↔ rest ≠ []) ∧
    (12 + blen question ≤ budget → blen out ≤ budget) ∧
    (∀ a rest', rest = a :: rest' →
      budget < blen out + blen (answer_bytes (take (length question - 4) question) a)).
Proof.
  intros (raw & hd & post & Hp)%parse_query_inv Hok Hn Hr. pose proof (packet_question _ _ _ _ _ Hp) as Eq.
  destruct (response_shape data q raw hd post answers rcode aa budget Hp) as (rest & E & Eout & Hb & Hmax).
  set (kept := fitting _ _ _ _) in *. exists (question_wire raw (q_qtype q)), kept, rest. cbv zeta.
  set (out := build_response_bounded q data answers rcode aa budget) in *.
  set (fl := response_flags (q_rd q) aa (negb (bool_decide (rest = []))) rcode) in *.
  set (tail := question_wire raw (q_qtype q) ++ concat (map (answer_bytes (name_wire raw)) kept)) in *.
  destruct (be_val_first2 data) as [Etx Hid]; [by eapply packet_long|]. rewrite <- (pk_id _ _ _ _ _ Hp) in Etx, Hid.
  assert (N.of_nat (length kept) < 2 ^ 16) as Hkn by (rewrite E, length_app in Hn; lia).
  destruct (header_fields (q_id q) fl (N.of_nat (length kept)) tail Hid (response_flags_lt _ _ _ _ Hr) Hkn)
    as (F0 & F2 & F4 & F6). rewrite <- Eout in F0, F2, F4, F6.
  destruct (response_flags_bits (q_rd q) aa (negb (bool_decide (rest = []))) rcode Hr) as (B15 & B10 & B9 & B8 & Brc).
  fold fl in B15, B10, B9, B8, Brc. rewrite F2.
  assert (12 ≤ length out)%nat as Hlen by (rewrite Eout, length_app, length_header; lia).
  assert (out = (header_bytes (q_id q) fl (N.of_nat (length kept)) ++ name_wire raw ++ be_bytes 2 (q_qtype q) ++
    be_bytes 2 CLASS_IN) ++ concat (map (answer_bytes (name_wire raw)) kept) ++ []) as Eout'.
  { rewrite Eout. unfold tail, question_wire. by rewrite app_nil_r, <- !app_assoc. }
  split_and!; [done|done| | | |done|done|done| |done|by rewrite question_name].
  - unfold extract_answers. rewrite (proj2 (Nat.ltb_ge _ _)) by done. rewrite F6, Nat2N.id.
    assert (skip_labels (length out) 12 out + 5 = length (header_bytes (q_id q) fl (N.of_nat (length kept)) ++ name_wire raw ++
      be_bytes 2 (q_qtype q) ++ be_bytes 2 CLASS_IN))%nat as ->.
    { assert (S (skip_labels (length out) 12 out) = 12 + length (name_wire raw))%nat as Es.
      { rewrite Eout at 2. unfold tail, question_wire. rewrite <- !app_assoc, <- (length_header (q_id q) fl (N.of_nat (length kept))).
        apply skip_labels_wire; [apply Hp|]. pose proof (length_name_wire raw).
        rewrite Eout, length_app. unfold tail, question_wire. rewrite !length_app. lia. }
      rewrite !length_app, length_header, !length_be_bytes. lia. }
    rewrite Eout' at 1. rewrite take_answers_wire; [done|apply Hp|]. rewrite E in Hok. by apply Forall_app in Hok as [? _].
  - unfold reply_matches. rewrite (proj2 (Nat.leb_le _ _)) by done. cbn [andb].
    assert (take 2 out = take 2 data) as ->.
    { destruct (be_val_first2 out Hlen) as [Eo _]. by rewrite <- Eo, F0. }
    rewrite bool_decide_eq_true_2 by done. cbn [andb]. rewrite andb_true_iff. split.
    + rewrite Eout, header_qr; [done|by apply response_flags_lt].
    + apply bool_decide_eq_true_2. apply (get_range_at (header_bytes (q_id q) fl (N.of_nat (length kept))) _
        (concat (map (answer_bytes (name_wire raw)) kept))); [done|by rewrite length_header|done].
  - unfold parse_query. rewrite (proj2 (Nat.ltb_ge _ _)), F2, B15 by done. done.
  - rewrite B9, negb_true_iff, bool_decide_eq_false. done.
Qed.

(** ** Queries *)

(** What a client sends for a name. *)
Definition query_packet (id : N) (rd : bool) (name : list byte) (qtype : N) : list byte :=
  be_bytes 2 id ++ be_bytes 2 (if rd then 0x0100 else 0) ++ be_bytes 2 1 ++ be_bytes 6 0 ++
  encode_name name ++ be_bytes 2 qtype ++ be_bytes 2 CLASS_IN.

Lemma candidate_byte_wire b : label_byte b || byte_eqb b UNDERSCORE = true → wire_label_byte b = true ∧ to_lower b = b.
Proof.
  unfold label_byte, wire_label_byte, to_lower. intros Hb. split.
  { revert Hb. rewrite !orb_true_iff. tauto. }
  destruct (is_ascii_uppercase b) eqn:Eu; [exfalso|done]. revert Hb. unfold is_ascii_uppercase in Eu.
  rewrite andb_true_iff, !N.leb_le in Eu. unfold is_ascii_lowercase, is_ascii_digit, byte_eqb.
  rewrite !orb_true_iff, !andb_true_iff, !N.leb_le, !bool_decide_eq_true.
  intros [[[?|?]| ->]| ->]; [lia|lia|by destruct Eu|by destruct Eu as [_ []]].
Qed.

Lemma candidate_label_wire l : candidate_label l = true → wire_label l ∧ map to_lower l = l.
Proof.
  unfold candidate_label. rewrite !andb_true_iff, !Nat.leb_le, forallb_forall. intros ((((H1 & H2) & _) & _) & H3).
  split.
  - split; [done|]. apply forallb_forall. intros b Hb. by apply candidate_byte_wire, H3.
  - rewrite <- (map_id l) at 2. apply map_ext_in. intros b Hb. by apply candidate_byte_wire, H3.
Qed.

Lemma scone_candidate_labels name : scone_candidate name = true →
  Forall wire_label (split_dot name) ∧ map (map to_lower) (split_dot name) = split_dot name ∧
  (2 ≤ length (split_dot name))%nat ∧ (length name ≤ 253)%nat.
Proof.
  unfold scone_candidate. rewrite !andb_true_iff, !Nat.leb_le, forallb_forall. intros (((H1 & H2) & H3) & _).
  split_and!; [| |done|done].
  - apply Forall_forall. intros l Hl%list_elem_of_In. by apply candidate_label_wire, H1.
  - rewrite <- (map_id (split_dot name)) at 2. apply map_ext_in. intros l Hl. by apply candidate_label_wire, H1.
Qed.

Lemma join_last_not_dot ls : Forall wire_label ls → ls ≠ [] → last (join_dot ls) ≠ Some DOT ∧ join_dot ls ≠ [].
Proof.
  induction 1 as [|l ls Hl Hls IH]; [done|]. intros _. destruct Hl as [Hlen Hb]. destruct ls as [|l' ls].
  - change (join_dot [l]) with l. split; [|by destruct l; cbn in Hlen; [lia|]].
    intros E. apply last_Some_elem_of, list_elem_of_In in E. rewrite forallb_forall in Hb. by specialize (Hb _ E).
  - destruct IH as [IH1 IH2]; [done|]. change (join_dot (l :: l' :: ls)) with (l ++ DOT :: join_dot (l' :: ls)).
    destruct (join_dot (l' :: ls)) as [|b bs] eqn:E; [done|]. split; [|by destruct l].
    rewrite last_app. change (last (DOT :: b :: bs)) with (last (b :: bs)). destruct (last (b :: bs)) eqn:El; [done|].
    by apply last_None in El.
Qed.

Lemma trim_end_dots_id s : last s ≠ Some DOT → trim_end_dots s = s.
Proof.
  unfold trim_end_dots. intros Hs. destruct (reverse s) as [|b r] eqn:E.
  { apply (f_equal reverse) in E. by rewrite reverse_involutive in E. }
  assert (byte_eqb b DOT = false) as ->.
  { apply bool_decide_eq_false. intros ->. apply Hs. apply (f_equal reverse) in E. rewrite reverse_involutive in E.
    rewrite E, reverse_cons. apply last_snoc. }
  rewrite <- E. apply reverse_involutive.
Qed.

Lemma encode_name_wire name : scone_candidate name = true → encode_name name = name_wire (split_dot name).
Proof.
  intros Hc. destruct (scone_candidate_labels name Hc) as (Hl & _ & Hn & _). unfold encode_name, name_wire.
  rewrite trim_end_dots_id.
  - f_equal. f_equal. apply map_ext_in. intros l Hin%list_elem_of_In. rewrite Forall_forall in Hl.
    destruct (Hl l Hin) as [Hlen _]. unfold blen. rewrite (proj2 (N.leb_le _ 255)) by lia. done.
  - rewrite <- (join_split_dot name). apply join_last_not_dot; [done|]. intros E. rewrite E in Hn. cbn in Hn. lia.
Qed.

(** The query of a name is read as that name: for every name the
    server answers itself, of at most 16 labels, the packet a client
    builds with [encode_name] parses to that name, type, identifier and
    RD bit; upper-case letters on the wire do not matter. *)
Theorem query_read id rd name qtype :
  scone_candidate name = true → (length (split_dot name) ≤ 16)%nat → id < 2 ^ 16 → qtype < 2 ^ 16 →
  parse_query (query_packet id rd name qtype) = Some (mkQuery id rd name qtype).
Proof.
  intros Hc Hn Hid Hq. destruct (scone_candidate_labels name Hc) as (Hl & Hlow & H2 & _).
  apply (parse_query_packet _ _ (split_dot name) (be_bytes 2 id ++ be_bytes 2 (if rd then 0x0100 else 0) ++ be_bytes 2 1 ++ be_bytes 6 0) []).
  assert (∀ v, v < 2 ^ 16 → be_val (be_bytes 2 v) = v) as Hv.
  { intros v Hv. rewrite be_val_be_bytes. by apply N.mod_small. }
  split; cbn [q_id q_rd q_name q_qtype]; try done.
  - unfold query_packet, question_wire. rewrite (encode_name_wire name Hc). by rewrite app_nil_r, <- !app_assoc.
  - symmetry. apply (Hv id Hid).
  - change (slice 2 4 _) with (be_bytes 2 (if rd then 0x0100 else 0)). rewrite Hv by (by destruct rd). by destruct rd.
  - change (slice 2 4 _) with (be_bytes 2 (if rd then 0x0100 else 0)). rewrite Hv by (by destruct rd). by destruct rd.
  - by rewrite Hlow, join_split_dot.
Qed.

(** The question of a name the server answers fits any transport. *)
Lemma candidate_question data q raw hd post :
  packet data q raw hd post → scone_candidate (q_name q) = true →
  raw ≠ [] → blen (question_wire raw (q_qtype q)) ≤ 259.
Proof.
  intros Hp Hc Hraw. destruct (scone_candidate_labels _ Hc) as (_ & _ & _ & Hlen).
  rewrite (pk_name _ _ _ _ _ Hp) in Hlen.
  assert (length (name_wire raw) = length (join_dot (map (map to_lower) raw)) + 2)%nat as En.
  { pose proof (pk_labels _ _ _ _ _ Hp) as _. clear -Hraw. induction raw as [|l raw IH]; [done|]. rewrite name_wire_cons.
    destruct raw as [|l' raw].
    - change (join_dot (map (map to_lower) [l])) with (map to_lower l). cbn [length]. rewrite length_app, length_map.
      change (length (name_wire [])) with 1%nat. lia.
    - change (join_dot (map (map to_lower) (l :: l' :: raw)))
        with (map to_lower l ++ DOT :: join_dot (map (map to_lower) (l' :: raw))).
      cbn [length]. rewrite !length_app, length_map. cbn [length]. rewrite IH by done. lia. }
  unfold question_wire, blen. rewrite !length_app, !length_be_bytes. lia.
Qed.

(** ** The cache *)

(** The order lists the cached keys, once each. *)
Record cache_ok (c : Cache) : Prop := {
  ch_nodup : NoDup (ca_order c);
  ch_keys k : k ∈ ca_order c ↔ is_Some (ca_entries c !! k);
  ch_size : (size (ca_entries c) ≤ ca_capacity c)%nat;
  ch_room : (1 ≤ ca_capacity c)%nat }.

Lemma with_bounds_ok capacity ttl_cap : cache_ok (Cache_with_bounds capacity ttl_cap).
Proof.
  split; cbn; [constructor| |rewrite map_size_empty; lia|lia].
  intros k. rewrite lookup_empty. split; [by intros ?%not_elem_of_nil|by intros []].
Qed.

Lemma cache_evict_spec (order : list CacheKey) (capacity : nat) (entries : gmap CacheKey (CacheEntry * N)) :
  NoDup order → (∀ k, k ∈ order ↔ is_Some (entries !! k)) →
  let '(order', entries') := cache_evict order capacity entries in
  NoDup order' ∧ (∀ k, k ∈ order' ↔ is_Some (entries' !! k)) ∧ (size entries' ≤ capacity)%nat ∧ entries' ⊆ entries ∧
  (∃ gone, order = gone ++ order' ∧ (gone ≠ [] → (capacity < size entries)%nat) ∧
    (length gone ≤ size entries - capacity)%nat ∧
    ∀ k, k ∉ gone → entries' !! k = entries !! k).
Proof.
  revert entries. induction order as [|old order IH]; intros entries Hn Hk; cbn [cache_evict].
  - destruct (Nat.ltb_spec capacity (size entries)) as [Hlt|Hge].
    + exfalso. destruct (map_choose entries) as (k & v & Ek).
      { intros ->. rewrite map_size_empty in Hlt. lia. }
      by apply (not_elem_of_nil k), Hk; eexists.
    + split_and!; [done..|]. exists []. split_and!; [done|done|cbn; lia|done].
  - destruct (Nat.ltb_spec capacity (size entries)) as [Hlt|Hge].
    2:{ split_and!; [done..|]. exists []. split_and!; [done|done|cbn; lia|done]. }
    apply NoDup_cons in Hn as [Ho Hn]. destruct (proj1 (Hk old)) as [v Ev]; [by left|].
    specialize (IH (delete old entries) Hn).
    assert (∀ k, k ∈ order ↔ is_Some (delete old entries !! k)) as Hk'.
    { intros k. destruct (decide (k = old)) as [->|Hne].
      - rewrite lookup_delete_eq. split; [done|by intros []].
      - rewrite lookup_delete_ne by done. rewrite <- Hk, elem_of_cons. naive_solver. }
    specialize (IH Hk'). destruct (cache_evict order capacity (delete old entries)) as [order' entries'].
    destruct IH as (H1 & H2 & H3 & H4 & gone & -> & H5 & H6 & H7).
    pose proof (map_size_delete_Some old entries (mk_is_Some _ _ Ev)) as Hsz.
    split_and!; [done..|by etrans; [exact H4|apply delete_subseteq]|].
    exists (old :: gone). split_and!; [done|done|cbn; lia|].
    intros k [Hne Hg]%not_elem_of_cons. by rewrite H7, lookup_delete_ne.
Qed.

(** What putting [key] throws out: nothing when the key is there or the
    cache has room, and otherwise the oldest key. *)
Definition evicted (key : CacheKey) (c : Cache) : list CacheKey :=
  if bool_decide (is_Some (ca_entries c !! key)) then []
  else if bool_decide (size (ca_entries c) = ca_capacity c) then take 1 (ca_order c) else [].

(** Putting [v] under [key], first in, first out: a key that is there
    keeps its place, a new one comes last, after the oldest one has left a
    cache that is full; no other entry changes. *)
Record fifo_put (key : CacheKey) (v : CacheEntry * N) (c c' : Cache) : Prop := {
  fp_capacity : ca_capacity c' = ca_capacity c;
  fp_ttl_cap : ca_ttl_cap c' = ca_ttl_cap c;
  fp_order : ca_order c' = if bool_decide (is_Some (ca_entries c !! key)) then ca_order c
                           else drop (length (evicted key c)) (ca_order c) ++ [key];
  fp_entry : ca_entries c' !! key = Some v;
  fp_evicted k : k ∈ evicted key c → ca_entries c' !! k = None;
  fp_kept k : k ≠ key → k ∉ evicted key c → ca_entries c' !! k = ca_entries c !! k }.

Lemma cache_size c : cache_ok c → size (ca_entries c) = length (ca_order c).
Proof.
  intros [Hn Hk _ _]. rewrite <- (size_dom (D := gset CacheKey)), <- (size_list_to_set (C := gset CacheKey)) by exact Hn.
  f_equal. apply set_eq. intros k. by rewrite elem_of_dom, elem_of_list_to_set, Hk.
Qed.

(** What the loop takes out of the order, for a key that comes last. *)
Lemma evicted_gone key c order' gone :
  cache_ok c → ca_entries c !! key = None → ca_order c ++ [key] = gone ++ order' →
  (length gone ≤ 1)%nat → (gone ≠ [] ↔ size (ca_entries c) = ca_capacity c) →
  gone = evicted key c ∧ order' = drop (length (evicted key c)) (ca_order c) ++ [key].
Proof.
  intros Hc Ek Eo Hl Hg. pose proof (cache_size c Hc) as Hs. pose proof (ch_room c Hc) as Hr. unfold evicted.
  rewrite bool_decide_eq_false_2 by (rewrite Ek; by intros []). case_bool_decide as Hfull.
  - destruct (ca_order c) as [|o os]; [cbn in *; lia|]. destruct gone as [|g [|]]; [by destruct (proj2 Hg Hfull)|by simplify_eq/=|cbn in Hl; lia].
  - destruct gone; [by simplify_eq/=|]. by destruct Hfull; apply Hg.
Qed.

Lemma not_evicted key c : cache_ok c → key ∉ evicted key c.
Proof.
  intros [_ Hk _ _]. unfold evicted. case_bool_decide as Hin; [apply not_elem_of_nil|].
  case_bool_decide; [|apply not_elem_of_nil]. intros Hkey. apply Hin, Hk. rewrite <- (take_drop 1 (ca_order c)). apply elem_of_app. by left.
Qed.

Lemma cache_put_spec now name qtype e c :
  cache_ok c →
  cache_ok (cache_put now name qtype e c) ∧ fifo_put (name, qtype) (e, now) c (cache_put now name qtype e c).
Proof.
  intros Hc. pose proof Hc as [Hn Hk Hs Hr]. unfold cache_put. set (key := (name, qtype)).
  set (order := if bool_decide _ then _ else _).
  assert (NoDup order ∧ (∀ k, k ∈ order ↔ is_Some (<[key := (e, now)]> (ca_entries c) !! k))) as [Ho1 Ho2].
  { unfold order. case_bool_decide as Hin; split.
    - done.
    - intros k. rewrite lookup_insert_is_Some', Hk. naive_solver.
    - apply NoDup_app. split_and!; [done| |apply NoDup_singleton]. intros k Hi ->%list_elem_of_singleton. by apply Hin, Hk.
    - intros k. rewrite elem_of_app, list_elem_of_singleton, lookup_insert_is_Some', Hk. naive_solver. }
  pose proof (cache_evict_spec order (ca_capacity c) _ Ho1 Ho2) as Hev.
  destruct (cache_evict _ _ _) as [order' entries'] eqn:Ec. destruct Hev as (H1 & H2 & H3 & _ & gone & Eo & Hg & Hgl & Hrest).
  assert (gone = evicted key c ∧
    order' = if bool_decide (is_Some (ca_entries c !! key)) then ca_order c
             else drop (length (evicted key c)) (ca_order c) ++ [key]) as [Eg Eo'].
  { unfold order in Eo. destruct (ca_entries c !! key) as [x|] eqn:Ekey.
    - rewrite (map_size_insert_Some key (e, now) (ca_entries c) (mk_is_Some _ _ Ekey)) in *.
      destruct gone; [|cbn in Hgl; lia]. unfold evicted. rewrite Ekey. by rewrite bool_decide_eq_true_2 in * by done.
    - rewrite (map_size_insert_None key (e, now) (ca_entries c) Ekey) in *.
      rewrite bool_decide_eq_false_2 in * by (by intros []). apply evicted_gone; [done..|lia|]. split; [intros Hne%Hg; lia|].
      intros Hfull ->. assert (entries' = <[key := (e, now)]> (ca_entries c)) as ->.
      { apply map_eq. intros k. apply Hrest, not_elem_of_nil. }
      rewrite (map_size_insert_None key (e, now) (ca_entries c) Ekey) in H3. lia. }
  assert (∀ k, k ∈ gone → entries' !! k = None) as Hgone.
  { intros k Hin. apply eq_None_not_Some. rewrite <- H2. rewrite Eo in Ho1. apply NoDup_app in Ho1 as (_ & Hd & _). by apply Hd. }
  rewrite Eg in Hrest, Hgone. split; [by split|]. split; [done..| |exact Hgone|].
  - cbn. rewrite Hrest by by apply not_evicted. apply lookup_insert_eq.
  - intros k Hne Hk'. cbn. by rewrite Hrest, lookup_insert_ne.
Qed.

(** ** The server *)

Notation Resolver := (list byte → result unit (option Resolved)).

(** The cache of a server, with the instants and the resolvers of the
    packets it has handled, the last one first. *)
Inductive served : list (N * Resolver) → Cache → Prop :=
| served_new capacity ttl_cap : served [] (Cache_with_bounds capacity ttl_cap)
| served_packet h c (resolver : Resolver) now later data upstreams budget :
    served h c →
    served ((later, resolver) :: h) (handle_packet_transport resolver now later data upstreams c budget).1.

(** Where a cached entry comes from. *)
Record entry_ok (h : list (N * Resolver)) (k : CacheKey) (e : CacheEntry) (t : N) : Prop := {
  eo_rcode : cacheable (ce_rcode e) = true;
  eo_candidate : ce_authoritative e = scone_candidate k.1;
  eo_chain : ce_authoritative e = true → ce_ttl e = ANSWER_TTL ∧
    ∃ resolver, (t, resolver) ∈ h ∧
      ∀ q, q_name q = k.1 → q_qtype q = k.2 → authoritative resolver q = (ce_answers e, ce_rcode e) }.

Lemma entry_ok_more x h k e t : entry_ok h k e t → entry_ok (x :: h) k e t.
Proof.
  intros [H1 H2 H3]. split; [done..|]. intros Ha. destruct (H3 Ha) as (Et & res & Hin & Hq). split; [done|].
  exists res. split; [by right|done].
Qed.

Lemma search_apex_ext resolver q q' labels : q_qtype q = q_qtype q' → search_apex resolver q labels = search_apex resolver q' labels.
Proof.
  intros Eq. induction labels as [|l labels IH]; [done|]. cbn [search_apex]. destruct labels as [|l' labels]; [done|].
  destruct (resolver _) as [[r|]|]; [|exact IH|done]. unfold select_answers. by rewrite Eq.
Qed.

Lemma authoritative_ext resolver q q' :
  q_name q = q_name q' → q_qtype q = q_qtype q' → authoritative resolver q = authoritative resolver q'.
Proof. intros En Eq. unfold authoritative. rewrite En. by apply search_apex_ext. Qed.

Definition entries_ok (h : list (N * Resolver)) (c : Cache) : Prop :=
  cache_ok c ∧ ∀ k e t, ca_entries c !! k = Some (e, t) → entry_ok h k e t.

Lemma entries_ok_more x h c : entries_ok h c → entries_ok (x :: h) c.
Proof. intros [H1 H2]. split; [done|]. intros k e t E. by apply entry_ok_more, H2. Qed.

Lemma entries_ok_put h c t name qtype e :
  entries_ok h c → entry_ok h (name, qtype) e t → entries_ok h (cache_put t name qtype e c).
Proof.
  intros [Hc He] Hn. destruct (cache_put_spec t name qtype e c Hc) as (Hc' & [_ _ _ Ek Hout Hkept]). split; [done|].
  intros k e' t' E. destruct (decide (k = (name, qtype))) as [->|Hne].
  - rewrite Ek in E. by injection E as <- <-.
  - destruct (decide (k ∈ evicted (name, qtype) c)) as [Hin|Hni]; [by rewrite (Hout k Hin) in E|].
    rewrite (Hkept k Hne Hni) in E. by apply He.
Qed.

Lemma pass_through_ok h c later q data resp budget :
  entries_ok h c → scone_candidate (q_name q) = false → entries_ok h (pass_through later q data resp c budget).1.
Proof.
  intros Hc Hn. unfold pass_through. set (rc := match resp !! 3%nat with Some _ => _ | None => _ end).
  assert (entries_ok h match (if cacheable rc then extract_answers resp else None) with
    | Some (ans, ttl) => cache_put later (q_name q) (q_qtype q) (mkCacheEntry ans rc (N.min ttl MAX_FALLBACK_TTL) false) c
    | None => c end) as Hok.
  { destruct (cacheable rc) eqn:Er; [|done]. destruct (extract_answers resp) as [[ans ttl]|]; [|done].
    apply entries_ok_put; [done|]. by split. }
  destruct (blen resp <=? budget); [done|]. by destruct (if cacheable rc then _ else _) as [[ans ttl]|].
Qed.

Lemma handle_ok h c (resolver : Resolver) now later data upstreams budget :
  entries_ok h c → entries_ok ((later, resolver) :: h) (handle_packet_transport resolver now later data upstreams c budget).1.
Proof.
  intros Hc%(entries_ok_more (later, resolver)). unfold handle_packet_transport.
  destruct (parse_query data) as [q|]; [|done]. destruct (cache_get _ _ _ _) as [e|]; [done|].
  destruct (scone_candidate (q_name q)) eqn:Ec.
  - destruct (authoritative resolver q) as [answers rcode] eqn:Ea. cbn [fst]. destruct (cacheable rcode) eqn:Er; [|done].
    apply entries_ok_put; [done|]. split; [done|done|]. intros _. split; [done|]. exists resolver. split; [by left|].
    intros q' En Eq. cbn in *. rewrite <- Ea. by apply authoritative_ext.
  - destruct upstreams as [|u us]; [done|]. destruct (forward data (u :: us)) as [resp|]; [|done].
    pose proof (pass_through_ok _ _ later q data resp budget Hc Ec) as Hp. by destruct (pass_through _ _ _ _ _ _).
Qed.

Lemma served_ok h c : served h c → entries_ok h c.
Proof.
  induction 1 as [capacity ttl_cap|h c resolver now later data upstreams budget _ IH]; [|by apply handle_ok].
  split; [apply with_bounds_ok|]. intros k e t. cbn. by rewrite lookup_empty.
Qed.

Lemma first_reply_elem upstreams txid question resp :
  first_reply upstreams txid question = Some resp → Some resp ∈ upstreams ∧ reply_matches resp txid question = true.
Proof.
  induction upstreams as [|[buf|] ups IH]; cbn [first_reply]; [done| |].
  - destruct (reply_matches buf txid question) eqn:E; [|done]. intros [= ->]. split; [by left|done].
  - intros E%IH. split; [right; apply E|apply E].
Qed.

(** C34. Where answers come from.  At any time of a server's life, a query
    for a name it answers itself gets what the longest-suffix search
    finds in the chain now, or what it found less than a minute ago, with
    the AA bit except on a SERVFAIL, which is never repeated from the
    cache.  Any other query never gets the AA bit from the server: the
    response is built without it, or is the reply of an upstream that
    matches the query, unchanged. *)
Theorem answer_provenance h c (resolver : Resolver) now later data upstreams budget q :
  served h c → parse_query data = Some q →
  let out := (handle_packet_transport resolver now later data upstreams c budget).2 in
  if scone_candidate (q_name q) then
    ∃ t res, ((t, res) = (later, resolver) ∨
              (t, res) ∈ h ∧ (now - t) / 1000 < 60 ∧ cacheable (authoritative res q).2 = true) ∧
      out = Some (build_response_bounded q data (authoritative res q).1 (authoritative res q).2
                    (cacheable (authoritative res q).2) budget)
  else
    (∃ answers rcode, out = Some (build_response_bounded q data answers rcode false budget)) ∨
    (∃ resp question, out = Some resp ∧ Some resp ∈ upstreams ∧ question_bytes data = Some question ∧
      reply_matches resp (take 2 data) question = true ∧ blen resp ≤ budget).
Proof.
  intros [Hc He]%served_ok Eq. cbv zeta. unfold handle_packet_transport. rewrite Eq.
  destruct (cache_get now (q_name q) (q_qtype q) c) as [e|] eqn:Eg.
  - unfold cache_get in Eg. destruct (ca_entries c !! (q_name q, q_qtype q)) as [[e' t]|] eqn:Ek; [|done]. cbn in Eg.
    destruct (N.leb_spec (N.max (N.min (ce_ttl e') (ca_ttl_cap c)) 1) ((now - t) / 1000)) as [|Hlt]; [done|]. injection Eg as ->.
    destruct (He _ _ _ Ek) as [Hr Hcand Hch]. cbn [fst snd] in *. rewrite <- Hcand.
    destruct (ce_authoritative e) eqn:Ea; [|by left; eauto].
    destruct (Hch eq_refl) as (Ett & res & Hin & Ha). exists t, res. rewrite (Ha q eq_refl eq_refl). cbn [fst snd].
    rewrite Hr. split; [|done]. right. split_and!; [done| |done]. rewrite Ett in Hlt. unfold ANSWER_TTL in Hlt. lia.
  - destruct (scone_candidate (q_name q)).
    + exists later, resolver. split; [by left|]. by destruct (authoritative resolver q).
    + destruct upstreams as [|u us]; [left; by eauto|]. destruct (forward data (u :: us)) as [resp|] eqn:Ef; [|left; by eauto].
      unfold forward in Ef. destruct (question_bytes data) as [question|] eqn:Eqq; [|done]. cbn [mbind option_bind] in Ef.
      apply first_reply_elem in Ef as [Hin Hm]. unfold pass_through.
      destruct (N.leb_spec (blen resp) budget) as [Hle|]; [right; by exists resp, question|].
      left. destruct (if cacheable _ then _ else _) as [[ans ttl]|]; by eauto.
Qed.

(** One packet leaves the cache as it is or puts the answer to its query
    in it. *)
Lemma handle_puts c (resolver : Resolver) now later data upstreams budget :
  cache_ok c →
  let c' := (handle_packet_transport resolver now later data upstreams c budget).1 in
  c' = c ∨ ∃ q e, parse_query data = Some q ∧ cache_get now (q_name q) (q_qtype q) c = None ∧ cacheable (ce_rcode e) = true ∧
    fifo_put (q_name q, q_qtype q) (e, later) c c'.
Proof.
  intros Hc. cbv zeta. unfold handle_packet_transport. destruct (parse_query data) as [q|] eqn:Eq; [|by left].
  destruct (cache_get _ _ _ _) as [e|] eqn:Eg; [by left|].
  assert (∀ e, cacheable (ce_rcode e) = true →
    ∃ q0 e0, Some q = Some q0 ∧ cache_get now (q_name q0) (q_qtype q0) c = None ∧ cacheable (ce_rcode e0) = true ∧
      fifo_put (q_name q0, q_qtype q0) (e0, later) c (cache_put later (q_name q) (q_qtype q) e c)) as Hput.
  { intros e He. exists q, e. split_and!; [done..|]. by apply cache_put_spec. }
  destruct (scone_candidate (q_name q)).
  - destruct (authoritative resolver q) as [answers rcode]. cbn [fst].
    destruct (cacheable rcode) eqn:Er; [right; by apply Hput|by left].
  - destruct upstreams as [|u us]; [by left|]. destruct (forward data (u :: us)) as [resp|]; [|by left].
    unfold pass_through. set (rc := match resp !! 3%nat with Some _ => _ | None => _ end). destruct (cacheable rc) eqn:Er.
    + destruct (extract_answers resp) as [[ans ttl]|]; [|left; by destruct (_ <=? _)].
      destruct (_ <=? _); right; by apply Hput.
    + left. by destruct (_ <=? _).
Qed.

(** C36. The cache is bounded, first in, first out.  However many packets
    arrive, it holds at most its capacity, each key once, and never a
    SERVFAIL or a REFUSED.  A packet changes it in one way only: its query
    was not answered from it, the answer is put under the query's name and
    type with the time, a key that was there keeps its place in the order,
    a new one comes last, and the oldest key — nothing else — leaves a
    cache that is full. *)
Theorem cache_bounded h c :
  served h c →
  cache_ok c ∧ (cache_len c ≤ ca_capacity c)%nat ∧
  (∀ k e t, ca_entries c !! k = Some (e, t) → ce_rcode e = RCODE_NOERROR ∨ ce_rcode e = RCODE_NXDOMAIN) ∧
  ∀ (resolver : Resolver) now later data upstreams budget,
    let c' := (handle_packet_transport resolver now later data upstreams c budget).1 in
    c' = c ∨ ∃ q e, parse_query data = Some q ∧ cache_get now (q_name q) (q_qtype q) c = None ∧ cacheable (ce_rcode e) = true ∧
      fifo_put (q_name q, q_qtype q) (e, later) c c'.
Proof.
  intros [Hc He]%served_ok. split_and!; [done|apply Hc| |intros; by apply handle_puts]. intros k e t E. destruct (He k e t E) as [Hr _ _].
  unfold cacheable in Hr. by rewrite orb_true_iff, !N.eqb_eq in Hr.
Qed.

(** The suffixes of at least two labels, the longest first; what the
    search does is settled by the first one that is registered, or that
    the resolver fails on. *)
Fixpoint apexes (labels : list (list byte)) : list (list (list byte)) :=
  match labels with
  | _ :: ((_ :: _) as parent) => labels :: apexes parent
  | _ => []
  end.
Definition settled (r : result unit (option Resolved)) : bool := match r with Ok None => false | _ => true end.

Lemma search_apex_find resolver q labels :
  search_apex resolver q labels =
    match List.find (λ apex, settled (resolver (join_dot apex))) (apexes labels) with
    | Some apex =>
        match resolver (join_dot apex) with
        | Ok (Some resolved) => (select_answers q resolved, RCODE_NOERROR)
        | _ => ([], RCODE_SERVFAIL)
        end
    | None => ([], RCODE_NXDOMAIN)
    end.
Proof.
  induction labels as [|l labels IH]; [done|]. cbn [search_apex apexes]. destruct labels as [|l' labels]; [done|].
  cbn [List.find]. destruct (resolver (join_dot (l :: l' :: labels))) as [[r|]|] eqn:Er; cbn [settled];
    [by rewrite Er|exact IH|by rewrite Er].
Qed.

(** ** Candidates and domain names *)

Definition has_underscore (name : list byte) : bool := existsb (byte_eqb UNDERSCORE) name.

Lemma candidate_label_ldh l :
  candidate_label l = true → is_ok (check_label l) = negb (has_underscore l).
Proof.
  unfold candidate_label. rewrite !andb_true_iff, !Nat.leb_le. intros ((((H1 & H2) & H3) & H4) & H5).
  unfold check_label, is_ldh. rewrite (proj2 (Nat.eqb_neq _ _)) by lia.
  unfold DomainName_MAX_LABEL_LEN. rewrite (proj2 (Nat.ltb_ge _ _)) by lia. rewrite H3, H4. cbn [andb].
  assert (forallb label_byte l = negb (has_underscore l)) as ->; [|by destruct (has_underscore l)].
  clear -H5. induction l as [|b l IH]; [done|]. cbn [forallb has_underscore existsb] in *.
  apply andb_true_iff in H5 as [Hb Hl]. rewrite (IH Hl). unfold has_underscore.
  destruct (byte_eqb UNDERSCORE b) eqn:Eb; cbn [orb negb].
  - apply bool_decide_eq_true in Eb as <-. done.
  - destruct (label_byte b); [done|]. cbn in Hb. unfold byte_eqb in *. apply bool_decide_eq_true in Hb as ->.
    by rewrite bool_decide_eq_true_2 in Eb.
Qed.

Lemma has_underscore_join ls : has_underscore (join_dot ls) = existsb has_underscore ls.
Proof.
  induction ls as [|l ls IH]; [done|]. destruct ls as [|l' ls].
  - change (join_dot [l]) with l. cbn [existsb]. by rewrite orb_false_r.
  - change (join_dot (l :: l' :: ls)) with (l ++ DOT :: join_dot (l' :: ls)). unfold has_underscore at 1.
    rewrite existsb_app. cbn [existsb]. change (byte_eqb UNDERSCORE DOT) with false. cbn [orb]. f_equal. exact IH.
Qed.

Lemma check_labels_candidates ls :
  forallb candidate_label ls = true → is_ok (check_labels ls) = negb (existsb has_underscore ls).
Proof.
  induction ls as [|l ls IH]; [done|]. cbn [forallb existsb check_labels]. intros [Hl Hls]%andb_true_iff.
  pose proof (candidate_label_ldh l Hl) as El. destruct (check_label l) as [u|e]; cbn [rbind is_ok] in *.
  - rewrite (IH Hls), negb_orb, <- El. done.
  - rewrite negb_orb, <- El. done.
Qed.

(** A name the server answers itself is a domain name unless it has an
    underscore. *)
Lemma candidate_domain name : scone_candidate name = true → is_ok (DomainName_new name) = negb (has_underscore name).
Proof.
  unfold scone_candidate. rewrite !andb_true_iff, !Nat.leb_le. intros (((H1 & H2) & H3) & H4).
  rewrite <- (join_split_dot name) at 2. rewrite has_underscore_join.
  unfold DomainName_new, DomainName_validate. destruct (Nat.eqb_spec (length name) 0) as [E|_].
  { apply nil_length_inv in E. subst name. cbn in H3. lia. }
  rewrite (proj2 (Nat.ltb_ge _ _)) by done. unfold split_last. destruct (reverse (split_dot name)) as [|tld r] eqn:Er.
  { apply (f_equal length) in Er. rewrite length_reverse in Er. cbn in Er. lia. }
  assert (split_dot name = reverse r ++ [tld]) as Es by (rewrite <- (reverse_involutive (split_dot name)), Er; apply reverse_cons).
  rewrite Es in *. rewrite last_snoc in H4. rewrite forallb_app, andb_true_iff in H1. destruct H1 as [H1 H1'].
  rewrite existsb_app. cbn [existsb forallb] in *. rewrite andb_true_r in H1'. rewrite !andb_true_iff in H4. destruct H4 as [[_ H4] _].
  rewrite length_app in H3. cbn [length] in H3. rewrite (proj2 (Nat.eqb_neq _ _)) by lia.
  assert (has_underscore tld = false) as Ht.
  { apply not_true_iff_false. intros Hu. unfold has_underscore in Hu. apply existsb_exists in Hu as (b & Hb & Eb).
    rewrite forallb_forall in H4. specialize (H4 b Hb). apply bool_decide_eq_true in Eb as <-. done. }
  pose proof (candidate_label_ldh tld H1') as El. rewrite Ht in El. cbn [orb negb] in *. rewrite Ht. cbn [orb]. rewrite orb_false_r.
  assert (TldName_validate tld = Ok tt) as ->.
  { unfold check_label in El. unfold TldName_validate. unfold TldName_MAX_LEN, DomainName_MAX_LABEL_LEN in *.
    destruct (length tld =? 0)%nat; [done|]. destruct (63 <? length tld)%nat; [done|]. by destruct (is_ldh tld). }
  cbn [rbind]. rewrite <- (check_labels_candidates (reverse r) H1). by destruct (check_labels (reverse r)).
Qed.
