(* ===== verification/DnsScenario.v ===== *)
(** * The DNS server on concrete packets

    Witnesses of the properties, and three packets that it does not
    handle as documented. *)

From S2P Require Import Prelude Bytes Names Icann Codec Records Hex Dns DnsProofs DnsProps.

Definition no_apex (_ : list byte) : result unit (option Resolved) := Ok None.

Definition example_com : list byte := ascii "example.com".
Definition app_scone : list byte := ascii "app.scone".

(** One address, at [app.scone]. *)
Definition one_apex (name : list byte) : result unit (option Resolved) :=
  if bool_decide (name = app_scone) then Ok (Some (mkResolved [(TYPE_A, [x01; x02; x03; x04])] true)) else Ok None.

Definition www_query : list byte := query_packet 7 true (ascii "www.app.scone") TYPE_A.
Definition fresh_cache : Cache := Cache_with_bounds 10 MAX_FALLBACK_TTL.

Example www_answer :
  extract_answers (default [] (handle_packet_transport one_apex 0 0 www_query [] fresh_cache UDP_PAYLOAD_LIMIT).2) =
    Some ([mkAnswer TYPE_A 60 [x01; x02; x03; x04]], 60).
Proof. vm_compute. reflexivity. Qed.

Lemma response_readable_witness :
  ∃ question kept rest,
    question_bytes www_query = Some question ∧ [mkAnswer TYPE_A 60 [x01; x02; x03; x04]] = kept ++ rest ∧
    blen (build_response_bounded (mkQuery 7 true (ascii "www.app.scone") TYPE_A) www_query
      [mkAnswer TYPE_A 60 [x01; x02; x03; x04]] 0 true 512) ≤ 512.
Proof.
  destruct (response_readable www_query (mkQuery 7 true (ascii "www.app.scone") TYPE_A)
    [mkAnswer TYPE_A 60 [x01; x02; x03; x04]] 0 true 512) as (question & kept & rest & H).
  - vm_compute. reflexivity.
  - constructor; [|constructor]. split; done.
  - done.
  - done.
  - exists question, kept, rest. cbv zeta in H. destruct H as (H1 & H2 & _ & _ & _ & _ & _ & _ & _ & H3 & _).
    split; [exact H1|]. split; [exact H2|]. apply H3.
    assert (question_bytes www_query = Some (take 19 (drop 12 www_query))) as E by (vm_compute; reflexivity).
    rewrite E in H1. injection H1 as <-. vm_compute. done.
Defined.

Lemma query_read_witness :
  scone_candidate (ascii "_sip.app.scone") = true ∧
  parse_query (query_packet 9 false (ascii "_sip.app.scone") TYPE_TXT) = Some (mkQuery 9 false (ascii "_sip.app.scone") TYPE_TXT).
Proof.
  split; [vm_compute; reflexivity|]. apply (query_read 9 false (ascii "_sip.app.scone") TYPE_TXT);
    [vm_compute; reflexivity|apply Nat.leb_le; vm_compute; reflexivity|done|done].
Defined.

Lemma answer_provenance_witness :
  ∃ t res, ((t, res) = (0, one_apex) ∨ (t, res) ∈ [] ∧ (0 - t) / 1000 < 60 ∧
      cacheable (authoritative res (mkQuery 7 true (ascii "www.app.scone") TYPE_A)).2 = true) ∧
    (handle_packet_transport one_apex 0 0 www_query [] fresh_cache UDP_PAYLOAD_LIMIT).2 =
      Some (build_response_bounded (mkQuery 7 true (ascii "www.app.scone") TYPE_A) www_query
        (authoritative res (mkQuery 7 true (ascii "www.app.scone") TYPE_A)).1
        (authoritative res (mkQuery 7 true (ascii "www.app.scone") TYPE_A)).2
        (cacheable (authoritative res (mkQuery 7 true (ascii "www.app.scone") TYPE_A)).2) UDP_PAYLOAD_LIMIT).
Proof.
  assert (scone_candidate (q_name (mkQuery 7 true (ascii "www.app.scone") TYPE_A)) = true) as E by (vm_compute; reflexivity).
  pose proof (answer_provenance [] fresh_cache one_apex 0 0 www_query [] UDP_PAYLOAD_LIMIT
    (mkQuery 7 true (ascii "www.app.scone") TYPE_A) (served_new 10 MAX_FALLBACK_TTL) ltac:(vm_compute; reflexivity)) as H.
  cbv zeta in H. rewrite E in H. exact H.
Defined.

(** A cache with room for one answer, after a query and after another. *)
Definition mail_query : list byte := query_packet 8 true (ascii "mail.app.scone") TYPE_A.
Definition one_answer : Cache :=
  (handle_packet_transport one_apex 0 0 www_query [] (Cache_with_bounds 1 MAX_FALLBACK_TTL) UDP_PAYLOAD_LIMIT).1.
Definition next_answer : Cache := (handle_packet_transport one_apex 5 6 mail_query [] one_answer UDP_PAYLOAD_LIMIT).1.

Lemma cache_bounded_witness :
  ca_order one_answer = [(ascii "www.app.scone", TYPE_A)] ∧ ca_order next_answer = [(ascii "mail.app.scone", TYPE_A)] ∧
  (cache_len one_answer ≤ ca_capacity one_answer)%nat ∧
  (next_answer = one_answer ∨ ∃ q e, parse_query mail_query = Some q ∧
    cache_get 5 (q_name q) (q_qtype q) one_answer = None ∧ cacheable (ce_rcode e) = true ∧
    fifo_put (q_name q, q_qtype q) (e, 6) one_answer next_answer).
Proof.
  destruct (cache_bounded [(0, one_apex)] one_answer) as (_ & Hl & _ & Hf); [apply served_packet, served_new|].
  split; [vm_compute; reflexivity|]. split; [vm_compute; reflexivity|]. split; [exact Hl|].
  exact (Hf one_apex 5 6 mail_query [] UDP_PAYLOAD_LIMIT).
Defined.

(** ** A compressed reply *)

(** The reply of an upstream to a TXT query for [example.com]: one TXT
    record, whose owner name is a pointer to the question. *)
Definition txt_query : list byte := query_packet 7 true example_com TYPE_TXT.
Definition txt_rdata : list byte :=
  xfe :: replicate 180 x61 ++
  [x00; x00; x01; x00; x01; x00; x00; x02; x58; x00; x04; x06; x06; x06; x06] ++ replicate 59 x61.
Definition txt_reply : list byte :=
  header_bytes 7 0x8180 1 ++ drop 12 txt_query ++
  [xc0; x0c] ++ be_bytes 2 TYPE_TXT ++ be_bytes 2 CLASS_IN ++ be_bytes 4 300 ++ be_bytes 2 (blen txt_rdata) ++ txt_rdata.

(** A compressed reply poisons the cache.  The parser of upstream
    replies skips a compression pointer as if it were a label of 192
    bytes: the reply to a TXT query, passed through unchanged, is cached
    as an address that its sender placed inside the text, and the next
    client is answered with that. *)
Theorem compressed_reply_misread :
  let '(c, first) := handle_packet_transport no_apex 0 0 txt_query [Some txt_reply] fresh_cache UDP_PAYLOAD_LIMIT in
  let '(_, second) := handle_packet_transport no_apex 1000 1000 txt_query [] c UDP_PAYLOAD_LIMIT in
  first = Some txt_reply ∧
  (extract_answers <$> second) = Some (Some ([mkAnswer TYPE_A 600 [x06; x06; x06; x06]], 600)).
Proof. vm_compute. split; reflexivity. Qed.

(** ** The AA bit of an upstream *)

(** The same reply, from a server that is authoritative for it. *)
Definition aa_reply : list byte := header_bytes 7 0x8580 0 ++ drop 12 txt_query.

(** An upstream's AA bit reaches the client. *)
Theorem upstream_aa_passed :
  let out := (handle_packet_transport no_apex 0 0 txt_query [Some aa_reply] fresh_cache UDP_PAYLOAD_LIMIT).2 in
  (λ b, N.testbit (be_val (slice 2 4 b)) 10) <$> out = Some true.
Proof. vm_compute. reflexivity. Qed.

(** ** A long question *)

Definition long_name : list byte := join_dot (replicate 16 (replicate 63 x61)).
Definition long_query : list byte := query_packet 7 true long_name TYPE_A.

(** The payload limit is not kept for every question: a query of
    sixteen labels of 63 bytes, longer than a name may be, is parsed and
    refused with a response of 1041 bytes, over the 512 of UDP; the
    question is echoed whatever the budget. *)
Theorem oversized_refusal :
  blen <$> (handle_packet_transport no_apex 0 0 long_query [] fresh_cache UDP_PAYLOAD_LIMIT).2 = Some 1041.
Proof. vm_compute. reflexivity. Qed.
