(* ===== verification/Rpc.v ===== *)
(** * The frames of the control RPC ([scone-network]: [rpc.rs])

    One request and one answer per connection, each the text of a JSON
    value in a frame that announces its length.  JSON is third-party: what
    parses and prints it are parameters.  Time limits are left out. *)

From S2P Require Import Prelude Bytes Crypto Names Codec Checkpoint Tx Wire Blocks Chain Store StoreSpec.
From S2P Require Import Records Messages Mempool Anchor Relay.

(** [scone-network/src/rpc.rs:24-24 MAX_RPC_LEN] *)
Definition MAX_RPC_LEN : N := 512 * 1024.

Fixpoint skip_newlines (l : list byte) : list byte :=
  match l with x0a :: r => skip_newlines r | _ => l end.
(** [while buffer.last() == Some(&b'\n') { buffer.pop(); }] *)
Definition pop_newlines (l : list byte) : list byte := rev (skip_newlines (rev l)).

(** [scone-network/src/rpc.rs:98-110 read_message] *)
Definition rpc_read (stream : list byte) : result NetworkError (list byte) :=
  let? (len_bytes, stream) := map_err (λ _, NeIo) (read_exact 4 stream) in
  let len := be_val len_bytes in
  if? MAX_RPC_LEN <? len return NeLimitExceeded "rpc message";
  let? (buffer, _) := map_err (λ _, NeIo) (read_exact (N.to_nat len) stream) in
  let text := pop_newlines buffer in
  if utf8_valid text then Ok text else Err NeInvalidRpc.

(** [scone-network/src/rpc.rs:113-122 write_message]: the bytes written. *)
Definition rpc_write (text : list byte) : result NetworkError (list byte) :=
  if? U32_MAX <? blen text + 1 return NeLimitExceeded "rpc message";
  Ok (be_bytes 4 (blen text + 1) ++ text ++ [x0a]).

Section connection.
Context {Request Response State : Type}.
Context (print_request : Request → option (list byte)) (parse_request : list byte → option Request).
Context (print_response : Response → option (list byte)) (parse_response : list byte → option Response).

(** [scone-network/src/rpc.rs:142-163 serve_connection]: [rejected] is the
    answer to a request that cannot be parsed. *)
Definition serve_connection (rejected : Response) (dispatch : Request → State → State * Response) (stream : list byte) (s : State)
    : State * result NetworkError (list byte) :=
  match rpc_read stream with
  | Err e => (s, Err e)
  | Ok text =>
      let '(s, response) := match parse_request text with Some request => dispatch request s | None => (s, rejected) end in
      (s, let? json := ok_or (print_response response) NeInvalidRpc in rpc_write json)
  end.

(** [scone-network/src/rpc.rs:190-196 RpcClient::request]: what the client
    writes. *)
Definition client_writes (request : Request) : result NetworkError (list byte) :=
  let? json := ok_or (print_request request) NeInvalidRpc in rpc_write json.
(** [scone-network/src/rpc.rs:197-203 RpcClient::request]: what it returns,
    of the answer on the connection. *)
Definition client_reads (stream : list byte) : result NetworkError Response :=
  let? text := rpc_read stream in ok_or (parse_response text) NeInvalidRpc.
End connection.

(** ** Frames *)

Lemma pop_newline text : last text ≠ Some x0a → pop_newlines (text ++ [x0a]) = text.
Proof.
  intros Hl. unfold pop_newlines. rewrite rev_app_distr. cbn [rev app skip_newlines].
  destruct text as [|b text _] using rev_ind; [done|]. rewrite last_snoc in Hl. rewrite rev_app_distr. cbn [rev app].
  assert (∀ l, skip_newlines (b :: l) = b :: l) as -> by (intros l; by destruct b).
  by rewrite <- (rev_involutive (text ++ [b])), rev_app_distr.
Qed.

(** What was written is read, unless it is longer than a frame may be. *)
Lemma rpc_read_written text io :
  rpc_write text = Ok io → utf8_valid text = true → last text ≠ Some x0a →
  rpc_read io = if MAX_RPC_LEN <? blen text + 1 then Err (NeLimitExceeded "rpc message") else Ok text.
Proof.
  unfold rpc_write. destruct (N.ltb_spec U32_MAX (blen text + 1)) as [|Hl]; [done|]. intros <-%Ok_inj Hu Hn. unfold rpc_read.
  assert (read_exact 4 (be_bytes 4 (blen text + 1) ++ text ++ [x0a]) = Ok (be_bytes 4 (blen text + 1), text ++ [x0a])) as ->.
  { rewrite <- (length_be_bytes 4 (blen text + 1)) at 1. apply read_exact_app. }
  cbn [map_err rbind]. rewrite be_val_be_bytes, N.mod_small by (change (256 ^ N.of_nat 4) with 4294967296; unfold U32_MAX in Hl; lia).
  destruct (MAX_RPC_LEN <? blen text + 1); [done|].
  assert (read_exact (N.to_nat (blen text + 1)) (text ++ [x0a]) = Ok (text ++ [x0a], [])) as ->.
  { rewrite <- (app_nil_r (text ++ [x0a])) at 1. replace (N.to_nat (blen text + 1)) with (length (text ++ [x0a])); [apply read_exact_app|].
    rewrite length_app. unfold blen. cbn. lia. }
  cbn [map_err rbind]. by rewrite pop_newline, Hu.
Qed.

(** ** A request and its answer *)

(** What [serde_json] prints: UTF-8, with no newline at its end. *)
Definition json_text (text : list byte) : Prop := utf8_valid text = true ∧ last text ≠ Some x0a.

Lemma rpc_write_total text : blen text < U32_MAX → ∃ io, rpc_write text = Ok io.
Proof. intros Hl. unfold rpc_write. destruct (N.ltb_spec U32_MAX (blen text + 1)); [lia|]. by eexists. Qed.

Section answered.
Context {Request Response State : Type}.
Context (print_request : Request → option (list byte)) (parse_request : list byte → option Request).
Context (print_response : Response → option (list byte)) (parse_response : list byte → option Response).
Context (rejected : Response) (dispatch : Request → State → State * Response).

(** A request that fits a frame is dispatched once, as it was, and the
    client gets its answer — or an error, when the answer is longer than a
    frame, though it was carried out. *)
Theorem request_answered request q s s' response a :
  print_request request = Some q → parse_request q = Some request → json_text q → blen q < MAX_RPC_LEN →
  dispatch request s = (s', response) →
  print_response response = Some a → parse_response a = Some response → json_text a → blen a < U32_MAX →
  ∃ sent answer, client_writes print_request request = Ok sent ∧
    serve_connection parse_request print_response rejected dispatch sent s = (s', Ok answer) ∧
    client_reads parse_response answer = if MAX_RPC_LEN <=? blen a then Err (NeLimitExceeded "rpc message") else Ok response.
Proof.
  intros Eq Pq [Hq Nq] Lq Ed Ea Pa [Ha Na] La.
  destruct (rpc_write_total q) as [sent Es]; [unfold MAX_RPC_LEN, U32_MAX in *; lia|]. destruct (rpc_write_total a La) as [answer Ew].
  exists sent, answer. split_and!.
  - unfold client_writes. by rewrite Eq.
  - unfold serve_connection. rewrite (rpc_read_written q) by done. destruct (N.ltb_spec MAX_RPC_LEN (blen q + 1)); [lia|].
    rewrite Pq, Ed, Ea. cbn [ok_or rbind]. by rewrite Ew.
  - unfold client_reads. rewrite (rpc_read_written a) by done.
    destruct (N.ltb_spec MAX_RPC_LEN (blen a + 1)), (N.leb_spec MAX_RPC_LEN (blen a)); try lia; cbn [rbind]; [done|by rewrite Pa].
Qed.

(** A frame that announces more than its bound, one cut short, or a text
    that is no request leave the state as it was. *)
Theorem bad_request_refused stream s :
  (∀ text request, rpc_read stream = Ok text → parse_request text ≠ Some request) →
  (serve_connection parse_request print_response rejected dispatch stream s).1 = s.
Proof.
  intros Hb. unfold serve_connection. destruct (rpc_read stream) as [text|e]; [|done].
  destruct (parse_request text) as [request|] eqn:E; [|done]. by apply Hb in E.
Qed.
End answered.
