(* ===== verification/RelayProofs.v ===== *)
(** * Lemmas on the relay

    What an event leaves unchanged, how the chain moves, and how the
    store follows it. *)

From S2P Require Import Prelude Bytes Crypto Commitment Smt Names Icann Codec Checkpoint Pow Tx Wire.
From S2P Require Import State StateSpec StateProofs StateProps Blocks BlocksProps Chain ForkChoice ChainProofs ChainProps ForkProps.
From S2P Require Import StateBytes Redb Store StoreSpec StorePaging StoreProofs StoreProps Persist PersistProofs.
From S2P Require Import Restart Mirror Resume RestartProps Signer Records Messages Mempool Anchor Relay Hex Dns RelayRpc.

(** ** What the anchor loop changes *)

Section anchored.
Context `{Crypto} `{Redb} `{!Faults} `{Swarm}.

Definition checkpointed (c c' : Blockchain) : Prop := ∃ cp res, accept_checkpoint c cp = (c', res).

(** Only checkpoints reach the chain, and the rest of the relay keeps its
    state; what was sent stays sent. *)
Record anchored (r r' : Relay) : Prop := {
  an_chain : rtc checkpointed (rl_chain r) (rl_chain r');
  an_store : rl_store r' = rl_store r;
  an_mempool : rl_mempool r' = rl_mempool r;
  an_peers : rl_peers r' = rl_peers r;
  an_sync : rl_sync r' = rl_sync r;
  an_waiters : rl_dht_waiters r' = rl_dht_waiters r;
  an_outbox : rl_outbox r `prefix_of` rl_outbox r' }.

#[export] Instance anchored_preorder : PreOrder anchored.
Proof.
  split.
  - intros r. by split.
  - intros r1 r2 r3 [] []. split; try congruence; [by etrans|by etrans].
Qed.

Lemma emit_anchored out r : anchored r (emit out r).
Proof. split; try done. by exists out. Qed.
Lemma broadcast_anchored m skip r : anchored r (broadcast m skip r).
Proof. apply emit_anchored. Qed.
Lemma signer_anchored a d r : anchored r (with_signer a d r).
Proof. by split. Qed.

Lemma try_propose_anchored o r : anchored r (try_propose_checkpoint o r).
Proof.
  unfold try_propose_checkpoint. destruct (al_anchor _) as [sk|]; [|done]. destruct (_ <? _)%nat; [done|].
  destruct (negb _); [done|]. destruct (propose_checkpoint _) as [d|]; [|done]. destruct (al_guard _) as [g|]; [|done].
  destruct (authorize g sk d o (rl_disk r)) as [[g' disk'] [sig|e]]; [|apply signer_anchored].
  destruct (merge_signatures _ _ _) as [a first]. etrans; [apply signer_anchored|]. etrans; [apply signer_anchored|].
  destruct first; [apply broadcast_anchored|done].
Qed.

Lemma try_finalize_anchored h r : anchored r (try_finalize h r).
Proof.
  unfold try_finalize. destruct (al_pending _ !! h) as [p|]; [|done].
  destruct (check_checkpoint_data _ _) as [u|e]; [|apply signer_anchored].
  destruct (aggregate_if_quorum _ _ _ _) as [cp|]; [|done]. destruct (accept_checkpoint (rl_chain r) cp) as [c res] eqn:E.
  transitivity (on_anchor (drop_pending h) (with_chain c r)).
  - split; try done. apply rtc_once. by exists cp, res.
  - destruct res as [[]|]; [apply broadcast_anchored|done..].
Qed.

Lemma finalize_fold_anchored hs r : anchored r (fold_left (λ r h, try_finalize h r) hs r).
Proof.
  revert r. induction hs as [|h hs IH]; intros r; [done|]. cbn [fold_left]. etrans; [apply try_finalize_anchored|apply IH].
Qed.
Lemma try_finalize_all_anchored r : anchored r (try_finalize_all r).
Proof. apply finalize_fold_anchored. Qed.

Lemma anchor_after_block_anchored o r : anchored r (anchor_after_block o r).
Proof.
  unfold anchor_after_block, on_anchor. etrans; [apply try_propose_anchored|].
  etrans; [apply try_finalize_all_anchored|apply signer_anchored].
Qed.

Lemma accept_checkpoint_message_anchored cp from r : anchored r (accept_checkpoint_message cp from r).1.
Proof.
  unfold accept_checkpoint_message. destruct (existsb _ _); [done|]. destruct (check_checkpoint_data _ _); [|done].
  destruct (merge_signatures _ _ _) as [al new].
  etrans; [apply (signer_anchored (enforce_cap al) (rl_disk r))|]. etrans; [apply try_finalize_all_anchored|].
  destruct (new && _); [apply broadcast_anchored|done].
Qed.

(** ** Pending checkpoints *)

Notation pending_of r := (al_pending (rl_anchor r)).

Lemma try_finalize_pending h r : pending_of (try_finalize h r) ⊆ pending_of r.
Proof.
  unfold try_finalize. destruct (pending_of r !! h) as [p|]; [|done].
  destruct (check_checkpoint_data _ _) as [u|e]; [|apply delete_subseteq].
  destruct (aggregate_if_quorum _ _ _ _) as [cp|]; [|done]. destruct (accept_checkpoint (rl_chain r) cp) as [c res].
  destruct res as [[]|]; apply delete_subseteq.
Qed.

Lemma try_finalize_all_pending r : pending_of (try_finalize_all r) ⊆ pending_of r.
Proof.
  unfold try_finalize_all. generalize (btree_keys (pending_of r)) as hs. intros hs. revert r.
  induction hs as [|h hs IH]; intros r; [done|]. cbn [fold_left]. etrans; [apply IH|apply try_finalize_pending].
Qed.

Lemma anchor_after_block_pending o r : (size (pending_of (anchor_after_block o r)) ≤ MAX_PENDING_CHECKPOINTS)%nat.
Proof. apply enforce_cap_bounded. Qed.

Lemma accept_checkpoint_message_pending cp from r :
  (size (pending_of r) ≤ MAX_PENDING_CHECKPOINTS)%nat →
  (size (pending_of (accept_checkpoint_message cp from r).1) ≤ MAX_PENDING_CHECKPOINTS)%nat.
Proof.
  intros Hp. unfold accept_checkpoint_message. destruct (existsb _ _); [done|]. destruct (check_checkpoint_data _ _); [|done].
  destruct (merge_signatures _ _ _) as [al new]. set (r1 := with_signer _ _ r).
  assert (size (pending_of (try_finalize_all r1)) ≤ MAX_PENDING_CHECKPOINTS)%nat as Hb.
  { etrans; [apply map_subseteq_size, try_finalize_all_pending|apply enforce_cap_bounded]. }
  by destruct (new && _).
Qed.
End anchored.

(** ** The mempool of a relay *)

Section pool.
Context `{Crypto}.

(** Every pending transaction is valid and pending under its identifier;
    no namespace has more than its share. *)
Record pool_ok (m : Mempool) : Prop := {
  po_ok : mempool_ok m;
  po_valid id tx : mp_entries m !! id = Some tx → validate_transaction tx = Ok tt ∧ transaction_id tx = Ok id;
  po_share key : (count_for_domain key m ≤ MAX_PENDING_PER_DOMAIN)%nat }.

Lemma pool_ok_queue m :
  mempool_ok m →
  (∀ id tx, (id, tx) ∈ queue m → validate_transaction tx = Ok tt ∧ transaction_id tx = Ok id) →
  (∀ key, queue_count key (queue m) ≤ MAX_PENDING_PER_DOMAIN)%nat → pool_ok m.
Proof.
  intros Hm Hv Hc. split; [done| |].
  - intros id tx E. by apply Hv, queue_elem.
  - intros key. by rewrite count_refines.
Qed.

Lemma queue_count_filter key (P : TxId * Transaction → Prop) `{!∀ e, Decision (P e)} (q : Queue) :
  (queue_count key (filter P q) ≤ queue_count key q)%nat.
Proof.
  unfold queue_count. rewrite list_filter_filter. induction q as [|e q IH]; [done|].
  rewrite !filter_cons. repeat case_decide; cbn; tauto || lia.
Qed.

Lemma queue_count_drop key n (q : Queue) : (queue_count key (drop n q) ≤ queue_count key q)%nat.
Proof.
  rewrite <- (take_drop n q) at 2. unfold queue_count. rewrite filter_app, length_app. lia.
Qed.

Lemma pool_ok_elim m : pool_ok m →
  (∀ id tx, (id, tx) ∈ queue m → validate_transaction tx = Ok tt ∧ transaction_id tx = Ok id) ∧
  (∀ key, queue_count key (queue m) ≤ MAX_PENDING_PER_DOMAIN)%nat.
Proof.
  intros [Hm Hv Hc]. split.
  - intros id tx Hin. by apply Hv, queue_elem.
  - intros key. rewrite <- count_refines by done. apply Hc.
Qed.

Lemma pool_ok_new capacity : pool_ok (Mempool_new capacity).
Proof.
  split; [apply mempool_new_ok| |].
  - intros id tx. cbn. by rewrite lookup_empty.
  - intros key. unfold count_for_domain. cbn. rewrite map_to_list_empty. cbn. unfold MAX_PENDING_PER_DOMAIN. lia.
Qed.

Lemma pool_ok_remove id m : pool_ok m → pool_ok (mempool_remove id m) ∧ mp_capacity (mempool_remove id m) = mp_capacity m.
Proof.
  intros Hp. destruct (pool_ok_elim m Hp) as [Hv Hc]. destruct (remove_refines id m (po_ok _ Hp)) as (Hm & Ecap & Eq).
  split; [|done]. apply pool_ok_queue; [done|..]; rewrite Eq; unfold queue_remove.
  - intros i tx [_ Hin]%list_elem_of_filter. by apply Hv.
  - intros key. etrans; [apply queue_count_filter|apply Hc].
Qed.

Lemma forget_included_ok txs m : pool_ok m →
  pool_ok (forget_included txs m) ∧ mp_capacity (forget_included txs m) = mp_capacity m.
Proof.
  revert m. induction txs as [|tx txs IH]; intros m Hp; [done|]. unfold forget_included. cbn [fold_left].
  destruct (transaction_id tx) as [id|e]; [|by apply IH]. destruct (pool_ok_remove id m Hp) as [Hp' Ec].
  destruct (IH _ Hp') as [? ?]. split; [done|by etrans].
Qed.

Lemma drain_ok max m m' txs : pool_ok m → drain_up_to max m = (m', txs) →
  pool_ok m' ∧ mp_capacity m' = mp_capacity m ∧ queue m' = drop max (queue m) ∧ txs = (take max (queue m)).*2 ∧
  Forall (λ tx, validate_transaction tx = Ok tt ∧ ∃ id, transaction_id tx = Ok id) txs.
Proof.
  intros Hp E. destruct (pool_ok_elim m Hp) as [Hv Hc]. pose proof (drain_refines max m (po_ok _ Hp)) as Hd. rewrite E in Hd.
  destruct Hd as (Hm & Ecap & Eq). injection Eq as Eq Et. split_and!; [|done..|].
  - apply pool_ok_queue; [done|..]; rewrite Eq.
    + intros id tx Hin. apply Hv. rewrite <- (take_drop max (queue m)). apply elem_of_app. by right.
    + intros key. etrans; [apply queue_count_drop|apply Hc].
  - rewrite Et. apply Forall_forall. intros tx ([id tx'] & -> & Hin)%list_elem_of_fmap. destruct (Hv id tx') as [? ?].
    { rewrite <- (take_drop max (queue m)). apply elem_of_app. by left. }
    split; [done|by exists id].
Qed.

Lemma insert_ok id tx m m' res : pool_ok m → mempool_insert id tx m = (m', res) →
  validate_transaction tx = Ok tt → transaction_id tx = Ok id → over_domain_cap tx m = false →
  pool_ok m' ∧ mp_capacity m' = mp_capacity m.
Proof.
  intros Hp E Hv1 Hid Hcap. destruct (pool_ok_elim m Hp) as [Hv Hc]. pose proof (insert_refines id tx m (po_ok _ Hp)) as Hi.
  rewrite E in Hi. destruct Hi as (Hm & Ecap & Eq). split; [|done].
  unfold queue_insert in Eq. destruct (bool_decide _); [injection Eq as Eq _; apply pool_ok_queue; by rewrite ?Eq|].
  destruct (_ <=? _)%nat; [injection Eq as Eq _; apply pool_ok_queue; by rewrite ?Eq|]. injection Eq as Eq _.
  apply pool_ok_queue; [done|..]; rewrite Eq.
  - intros i t [Hin|Hin]%elem_of_app; [by apply Hv|]. apply list_elem_of_singleton in Hin. by injection Hin as -> ->.
  - intros key. unfold queue_count. rewrite filter_app, length_app. fold (queue_count key (queue m)).
    destruct (decide (domain_key tx = Some key)) as [Ek|Hk].
    + rewrite filter_cons_True by done. unfold over_domain_cap in Hcap. rewrite Ek in Hcap.
      apply Nat.leb_gt in Hcap. rewrite count_refines in Hcap by apply Hp. cbn. unfold MAX_PENDING_PER_DOMAIN in *. lia.
    + rewrite filter_cons_False by done. cbn. rewrite Nat.add_0_r. apply Hc.
Qed.
End pool.

(** ** Production *)

Section production.
Context `{Crypto} `{Redb} `{!Faults} `{Swarm}.

(** The parts a step may not touch. *)
Lemma produce_batch_frame clock o fuel k cs r r' res k' :
  produce_batch clock o fuel k cs r = (r', res, k') →
  rl_mempool r' = rl_mempool r ∧ rl_dht_waiters r' = rl_dht_waiters r ∧
  (size (al_pending (rl_anchor r)) ≤ MAX_PENDING_CHECKPOINTS →
    size (al_pending (rl_anchor r')) ≤ MAX_PENDING_CHECKPOINTS)%nat.
Proof.
  revert k cs r. induction fuel as [|fuel IH]; intros k [|c cs] r; cbn [produce_batch]; try (by intros [= <- _ _]).
  destruct (candidate_block _ _ _) as [b|e]; [|by intros [= <- _ _]].
  destruct (push_block_with_gc _ b) as [ch [a|e]]; [|intros E%IH; exact E].
  destruct (store_block_with_removals _ _ _ _ _) as [db [u|e]]; [|by intros [= <- _ _]].
  intros [= <- _ _]. set (r1 := broadcast _ _ _). destruct (anchor_after_block_anchored o r1) as [_ _ Hm _ _ Hw _].
  rewrite Hm, Hw. split_and!; [done|done|]. intros _. apply anchor_after_block_pending.
Qed.

(** A validated, identified block is built. *)
Lemma collect_is_Ok {E A B} (f : A → result E B) l : Forall (λ a, ∃ b, f a = Ok b) l → ∃ bs, collect f l = Ok bs.
Proof.
  induction 1 as [|a l [b Eb] _ [bs IH]]; [by eexists|]. cbn [collect]. rewrite Eb. cbn [rbind]. rewrite IH. by eexists.
Qed.

Lemma push_txs_total b txs :
  N.of_nat (length (bb_transactions b) + length txs) ≤ MAX_TXS_PER_BLOCK →
  ∃ b', push_txs b txs = Ok b' ∧ bb_transactions b' = bb_transactions b ++ txs ∧ bb_producer b' = bb_producer b ∧
    bb_consensus b' = bb_consensus b.
Proof.
  revert b. induction txs as [|tx txs IH]; intros b Hl; cbn [push_txs].
  { exists b. by rewrite app_nil_r. }
  cbn [length] in Hl. unfold push_tx. rewrite (proj2 (N.leb_gt _ _)) by lia. cbn [rbind].
  destruct (IH (mkBlockBuilder (bb_prev_hash b) (bb_height b) (bb_timestamp b) (bb_consensus b) (bb_producer b)
    (bb_transactions b ++ [tx]))) as (b' & E & Et & Ep & Ec).
  { cbn. rewrite length_app. cbn. lia. }
  exists b'. split_and!; [done| |done|done]. rewrite Et. cbn. by rewrite <- app_assoc.
Qed.

Lemma candidate_block_builds now txs r :
  N.of_nat (length txs) ≤ MAX_TXS_PER_BLOCK → Forall (λ tx, ∃ id, transaction_id tx = Ok id) txs →
  is_ok (candidate_block now txs r) = true.
Proof.
  intros Hl Ht. unfold candidate_block, build_with. set (b0 := with_producer _ _).
  destruct (push_txs_total b0 txs) as (b & E & Et & Ep & _); [exact Hl|]. rewrite E. cbn [rbind].
  destruct (collect_is_Ok transaction_id (bb_transactions b)) as [ids Ei]; [by rewrite Et|].
  assert (tx_root (bb_transactions b) = Ok (merkle_root ids)) as Er by (unfold tx_root; by rewrite Ei).
  destruct (build_signed_Ok b (default devnet_key (signing_key (rl_anchor r))) (merkle_root ids)) as (sh & _ & HB);
    [done|done|].
  by rewrite HB.
Qed.

Lemma removelast_prefix {A} (l : list A) : removelast l `prefix_of` l.
Proof.
  induction l as [|x l IH]; [done|]. destruct l as [|y l]; [apply prefix_nil|].
  change (removelast (x :: y :: l)) with (x :: removelast (y :: l)). by apply prefix_cons.
Qed.

Definition identified (tx : Transaction) : Prop := ∃ id, transaction_id tx = Ok id.

Lemma removelast_Forall {A} (P : A → Prop) l : Forall P l → Forall P (removelast l).
Proof.
  induction 1 as [|x l Hx Hl IH]; [constructor|]. cbn [removelast]. destruct l as [|y l]; [constructor|]. by constructor.
Qed.
Lemma length_removelast {A} (l : list A) : length (removelast l) = (length l - 1)%nat.
Proof.
  induction l as [|x l IH]; [done|]. cbn [removelast]. destruct l as [|y l]; [done|].
  change (S (length (removelast (y :: l))) = S (length (y :: l)) - 1)%nat. rewrite IH. cbn. lia.
Qed.

(** A block made of [txs] when the clock shows [now], pushed on the chain
    in the state [st], stored, broadcast and given to the anchor loop. *)
Definition block_made (now : N) (o : WriteOutcome) (st : ChainState) (txs : list Transaction) (r r' : Relay) : Prop :=
  ∃ b c a db,
    candidate_block now txs r = Ok b ∧
    push_block_with_gc (with_state st (rl_chain r)) b = (c, Ok a) ∧
    store_block_with_removals c b (ab_hash a) (ab_gc_removed_domains a) (rl_store r) = (db, Ok tt) ∧
    r' = anchor_after_block o (broadcast (MsgBlock b) None (with_store db (with_chain c r))).

(** What a batch ends with: a block made of the first candidates, nothing
    but a rolled-back state, or a failure of the store. *)
Lemma produce_batch_spec clock o fuel k cs r r' res k' :
  produce_batch clock o fuel k cs r = (r', res, k') →
  N.of_nat (length cs) ≤ MAX_TXS_PER_BLOCK → Forall identified cs → (length cs ≤ fuel)%nat →
  match res with
  | Ok true => ∃ j st txs, txs ≠ [] ∧ txs `prefix_of` cs ∧ block_made (clock j) o st txs r r'
  | Ok false => ∃ st, r' = with_chain (with_state st (rl_chain r)) r
  | Err e => ∃ e', e = NeStorage e'
  end.
Proof.
  revert k cs r. induction fuel as [|fuel IH]; intros k [|tx cs] r E Hl Hid Hf; try (cbn in Hf; lia).
  1,2: injection E as <- <- _; exists (bc_state (rl_chain r)); by destruct r as [? []].
  cbn [produce_batch] in E.
  pose proof (candidate_block_builds (clock k) (tx :: cs) r Hl Hid) as Hb.
  destruct (candidate_block _ _ _) as [b|e] eqn:Eb; [|done].
  destruct (push_block_with_gc _ b) as [c [a|e]] eqn:Ep.
  - destruct (store_block_with_removals _ _ _ _ _) as [db [[]|e]] eqn:Es; injection E as <- <- _; [|by eexists].
    exists k, (bc_state (rl_chain r)), (tx :: cs). split_and!; [done..|]. exists b, c, a, db.
    assert (with_state (bc_state (rl_chain r)) (rl_chain r) = rl_chain r) as -> by by destruct (rl_chain r). done.
  - apply push_rejected in Ep as [s ->]. apply IH in E.
    2:{ rewrite length_removelast. cbn in *. lia. } 2:{ by apply removelast_Forall. }
    2:{ rewrite length_removelast. cbn in *. lia. }
    destruct res as [[]|e1]; [|destruct E as [s' ->]; exists s'; done|done].
    destruct E as (j & st & txs & Hne & Hpre & Hmade). exists j, st, txs.
    split_and!; [done|etrans; [exact Hpre|apply removelast_prefix]|exact Hmade].
Qed.
End production.
