(* ===== verification/RelayMirror.v ===== *)
(** * The relay and its store

    Block by block the store follows the chain of the relay, unless a
    write fails; what a sister of the tip does to it, and what a failed
    write leaves behind. *)

From S2P Require Import Prelude Bytes Crypto Commitment Smt Names Icann Codec Checkpoint Pow Tx Wire.
From S2P Require Import State StateSpec StateProofs StateProps Blocks BlocksProps Chain ForkChoice ChainProofs ChainProps ForkProps.
From S2P Require Import StateBytes Redb Store StoreSpec StorePaging StoreProofs StoreProps Persist PersistProofs.
From S2P Require Import Restart Mirror Resume RestartProps Signer Records Messages Mempool Anchor Relay Hex Dns RelayRpc.
From S2P Require Import RelayProofs.

(** ** What every round keeps *)

Definition storage_error {A} (res : result NetworkError A) : bool :=
  match res with Err (NeStorage _) => true | _ => false end.

(** A property of the store and the chain that neither a record in the
    cache nor a checkpoint breaks is kept by every round that keeps it when
    it pushes blocks. *)
Section keeps.
Context `{Crypto} `{Redb} `{!Faults} `{Swarm}.
Context (P : Db → Blockchain → Prop) (tolerant : bool).
Hypothesis P_cache : ∀ db c id record, P db c → P (put_dht_cache id record db).1 c.
Hypothesis P_checkpoint : ∀ db c c', P db c → checkpointed c c' → P db c'.

Definition holds (r : Relay) : Prop := P (rl_store r) (rl_chain r).

(** Kept, unless the store failed; when [tolerant], even then. *)
Definition settled {A} (out : Relay * result NetworkError A) : Prop :=
  tolerant = true ∨ storage_error out.2 = false → holds out.1.

Lemma holds_same r r' : holds r → rl_store r' = rl_store r → rl_chain r' = rl_chain r → holds r'.
Proof. unfold holds. by intros ? -> ->. Qed.

Lemma holds_anchored r r' : holds r → anchored r r' → holds r'.
Proof.
  unfold holds. intros Hr [Hc -> _ _ _ _ _]. revert Hr. induction Hc as [|c1 c2 c3 Hs _ IH]; [done|].
  intros Hr. by eapply IH, P_checkpoint.
Qed.

Lemma put_cache_holds r r' id record : holds r → rl_store r' = (put_dht_cache id record (rl_store r)).1 →
  rl_chain r' = rl_chain r → holds r'.
Proof. unfold holds. intros Hr -> ->. by apply P_cache. Qed.

Lemma accept_transaction_frame tx from r :
  rl_store (accept_transaction tx from r).1 = rl_store r ∧ rl_chain (accept_transaction tx from r).1 = rl_chain r.
Proof.
  unfold accept_transaction. set (checked := let? _ := _ in _). destruct checked as [id|e]; [|done].
  destruct (over_domain_cap _ _); [done|]. by destruct (mempool_insert _ _ _) as [m [[]|[]]].
Qed.

Lemma continue_sync_frame peer h r :
  rl_store (continue_sync peer h r) = rl_store r ∧ rl_chain (continue_sync peer h r) = rl_chain r.
Proof. unfold continue_sync. destruct (rl_sync r !! peer); [|done]. destruct (_ =? _); [|done]. by destruct (_ <? _). Qed.

Lemma send_holds w response r : holds r → holds (send w response r).
Proof. unfold send. by destruct (dw_reply w). Qed.

Lemma message_settled o peer m r :
  holds r → (∀ b, m = MsgBlock b → settled (accept_block o b (Some peer) r)) → settled (handle_peer_message o peer m r).
Proof.
  intros Hr Hs. unfold settled. destruct m; cbn [handle_peer_message]; try done.
  - by destruct (_ || _).
  - by destruct (find_block _ _ _).
  - specialize (Hs b eq_refl). unfold settled in Hs. destruct (accept_block _ _ _ _) as [r' [x|e]]; cbn [fst snd] in *; [|done].
    intros _. destruct (continue_sync_frame peer (bk_height b) r'). eapply holds_same; [|done..]. apply Hs. by right.
  - intros _. destruct (accept_transaction_frame tx (Some peer) r) as [E1 E2].
    destruct (accept_transaction _ _ _) as [r' res]. by eapply holds_same.
  - by destruct (dht_cache _ _).
  - intros _. destruct (verify_record_against_chain _ _); [|done]. destruct (enc _ _) as [encoded|]; [|done].
    destruct (put_dht_cache _ _ _) as [db res] eqn:E. eapply put_cache_holds; [exact Hr|by rewrite E|done].
  - intros _. pose proof (accept_checkpoint_message_anchored cp (Some peer) r) as Ha.
    destruct (accept_checkpoint_message _ _ _) as [r' res]. by eapply holds_anchored.
Qed.

Lemma event_settled o open e r : holds r →
  (∀ p b, e = Request p (MsgBlock b) ∨ e = Response p (MsgBlock b) → settled (accept_block o b (Some p) r)) →
  settled (handle_peer_event o open e r).
Proof.
  intros Hr Hs. destruct e as [peer|peer|peer m|peer m|peer]; cbn [handle_peer_event]; try (by intros _).
  - unfold handle_request. assert (settled (handle_peer_message o peer m r)) as Hm.
    { apply message_settled; [done|]. intros b ->. apply (Hs peer b). by left. }
    unfold settled in *. destruct (handle_peer_message _ _ _ _) as [r' [x|e]]; cbn [fst snd] in *; [|done].
    specialize (Hm (or_intror eq_refl)). by destruct open.
  - assert (settled (handle_peer_message o peer m r)) as Hm.
    { apply message_settled; [done|]. intros b ->. apply (Hs peer b). by right. }
    unfold settled in *. by destruct (handle_peer_message _ _ _ _) as [r' [x|e]].
Qed.

Lemma command_holds env request r : holds r → holds (handle_command env request r).
Proof.
  intros Hr. unfold handle_command. assert (holds (dispatch env request r).1) as Hd.
  2:{ by destruct (dispatch env request r) as [r' [response|w]]. }
  destruct request as [|tx_hex|name|record_hex|name|name|name]; cbn [dispatch fst]; try done.
  - unfold submit_tx_hex. set (decoded := let? _ := _ in _). destruct decoded as [tx|e]; [|done].
    destruct (accept_transaction_frame tx None r). destruct (accept_transaction _ _ _) as [r' res]. by eapply holds_same.
  - unfold put_record_hex. set (decoded := let? _ := _ in _). destruct decoded as [rec|e]; [|done].
    destruct (negb (verify_record_against_chain _ _)); [done|]. destruct (enc _ _) as [encoded|]; [|done].
    destruct (negb (re_accepted env)); [done|].
    destruct (put_dht_cache _ _ _) as [db res] eqn:E. eapply put_cache_holds; [exact Hr| |done]. cbn in E |- *. by rewrite E.
  - destruct (_ <=? _)%nat; [done|]. unfold start_dht_get. by destruct (requested name).
Qed.

Lemma kad_holds q res r : holds r → holds (handle_kad q res r).
Proof.
  intros Hr. unfold handle_kad. destruct (list_find _ _) as [[i w]|]; [|done].
  destruct res as [key value| |]; [|by apply send_holds|done]. destruct (negb _); [by apply send_holds|].
  unfold resolve_found. destruct (decode_complete _ _) as [rec|e]; [|by apply send_holds].
  destruct (verify_record_against_chain _ _); apply send_holds; [|done]. by eapply put_cache_holds.
Qed.

Lemma expire_holds fuel i now r : holds r → holds (expire_from fuel i now r).
Proof.
  revert i r. induction fuel as [|fuel IH]; intros i r Hr; cbn [expire_from]; [done|].
  destruct (rl_dht_waiters r !! i) as [w|]; [|done]. destruct (_ <=? _); apply IH; [|done]. by apply send_holds.
Qed.

(** Every round, but for the blocks it pushes. *)
Lemma step_settled o w r : holds r →
  (∀ open e p b, w = WakePeer open e → e = Request p (MsgBlock b) ∨ e = Response p (MsgBlock b) →
    settled (accept_block o b (Some p) r)) →
  (∀ clock, w = WakeProduce clock → settled (produce_if_ready clock o r)) → settled (relay_step o w r).
Proof.
  intros Hr Hb Hp. destruct w; cbn [relay_step].
  - intros _. by apply command_holds.
  - apply event_settled; [done|]. intros p b E. by eapply Hb.
  - intros _. by apply kad_holds.
  - by apply Hp.
  - intros _. by apply expire_holds.
Qed.
End keeps.

(** ** A store in step with the chain *)

Section mirror.
Context `{Crypto} `{RedbLaws} `{!Faults} `{Swarm}.
#[local] Existing Instances laws_heights laws_bytes.

(** A relay whose store follows its chain. *)
Definition follows (r : Relay) (reg : Registry) : Prop := node_run (rl_store r) (rl_chain r) reg.

(** A block that can be stored, should it be accepted; refused candidates
    before it may have left another form of the same state behind. *)
Definition safe (c : Blockchain) (reg : Registry) (b : Block) : Prop :=
  ∀ s, let c1 := with_state s c in
  ChainProps.represents c1 reg →
  block_collision_free c1 reg b = true ∧ ∀ c' a, push_block_with_gc c1 b = (c', Ok a) → storable c1 reg b a.

Lemma with_own_state c : with_state (bc_state c) c = c.
Proof. by destruct c. Qed.

Lemma node_represents db c reg : node_run db c reg → ChainProps.represents c reg.
Proof. intros (d & hist & _ & Hm)%node_mirrors. apply (mi_state _ _ _ _ Hm). Qed.

Lemma safe_push db c reg b : node_run db c reg → safe c reg b →
  block_collision_free c reg b = true ∧ ∀ c' a, push_block_with_gc c b = (c', Ok a) → storable c reg b a.
Proof. intros Hr%node_represents Hs. pose proof (Hs (bc_state c)) as Hp. rewrite with_own_state in Hp. by apply Hp. Qed.

Lemma run_checkpointed db c c' reg : node_run db c reg → rtc checkpointed c c' → node_run db c' reg.
Proof. intros Hr. induction 1 as [|c1 c2 c3 (cp & res & E) _ IH]; [done|]. by eapply IH, node_checkpoint. Qed.

Lemma follows_anchored r r' reg : follows r reg → anchored r r' → follows r' reg.
Proof. intros Hr [Hc Es _ _ _ _ _]. unfold follows. rewrite Es. by eapply run_checkpointed. Qed.

Lemma node_chain_ok db c reg : node_run db c reg → chain_ok c.
Proof. intros (d & hist & _ & Hm)%node_mirrors. apply (mi_ok _ _ _ _ Hm). Qed.

Lemma run_tip db c reg : node_run db c reg → store_tip db = Ok (chain_height c, bc_tip c).
Proof. intros (d & hist & Hd & Hm)%node_mirrors. rewrite <- (mi_tip _ _ _ _ Hm). by apply rp_tip_row. Qed.

Lemma run_announcing db c reg h b : node_run db c reg → 1 ≤ h → block c h = Some b → block_announcing h db = Ok b.
Proof.
  intros (d & hist & Hd & Hm)%node_mirrors Hh Hb. destruct (mi_window _ _ _ _ Hm h b Hh Hb) as [rh Hrh].
  exact (stored_announcing _ _ _ _ _ Hd (le_entry _ _ _ (mi_ledger _ _ _ _ Hm) _ _ _ Hrh)).
Qed.

(** A sister of the tip is not stored: the store has another block at its
    height. *)
Lemma switched_refused db c reg b c' a : node_run db c reg → switched c b c' a →
  ∃ e, store_block_with_removals c' b (ab_hash a) (ab_gc_removed_domains a) db = (db, Err e).
Proof.
  intros Hr [_ Eh _ Hlow _ _ _ _ _ _]. pose proof (run_tip _ _ _ Hr) as Et. unfold store_block_with_removals.
  destruct (enc Block_c b) as [bytes|]; [|by eexists]. unfold append_block_with_state.
  unfold store_tip in Et. rewrite Et. unfold arr_eqb.
  rewrite bool_decide_eq_false_2 by (intros E; rewrite E in Hlow; by eapply bytes_lt_irrefl).
  rewrite andb_false_r. destruct (checked_add64 _ 1) as [n|] eqn:En; [|by eexists].
  assert (n = chain_height c + 1) as -> by (unfold checked_add64 in En; destruct (_ <=? _); congruence).
  rewrite Eh, (proj2 (N.eqb_neq _ _)) by lia. by eexists.
Qed.

Lemma accept_block_follows o b from r reg : follows r reg → safe (rl_chain r) reg b →
  storage_error (accept_block o b from r).2 = false → ∃ reg', follows (accept_block o b from r).1 reg'.
Proof.
  intros Hr Hs. unfold accept_block. destruct (header_hash _) as [x|e]; [|by exists reg].
  destruct (already_canonical _ _ _); [by exists reg|]. destruct (try_attach _ _) as [c res] eqn:Et.
  destruct (try_attach_cases _ _ _ _ (node_chain_ok _ _ _ Hr) Et) as [(_ & Ep)|[(e & -> & ->)|(a & -> & Hsw)]].
  - destruct res as [a|e].
    2:{ exists reg. eapply node_refused; [exact Hr|apply (safe_push _ _ _ _ Hr Hs)|exact Ep]. }
    destruct (store_block_with_removals _ _ _ _ _) as [db [[]|e]] eqn:Es; [|done]. intros _.
    exists (block_outcome (rl_chain r) reg b).1.
    eapply follows_anchored; [|etrans; [apply broadcast_anchored|apply anchor_after_block_anchored]].
    eapply node_block; [exact Hr|exact Ep|by eapply (safe_push _ _ _ _ Hr Hs)|exact Es].
  - intros _. exists reg. by destruct r.
  - cbn [rl_store with_chain]. destruct (switched_refused _ _ _ _ _ _ Hr Hsw) as [e Ee]. by rewrite Ee.
Qed.

(** ** Production *)

Definition producible (clock : nat → N) (r : Relay) (reg : Registry) (txs : list Transaction) : Prop :=
  ∀ k l b, l ⊆ txs → candidate_block (clock k) l r = Ok b → safe (rl_chain r) reg b.

Lemma removelast_subset {A} (l : list A) : removelast l ⊆ l.
Proof.
  induction l as [|x l IH]; [done|]. destruct l as [|y l]; [intros ? []%elem_of_nil|].
  change (removelast (x :: y :: l)) with (x :: removelast (y :: l)). intros z Hz.
  apply elem_of_cons in Hz as [->|Hz]; apply elem_of_cons; [by left|right; by apply IH].
Qed.

Lemma refused_state c b c' e : push_block_with_gc c b = (c', Err e) → ∃ s, c' = with_state s c.
Proof. apply push_rejected. Qed.

Lemma produce_batch_follows clock o fuel k cs r reg r' res k' :
  produce_batch clock o fuel k cs r = (r', res, k') → follows r reg → producible clock r reg cs →
  storage_error res = false →
  ∃ reg', follows r' reg' ∧ (res = Ok false → reg' = reg ∧ ∃ s, r' = with_chain (with_state s (rl_chain r)) r).
Proof.
  revert k cs r. induction fuel as [|fuel IH]; intros k [|tx cs] r E Hr Hp He; cbn [produce_batch] in E.
  2:{ injection E as <- <- _. by exists reg. }
  1,2: try (injection E as <- <- _; exists reg; split; [done|]; intros _; split; [done|]; exists (bc_state (rl_chain r));
    by rewrite with_own_state; destruct r).
  destruct (candidate_block _ _ _) as [b|e] eqn:Eb; [|injection E as <- <- _; by exists reg].
  pose proof (Hp k (tx :: cs) b ltac:(done) Eb) as Hs. destruct (push_block_with_gc _ b) as [c [a|e]] eqn:Ep.
  - destruct (store_block_with_removals _ _ _ _ _) as [db [[]|e]] eqn:Es; injection E as <- <- _; [|done].
    exists (block_outcome (rl_chain r) reg b).1. split; [|done].
    eapply follows_anchored; [|etrans; [apply broadcast_anchored|apply anchor_after_block_anchored]].
    eapply node_block; [exact Hr|exact Ep|by eapply (safe_push _ _ _ _ Hr Hs)|exact Es].
  - pose proof Ep as [s ->]%refused_state. apply IH in E; [| |intros k1 l b1 Hl|done].
    + destruct E as (reg' & Hf & Hreg). exists reg'. split; [done|]. intros Er. destruct (Hreg Er) as [-> [s' ->]].
      split; [done|]. by exists s'.
    + eapply node_refused; [exact Hr|apply (safe_push _ _ _ _ Hr Hs)|exact Ep].
    + intros Hb. assert (safe (rl_chain r) reg b1) as Hs1 by (eapply (Hp k1 l); [|exact Hb]; etrans; [exact Hl|apply removelast_subset]).
      exact Hs1.
Qed.

Lemma produce_loop_follows clock o fuel k r reg :
  follows r reg → pool_ok (rl_mempool r) → producible clock r reg (queue (rl_mempool r)).*2 →
  storage_error (produce_loop clock o fuel k r).2 = false → ∃ reg', follows (produce_loop clock o fuel k r).1 reg'.
Proof.
  revert k r. induction fuel as [|fuel IH]; intros k r Hr Hm Hp; cbn [produce_loop];
    (destruct (mempool_is_empty _); [by exists reg|]); [by exists reg|]. destruct (drain_up_to _ _) as [m txs] eqn:Ed.
  destruct (drain_ok _ _ _ _ Hm Ed) as (Hm' & _ & Eq & Etx & _). set (r1 := Relay.with_mempool m r).
  set (cs := filter _ txs). destruct (produce_batch _ _ _ _ cs r1) as [[r2 res] k2] eqn:Eb.
  assert (producible clock r1 reg cs) as Hp1.
  { intros k1 l b Hl Hb. apply (Hp k1 l b); [|exact Hb]. intros tx Htx. apply Hl in Htx.
    apply list_elem_of_filter in Htx as [_ Htx]. rewrite Etx in Htx. apply list_elem_of_fmap in Htx as (e & -> & He).
    apply list_elem_of_fmap. exists e. split; [done|]. rewrite <- (take_drop (N.to_nat MAX_TXS_PER_BLOCK) (queue _)).
    apply elem_of_app. by left. }
  intros He. destruct (produce_batch_follows _ _ _ _ _ _ _ _ _ _ Eb Hr Hp1) as (reg' & Hf & Hreg).
  { by destruct res as [[]|[]]. }
  destruct res as [[]|e]; cbn [fst snd] in *; [by exists reg'| |by exists reg'].
  destruct (Hreg eq_refl) as [-> [s Es]]. apply IH; [exact Hf|by rewrite Es| |exact He].
  intros k1 l b Hl Hb. rewrite Es in Hl, Hb |- *. cbn in Hl. assert (safe (rl_chain r) reg b) as Hs; [|exact Hs].
  apply (Hp k1 l b); [|exact Hb]. etrans; [exact Hl|]. rewrite Eq. intros tx (e & -> & Hin)%list_elem_of_fmap.
  apply list_elem_of_fmap. exists e. split; [done|]. rewrite <- (take_drop (N.to_nat MAX_TXS_PER_BLOCK) (queue (rl_mempool r))).
  apply elem_of_app. by right.
Qed.

(** ** Every round *)

(** The blocks that a round may push can be stored. *)
Definition safe_wake (r : Relay) (reg : Registry) (w : Wake) : Prop :=
  match w with
  | WakePeer _ e => ∀ p b, e = Request p (MsgBlock b) ∨ e = Response p (MsgBlock b) → safe (rl_chain r) reg b
  | WakeProduce clock => producible clock r reg (queue (rl_mempool r)).*2
  | _ => True
  end.

(** C28. The relay keeps its store in step with its chain, in the scope of
    [node_run]: the test network, from a new file, no sister of the tip
    adopted before.  Take a round of the loop — a peer's message, a
    request, a lookup, a production — on a relay whose store mirrors its
    chain, such that every block the round may push ([safe_wake]: the one
    a peer sends, the candidates of a production) is without a hash
    collision and can be stored if it is accepted: its numbers fit, the
    counters have room, and it does not register a domain again that it
    expires.  The round ends with a store that mirrors the chain again, or
    with a storage error — as it does when it adopts a sister of the tip.
    So duplicates, refused blocks, checkpoints, records, lookups and
    requests never separate the two, and what [node_run] gives — the store
    read back is the state, a restart finds the same chain — still holds
    after the round. *)
Theorem relay_keeps_store o w r reg :
  node_run (rl_store r) (rl_chain r) reg → pool_ok (rl_mempool r) → safe_wake r reg w →
  storage_error (relay_step o w r).2 = false →
  ∃ reg', node_run (rl_store (relay_step o w r).1) (rl_chain (relay_step o w r).1) reg'.
Proof.
  intros Hr Hm Hs He.
  apply (step_settled (λ db c, ∃ reg', node_run db c reg') false); [| | |..].
  - intros db c id record [reg' Hn]. exists reg'. by apply node_cache.
  - intros db c c' [reg' Hn] (cp & res & E). exists reg'. by eapply node_checkpoint.
  - by exists reg.
  - intros open e p b -> Eb [|Hb]; [done|]. apply (accept_block_follows o b (Some p) r reg Hr); [by eapply (Hs p b)|done].
  - intros clock -> [|Hb]; [done|]. by eapply (produce_loop_follows clock o _ _ r reg).
  - by right.
Qed.
End mirror.

(** ** A sister of the tip *)

Section sister.
Context `{Crypto} `{RedbLaws} `{!Faults} `{Swarm}.
#[local] Existing Instances laws_heights laws_bytes.

(** The chain switches, the store refuses, and nothing else happens. *)
Lemma accept_sister o s from r reg c' a :
  node_run (rl_store r) (rl_chain r) reg → try_attach (rl_chain r) s = (c', Ok a) → switched (rl_chain r) s c' a →
  ∃ e, accept_block o s from r = (with_chain c' r, Err (NeStorage e)).
Proof.
  intros Hr Et Hsw. pose proof (node_chain_ok _ _ _ Hr) as Hc. destruct (switched_refused _ _ _ _ _ _ Hr Hsw) as [e Ee].
  exists e. unfold accept_block. rewrite (sw_hash _ _ _ _ Hsw).
  assert (already_canonical (rl_chain r) s (ab_hash a) = false) as ->.
  { unfold already_canonical. rewrite (sw_sister _ _ _ _ Hsw), (block_tip _ Hc), (ok_tip _ Hc). apply andb_false_iff. right.
    apply bool_decide_eq_false. intros [= E]. pose proof (sw_lower _ _ _ _ Hsw) as Hlt. rewrite E in Hlt. by eapply bytes_lt_irrefl. }
  rewrite Et. cbn [rl_store with_chain]. rewrite Ee. by destruct r.
Qed.

(** A block that extends another chain than the one the store mirrors, by
    its height alone: the disk takes it on its own tip. *)
Lemma stored_elsewhere db c reg b x delta bytes :
  node_run db c reg → bk_height b = chain_height c + 1 → bk_height b < U64 → Block_wf b → enc Block_c b = Ok bytes →
  count (r_domains reg) + N.of_nat (length (sd_domains delta)) < U64 →
  count (r_tlds reg) + N.of_nat (length (sd_tlds delta)) < U64 → Forall (λ n, name_ok (nb_name n)) (sd_name_upserts delta) →
  let res := append_block_with_state (bk_height b) x bytes delta db in
  refused db res ∨ ∃ db', res = (db', Ok tt) ∧ store_tip db' = Ok (bk_height b, x) ∧
    block_announcing (bk_height b) db' = Ok b ∧
    (∀ h, 1 ≤ h ≤ chain_height c → block_announcing h db' = block_announcing h db) ∧
    ∀ k : DomainId, domain_state k db' =
      Ok (reread <$> deletes (sd_removed_domains delta) (inserts (sd_domains delta) (stored_domains reg)) !! k).
Proof.
  intros (d & hist & Hd & Hm)%node_mirrors Hh H64 Hwf Eb HD HT HN. cbv zeta.
  pose proof (mi_ledger _ _ _ _ Hm) as Hl. pose proof (f_equal fst (mi_tip _ _ _ _ Hm)) as Etip. cbn [fst] in Etip.
  assert (write_ok (WAppend (bk_height b) x bytes delta) d) as Hw.
  { cbn [write_ok]. rewrite (mi_domains _ _ _ _ Hm), (mi_tlds _ _ _ _ Hm). unfold stored_domains, stored_tlds, count in *.
    by rewrite !map_size_fmap. }
  destruct (store_write_simulates _ _ _ Hd Hw) as [?|Hsim]; [by left|right]. cbn [store_write disk_write] in Hsim.
  assert (∃ d1, frozen (bk_height b) d = Ok d1) as [d1 Ef].
  { unfold frozen. destruct (snapshot_due _) eqn:Es; [|by eexists]. unfold snapshot_due in Es.
    apply andb_true_iff in Es as [Hgt%N.ltb_lt _]. destruct (proj2 (le_heights _ _ _ Hl (bk_height b - 1))) as [[bp rp] Hp]; [lia|].
    destruct (en_stored _ _ _ _ (le_entry _ _ _ Hl _ _ _ Hp)) as (y & bs & _ & _ & ->). by eexists. }
  destruct (frozen_Ok _ _ _ Ef) as (EB & ED & _). 
  assert (k_blocks d !! bk_height b = None) as Enew.
  { apply (le_none _ _ _ Hl), eq_None_not_Some. rewrite (le_heights _ _ _ Hl). lia. }
  unfold disk_append in Hsim. rewrite Etip, Ef in Hsim. rewrite (proj2 (N.eqb_neq _ _)) in Hsim by lia. cbn [andb] in Hsim.
  unfold checked_add64 in Hsim. rewrite (proj2 (N.leb_le _ _)) in Hsim by (unfold U64_MAX, U64 in *; lia).
  cbn [ok_or rbind] in Hsim. rewrite Hh, N.eqb_refl in Hsim. cbn [negb rbind] in Hsim. rewrite <- Hh, EB, Enew in Hsim.
  destruct Hsim as (db' & -> & Hd'). exists db'. split; [done|]. split_and!.
  - exact (rp_tip_row _ _ Hd').
  - eapply announcing_row; [exact Hd'| |exact Eb|exact Hwf|done]. apply lookup_insert_eq.
  - intros h Hr. destruct (proj2 (le_heights _ _ _ Hl h) Hr) as [[b' rh] Hb'].
    pose proof (le_entry _ _ _ Hl _ _ _ Hb') as He. rewrite (stored_announcing _ _ _ _ _ Hd He).
    destruct He as [Hbh Hwf' (y & bs & _ & Eb' & Ek) _ _ _]. eapply announcing_row; [exact Hd'| |exact Eb'|exact Hwf'|exact Hbh].
    cbn. rewrite lookup_insert_ne by lia. by rewrite EB.
  - intros k. rewrite (domain_state_spec _ _ _ Hd'). do 3 f_equal. cbn. by rewrite ED, (mi_domains _ _ _ _ Hm).
Qed.

(** C33. A sister block corrupts the store.  Take a relay of the test
    network whose store mirrors its chain, and a peer's block that is not
    on top of the tip and that [try_attach] adopts in its place.  The
    round ends with an error of the store, which the loop only logs: the
    chain has switched, to the same height and a lower hash, and the store
    still has the abandoned tip.  From then on every block that the chain
    accepts on its new tip is stored — unless the disk refuses — on top of
    a block that is not its parent: the store's tip is the chain's again,
    below it lies the abandoned block, and every domain that the new block
    neither touches nor expires is stored as the abandoned state had it. *)
Theorem sister_corrupts_store r reg o open p s c' a :
  node_run (rl_store r) (rl_chain r) reg → bh_prev_hash (bk_header s) ≠ bc_tip (rl_chain r) →
  try_attach (rl_chain r) s = (c', Ok a) →
  (∃ e, relay_step o (WakePeer open (Request p (MsgBlock s))) r = (with_chain c' r, Err (NeStorage e))) ∧
  chain_height c' = chain_height (rl_chain r) ∧ bytes_lt (bc_tip c') (bc_tip (rl_chain r)) ∧
  store_tip (rl_store r) = Ok (chain_height (rl_chain r), bc_tip (rl_chain r)) ∧
  ∀ b c2 a2, push_block_with_gc c' b = (c2, Ok a2) → block_ok b →
    count (r_domains reg) + MAX_TXS_PER_BLOCK < U64 → count (r_tlds reg) + MAX_TXS_PER_BLOCK < U64 →
    let res := store_block_with_removals c2 b (ab_hash a2) (ab_gc_removed_domains a2) (rl_store r) in
    refused (rl_store r) res ∨ ∃ db2 below, res = (db2, Ok tt) ∧
      store_tip db2 = Ok (chain_height c2, bc_tip c2) ∧ block_announcing (chain_height c2) db2 = Ok b ∧
      block_announcing (chain_height c2 - 1) db2 = Ok below ∧
      header_hash (bk_header below) = Ok (bc_tip (rl_chain r)) ∧ bh_prev_hash (bk_header b) ≠ bc_tip (rl_chain r) ∧
      ∀ k : DomainId, k ∉ touched_domains b → k ∉ ab_gc_removed_domains a2 →
        domain_state k db2 = Ok (DomainStateBytes_from <$> cs_domain (bc_state (rl_chain r)) k).
Proof.
  intros Hr Hp Et. pose proof (node_chain_ok _ _ _ Hr) as Hc.
  destruct (try_attach_cases _ _ _ _ Hc Et) as [[? _]|[(e & ? & _)|(a' & [= <-] & Hsw)]]; [done..|].
  pose proof (sw_lower _ _ _ _ Hsw) as Hlow. rewrite <- (sw_tip _ _ _ _ Hsw) in Hlow. split_and!.
  - destruct (accept_sister o s (Some p) r reg c' a Hr Et Hsw) as [e Ee]. exists e.
    cbn [relay_step handle_peer_event handle_request]. unfold handle_request, handle_peer_message. by rewrite Ee.
  - apply Hsw.
  - exact Hlow.
  - by eapply run_tip.
  - intros b c2 a2 Ep [Hwf [bytes Eb]]%Block_encodes HcD HcT. cbv zeta. pose proof (push_pushed _ _ _ _ (sw_ok _ _ _ _ Hsw) Ep) as Hpu.
    pose proof (pu_check _ _ _ _ Hpu) as (Hprev & _ & Hbh & _ & Hlen & _)%check_block_Ok; [|apply Hsw].
    pose proof (pu_height _ _ _ _ Hpu) as Eh2. rewrite (sw_height _ _ _ _ Hsw) in Hbh, Eh2.
    pose proof (ok_bound _ (pu_ok _ _ _ _ Hpu)) as H64. unfold store_block_with_removals.
    change (enc Block_c b = Ok bytes) in Eb. rewrite Eb.
    destruct (delta_lengths (bc_state c2) b (ab_gc_removed_domains a2)) as [LD LT].
    destruct (stored_elsewhere (rl_store r) (rl_chain r) reg b (ab_hash a2)
      (block_delta (bc_state c2) b (ab_gc_removed_domains a2)) bytes) as [?|(db2 & E2 & E3 & E4 & E5 & E6)];
      [done..|lia|done|done|lia|lia|by apply block_names_ok|by left|right].
    exists db2, (tip_block (rl_chain r)). rewrite E2. split; [done|]. rewrite Eh2, <- Hbh.
    split_and!; [by rewrite (pu_tip _ _ _ _ Hpu)|exact E4| |apply (ok_tip _ Hc)| |].
    + rewrite Hbh, N.add_sub, E5 by (pose proof (sw_pos _ _ _ _ Hsw); lia).
      apply (run_announcing _ _ _ _ _ Hr); [pose proof (sw_pos _ _ _ _ Hsw); lia|by apply block_tip].
    + rewrite Hprev. intros E. rewrite E in Hlow. by eapply bytes_lt_irrefl.
    + intros k Ht Hg. rewrite E6, deletes_lookup, decide_False by done. cbn [block_delta sd_domains].
      pose proof (keyed_sublist DomainStateBytes_from (cs_domain (bc_state c2)) (touched_domains b)) as Hsub.
      rewrite (proj2 (inserts_lookup _ _ k (sublist_NoDup _ _ (firsts_NoDup _ _) Hsub))).
      2:{ intros Hin. by apply Ht, (sublist_subseteq _ _ Hsub). }
      pose proof (node_represents _ _ _ Hr) as Hrep. rewrite (refines_domain _ _ k (rp_refines _ _ Hrep) (rp_ok _ _ Hrep)).
      unfold stored_domains. rewrite lookup_fmap. destruct (r_domains reg !! k) as [x|]; [|done].
      cbn [fmap option_fmap option_map]. by rewrite reread_from.
Qed.
End sister.

(** ** A store that fell behind *)

Section behind.
Context `{Crypto} `{RedbLaws} `{!Faults} `{Swarm}.
#[local] Existing Instances laws_heights laws_bytes.
Context (h : N) (x : hash).

(** The chain is two blocks or more above the tip of the store. *)
Record behind (db : Db) (c : Blockchain) : Prop := {
  be_store : ∃ d, represents db d ∧ k_tip d = (h, x);
  be_chain : chain_ok c;
  be_ahead : h + 1 < chain_height c }.

Lemma behind_state db c s : behind db c → behind db (with_state s c).
Proof. intros [? Hc ?]. split; [done| |done]. by eapply chain_ok_frame; [..|exact Hc]. Qed.

Lemma behind_refuses db c b hash removed c' : behind db c → chain_height c ≤ bk_height b →
  ∃ e, store_block_with_removals c' b hash removed db = (db, Err e).
Proof.
  intros [(d & Hd & Ed) _ Hh] Hb. unfold store_block_with_removals. destruct (enc Block_c b); [|by eexists].
  unfold append_block_with_state. rewrite (rp_tip_row _ _ Hd), Ed. rewrite (proj2 (N.eqb_neq _ _)) by lia. cbn [andb].
  destruct (checked_add64 h 1) as [n|] eqn:En; [|by eexists].
  assert (n = h + 1) as -> by (unfold checked_add64 in En; destruct (_ <=? _); congruence).
  rewrite (proj2 (N.eqb_neq _ _)) by lia. by eexists.
Qed.

Lemma behind_cache db c id record : behind db c → behind (put_dht_cache id record db).1 c.
Proof.
  intros [(d & Hd & Ed) Hc Hh]. split; [|done..].
  destruct (store_write_simulates (WPutDht id record) d db Hd I) as [(e & E & _)|Hsim]; cbn [store_write disk_write] in *.
  { exists d. by rewrite E. }
  destruct (MAX_DHT_CACHE_ENTRY <? blen record); [exists d; by rewrite Hsim|].
  destruct Hsim as (db' & -> & Hd'). eexists. by split; [exact Hd'|].
Qed.

Lemma behind_checkpoint db c c' : behind db c → checkpointed c c' → behind db c'.
Proof.
  intros [Hd Hc Hh] (cp & res & E). split; [done|by eapply chain_step_ok, step_checkpoint|].
  by apply accept_frame in E as (cps & f & ->).
Qed.

Lemma behind_pushed db c b c' a : behind db c → push_block_with_gc c b = (c', Ok a) →
  behind db c' ∧ chain_height c ≤ bk_height b.
Proof.
  intros [Hd Hc Hh] Ep. pose proof (push_pushed _ _ _ _ Hc Ep) as Hp. pose proof (pu_height _ _ _ _ Hp) as E.
  split; [split; [done|apply Hp|lia]|].
  pose proof (pu_check _ _ _ _ Hp) as (_ & _ & Hbh & _)%check_block_Ok; [|done]. lia.
Qed.

Lemma accept_block_behind o b from r : holds behind r → settled behind true (accept_block o b from r).
Proof.
  intros Hr _. unfold accept_block. destruct (header_hash _) as [y|e]; [|done]. destruct (already_canonical _ _ _); [done|].
  destruct (try_attach _ _) as [c res] eqn:Et. unfold holds in Hr.
  assert (behind (rl_store r) c ∧ ∀ a, res = Ok a → chain_height (rl_chain r) ≤ bk_height b) as [Hc Hle].
  { destruct (try_attach_cases _ _ _ _ (be_chain _ _ Hr) Et) as [(_ & Ep)|[(e & -> & ->)|(a & -> & [_ Eh _ _ Hok _ Eh' _ _ _])]].
    - destruct res as [a|e]; [by destruct (behind_pushed _ _ _ _ _ Hr Ep)|].
      apply push_rejected in Ep as [s ->]. split; [by apply behind_state|done].
    - done.
    - split; [split; [apply Hr|done|rewrite Eh'; apply Hr]|]. intros _ _. by rewrite Eh. }
  destruct res as [a|e]; [|exact Hc]. cbn [rl_store with_chain].
  destruct (behind_refuses _ _ b (ab_hash a) (ab_gc_removed_domains a) c Hr (Hle a eq_refl)) as [e Ee]. by rewrite Ee.
Qed.

Lemma produce_batch_behind clock o fuel k cs r r' res k' :
  produce_batch clock o fuel k cs r = (r', res, k') → holds behind r → holds behind r'.
Proof.
  revert k cs r. induction fuel as [|fuel IH]; intros k [|tx cs] r; cbn [produce_batch]; try (by intros [= <- _ _]).
  destruct (candidate_block _ _ _) as [b|e]; [|by intros [= <- _ _]].
  destruct (push_block_with_gc _ b) as [c [a|e]] eqn:Ep; intros E Hr.
  - destruct (behind_pushed _ _ _ _ _ Hr Ep) as [Hc Hle]. cbn [rl_store with_chain] in E.
    destruct (behind_refuses _ _ b (ab_hash a) (ab_gc_removed_domains a) c Hr Hle) as [e Ee]. rewrite Ee in E. by injection E as <- _ _.
  - apply (IH _ _ _ E). apply push_rejected in Ep as [s ->]. by apply behind_state.
Qed.

Lemma produce_loop_behind clock o fuel k r : holds behind r → holds behind (produce_loop clock o fuel k r).1.
Proof.
  revert k r. induction fuel as [|fuel IH]; intros k r Hr; cbn [produce_loop]; (destruct (mempool_is_empty _); [done|]); [done|].
  destruct (drain_up_to _ _) as [m txs]. destruct (produce_batch _ _ _ _ _ _) as [[r2 res] k2] eqn:Eb.
  apply produce_batch_behind in Eb; [|done]. destruct res as [[]|e]; [done|by apply IH|done].
Qed.

Lemma step_behind o w r : holds behind r → holds behind (relay_step o w r).1.
Proof.
  intros Hr. apply (step_settled behind true); [exact behind_cache|exact behind_checkpoint|done|..|by left].
  - intros open e p b _ _. by apply accept_block_behind.
  - intros clock _ _. by apply produce_loop_behind.
Qed.
End behind.

Section stuck.
Context `{Crypto} `{RedbLaws} `{!Faults} `{Swarm}.

(** A store that fell behind never catches up.  Once the chain is
    two blocks above the tip of the store — one write failed, whose error
    is only logged, and the next block was refused because its height does
    not follow — no event makes the store advance: whatever the relay
    receives or produces, the store keeps its tip, and everything the
    chain accepts from then on is lost by a restart. *)
Theorem store_never_catches_up r r' h x d :
  represents (rl_store r) d → k_tip d = (h, x) → chain_ok (rl_chain r) → h + 1 < chain_height (rl_chain r) →
  relay_runs r r' → store_tip (rl_store r') = Ok (h, x) ∧ h + 1 < chain_height (rl_chain r').
Proof.
  intros Hd Ed Hc Hh Hr. assert (holds (behind h x) r') as Hb.
  { induction Hr as [|r' o w _ IH]; [split; [by exists d|done..]|]. by apply step_behind. }
  destruct Hb as [(d' & Hd' & Ed') _ Hh']. split; [|done]. rewrite <- Ed'. by apply rp_tip_row.
Qed.
End stuck.
