(* ===== verification/RelayProps.v ===== *)
(** * Properties of the relay *)

From S2P Require Import Prelude Bytes Crypto Commitment Smt Names Icann Codec Checkpoint Pow Tx Wire.
From S2P Require Import State StateSpec StateProofs StateProps Blocks BlocksProps Chain ForkChoice ChainProofs ChainProps ForkProps.
From S2P Require Import StateBytes Redb Store StoreSpec StorePaging StoreProofs StoreProps Persist PersistProofs.
From S2P Require Import Restart Mirror Resume RestartProps Signer Records Messages Mempool Anchor Relay Hex Dns RelayRpc.
From S2P Require Import RelayProofs.

(** ** Bounds *)

Section bounds.
Context `{Crypto} `{Redb} `{!Faults} `{Swarm}.

(** What a relay holds for others stays within fixed bounds. *)
Record within (capacity : nat) (r : Relay) : Prop := {
  wi_pool : pool_ok (rl_mempool r);
  wi_capacity : mp_capacity (rl_mempool r) = capacity;
  wi_pending : (size (al_pending (rl_anchor r)) ≤ MAX_PENDING_CHECKPOINTS)%nat;
  wi_waiters : (length (rl_dht_waiters r) ≤ MAX_DHT_WAITERS)%nat }.

(** A step that keeps the mempool, the waiters and the bound on pending
    checkpoints. *)
Lemma within_frame capacity r r' :
  within capacity r → rl_mempool r' = rl_mempool r → rl_dht_waiters r' = rl_dht_waiters r →
  (size (al_pending (rl_anchor r')) ≤ MAX_PENDING_CHECKPOINTS)%nat → within capacity r'.
Proof. intros [Hp Hc _ Hw] Em Ew Hpend. split; [by rewrite Em|by rewrite Em|done|by rewrite Ew]. Qed.

Lemma accept_block_within capacity o b from r : within capacity r → within capacity (accept_block o b from r).1.
Proof.
  intros Hr. unfold accept_block. destruct (header_hash _) as [x|e]; [|done]. destruct (already_canonical _ _ _); [done|].
  destruct (try_attach _ _) as [c [a|e]]; [|by eapply within_frame; [exact Hr|..]; try done; apply Hr].
  destruct (store_block_with_removals _ _ _ _ _) as [db [u|e]]; [|by eapply within_frame; [exact Hr|..]; try done; apply Hr].
  cbn [fst]. set (r1 := broadcast _ _ _). destruct (anchor_after_block_anchored o r1) as [_ _ Em _ _ Ew _].
  destruct (forget_included_ok (bk_transactions b) (rl_mempool r) (wi_pool _ _ Hr)) as [Hp Hc].
  split; rewrite ?Em, ?Ew; [exact Hp|etrans; [exact Hc|apply Hr]|apply anchor_after_block_pending|apply Hr].
Qed.

Lemma accept_transaction_within capacity tx from r : within capacity r → within capacity (accept_transaction tx from r).1.
Proof.
  intros Hr. unfold accept_transaction. set (checked := let? _ := validate_transaction tx in _).
  destruct checked as [id|e] eqn:Ek; [|done]. unfold checked in Ek.
  destruct (validate_transaction tx) as [[]|] eqn:Ev; [|done]. destruct (precheck_state _ _); [|done].
  destruct (transaction_id tx) as [i|] eqn:Ei; [|done]. cbn [rbind] in Ek. destruct (is_tx_included _ _); [done|]. injection Ek as ->.
  destruct (over_domain_cap tx _) eqn:Ecap; [done|].
  destruct (mempool_insert id tx (rl_mempool r)) as [m ins] eqn:Em.
  destruct (insert_ok _ _ _ _ _ (wi_pool _ _ Hr) Em Ev Ei Ecap) as [Hp Hc].
  assert (within capacity (Relay.with_mempool m r)) as Hw.
  { split; [exact Hp|etrans; [exact Hc|apply Hr]|apply Hr|apply Hr]. }
  destruct ins as [[]|[]]; [|exact Hw..]. by eapply within_frame; [exact Hw|..]; try done; apply Hr.
Qed.

Lemma accept_checkpoint_message_within capacity cp from r :
  within capacity r → within capacity (accept_checkpoint_message cp from r).1.
Proof.
  intros Hr. destruct (accept_checkpoint_message_anchored cp from r) as [_ _ Em _ _ Ew _].
  eapply within_frame; [exact Hr|done|done|]. apply accept_checkpoint_message_pending, Hr.
Qed.

Lemma within_same capacity r r' :
  within capacity r → rl_mempool r' = rl_mempool r → rl_dht_waiters r' = rl_dht_waiters r →
  rl_anchor r' = rl_anchor r → within capacity r'.
Proof. intros Hr Em Ew Ea. eapply within_frame; [done..|]. rewrite Ea. apply Hr. Qed.

Lemma continue_sync_within capacity peer h r : within capacity r → within capacity (continue_sync peer h r).
Proof.
  intros Hr. unfold continue_sync. destruct (rl_sync r !! peer); [|done]. destruct (_ =? _); [|done].
  by destruct (_ <? _); eapply within_same; [exact Hr|..].
Qed.

Lemma handle_peer_message_within capacity o peer m r : within capacity r → within capacity (handle_peer_message o peer m r).1.
Proof.
  intros Hr. destruct m; cbn [handle_peer_message]; try done.
  - by destruct (_ || _).
  - by destruct (find_block _ _ _).
  - pose proof (accept_block_within capacity o b (Some peer) r Hr) as Hb. destruct (accept_block _ _ _ _) as [r' [x|e]]; [|done].
    by apply continue_sync_within.
  - pose proof (accept_transaction_within capacity tx (Some peer) r Hr) as Ht. by destruct (accept_transaction _ _ _).
  - by destruct (dht_cache _ _).
  - destruct (verify_record_against_chain _ _); [|done]. destruct (enc _ _); [|done].
    destruct (put_dht_cache _ _ _) as [db res]. by eapply within_same; [exact Hr|..].
  - pose proof (accept_checkpoint_message_within capacity cp (Some peer) r Hr) as Hc. by destruct (accept_checkpoint_message _ _ _).
  - destruct (handle_get_checkpoints peer r) as [r' m] eqn:E. injection E as <- <-. by eapply within_same; [exact Hr|..].
Qed.

Lemma handle_peer_event_within capacity o open e r : within capacity r → within capacity (handle_peer_event o open e r).1.
Proof.
  intros Hr. destruct e as [peer|peer|peer m|peer m|peer]; cbn [handle_peer_event fst].
  - by eapply within_same; [exact Hr|..].
  - by eapply within_same; [exact Hr|..].
  - unfold handle_request. pose proof (handle_peer_message_within capacity o peer m r Hr) as Hm.
    destruct (handle_peer_message _ _ _ _) as [r' [x|e]]; [|done]. destruct open; [|done]. by eapply within_same; [exact Hm|..].
  - pose proof (handle_peer_message_within capacity o peer m r Hr) as Hm. by destruct (handle_peer_message _ _ _ _).
  - by eapply within_same; [exact Hr|..].
Qed.

Lemma length_swap_remove {A} i (l : list A) : length (swap_remove i l) = (length l - 1)%nat.
Proof.
  unfold swap_remove. destruct (last l) as [x|] eqn:E; [|apply last_None in E as ->; done].
  rewrite length_take, length_insert. lia.
Qed.

Lemma send_frame w response r : rl_mempool (send w response r) = rl_mempool r ∧
  rl_dht_waiters (send w response r) = rl_dht_waiters r ∧ rl_anchor (send w response r) = rl_anchor r.
Proof. unfold send. by destruct (dw_reply w). Qed.

Lemma handle_kad_within capacity q res r : within capacity r → within capacity (handle_kad q res r).
Proof.
  intros Hr. unfold handle_kad. destruct (list_find _ _) as [[i w]|]; [|done]. set (removed := with_waiters _ r).
  assert (within capacity removed) as Hrem.
  { split; [apply Hr|apply Hr|apply Hr|]. cbn. rewrite length_swap_remove. pose proof (wi_waiters _ _ Hr). lia. }
  assert (∀ resp r', within capacity r' → within capacity (send w resp r')) as Hs.
  { intros resp r' Hr'. destruct (send_frame w resp r') as (? & ? & ?). by eapply within_same. }
  destruct res as [key value| |]; [|by apply Hs|done]. destruct (negb _); [by apply Hs|].
  unfold resolve_found. destruct (decode_complete _ _) as [rec|e]; [|by apply Hs].
  destruct (verify_record_against_chain _ _); apply Hs; [|done]. by eapply within_same; [exact Hrem|..].
Qed.

Lemma expire_within capacity fuel i now r : within capacity r → within capacity (expire_from fuel i now r).
Proof.
  revert i r. induction fuel as [|fuel IH]; intros i r Hr; cbn [expire_from]; [done|].
  destruct (rl_dht_waiters r !! i) as [w|]; [|done]. destruct (_ <=? _); [|by apply IH]. apply IH.
  destruct (send_frame w RpcTimedOut (with_waiters (swap_remove i (rl_dht_waiters r)) r)) as (Em & Ew & Ea).
  split; rewrite ?Em, ?Ew, ?Ea; try apply Hr. cbn. rewrite length_swap_remove. pose proof (wi_waiters _ _ Hr). lia.
Qed.

Lemma dispatch_within capacity env rq r : within capacity r → within capacity (dispatch env rq r).1 ∧
  ∀ w, (dispatch env rq r).2 = Parked w → (length (rl_dht_waiters (dispatch env rq r).1) < MAX_DHT_WAITERS)%nat.
Proof.
  intros Hr. destruct rq as [|tx_hex|name|record_hex|name|name|name]; cbn [dispatch fst snd]; try done.
  - unfold submit_tx_hex. set (decoded := let? _ := _ in _). destruct decoded as [tx|e]; [|done].
    pose proof (accept_transaction_within capacity tx None r Hr) as Ht. by destruct (accept_transaction _ _ _).
  - unfold put_record_hex. set (decoded := let? _ := _ in _). destruct decoded as [rec|e]; [|done].
    destruct (negb (verify_record_against_chain _ _)); [done|]. destruct (enc _ _); [|done].
    destruct (negb (re_accepted env)); [split; [by eapply within_same; [exact Hr|..]|done]|].
    destruct (put_dht_cache _ _ _) as [db res]. split; [by eapply within_same; [exact Hr|..]|done].
  - destruct (Nat.leb_spec MAX_DHT_WAITERS (length (rl_dht_waiters r))); [done|]. unfold start_dht_get.
    destruct (requested name) as [id|e]; [|done]. split; [by eapply within_same; [exact Hr|..]|]. by intros w _.
Qed.

Lemma handle_command_within capacity env rq r : within capacity r → within capacity (handle_command env rq r).
Proof.
  intros Hr. unfold handle_command. destruct (dispatch_within capacity env rq r Hr) as [Hd Hp].
  destruct (dispatch env rq r) as [r' [response|w]]; cbn [fst snd] in *; [by eapply within_same; [exact Hd|..]|].
  split; [apply Hd..|]. cbn. rewrite length_app. cbn. specialize (Hp w eq_refl). lia.
Qed.

Lemma produce_loop_within capacity clock o fuel k r : within capacity r → within capacity (produce_loop clock o fuel k r).1.
Proof.
  revert k r. induction fuel as [|fuel IH]; intros k r Hr; cbn [produce_loop]; (destruct (mempool_is_empty _); [done|]); [done|].
  destruct (drain_up_to _ _) as [m txs] eqn:Ed. destruct (drain_ok _ _ _ _ (wi_pool _ _ Hr) Ed) as (Hp & Hc & _).
  set (r1 := Relay.with_mempool m r). assert (within capacity r1) as Hr1.
  { split; [exact Hp|etrans; [exact Hc|apply Hr]|apply Hr|apply Hr]. }
  destruct (produce_batch _ _ _ _ _ _) as [[r2 res] k2] eqn:Eb. apply produce_batch_frame in Eb as (Em & Ew & Hpend).
  assert (within capacity r2) as Hr2 by (eapply within_frame; [exact Hr1|done|done|apply Hpend, Hr1]).
  destruct res as [[]|e]; [done|by apply IH|done].
Qed.

Lemma step_within capacity o w r : within capacity r → within capacity (relay_step o w r).1.
Proof.
  intros Hr. destruct w; cbn [relay_step fst].
  - by apply handle_command_within.
  - by apply handle_peer_event_within.
  - by apply handle_kad_within.
  - by apply produce_loop_within.
  - by apply expire_within.
Qed.

Lemma runs_within capacity r0 r : within capacity r0 → relay_runs r0 r → within capacity r.
Proof. intros Hr. induction 1 as [|r o w _ IH]; [done|]. by apply step_within. Qed.

Lemma new_within capacity r store network anchor disk :
  Relay_new store network capacity anchor disk = Ok r →
  (size (al_pending anchor) ≤ MAX_PENDING_CHECKPOINTS)%nat → within capacity r.
Proof.
  intros E Ha. unfold Relay_new in E. destruct (map_err NeStorage _) as [c|]; [|done]. cbn [rbind] in E.
  destruct (negb _); [done|]. injection E as <-. split; [apply pool_ok_new|done|done|cbn; unfold MAX_DHT_WAITERS; lia].
Qed.

(** C30. A relay's memory is bounded.  From the start and through any
    events — hostile messages, requests, lookups, timers — the mempool
    holds at most its capacity, at most four transactions per namespace,
    each one valid and under its own identifier; at most 256 checkpoints
    are pending and at most 256 lookups parked. *)
Theorem relay_bounded r0 r store network capacity anchor disk :
  Relay_new store network capacity anchor disk = Ok r0 →
  (size (al_pending anchor) ≤ MAX_PENDING_CHECKPOINTS)%nat → relay_runs r0 r → within capacity r.
Proof. intros E Ha. apply runs_within. by eapply new_within. Qed.
End bounds.

(** ** Production *)

Section production.
Context `{Crypto} `{Redb} `{!Faults} `{Swarm}.

(** The anchor loop keeps the height. *)
Lemma anchored_height r r' : anchored r r' → chain_height (rl_chain r') = chain_height (rl_chain r).
Proof.
  intros [Hc _ _ _ _ _ _]. induction Hc as [|c1 c2 c3 (cp & res & E) _ IH]; [done|].
  rewrite IH. by apply accept_frame in E as (cps & f & ->).
Qed.

(** How a production ends: with the mempool emptied and no block, with one
    block made of some of the transactions that were pending — in their
    order, each one still valid — or with a failure of the store.  What was
    drained before is gone from the mempool either way. *)
Definition produced (clock : nat → N) (o : WriteOutcome) (r r' : Relay) (res : result NetworkError unit) : Prop :=
  match res with
  | Ok _ => ∃ m st,
      (r' = Relay.with_mempool m (with_chain (with_state st (rl_chain r)) r) ∧ queue m = []) ∨
      ∃ j st' txs, queue m `suffix_of` queue (rl_mempool r) ∧
        txs ≠ [] ∧ txs `sublist_of` (queue (rl_mempool r)).*2 ∧
        Forall (λ tx, still_valid (with_state st (rl_chain r)) tx = true) txs ∧
        block_made (clock j) o st' txs (Relay.with_mempool m (with_chain (with_state st (rl_chain r)) r)) r'
  | Err e => ∃ e', e = NeStorage e'
  end.

Lemma empty_queue m : pool_ok m → mempool_is_empty m = true ↔ queue m = [].
Proof.
  intros Hm. unfold mempool_is_empty. rewrite mempool_len_queue by apply Hm. rewrite Nat.eqb_eq. apply length_zero_iff_nil.
Qed.

Lemma with_own_chain r : with_chain (with_state (bc_state (rl_chain r)) (rl_chain r)) r = r.
Proof. by destruct r as [? [] ? ? ? ? ? ?]. Qed.

Lemma nothing_pending clock o r :
  pool_ok (rl_mempool r) → mempool_is_empty (rl_mempool r) = true → produced clock o r r (Ok tt).
Proof.
  intros Hm Hq%(empty_queue _ Hm). exists (rl_mempool r), (bc_state (rl_chain r)). left. split; [|done].
  rewrite with_own_chain. by destruct r.
Qed.

(** A round whose candidates were all dropped, then the rest. *)
Lemma produced_later clock o n m s r r' res :
  queue m = drop n (queue (rl_mempool r)) →
  produced clock o (with_chain (with_state s (rl_chain r)) (Relay.with_mempool m r)) r' res → produced clock o r r' res.
Proof.
  intros Eq. destruct res as [u|e]; [|done].
  intros (m' & st & [[-> Hq]|(j & st' & txs & Hsuf & Hne & Hsub & Hval & Hmade)]); exists m', st; [by left|right].
  exists j, st', txs. cbn in Hsuf, Hsub. rewrite Eq in Hsuf, Hsub. split_and!; [|done| |exact Hval|exact Hmade].
  - etrans; [exact Hsuf|]. exists (take n (queue (rl_mempool r))). symmetry. apply take_drop.
  - etrans; [exact Hsub|]. rewrite fmap_drop. apply sublist_drop.
Qed.

Lemma produce_loop_ends clock o fuel k r r' res :
  pool_ok (rl_mempool r) → (length (queue (rl_mempool r)) ≤ fuel)%nat →
  produce_loop clock o fuel k r = (r', res) → produced clock o r r' res.
Proof.
  revert k r. induction fuel as [|fuel IH]; intros k r Hm Hf; cbn [produce_loop];
    (destruct (mempool_is_empty _) eqn:Ee; [intros [= <- <-]; by apply nothing_pending|]).
  { apply Nat.le_0_r, length_zero_iff_nil, (empty_queue _ Hm) in Hf. congruence. }
  apply not_true_iff_false in Ee. rewrite (empty_queue _ Hm) in Ee.
  destruct (drain_up_to _ _) as [m txs] eqn:Ed. destruct (drain_ok _ _ _ _ Hm Ed) as (Hm' & _ & Eq & Etx & Hid).
  set (r1 := Relay.with_mempool m r). set (cs := filter _ txs).
  destruct (produce_batch _ _ _ _ cs r1) as [[r2 res2] k2] eqn:Eb.
  assert (length cs ≤ length txs)%nat as Hl by apply length_filter.
  assert (length txs ≤ N.to_nat MAX_TXS_PER_BLOCK)%nat as Hl' by (rewrite Etx, length_fmap, length_take; lia).
  assert (Forall identified cs) as Hcs.
  { apply Forall_forall. intros tx [_ Htx]%list_elem_of_filter. by apply (proj1 (Forall_forall _ _) Hid tx Htx). }
  pose proof (produce_batch_spec _ _ _ _ _ _ _ _ _ Eb ltac:(lia) Hcs ltac:(lia)) as Hs.
  destruct res2 as [[]|e]; [| |intros [= <- <-]; exact Hs].
  - intros [= <- <-]. destruct Hs as (j & st & l & Hne & Hpre & Hmade). exists m, (bc_state (rl_chain r)). right.
    exists j, st, l. assert (l `sublist_of` cs) as Hsub by (destruct Hpre as [rest ->]; by apply sublist_inserts_r).
    rewrite with_own_chain. split_and!; [| done | | |exact Hmade].
    + rewrite Eq. exists (take (N.to_nat MAX_TXS_PER_BLOCK) (queue (rl_mempool r))). symmetry. apply take_drop.
    + etrans; [exact Hsub|]. etrans; [apply sublist_filter|]. rewrite Etx, fmap_take. apply sublist_take.
    + apply Forall_forall. intros tx Htx. apply (sublist_subseteq _ _ Hsub) in Htx. apply list_elem_of_filter in Htx as [Hv _].
      by destruct r as [? [] ? ? ? ? ? ?].
  - destruct Hs as [s ->]. intros E. apply IH in E; [by eapply produced_later|done|].
    cbn. rewrite Eq, length_drop. assert (0 < N.to_nat MAX_TXS_PER_BLOCK)%nat by (unfold MAX_TXS_PER_BLOCK; lia).
    destruct (queue (rl_mempool r)); [done|cbn in *; lia].
Qed.

(** C29. Production ends, and how.  When the timer fires on a relay whose
    mempool is well formed, both loops of [produce_if_ready] come to an end
    — running out of rounds would be [NeDiverged], which is not among the
    results — in one of three ways.  Every drained transaction was dropped,
    the mempool is empty and nothing else changed but a state that was
    rolled back.  Or one block was made: of a nonempty choice of the
    pending transactions, in their order and each one still valid; the chain
    accepted it, the store took it, and it was broadcast and given to the
    anchor loop.  Or the store failed.  No candidate block can fail to be
    built, whatever the clock shows. *)
Theorem production_ends clock o r r' res :
  pool_ok (rl_mempool r) → produce_if_ready clock o r = (r', res) → produced clock o r r' res.
Proof. intros Hm. apply produce_loop_ends; [done|]. by rewrite <- mempool_len_queue by apply Hm. Qed.
End production.

(** ** Records *)

Section records.
Context `{Crypto} `{RedbLaws} `{!Faults} `{Swarm}.
#[local] Existing Instances laws_heights laws_bytes.

(** A record the chain commits to: the live domain it names has its owner,
    its sequence number and its hash. *)
Definition committed (c : Blockchain) (record : SignedDnsRecord) : Prop :=
  ∃ st, cs_domain (bc_state c) (dr_domain_id (sr_record record)) = Some st ∧ ds_owner st = sr_owner record ∧
    ds_sequence st = dr_sequence (sr_record record) ∧
    is_Some (ds_record_hash st) ∧ record_hash_of (sr_record record) = ds_record_hash st.

Lemma verify_committed c record : verify_record_against_chain c record = true ↔ committed c record.
Proof.
  unfold verify_record_against_chain, committed, arr_eqb. destruct (cs_domain _ _) as [st|]; [|split; [done|by intros (? & ? & _)]].
  case_bool_decide as Ho; cbn [negb]; [|split; [done|by intros (? & [= <-] & ? & _)]].
  destruct (N.eqb_spec (ds_sequence st) (dr_sequence (sr_record record))); cbn [negb];
    [|split; [done|by intros (? & [= <-] & _ & ? & _)]].
  destruct (ds_record_hash st) as [x|] eqn:Ex.
  - rewrite bool_decide_eq_true. split.
    + intros E. exists st. rewrite Ex. split_and!; try done.
    + intros (st' & [= <-] & _ & _ & _ & E). congruence.
  - split; [done|]. intros (st' & [= <-] & _ & _ & [y Ey] & _). congruence.
Qed.

(** What the DNS server gets for a record set. *)
Definition wire_records (rs : list RecordData) : list (N * list byte) :=
  omap (λ rd, '(tc, rdata) ← encode_rdata rd; if tc <? 2 ^ 16 then Some (tc, rdata) else None) rs.

Lemma wire_resolved rs :
  omap (λ '(tc, _, text), if tc <? 2 ^ 16 then pair tc <$> decode_hex_static text else None) (omap encode_rdata_pub rs) =
    wire_records rs.
Proof.
  induction rs as [|rd rs IH]; [done|]. unfold wire_records. cbn [omap list_omap]. unfold encode_rdata_pub at 1.
  destruct (encode_rdata rd) as [[tc rdata]|]; cbn [mbind option_bind]; [|exact IH]. cbn [omap list_omap].
  unfold decode_hex_static. rewrite hex_roundtrip. cbn [fmap option_fmap option_map].
  destruct (tc <? 2 ^ 16); [f_equal|]; exact IH.
Qed.

Lemma cached_records_committed id r : cached_records id r ≠ [] →
  ∃ bytes record, dht_cache id (rl_store r) = Some bytes ∧ decode_complete (dec SignedDnsRecord_c) bytes = Ok record ∧
    committed (rl_chain r) record ∧ cached_records id r = dr_records (sr_record record).
Proof.
  unfold cached_records. destruct (dht_cache _ _) as [bytes|]; [|done]. destruct (decode_complete _ _) as [record|] eqn:Ed; [|done].
  destruct (verify_record_against_chain _ _) eqn:Ev; [|done]. intros _. exists bytes, record. split_and!; try done.
  by apply verify_committed.
Qed.

(** C31. What the relay tells its DNS server.  The resolver fails exactly
    on a text that is no name, knows no name exactly when the domain is not
    live on the chain, and otherwise gives every record, byte for byte, of
    the record set cached under the domain, provided the chain commits to
    that set now — the right owner, sequence number and hash — and nothing
    if it does not. *)
Theorem resolver_serves_committed name r :
  match DomainName_new name with
  | Err _ => dns_resolver r name = Err tt
  | Ok n =>
      let id := DomainId_from_name n in
      match cs_domain (bc_state (rl_chain r)) id with
      | None => dns_resolver r name = Ok None
      | Some _ => ∃ rs, dns_resolver r name = Ok (Some (mkResolved (wire_records rs) true)) ∧
          (rs ≠ [] → ∃ bytes record, dht_cache id (rl_store r) = Some bytes ∧
             decode_complete (dec SignedDnsRecord_c) bytes = Ok record ∧ committed (rl_chain r) record ∧
             rs = dr_records (sr_record record)) ∧
          (∀ bytes record, dht_cache id (rl_store r) = Some bytes → decode_complete (dec SignedDnsRecord_c) bytes = Ok record →
             committed (rl_chain r) record → rs = dr_records (sr_record record))
      end
  end.
Proof.
  unfold dns_resolver, resolve_local, requested. destruct (DomainName_new name) as [n|e]; cbn [rmap map_err rbind]; [|done].
  destruct (cs_domain _ _) as [st|] eqn:Est; cbn [rbind]; [|done].
  exists (cached_records (DomainId_from_name n) r). rewrite wire_resolved. split_and!; [done|apply cached_records_committed|].
  intros bytes record Eb Ed Hc. unfold cached_records. rewrite Eb, Ed. by rewrite (proj2 (verify_committed _ _) Hc).
Qed.

Lemma put_cache_get id record db :
  (put_dht_cache id record db).2 = Ok tt → dht_cache id (put_dht_cache id record db).1 = Some record.
Proof.
  unfold put_dht_cache, transact. destruct (_ <? _); [done|]. destruct (begin_write db); [done|].
  unfold tbind, tret, db_insert. destruct (tb_insert _ _ _) as [t previous] eqn:Et. cbn [rbind]. destruct (commit _); [done|]. intros _.
  unfold dht_cache, db_get. cbn [fst]. assert (∀ u, d_get _ DHT_CACHE (d_set _ DHT_CACHE u db) = u) as -> by (intros u; by destruct db).
  assert (t = (tb_insert (arr_list id) record (d_get _ DHT_CACHE db)).1) as -> by by rewrite Et.
  rewrite view_get, view_insert. apply lookup_insert_eq.
Qed.

(** C32. A lookup accepts the record of any domain.  Whatever domain a
    client asked for, a DHT value under its key that decodes to a record of
    some other domain the chain commits to — one the sender owns, say — is
    answered to the client as verified and cached under the domain that was
    asked for, which from then on resolves to the other domain's records:
    the identifier inside the record is compared with nothing. *)
Theorem lookup_takes_any_record q i w value record r :
  list_find (λ w, dw_id w = q) (rl_dht_waiters r) = Some (i, w) →
  decode_complete (dec SignedDnsRecord_c) value = Ok record → committed (rl_chain r) record →
  (put_dht_cache (dw_domain_id w) value (rl_store r)).2 = Ok tt →
  let r' := handle_kad q (FoundRecord (arr_list (dw_domain_id w)) value) r in
  (∀ client, dw_reply w = Some client → rl_outbox r' = rl_outbox r ++ [Reply client (RpcRecord value)]) ∧
  cached_records (dw_domain_id w) r' = dr_records (sr_record record).
Proof.
  intros Hf Ed Hc Hp. unfold handle_kad. rewrite Hf. rewrite bool_decide_eq_true_2 by done. cbn [negb].
  unfold resolve_found. rewrite Ed. cbn [rl_chain with_waiters rl_store]. rewrite (proj2 (verify_committed _ _) Hc).
  split.
  - intros client Ew. unfold send. by rewrite Ew.
  - set (r2 := with_store _ _). assert (cached_records (dw_domain_id w) (send w (RpcRecord value) r2) = cached_records (dw_domain_id w) r2) as ->.
    { unfold send. by destruct (dw_reply w). }
    unfold cached_records, r2. cbn [rl_store with_store rl_chain with_waiters]. rewrite (put_cache_get _ _ _ Hp), Ed.
    by rewrite (proj2 (verify_committed _ _) Hc).
Qed.
End records.
