(* ===== verification/RestartScenario.v ===== *)
(** * Concrete stores

    A node on the test network, computed under the toy primitives and
    tables that are maps: the theorems about the store, persistence and
    restart are applied to it, and an execution that loses a domain on
    restart is exhibited. *)

From S2P Require Import Prelude Bytes Crypto Commitment Smt Names Icann Codec Checkpoint Pow Tx Wire.
From S2P Require Import State StateSpec StateProofs StateProps Blocks BlocksProps Chain ChainProofs ChainProps.
From S2P Require Import ChainScenario StateBytes Redb Store StoreSpec StorePaging StoreProofs StoreProps.
From S2P Require Import Persist PersistProofs Restart Mirror Resume RestartProps.

Module RestartScenario.
Import ChainScenario ToyRedb.
#[local] Existing Instance Toy.crypto.

#[local] Existing Instance Block_eq_dec.

(** A disk that accepts every transaction. *)
#[local] Instance no_faults : Faults := {| begin_write _ := None; commit _ := None |}.

(** ** A node *)

Definition proof_of (challenge : list byte) (difficulty : N) : Proof_ :=
  match mine 5000 NetworkId_TESTNET challenge difficulty with Some p => encode_proof p | None => no_pow end.
Definition claim_tld : Transaction :=
  signed_tx alice (λ s, TxRegisterTld
    (register_tld_on NetworkId_TESTNET tld 0 (proof_of (TLD_ID_VERSION ++ tld) (tld_pow_difficulty TESTNET)) alice s)).
Definition site : DomainName := ascii "a.uip".
Definition register_site : Transaction :=
  signed_tx alice (λ s, TxRegisterDomain (register_domain_on NetworkId_TESTNET site 0
    (proof_of (DOMAIN_ID_VERSION ++ site) (domain_pow_difficulty TESTNET)) alice s)).
Definition assign_site : Transaction :=
  signed_tx alice (λ s, TxAssignDomain (assign_domain_on NetworkId_TESTNET site (owner_of alice) alice s)).

Definition k0 : Blockchain := chain_for_network TESTNET.
Definition q0 : Registry := empty_registry TESTNET.
(** The first block comes more than a term after genesis. *)
Definition first : Block := make alice 0 (bc_tip k0) 40000000 [claim_tld; set_open true; register_site].
Definition k1 : Blockchain := (push_block_with_gc k0 first).1.
Definition q1 : Registry := (block_outcome k0 q0 first).1.
Definition second : Block := make alice 1 (bc_tip k1) 40000001 [assign_site].
Definition k2 : Blockchain := (push_block_with_gc k1 second).1.

Definition applied (c : Blockchain) (b : Block) : AppliedBlock :=
  default (mkAppliedBlock (arr_zero 32) []) (to_option (push_block_with_gc c b).2).
Definition stored (c : Blockchain) (b : Block) (db : Db) : Db * result StorageError unit :=
  store_block_with_removals (push_block_with_gc c b).1 b (ab_hash (applied c b)) (ab_gc_removed_domains (applied c b)) db.
Definition db0 : Db := (store_open empty_db).1.
Definition db1 : Db := (stored k0 first db0).1.
Definition db2 : Db := (stored k1 second db1).1.

(** The conditions of a stored push, as a test. *)
Definition canonicalb (b : Block) : bool :=
  match enc Block_c b with
  | Ok bytes => match decode_complete (dec Block_c) bytes with Ok b' => eqb b' b | Err _ => false end
  | Err _ => false
  end.
Definition roomb {A} (m : gmap hash A) : bool := count m + MAX_TXS_PER_BLOCK <? U64.
Definition storableb (c : Blockchain) (r : Registry) (b : Block) (a : AppliedBlock) : bool :=
  canonicalb b && block_collision_free c r b &&
  forallb (λ id, bool_decide (r_domains (block_outcome c r b).1 !! id = None)) (ab_gc_removed_domains a) &&
  roomb (r_domains r) && roomb (r_tlds r).

Lemma canonicalb_sound b : canonicalb b = true → Block_wf b.
Proof.
  unfold canonicalb. destruct (enc Block_c b) as [bytes|]; [|done].
  destruct (decode_complete (dec Block_c) bytes) as [b'|] eqn:E; [|done]. intros ->%eqb_true.
  by apply (@decode_complete_canonical _ Block_c Block_lawful) in E as [? _].
Qed.

Lemma storableb_sound c r b a : storableb c r b a = true → storable c r b a.
Proof.
  unfold storableb, roomb. rewrite !andb_true_iff. intros ((((Hw & Hf) & Hg) & HD%N.ltb_lt) & HT%N.ltb_lt).
  split; [by apply canonicalb_sound|done| |done|done]. intros id Hid. rewrite forallb_forall in Hg.
  apply list_elem_of_In, Hg in Hid. by apply bool_decide_eq_true in Hid.
Qed.

Lemma run_stored db c r b :
  node_run db c r → is_ok (push_block_with_gc c b).2 = true → storableb c r b (applied c b) = true →
  is_ok (stored c b db).2 = true → node_run (stored c b db).1 (push_block_with_gc c b).1 (block_outcome c r b).1.
Proof.
  intros Hr Hp Hs Ht. unfold stored, applied in *.
  apply (node_block db c r b (push_block_with_gc c b).1 (applied c b)); [done| |by apply storableb_sound|].
  - unfold applied. destruct (push_block_with_gc c b) as [c' [a|e]]; done.
  - unfold applied. destruct (store_block_with_removals _ _ _ _ _) as [db' [[]|e]]; done.
Qed.

Lemma stored_ok (p : Db * result StorageError unit) : is_ok p.2 = true → p = (p.1, Ok tt).
Proof. by destruct p as [db [[]|e]]. Qed.

Lemma first_run : all [is_ok (store_open empty_db).2; is_ok (push_block_with_gc k0 first).2;
  storableb k0 q0 first (applied k0 first); is_ok (stored k0 first db0).2] = true.
Proof. by_eval. Qed.

Lemma node_db1 : node_run db1 k1 q1.
Proof.
  destruct (all_true _ first_run) as (E1 & E2 & E3 & E4 & _).
  exact (run_stored db0 k0 q0 first (node_new db0 (stored_ok _ E1)) E2 E3 E4).
Qed.
Lemma store_mirrors_chain_witness :
  node_run db1 k1 q1 ∧ store_tip db1 = Ok (chain_height k1, bc_tip k1) ∧
  domain_count db1 = Ok (cs_domain_count (bc_state k1)).
Proof.
  split; [exact node_db1|]. destruct (store_mirrors_chain db1 k1 q1 node_db1) as (E1 & _ & _ & E2 & _).
  split; [exact E1|exact E2].
Defined.

Lemma restart_restores_chain_witness :
  node_run db1 k1 q1 ∧ ∃ c', load_chain db1 TESTNET = Ok c' ∧ bc_tip c' = bc_tip k1.
Proof.
  split; [exact node_db1|]. destruct (restart_restores_chain db1 k1 q1 node_db1) as (c' & E1 & _ & _ & E2 & _).
  exists c'. split; [exact E1|exact E2].
Defined.

Lemma k1_height : (0 <? chain_height k1) && (chain_height k1 <=? SNAPSHOT_INTERVAL) = true.
Proof. by_eval. Qed.

Lemma k1_short : 0 < chain_height k1 ≤ SNAPSHOT_INTERVAL.
Proof. pose proof k1_height as [E1%N.ltb_lt E2%N.leb_le]%andb_true_iff. split; [exact E1|exact E2]. Qed.

Lemma restart_forgets_validators_witness :
  node_run db1 k1 q1 ∧ ∃ c', load_chain db1 TESTNET = Ok c' ∧ eligible_validators (bc_state c') = [].
Proof.
  split; [exact node_db1|].
  destruct (restart_forgets_validators db1 k1 q1 node_db1 k1_short) as (c' & E1 & _ & _ & _ & _ & E2 & _).
  exists c'. split; [exact E1|exact E2].
Defined.

(** ** Expired and registered again by one block *)

Definition site_id : DomainId := DomainId_from_name site.
Definition restart (db : Db) : Blockchain := default k0 (to_option (load_chain db TESTNET)).

Definition absent {A} (r : result StorageError (option A)) : bool := match r with Ok None => true | _ => false end.
Lemma absent_true {A} (r : result StorageError (option A)) : absent r = true → r = Ok None.
Proof. by destruct r as [[]|]. Qed.
Lemma loaded db : is_ok (load_chain db TESTNET) = true → load_chain db TESTNET = Ok (restart db).
Proof. unfold restart. by destruct (load_chain db TESTNET). Qed.
Definition somewhere {A} (o : option A) : bool := match o with Some _ => true | None => false end.
Lemma somewhere_true {A} (o : option A) : somewhere o = true → ∃ a, o = Some a.
Proof. destruct o; [eauto|done]. Qed.
Lemma somewhere_false {A} (o : option A) : negb (somewhere o) = true → o = None.
Proof. by destruct o. Qed.

Lemma relost_run : all [is_ok (push_block_with_gc k1 second).2; is_ok (stored k1 second db1).2;
  somewhere (cs_domain (bc_state k2) site_id); absent (domain_state site_id db2); is_ok (load_chain db2 TESTNET);
  arr_eqb (bc_tip (restart db2)) (bc_tip k2); negb (somewhere (cs_domain (bc_state (restart db2)) site_id));
  negb (arr_eqb (state_root_smt (bc_state (restart db2))) (state_root_smt (bc_state k2)))] = true.
Proof. by_eval. Qed.

(** On this node the state root that a restart loads is another one too. *)
Lemma relost_root :
  load_chain db2 TESTNET = Ok (restart db2) ∧ bc_tip (restart db2) = bc_tip k2 ∧
  state_root_smt (bc_state (restart db2)) ≠ state_root_smt (bc_state k2).
Proof.
  destruct (all_true _ relost_run) as (_ & _ & _ & _ & E5 & E6 & _ & E8 & _).
  split; [exact (loaded _ E5)|]. split; [exact (arr_eqb_true _ _ E6)|exact (arr_eqb_false _ _ E8)].
Qed.

(** The conditions of the theorem, as a test. *)
Lemma relost_conditions : all [canonicalb second; block_collision_free k1 q1 second; roomb (r_domains q1); roomb (r_tlds q1);
  bool_decide (site_id ∈ ab_gc_removed_domains (applied k1 second)); chain_height k2 <=? SNAPSHOT_INTERVAL] = true.
Proof. by_eval. Qed.

Lemma pushed_applied c b : is_ok (push_block_with_gc c b).2 = true →
  push_block_with_gc c b = ((push_block_with_gc c b).1, Ok (applied c b)).
Proof. unfold applied. by destruct (push_block_with_gc c b) as [c' [a|e]]. Qed.

Lemma reregistered_domain_lost_witness :
  node_run db1 k1 q1 ∧ site_id ∈ ab_gc_removed_domains (applied k1 second) ∧
  domain_state site_id db2 = Ok None ∧
  ∃ c2, load_chain db2 TESTNET = Ok c2 ∧ bc_tip c2 = bc_tip k2 ∧ cs_domain (bc_state c2) site_id = None.
Proof.
  destruct (all_true _ relost_run) as (E1 & E2 & E3 & _). destruct (somewhere_true _ E3) as [st Est].
  destruct (all_true _ relost_conditions) as (C1 & C2 & C3 & C4 & C5 & C6 & _).
  pose proof (bool_decide_eq_true_1 _ C5) as Hin.
  destruct (reregistered_domain_lost db1 k1 q1 second k2 (applied k1 second) db2 site_id st node_db1 (pushed_applied k1 second E1)
    (canonicalb_sound _ C1) C2 (proj1 (N.ltb_lt _ _) C3) (proj1 (N.ltb_lt _ _) C4) (stored_ok _ E2) Hin Est)
    as (_ & Hd & _ & Hl).
  destruct (Hl (proj1 (N.leb_le _ _) C6)) as (c2 & L1 & _ & L3 & L4 & _).
  split; [exact node_db1|]. split; [exact Hin|]. split; [exact Hd|]. exists c2.
  split; [exact L1|]. split; [exact L3|exact L4].
Defined.
End RestartScenario.
