(* ===== verification/StoreScenario.v ===== *)
(** * A concrete store

    The theorems about the store and about restart, applied to tables
    that are maps, under the toy primitives. *)

From S2P Require Import Prelude Bytes Crypto Commitment Smt Names Icann Codec Checkpoint Pow Tx Wire.
From S2P Require Import State StateSpec Blocks Chain ChainScenario StateBytes Redb Store StoreSpec StorePaging.
From S2P Require Import StoreProofs StoreProps Persist RestartProps RestartScenario.

Module StoreScenario.
Import ChainScenario ToyRedb RestartScenario.
#[local] Existing Instance Toy.crypto.
#[local] Existing Instance no_faults.

Definition site_state : DomainStateBytes := DomainStateBytes_from (mkDomainState (owner_of alice) 0 None 1 2).
Definition shop_id : DomainId := DomainId_from_name (ascii "b.uip").

(** Two domains, one with its name, and a free metadata value. *)
Definition writes : list Write :=
  [WPutDomain site_id site_state (Some site); WPutDomain shop_id site_state None;
   WMetaSet (ascii "peers") [x01; x02]].

Definition disk_run (ws : list Write) (d : Disk) : Disk :=
  fold_left (λ d w, default d (to_option (disk_write w d))) ws d.
Definition store_runs (ws : list Write) (db : Db) : Db := fold_left (λ db w, (store_write w db).1) ws db.

Definition dbw : Db := store_runs writes db0.
Definition dw : Disk := disk_run writes fresh_disk.

Lemma open_db0 : store_open empty_db = (db0, Ok tt).
Proof. apply stored_ok. by_eval. Qed.
Lemma represents_db0 : represents db0 fresh_disk.
Proof. apply open_fresh, open_db0. Qed.

(** The writes of this scenario are well formed when the tables have
    room and the names are text. *)
Definition name_okb (n : list byte) : bool := negb (length n =? 0)%nat && utf8_valid n.
Definition write_okb (w : Write) (d : Disk) : bool :=
  match w with
  | WPutDomain id st name =>
      (count (k_domains d) + 1 <? U64) && match name with Some n => name_okb n | None => true end
  | WMetaSet _ _ => true
  | _ => false
  end.
Lemma name_okb_sound n : name_okb n = true → name_ok n.
Proof. unfold name_okb. rewrite andb_true_iff. intros [Hn Hu]. split; [by intros ->|done]. Qed.

Lemma run_ok db d w :
  store_run db d → write_okb w d && is_ok (store_write w db).2 && is_ok (disk_write w d) = true →
  store_run (store_write w db).1 (default d (to_option (disk_write w d))).
Proof.
  intros Hr [[Hw Es]%andb_true_iff Ed]%andb_true_iff. apply (run_write db d w); [done|..].
  - destruct w as [|id st name| | | | | |]; try done. cbn [write_okb] in Hw. apply andb_true_iff in Hw as [Hc%N.ltb_lt Hn].
    split; [done|]. intros n ->. by apply name_okb_sound.
  - by destruct w.
  - by apply stored_ok.
  - by destruct (disk_write w d).
Qed.

Lemma runs_ok ws db d :
  store_run db d →
  (fix ok ws db d := match ws with
    | [] => true
    | w :: ws => write_okb w d && is_ok (store_write w db).2 && is_ok (disk_write w d) &&
        ok ws (store_write w db).1 (default d (to_option (disk_write w d)))
    end) ws db d = true →
  store_run (store_runs ws db) (disk_run ws d).
Proof.
  revert db d. induction ws as [|w ws IH]; intros db d Hr; [done|]. intros [E1 E2]%andb_true_iff.
  apply (IH _ _ (run_ok _ _ _ Hr E1) E2).
Qed.

Lemma dbw_run : store_run dbw dw.
Proof. apply runs_ok; [apply run_open, open_db0|by_eval]. Qed.
Lemma dbw_represents : represents dbw dw.
Proof. exact (run_represents _ _ dbw_run). Qed.

Lemma store_refines_disk_witness :
  represents db0 fresh_disk ∧
  (refused db0 (store_write (WPutDomain site_id site_state (Some site)) db0) ∨
   match disk_write (WPutDomain site_id site_state (Some site)) fresh_disk with
   | Ok d' => ∃ db', store_write (WPutDomain site_id site_state (Some site)) db0 = (db', Ok tt) ∧ represents db' d'
   | Err e => store_write (WPutDomain site_id site_state (Some site)) db0 = (db0, Err e)
   end).
Proof.
  split; [exact represents_db0|]. apply (store_refines_disk db0 fresh_disk); [exact represents_db0|].
  split; [done|]. intros n [= <-]. apply name_okb_sound. by_eval.
Defined.

Lemma dw_size : (size (k_domains dw) <? 3)%nat && (size (k_domains dw) =? 2)%nat = true.
Proof. by_eval. Qed.

Lemma pages_enumerate_witness :
  represents dbw dw ∧
  for_pages (N.to_nat 1) 3 (λ cursor, iterate_domains cursor 1 dbw) (λ acc e, Ok (acc ++ [e])) None [] =
    Some (rfold (λ acc e, Ok (acc ++ [e])) (listed_domains (k_domains dw)) []).
Proof.
  split; [exact dbw_represents|].
  apply (pages_enumerate dbw dw _ 1 3 (λ acc e, Ok (acc ++ [e])) [] dbw_represents); [split; done|].
  pose proof dw_size as [E%Nat.ltb_lt _]%andb_true_iff. exact E.
Defined.

Lemma store_history_witness : store_run dbw dw ∧ domain_count dbw = Ok (count (k_domains dw)).
Proof. split; [exact dbw_run|]. apply (store_history dbw dw dbw_run). Defined.

(** ** Another network *)

Definition above_genesis (r : result StorageError (N * hash)) : bool :=
  match r with Ok (h, _) => negb (h =? 0) | Err _ => false end.
Lemma above_genesis_true r : above_genesis r = true → ∃ h x, r = Ok (h, x) ∧ h ≠ 0.
Proof. destruct r as [[h x]|e]; [|done]. intros E. exists h, x. split; [done|]. by intros ->. Qed.

Lemma db1_tip : above_genesis (store_tip db1) = true.
Proof. by_eval. Qed.

Lemma mainnet_differs : np_network_id MAINNET ≠ np_network_id TESTNET.
Proof. intros E%(f_equal (λ id, nth 6 (arr_list (nid_bytes id)) x00)). discriminate E. Qed.

Lemma other_network_never_restarts_witness :
  (∃ h x, store_tip db1 = Ok (h, x) ∧ h ≠ 0) ∧ is_ok (load_chain db1 MAINNET) = false.
Proof.
  split; [exact (above_genesis_true _ db1_tip)|].
  destruct (above_genesis_true _ db1_tip) as (h & x & E1 & E2).
  apply (other_network_never_restarts db1 MAINNET h x); [exact mainnet_differs|exact E1|exact E2].
Defined.
End StoreScenario.
