(* ===== verification/SnapshotScenario.v ===== *)
(** * A concrete snapshot

    The names of a state with two domains and a TLD, exported against a
    checkpoint and imported into a new store, under the toy primitives. *)

From S2P Require Import Prelude Bytes Crypto Smt SmtBinding Names Codec Checkpoint Tx Wire State StateSpec StateProofs StateProps StateBinding.
From S2P Require Import Blocks Chain ChainScenario StateBytes Redb Store StoreSpec StoreProofs StoreProps Persist Restart Mirror RestartScenario.
From S2P Require Import Snapshot SnapshotProofs SnapshotTransfer SnapshotProps.

Module SnapshotScenario.
Import ChainScenario ToyRedb RestartScenario.
#[local] Existing Instances Toy.crypto no_faults.

Notation live := StateProps.Scenario.s.
Notation names := StateProps.Scenario.r.
Definition at_height : N := 64.
Definition at_block : hash := arr_of 32 [x0b].
Definition trusted : Checkpoint :=
  mkCheckpoint (mkCheckpointData 1 at_height at_block (arr_zero 32) (state_root_smt live) 0) [].
Definition manifest : VerifiedSnapshotManifest := exported_manifest trusted at_height at_block names.
Definition pages : list (list byte) := map Page_encode (exported_pages trusted at_height names).
Definition checked : result StorageError Imported := import_checked db0 trusted manifest pages.
Notation imported := (import_verified_snapshot db0 trusted manifest pages).

Definition on_checked (f : Imported → bool) (im : result StorageError Imported) : bool :=
  match im with Ok im => f im | Err _ => false end.
Lemma on_checked_true f p im : p = Ok im → on_checked f p = true → f im = true.
Proof. by intros ->. Qed.

Lemma import_run : all [is_ok (store_open empty_db).2; is_ok imported.2; (length pages =? 1)%nat;
  on_checked (λ im, injective_onb
    (root_preimages (entries_smt (im_domains_dec im) (im_tlds_dec im)) (im_domains_dec im) (im_tlds_dec im) ++
      registry_preimages live names)) checked;
  mf_domain_count manifest =? 2; mf_tld_count manifest =? 1] = true.
Proof. by_eval. Qed.

Lemma new_store : StoreSpec.represents db0 fresh_disk.
Proof. destruct (all_true _ import_run) as (E & _). exact (open_fresh db0 (stored_ok _ E)). Qed.

Lemma import_injective im : import_checked db0 trusted manifest pages = Ok im →
  injective_on (root_preimages (entries_smt (im_domains_dec im) (im_tlds_dec im)) (im_domains_dec im) (im_tlds_dec im) ++
    registry_preimages live names).
Proof.
  intros E. destruct (all_true _ import_run) as (_ & _ & _ & E4 & _). exact (injective_onb_sound _ (on_checked_true _ _ im E E4)).
Qed.

Lemma is_ok_res (p : Db * result StorageError unit) : is_ok p.2 = true → p.2 = Ok tt.
Proof. by destruct p as [db [[]|e]]. Qed.
Lemma pair_eta {A B} (p : A * B) : p = (p.1, p.2).
Proof. by destruct p. Qed.

Lemma import_authentic_witness :
  store_tip imported.1 = Ok (at_height, at_block) ∧
  ∀ id, tld_state id imported.1 = Ok (TldStateBytes_from <$> r_tlds names !! id).
Proof.
  destruct (all_true _ import_run) as (_ & E2 & _).
  destruct StateProps.Scenario.s_r as (Hs & Hok & Hc).
  destruct (import_authentic db0 fresh_disk trusted manifest pages live names imported.1 imported.2 new_store eq_refl eq_refl
    ltac:(by vm_compute) ltac:(by vm_compute) ltac:(by vm_compute) Hs Hok Hc eq_refl import_injective (pair_eta _)) as [_ Hi].
  destruct (Hi (is_ok_res _ E2)) as (Ht & _ & Hl). split; [exact Ht|exact Hl].
Defined.
End SnapshotScenario.
