(* ===== verification/RelayScenario.v ===== *)
(** * A concrete relay

    A relay on the test network, computed under the toy primitives and
    tables that are maps: the theorems about the relay are applied to it,
    and an execution that stores a block on top of another than its parent
    is exhibited. *)

From S2P Require Import Prelude Bytes Crypto Commitment Smt Names Icann Codec Checkpoint Pow Tx Wire.
From S2P Require Import State StateSpec StateProofs StateProps Blocks BlocksProps Chain ForkChoice ChainProofs ChainProps ForkProps.
From S2P Require Import ChainScenario StateBytes Redb Store StoreSpec StorePaging StoreProofs StoreProps.
From S2P Require Import Persist PersistProofs Restart Mirror Resume RestartProps RestartScenario.
From S2P Require Import Signer Records Messages Mempool Anchor Relay Hex Dns RelayRpc RelayProofs RelayMirror RelayProps.

Module RelayScenario.
Import ChainScenario ToyRedb RestartScenario.
#[local] Existing Instances Toy.crypto no_faults Block_eq_dec.

#[local] Instance numbers : Swarm := {| PeerId := N; QueryId := N; Client := N |}.

Definition no_file : Signer.Disk := Signer.mkDisk None None.
Definition idle (c : Blockchain) (db : Db) : Relay := mkRelay db c (Mempool_new 10) [] ∅ [] passive no_file [].
Definition r0 : Relay := idle k0 db0.
Definition receives (b : Block) (r : Relay) : Relay :=
  (relay_step WriteFails (WakePeer true (Request (7 : N) (MsgBlock b))) r).1.

(** A sister of [first], without transactions, and a block on top of it. *)
Definition sister : Block := make alice 0 (bc_tip k0) 40000010 [].
Definition r1 : Relay := receives first r0.
Definition r2 : Relay := receives sister r1.
Definition third : Block := make alice 1 (bc_tip (rl_chain r2)) 40000011 [].
Definition r3 : Relay := receives third r2.
Definition c3 : Blockchain := restart (rl_store r3).

Lemma node_db0 : node_run db0 k0 q0.
Proof. destruct (all_true _ first_run) as (E1 & _). exact (node_new db0 (stored_ok _ E1)). Qed.

(** A new file starts the genesis chain. *)
Lemma new_chain : load_chain db0 TESTNET = Ok k0.
Proof. unfold load_chain. by rewrite (run_tip _ _ _ node_db0). Qed.

Lemma start_r0 : Relay_new db0 TESTNET 10 passive no_file = Ok r0.
Proof. unfold Relay_new. by rewrite new_chain. Qed.

Lemma runs_receives b r : relay_runs r0 r → relay_runs r0 (receives b r).
Proof. apply runs_step. Qed.

Lemma runs_r3 : relay_runs r0 r3.
Proof. apply runs_receives, runs_receives, runs_receives, runs_start. Qed.

Lemma sister_run : all [is_ok (load_chain (rl_store r3) TESTNET);
  arr_eqb (bc_tip c3) (bc_tip (rl_chain r3)); somewhere (cs_domain (bc_state c3) site_id);
  negb (somewhere (cs_domain (bc_state (rl_chain r3)) site_id));
  negb (arr_eqb (state_root_smt (bc_state c3)) (state_root_smt (bc_state (rl_chain r3))))] = true.
Proof. by_eval. Qed.

(** The whole way, from a new file: the relay runs on with a chain and a
    store of one tip and two states, and a restart loads the domains of
    the abandoned block. *)
Theorem sister_restart :
  ∃ db start r c (id : DomainId) st,
    store_open empty_db = (db, Ok tt) ∧ Relay_new db TESTNET 10 passive no_file = Ok start ∧ relay_runs start r ∧
    load_chain (rl_store r) TESTNET = Ok c ∧ bc_tip c = bc_tip (rl_chain r) ∧
    cs_domain (bc_state c) id = Some st ∧ cs_domain (bc_state (rl_chain r)) id = None ∧
    state_root_smt (bc_state c) ≠ state_root_smt (bc_state (rl_chain r)).
Proof.
  destruct (all_true _ sister_run) as (E1 & E2 & E3 & E4 & E5 & _). destruct (somewhere_true _ E3) as [st Est].
  destruct (all_true _ first_run) as (E0 & _).
  exists db0, r0, r3, c3, site_id, st. split; [exact (stored_ok _ E0)|]. split; [exact start_r0|]. split; [exact runs_r3|].
  split; [exact (loaded _ E1)|]. split; [exact (arr_eqb_true _ _ E2)|]. split; [exact Est|].
  split; [exact (somewhere_false _ E4)|exact (arr_eqb_false _ _ E5)].
Qed.

(** The same on a relay that has just started on the stored block. *)
Definition other : Blockchain := (try_attach k1 sister).1.
Definition next : Block := make alice 1 (bc_tip other) 40000011 [].

Lemma sister_steps : all [is_ok (try_attach k1 sister).2; negb (arr_eqb (bh_prev_hash (bk_header sister)) (bc_tip k1));
  is_ok (push_block_with_gc other next).2; canonicalb next; roomb (r_domains q1); roomb (r_tlds q1);
  is_ok (stored other next db1).2] = true.
Proof. by_eval. Qed.

Lemma canonical_ok b : canonicalb b = true → block_ok b.
Proof.
  intros Hc. apply Block_encodes. split; [by apply canonicalb_sound|]. revert Hc. unfold canonicalb.
  change (enc Block_c b) with (Block_encode b). destruct (Block_encode b) as [bytes|]; [by exists bytes|done].
Qed.

Lemma not_refused db (res : Db * result StorageError unit) P : is_ok res.2 = true → refused db res ∨ P → P.
Proof. by intros Ho [(e & -> & _)|?]. Qed.

Lemma sister_corrupts_store_witness :
  node_run db1 k1 q1 ∧
  (∃ e, relay_step WriteFails (WakePeer true (Request (7 : N) (MsgBlock sister))) (idle k1 db1) =
    (with_chain other (idle k1 db1), Err (NeStorage e))) ∧
  ∃ db below, stored other next db1 = (db, Ok tt) ∧
    store_tip db = Ok (chain_height (push_block_with_gc other next).1, bc_tip (push_block_with_gc other next).1) ∧
    block_announcing (chain_height (push_block_with_gc other next).1 - 1) db = Ok below ∧
    header_hash (bk_header below) = Ok (bc_tip k1) ∧ bh_prev_hash (bk_header next) ≠ bc_tip k1.
Proof.
  destruct (all_true _ sister_steps) as (E1 & E2 & E3 & E4 & E5 & E6 & E7 & _). destruct (is_ok_pair _ E1) as [a Ea].
  destruct (sister_corrupts_store (idle k1 db1) q1 WriteFails true (7 : N) sister other a node_db1 (arr_eqb_false _ _ E2) Ea)
    as (Hs & _ & _ & _ & Hn).
  pose proof (not_refused _ _ _ E7 (Hn next _ _ (pushed_applied other next E3) (canonical_ok _ E4)
    (proj1 (N.ltb_lt _ _) E5) (proj1 (N.ltb_lt _ _) E6))) as (db & below & H1 & H2 & _ & H4 & H5 & H6 & _).
  split; [exact node_db1|]. split; [exact Hs|]. exists db, below.
  split; [exact H1|]. split; [exact H2|]. split; [exact H4|]. split; [exact H5|exact H6].
Defined.

(** ** The theorems, applied *)

Lemma relay_bounded_witness :
  Relay_new db0 TESTNET 10 passive no_file = Ok r0 ∧ relay_runs r0 r3 ∧ within 10 r3.
Proof.
  split; [exact start_r0|]. split; [exact runs_r3|].
  apply (relay_bounded r0 r3 db0 TESTNET 10 passive no_file start_r0); [apply Nat.leb_le; reflexivity|exact runs_r3].
Defined.

(** A block that expires nothing is safe. *)
Lemma safe_on_new db c reg b a : node_run db c reg → storable c reg b a → r_domains reg = ∅ → safe c reg b.
Proof.
  intros Hr [Hwf Hf _ HD HT] He s c1 Hs. split; [exact Hf|]. intros c' a' Ep. split; [exact Hwf|exact Hf| |exact HD|exact HT].
  intros id Hid. exfalso. pose proof Hwf as [(_ & _ & Ht) _].
  destruct (push_accepted c1 reg b c' a') as (r' & Hacc); [|exact Hs|exact Ht| |exact Ep|].
  - eapply chain_ok_frame; [..|exact (node_chain_ok _ _ _ Hr)]; done.
  - apply run_block_free, Hf.
  - apply (ac_removed _ _ _ _ _ _ Hacc) in Hid as (st & E & _). by rewrite He, lookup_empty in E.
Qed.

Lemma safe_request r reg open p b : safe (rl_chain r) reg b → safe_wake r reg (WakePeer open (Request p (MsgBlock b))).
Proof. by intros Hs p' b' [[= _ <-]|[=]]. Qed.

Lemma safe_first : safe k0 q0 first.
Proof.
  destruct (all_true _ first_run) as (_ & _ & E & _).
  exact (safe_on_new db0 k0 q0 first (applied k0 first) node_db0 (storableb_sound _ _ _ _ E) eq_refl).
Qed.

Definition first_wake : Wake := WakePeer true (Request (7 : N) (MsgBlock first)).
Lemma first_wake_ok : negb (storage_error (relay_step WriteFails first_wake r0).2) = true.
Proof. by_eval. Qed.
Lemma first_wake_safe : safe_wake r0 q0 first_wake.
Proof. exact (safe_request r0 q0 true (7 : N) first safe_first). Qed.

Lemma relay_keeps_store_witness :
  safe_wake r0 q0 first_wake ∧
  ∃ reg, node_run (rl_store (relay_step WriteFails first_wake r0).1) (rl_chain (relay_step WriteFails first_wake r0).1) reg.
Proof.
  split; [exact first_wake_safe|].
  exact (relay_keeps_store WriteFails first_wake r0 q0 node_db0 (pool_ok_new 10) first_wake_safe
    (proj1 (negb_true_iff _) first_wake_ok)).
Defined.

(** A relay with a transaction to include. *)
Definition ready : Relay := (accept_transaction claim_tld None r0).1.

Lemma ready_pool : pool_ok (rl_mempool ready).
Proof.
  refine (wi_pool 10 ready (accept_transaction_within 10 claim_tld None r0 _)).
  apply (new_within 10 r0 db0 TESTNET passive no_file start_r0), Nat.leb_le. reflexivity.
Qed.

Lemma ready_chain : chain_ok (rl_chain ready).
Proof.
  exact (eq_ind_r chain_ok (chain_for_network_ok TESTNET) (proj2 (accept_transaction_frame claim_tld None r0))).
Qed.

Lemma pair_of {A B} (p : A * B) : p = (p.1, p.2).
Proof. by destruct p. Qed.

Definition clock (k : nat) : N := 40000000.
Notation made := (produce_if_ready clock WriteFails ready).
Lemma made_run : all [negb (mempool_is_empty (rl_mempool ready)); is_ok made.2; chain_height (rl_chain made.1) =? 1] = true.
Proof. by_eval. Qed.
Lemma production_ends_witness :
  mempool_is_empty (rl_mempool ready) = false ∧ chain_height (rl_chain made.1) = 1 ∧ produced clock WriteFails ready made.1 made.2.
Proof.
  destruct (all_true _ made_run) as (E1 & _ & E2 & _).
  split; [exact (proj1 (negb_true_iff _) E1)|]. split; [exact (proj1 (N.eqb_eq _ _) E2)|].
  exact (production_ends clock WriteFails ready _ _ ready_pool (pair_of made)).
Defined.

(** ** A store that fell behind *)

Lemma db0_opened : represents db0 fresh_disk.
Proof. destruct (all_true _ first_run) as (E & _). exact (open_fresh db0 (stored_ok _ E)). Qed.

Lemma push_ok c b : chain_ok c → chain_ok (push_block_with_gc c b).1.
Proof. intros Hc. eapply chain_step_ok; [exact Hc|]. by eapply step_push, pair_of. Qed.

(** The first two blocks were not written. *)
Definition lagging : Relay := idle k2 db0.
Lemma lagging_ahead : (0 + 1 <? chain_height (rl_chain lagging)) = true.
Proof. by_eval. Qed.
Lemma store_never_catches_up_witness :
  represents (rl_store lagging) fresh_disk ∧ relay_runs lagging (receives third lagging) ∧
  store_tip (rl_store (receives third lagging)) = Ok (0, genesis_hash_bytes).
Proof.
  split; [exact db0_opened|]. split; [exact (runs_step _ _ _ _ (runs_start lagging))|].
  refine (proj1 (store_never_catches_up lagging (receives third lagging) 0 genesis_hash_bytes fresh_disk db0_opened eq_refl _
    (proj1 (N.ltb_lt _ _) lagging_ahead) (runs_step _ _ _ _ (runs_start lagging)))).
  exact (push_ok k1 second (push_ok k0 first (chain_for_network_ok TESTNET))).
Defined.

(** ** A record under another key *)

Definition bobs : DomainName := ascii "b.uip".
Definition asked : DomainName := ascii "a.uip".
Definition bob_records : DnsRecord := mkDnsRecord (DomainId_from_name bobs) 1 5000 [RdTxt (ascii "from bob")].
Definition update_bobs : Transaction :=
  signed_tx bob (λ s, TxUpdateDomain (update_domain_on NetworkId_TESTNET (DomainId_from_name bobs) 1
    (default (arr_zero 32) (record_hash_of bob_records)) bob s)).
Definition d1 : Blockchain := (push_block_with_gc c1 (make alice 1 (bc_tip c1) 1010 [update_bobs])).1.
Definition bob_record : SignedDnsRecord := mkSignedDnsRecord bob_records (owner_of bob) [].
Definition value : list byte := match enc SignedDnsRecord_c bob_record with Ok v => v | Err _ => [] end.
Definition waiter : DhtWaiter := mkWaiter (1 : N) (DomainId_from_name asked) (Some (5 : N)) 0.
Definition waiting : Relay := with_waiters [waiter] (idle d1 db0).
Definition decoded : SignedDnsRecord := match decode_complete (dec SignedDnsRecord_c) value with Ok r => r | Err _ => bob_record end.

Lemma lookup_run : all [is_ok (decode_complete (dec SignedDnsRecord_c) value); verify_record_against_chain d1 decoded;
  is_ok (put_dht_cache (DomainId_from_name asked) value db0).2;
  eqb (dr_records (sr_record decoded)) [RdTxt (ascii "from bob")];
  negb (arr_eqb (dr_domain_id (sr_record decoded)) (DomainId_from_name asked))] = true.
Proof. by_eval. Qed.

Lemma value_decoded : is_ok (decode_complete (dec SignedDnsRecord_c) value) = true →
  decode_complete (dec SignedDnsRecord_c) value = Ok decoded.
Proof. unfold decoded. by destruct (decode_complete (dec SignedDnsRecord_c) value). Qed.
Lemma is_ok_unit {E} (r : result E unit) : is_ok r = true → r = Ok tt.
Proof. by destruct r as [[]|]. Qed.

Notation served := (handle_kad (1 : N) (FoundRecord (arr_list (DomainId_from_name asked)) value) waiting).
Lemma lookup_takes_any_record_witness :
  dr_domain_id (sr_record decoded) ≠ DomainId_from_name asked ∧
  cached_records (DomainId_from_name asked) served = [RdTxt (ascii "from bob")].
Proof.
  destruct (all_true _ lookup_run) as (E1 & E2 & E3 & E4 & E5 & _).
  split; [exact (arr_eqb_false _ _ E5)|].
  rewrite <- (eqb_true _ _ E4).
  exact (proj2 (lookup_takes_any_record (1 : N) 0 waiter value decoded waiting eq_refl
    (value_decoded E1) (proj1 (verify_committed d1 decoded) E2) (is_ok_unit _ E3))).
Defined.
End RelayScenario.
