(* ===== verification/Keystore.v ===== *)
(** * The keystore ([scone-keystore]: [lib.rs]; [scone]: [identity.rs])

    Key files: their format, creating, overwriting, opening and restoring
    them, the listing of a directory, and the names of identities.  Argon2,
    XChaCha20-Poly1305 and BIP39 are third-party and parameters; the file
    system is a map, and what an access does is an argument. *)

From S2P Require Import Prelude Bytes Crypto Names Codec.

(** The third-party primitives. *)
Class Sealing := {
  (** [Params::new] and [Argon2::hash_password_into], Argon2id with the
      default parallelism: passphrase, salt, memory in KiB, iterations;
      [None] when the parameters are refused. *)
  argon2id : list byte → arr 16 → N → N → option (arr 32);
  (** [XChaCha20Poly1305]: key, nonce, text. *)
  xchacha_encrypt : arr 32 → arr 24 → list byte → option (list byte);
  xchacha_decrypt : arr 32 → arr 24 → list byte → option (list byte);
  (** [bip39::Mnemonic]: from entropy, to words, from a trimmed text, to a
      seed of 64 bytes. *)
  Mnemonic : Type;
  from_entropy : arr 32 → option Mnemonic;
  phrase_of : Mnemonic → list (list byte);
  parse_phrase : list byte → option Mnemonic;
  to_seed : Mnemonic → arr 64 }.

Definition SEPARATOR : byte := x20.
(** [Vec::join] with a space between. *)
Fixpoint join_words (ws : list (list byte)) : list byte :=
  match ws with
  | [] => []
  | [w] => w
  | w :: ws => w ++ SEPARATOR :: join_words ws
  end.

(** What their documentation promises: the default parameters are
    accepted; a sealed text is 16 bytes longer and opens; words read back. *)
Class SealingLaws `{Sealing} : Prop := {
  argon2_default p s : is_Some (argon2id p s (64 * 1024) 3);
  seal_total k n t : is_Some (xchacha_encrypt k n t);
  seal_length k n t c : xchacha_encrypt k n t = Some c → length c = (length t + 16)%nat;
  seal_open k n t c : xchacha_encrypt k n t = Some c → xchacha_decrypt k n c = Some t;
  phrase_read m : parse_phrase (join_words (phrase_of m)) = Some m }.

(** [scone-keystore/src/lib.rs:51-51 KEYFILE_EXTENSION] *)
Definition KEYFILE_EXTENSION : list byte := ascii "sconekey".
(** [scone-keystore/src/lib.rs:54-54 MAGIC] *)
Definition MAGIC : list byte := ascii "SCONEKEY1".
(** [scone-keystore/src/lib.rs:57-57 VERSION] *)
Definition VERSION : byte := x01.
(** [scone-keystore/src/lib.rs:63-63 DEFAULT_M_COST_KIB] *)
Definition DEFAULT_M_COST_KIB : N := 64 * 1024.
(** [scone-keystore/src/lib.rs:66-66 DEFAULT_T_COST] *)
Definition DEFAULT_T_COST : N := 3.
(** [scone-keystore/src/lib.rs:72-72 SALT_LEN] *)
Definition SALT_LEN : nat := 16.
(** [scone-keystore/src/lib.rs:75-75 NONCE_LEN] *)
Definition NONCE_LEN : nat := 24.
(** [scone-keystore/src/lib.rs:78-78 CIPHERTEXT_LEN] *)
Definition CIPHERTEXT_LEN : nat := 32 + 16.
(** [scone-keystore/src/lib.rs:81-81 KEYFILE_LEN] *)
Definition KEYFILE_LEN : nat := length MAGIC + 3 + SALT_LEN + NONCE_LEN + CIPHERTEXT_LEN.

(** [scone-keystore/src/lib.rs:85-123 Error]: without the texts. *)
Inductive KeystoreError :=
| InvalidFile
| KsUnsupportedVersion (v : N)
| InvalidParams (m_cost_kib t_cost : N)
| WrongPassphrase
| Kdf
| Cipher
| KsIo
| KeyfileExists (path : list byte).

(** [scone-keystore/src/lib.rs:143-149 KeyfileParts] *)
Record KeyfileParts := mkParts {
  kp_m_cost_kib : N;
  kp_t_cost : N;
  kp_salt : arr 16;
  kp_nonce : arr 24;
  kp_ciphertext : list byte }.

(** The byte at an index that is in range. *)
Definition byte_at (i : nat) (bytes : list byte) : byte := default x00 (bytes !! i).

(** [scone-keystore/src/lib.rs:152-197 parse_keyfile] *)
Definition parse_keyfile (bytes : list byte) : result KeystoreError KeyfileParts :=
  if negb (length bytes =? KEYFILE_LEN)%nat then Err InvalidFile
  else if negb (bool_decide (take (length MAGIC) bytes = MAGIC)) then Err InvalidFile
  else
    let cursor := length MAGIC in
    let version := byte_at cursor bytes in
    if negb (byte_eqb version VERSION) then Err (KsUnsupportedVersion (Byte.to_N version))
    else
      let m_cost_kib := Byte.to_N (byte_at (cursor + 1) bytes) * 1024 in
      let t_cost := Byte.to_N (byte_at (cursor + 2) bytes) in
      if (N.max DEFAULT_M_COST_KIB 1024 <? m_cost_kib) || (t_cost =? 0) || (10 <? t_cost)
      then Err (InvalidParams m_cost_kib t_cost)
      else
        let cursor := (cursor + 3)%nat in
        let salt := arr_of 16 (take SALT_LEN (drop cursor bytes)) in
        let cursor := (cursor + SALT_LEN)%nat in
        let nonce := arr_of 24 (take NONCE_LEN (drop cursor bytes)) in
        let cursor := (cursor + NONCE_LEN)%nat in
        Ok (mkParts m_cost_kib t_cost salt nonce (drop cursor bytes)).

(** The files of the machine, by path; those that cannot be read are
    absent. *)
Notation Files := (gmap (list byte) (list byte)).

(** [scone-keystore/src/lib.rs:249-254 CreateMode] *)
Inductive CreateMode := NoClobber | Overwrite.

(** What the operating system does: whether the random bytes, the
    directories, the opening and the permissions succeed, and how much is
    written before an error, if there is one. *)
Record KeyIo := mkKeyIo {
  io_random : option (arr 16 * arr 24);
  io_dirs : bool;
  io_open : bool;
  io_permissions : bool;
  io_written : option nat }.

(** [scone-keystore/src/lib.rs:308-347 write_private_file]: opening
    creates the file, or empties it. *)
Definition write_private_file (io : KeyIo) (path bytes : list byte) (mode : CreateMode) (files : Files)
    : Files * result KeystoreError unit :=
  match mode, files !! path with
  | NoClobber, Some _ => (files, Err (KeyfileExists path))
  | _, _ =>
      if negb (io_open io) then (files, Err KsIo)
      else if negb (io_permissions io) then (<[path := []]> files, Err KsIo)
      else
        match io_written io with
        | Some n => (<[path := take n bytes]> files, Err KsIo)
        | None => (<[path := bytes]> files, Ok tt)
        end
  end.

Section keystore.
Context `{Sealing} `{Crypto}.

(** [scone-keystore/src/lib.rs:203-217 try_derive_key] *)
Definition try_derive_key (passphrase : list byte) (salt : arr 16) (m_cost_kib t_cost : N) : result KeystoreError (arr 32) :=
  ok_or (argon2id passphrase salt m_cost_kib t_cost) Kdf.

(** The bytes of a key file. *)
Definition keyfile_bytes (salt : arr 16) (nonce : arr 24) (ciphertext : list byte) : list byte :=
  MAGIC ++ [VERSION; byte_of_N (DEFAULT_M_COST_KIB / 1024); byte_of_N DEFAULT_T_COST] ++
  arr_list salt ++ arr_list nonce ++ ciphertext.

(** [scone-keystore/src/lib.rs:275-291 write_keyfile]: a seed, sealed. *)
Definition sealed_keyfile (passphrase : list byte) (salt : arr 16) (nonce : arr 24) (seed : SigningKey)
    : result KeystoreError (list byte) :=
  let? key := try_derive_key passphrase salt DEFAULT_M_COST_KIB DEFAULT_T_COST in
  let? ciphertext := ok_or (xchacha_encrypt key nonce (arr_list seed)) Cipher in
  Ok (keyfile_bytes salt nonce ciphertext).

(** [scone-keystore/src/lib.rs:257-301 write_keyfile]: [generated] is the
    key that [SigningKey::generate] draws. *)
Definition write_keyfile (io : KeyIo) (generated : SigningKey) (path passphrase : list byte) (mode : CreateMode)
    (files : Files) : Files * result KeystoreError SigningKey :=
  match io_random io with
  | None => (files, Err KsIo)
  | Some (salt, nonce) =>
      match sealed_keyfile passphrase salt nonce generated with
      | Err e => (files, Err e)
      | Ok file =>
          if negb (io_dirs io) then (files, Err KsIo)
          else let '(files, res) := write_private_file io path file mode files in (files, rmap (λ _, generated) res)
      end
  end.

(** [scone-keystore/src/lib.rs:234-236 create] *)
Definition create (io : KeyIo) (generated : SigningKey) (path passphrase : list byte) (files : Files) :=
  write_keyfile io generated path passphrase NoClobber files.
(** [scone-keystore/src/lib.rs:244-246 create_overwriting] *)
Definition create_overwriting (io : KeyIo) (generated : SigningKey) (path passphrase : list byte) (files : Files) :=
  write_keyfile io generated path passphrase Overwrite files.

(** [scone-keystore/src/lib.rs:356-383 open] *)
Definition open_keyfile (path passphrase : list byte) (files : Files) : result KeystoreError SigningKey :=
  let? bytes := ok_or (files !! path) KsIo in
  let? parts := parse_keyfile bytes in
  let? key := try_derive_key passphrase (kp_salt parts) (kp_m_cost_kib parts) (kp_t_cost parts) in
  let? plaintext := ok_or (xchacha_decrypt key (kp_nonce parts) (kp_ciphertext parts)) WrongPassphrase in
  match to_arr 32 plaintext with
  | None => Err InvalidFile
  | Some seed => Ok seed
  end.

(** ** Recovery phrases *)

(** The first half of the seed. *)
Definition phrase_key (m : Mnemonic) : SigningKey := arr_of 32 (take 32 (arr_list (to_seed m))).

(** [scone-keystore/src/lib.rs:770-805 write_derived_keyfile]: no directory
    is created. *)
Definition write_derived_keyfile (io : KeyIo) (path passphrase : list byte) (signing_key : SigningKey) (mode : CreateMode)
    (files : Files) : Files * result KeystoreError unit :=
  match io_random io with
  | None => (files, Err KsIo)
  | Some (salt, nonce) =>
      match sealed_keyfile passphrase salt nonce signing_key with
      | Err e => (files, Err e)
      | Ok file => write_private_file io path file mode files
      end
  end.

(** [scone-keystore/src/lib.rs:710-740 create_with_phrase_overwriting]: with
    the entropy that is drawn. *)
Definition create_with_phrase_overwriting (io : KeyIo) (entropy : option (arr 32)) (path passphrase : list byte)
    (mode : CreateMode) (files : Files) : Files * result KeystoreError (SigningKey * list (list byte)) :=
  match entropy with
  | None => (files, Err KsIo)
  | Some entropy =>
      match from_entropy entropy with
      | None => (files, Err KsIo)
      | Some m =>
          let '(files, res) := write_derived_keyfile io path passphrase (phrase_key m) mode files in
          (files, rmap (λ _, (phrase_key m, phrase_of m)) res)
      end
  end.
(** [scone-keystore/src/lib.rs:698-703 create_with_phrase] *)
Definition create_with_phrase (io : KeyIo) (entropy : option (arr 32)) (path passphrase : list byte) (files : Files) :=
  create_with_phrase_overwriting io entropy path passphrase NoClobber files.

(** [scone-keystore/src/lib.rs:750-766 restore_from_phrase]: of a trimmed
    phrase. *)
Definition restore_from_phrase (io : KeyIo) (path passphrase phrase : list byte) (files : Files)
    : Files * result KeystoreError SigningKey :=
  match parse_phrase phrase with
  | None => (files, Err KsIo)
  | Some m =>
      let '(files, res) := write_derived_keyfile io path passphrase (phrase_key m) Overwrite files in
      (files, rmap (λ _, phrase_key m) res)
  end.
End keystore.

(** ** Listing a directory *)

Definition DOT_BYTE : byte := x2e.

(** [Path::file_stem] and [Path::extension] of a file name: split at the
    last dot, unless nothing stands before it. *)
Fixpoint split_last_dot (name : list byte) : option (list byte * list byte) :=
  match name with
  | [] => None
  | b :: name =>
      match split_last_dot name with
      | Some (stem, ext) => Some (b :: stem, ext)
      | None => if byte_eqb b DOT_BYTE then Some ([], name) else None
      end
  end.
Definition stem_and_extension (name : list byte) : option (list byte * list byte) :=
  match split_last_dot name with
  | Some ([], _) | None => None
  | Some p => Some p
  end.

Definition ascii_lower (b : byte) : byte :=
  let n := Byte.to_N b in if (65 <=? n) && (n <=? 90) then byte_of_N (n + 32) else b.

(** A directory entry: its name, whether it is a file, and whether it could
    be read. *)
Record DirEntry := mkEntry { de_name : list byte; de_is_file : bool; de_readable : bool }.

(** The identity of an entry; a name that is not UTF-8 is skipped. *)
Definition entry_identity (e : DirEntry) : option (list byte) :=
  if negb (de_is_file e) then None
  else
    '(stem, ext) ← stem_and_extension (de_name e);
    if negb (utf8_valid ext && bool_decide (map ascii_lower ext = KEYFILE_EXTENSION)) then None
    else if utf8_valid stem then Some stem else None.

(** [scone-keystore/src/lib.rs:403-436 list]: the names; [None], for a
    directory that is not there, and [Some (Err _)], for one that cannot be
    read. *)
Definition list_identities (dir : option (result KeystoreError (list DirEntry))) : result KeystoreError (list (list byte)) :=
  match dir with
  | None => Ok []
  | Some (Err e) => Err e
  | Some (Ok entries) =>
      if forallb de_readable entries then Ok (merge_sort bytes_le (omap entry_identity entries)) else Err KsIo
  end.

(** ** Names of identities *)

Fixpoint has_suffix (suffix l : list byte) : bool :=
  bool_decide (l = suffix) || match l with [] => false | _ :: l => has_suffix suffix l end.

Definition contains_byte (b : byte) (l : list byte) : bool := existsb (byte_eqb b) l.
Definition starts_with_dot (l : list byte) : bool := match l with b :: _ => byte_eqb b DOT_BYTE | [] => false end.

(** [scone/src/identity.rs:52-65 validate_identity_name] *)
Definition validate_identity_name (name : list byte) : bool :=
  negb (bool_decide (name = []) || bool_decide (name = [DOT_BYTE]) || bool_decide (name = [DOT_BYTE; DOT_BYTE]) ||
        contains_byte x2f name || contains_byte x5c name || contains_byte x00 name || starts_with_dot name ||
        has_suffix (DOT_BYTE :: KEYFILE_EXTENSION) name).

(** [scone/src/identity.rs:39-41 keyfile_path]: the name of the file in the
    directory. *)
Definition keyfile_name (name : list byte) : list byte := name ++ DOT_BYTE :: KEYFILE_EXTENSION.
