(* ===== verification/KeystoreProps.v ===== *)
(** * Properties of the keystore *)

From S2P Require Import Prelude Bytes Crypto Names Codec Keystore.

(** ** The format *)

Definition keyfile_layout (m t : byte) (salt : arr 16) (nonce : arr 24) (ciphertext : list byte) : list byte :=
  MAGIC ++ [VERSION; m; t] ++ arr_list salt ++ arr_list nonce ++ ciphertext.

(** What a file may claim: at most 64 MiB, one to ten iterations. *)
Definition kdf_bounded (m t : byte) : Prop := Byte.to_N m ≤ 64 ∧ 1 ≤ Byte.to_N t ≤ 10.

Lemma layout_length m t salt nonce ct :
  length (keyfile_layout m t salt nonce ct) = (52 + length ct)%nat.
Proof. unfold keyfile_layout. rewrite !length_app, !arr_length. cbn. lia. Qed.

Lemma bounded_test m t : kdf_bounded m t ↔
  (N.max DEFAULT_M_COST_KIB 1024 <? Byte.to_N m * 1024) || (Byte.to_N t =? 0) || (10 <? Byte.to_N t) = false.
Proof.
  unfold kdf_bounded. rewrite !orb_false_iff, !N.ltb_ge, N.eqb_neq. change (N.max DEFAULT_M_COST_KIB 1024) with 65536. lia.
Qed.

Lemma arr_of_own {n} (a : arr n) : arr_of n (arr_list a) = a.
Proof.
  unfold arr_of. rewrite take_app_length' by by rewrite arr_length. by rewrite to_arr_arr.
Qed.

Lemma arr_of_exact {n} (l : list byte) : length l = n → arr_list (arr_of n l) = l.
Proof. intros (a & _ & <-)%to_arr_is_Some. by rewrite arr_of_own. Qed.

(** The tests of the header, on a text that is split already. *)
Lemma parse_header v m t rest : length rest = (SALT_LEN + NONCE_LEN + CIPHERTEXT_LEN)%nat →
  parse_keyfile (MAGIC ++ v :: m :: t :: rest) =
    if negb (byte_eqb v VERSION) then Err (KsUnsupportedVersion (Byte.to_N v))
    else if (N.max DEFAULT_M_COST_KIB 1024 <? Byte.to_N m * 1024) || (Byte.to_N t =? 0) || (10 <? Byte.to_N t)
    then Err (InvalidParams (Byte.to_N m * 1024) (Byte.to_N t))
    else Ok (mkParts (Byte.to_N m * 1024) (Byte.to_N t) (arr_of 16 (take SALT_LEN rest))
               (arr_of 24 (take NONCE_LEN (drop SALT_LEN rest))) (drop (SALT_LEN + NONCE_LEN) rest)).
Proof.
  intros Hl. unfold parse_keyfile.
  assert (length (MAGIC ++ v :: m :: t :: rest) = KEYFILE_LEN) as -> by (rewrite length_app; cbn [length]; rewrite Hl; done).
  rewrite Nat.eqb_refl. cbn [negb]. rewrite bool_decide_eq_true_2 by done. cbn [negb].
  change (byte_at (length MAGIC) (MAGIC ++ v :: m :: t :: rest)) with v.
  change (byte_at (length MAGIC + 1) (MAGIC ++ v :: m :: t :: rest)) with m.
  change (byte_at (length MAGIC + 2) (MAGIC ++ v :: m :: t :: rest)) with t.
  destruct (negb _); [done|]. destruct (_ || _); [done|].
  change (drop (length MAGIC + 3 + SALT_LEN + NONCE_LEN) (MAGIC ++ v :: m :: t :: rest)) with (drop (SALT_LEN + NONCE_LEN) rest).
  change (drop (length MAGIC + 3 + SALT_LEN) (MAGIC ++ v :: m :: t :: rest)) with (drop SALT_LEN rest).
  change (drop (length MAGIC + 3) (MAGIC ++ v :: m :: t :: rest)) with rest. done.
Qed.

Lemma parse_layout m t salt nonce ct : length ct = CIPHERTEXT_LEN → kdf_bounded m t →
  parse_keyfile (keyfile_layout m t salt nonce ct) = Ok (mkParts (Byte.to_N m * 1024) (Byte.to_N t) salt nonce ct).
Proof.
  intros Hl Hb%bounded_test. unfold keyfile_layout. cbn [app]. rewrite parse_header.
  2:{ rewrite !length_app, !arr_length, Hl. done. }
  rewrite (proj2 (byte_eqb_eq VERSION VERSION) eq_refl), Hb. cbn [negb]. do 2 f_equal.
  - rewrite take_app_length' by by rewrite arr_length. apply arr_of_own.
  - rewrite drop_app_length' by by rewrite arr_length. rewrite take_app_length' by by rewrite arr_length. apply arr_of_own.
  - rewrite <- drop_drop, (drop_app_length' (arr_list salt)) by by rewrite arr_length. by rewrite drop_app_length' by by rewrite arr_length.
Qed.

(** C40. A key file is exactly its layout.  The parser accepts the texts of
    100 bytes that are the magic, version 1, a memory cost of at most
    64 MiB, one to ten iterations, salt, nonce and sealed seed, and returns
    those parts; everything else is an error, so a file cannot make the
    key derivation allocate more. *)
Theorem parse_keyfile_exact bytes p :
  parse_keyfile bytes = Ok p ↔
    ∃ m t, bytes = keyfile_layout m t (kp_salt p) (kp_nonce p) (kp_ciphertext p) ∧
      length (kp_ciphertext p) = CIPHERTEXT_LEN ∧ kdf_bounded m t ∧
      kp_m_cost_kib p = Byte.to_N m * 1024 ∧ kp_t_cost p = Byte.to_N t.
Proof.
  split.
  - intros E. pose proof E as E'. unfold parse_keyfile in E.
    destruct (Nat.eqb_spec (length bytes) KEYFILE_LEN) as [Hl|]; [|done]. cbn [negb] in E.
    case_bool_decide as Hm; [|done]. clear E. rewrite <- (take_drop (length MAGIC) bytes), Hm in Hl, E' |- *.
    assert (length (drop (length MAGIC) bytes) = 91%nat) as Hd by (rewrite length_app in Hl; cbn in Hl |- *; lia).
    destruct (drop (length MAGIC) bytes) as [|v [|m [|t rest]]]; try done. injection Hd as Hd.
    rewrite parse_header in E' by done. destruct (byte_eqb v VERSION) eqn:Ev; [|done]. apply byte_eqb_eq in Ev as ->.
    cbn [negb] in E'. destruct (_ || _) eqn:Eb; [done|]. injection E' as <-. exists m, t. cbn [kp_salt kp_nonce kp_ciphertext kp_m_cost_kib kp_t_cost].
    split_and!; [|by rewrite length_drop, Hd|by apply bounded_test|done|done].
    unfold keyfile_layout. cbn [app]. do 4 f_equal.
    rewrite <- (take_drop SALT_LEN rest) at 1. f_equal.
    { symmetry. apply arr_of_exact. by rewrite length_take, Hd. }
    rewrite <- (take_drop NONCE_LEN (drop SALT_LEN rest)) at 1. rewrite drop_drop. f_equal.
    symmetry. apply arr_of_exact. by rewrite length_take, length_drop, Hd.
  - destruct p as [mk tk salt nonce ct]. cbn [kp_salt kp_nonce kp_ciphertext kp_m_cost_kib kp_t_cost].
    intros (m & t & -> & Hl & Hb & -> & ->). by apply parse_layout.
Qed.

(** ** Writing and opening *)

Section keys.
Context `{SealingLaws} `{Crypto}.

(** The file of a seed: it is sealed, fits the layout and opens. *)
Lemma sealed_keyfile_total passphrase salt nonce seed :
  ∃ ct, sealed_keyfile passphrase salt nonce seed = Ok (keyfile_layout x40 x03 salt nonce ct) ∧ length ct = CIPHERTEXT_LEN ∧
    ∃ key, argon2id passphrase salt DEFAULT_M_COST_KIB DEFAULT_T_COST = Some key ∧
      xchacha_decrypt key nonce ct = Some (arr_list seed).
Proof.
  destruct (argon2_default passphrase salt) as [key Ek]. destruct (seal_total key nonce (arr_list seed)) as [ct Ec].
  exists ct. unfold sealed_keyfile, try_derive_key. change DEFAULT_M_COST_KIB with (64 * 1024). change DEFAULT_T_COST with 3.
  rewrite Ek. cbn [ok_or rbind]. rewrite Ec. split_and!; [done| |].
  - apply seal_length in Ec. by rewrite Ec, arr_length.
  - exists key. split; [done|]. by apply seal_open.
Qed.

Lemma default_bounded : kdf_bounded x40 x03.
Proof. by split. Qed.

(** A file that holds the sealed seed opens to it. *)
Lemma open_sealed path passphrase salt nonce seed files file :
  sealed_keyfile passphrase salt nonce seed = Ok file → files !! path = Some file →
  open_keyfile path passphrase files = Ok seed.
Proof.
  destruct (sealed_keyfile_total passphrase salt nonce seed) as (ct & E & Hl & key & Ek & Ed). intros E' Ef.
  rewrite E in E'. injection E' as <-. unfold open_keyfile. rewrite Ef. cbn [ok_or rbind].
  rewrite (parse_layout _ _ _ _ _ Hl default_bounded). cbn [rbind kp_salt kp_m_cost_kib kp_t_cost kp_nonce kp_ciphertext].
  unfold try_derive_key. change (Byte.to_N x40 * 1024) with DEFAULT_M_COST_KIB. change (Byte.to_N x03) with DEFAULT_T_COST.
  rewrite Ek. cbn [ok_or rbind]. rewrite Ed. cbn [ok_or rbind]. by rewrite to_arr_arr.
Qed.

(** What becomes of the files: only the file at the path changes, and with
    [NoClobber] only if it was not there. *)
Lemma write_private_frame io path bytes mode files files' res :
  write_private_file io path bytes mode files = (files', res) →
  (∀ p, p ≠ path → files' !! p = files !! p) ∧
  (mode = NoClobber → is_Some (files !! path) → files' = files ∧ res = Err (KeyfileExists path)) ∧
  (res = Ok tt → files' !! path = Some bytes).
Proof.
  unfold write_private_file. destruct mode, (files !! path) as [old|] eqn:Ef;
    try (destruct (io_open io); cbn [negb]; [destruct (io_permissions io); cbn [negb]; [destruct (io_written io)|]|]);
    intros [= <- <-]; (split; [intros p Hp; rewrite ?lookup_insert_ne by congruence; done|]);
    (split; [intros Hm Hs; first [done|by destruct Hs]|intros Hr; first [done|apply lookup_insert_eq]]).
Qed.

Lemma write_keyfile_frame io sk path passphrase mode files files' res :
  write_keyfile io sk path passphrase mode files = (files', res) →
  (∀ p, p ≠ path → files' !! p = files !! p) ∧
  (mode = NoClobber → is_Some (files !! path) → files' = files ∧ is_ok res = false) ∧
  (∀ k, res = Ok k → k = sk ∧ open_keyfile path passphrase files' = Ok sk).
Proof.
  unfold write_keyfile. destruct (io_random io) as [[salt nonce]|]; [|by intros [= <- <-]].
  destruct (sealed_keyfile _ _ _ _) as [file|] eqn:Es; [|by intros [= <- <-]].
  destruct (negb (io_dirs io)); [by intros [= <- <-]|].
  destruct (write_private_file _ _ _ _ _) as [fs r] eqn:Ew. destruct (write_private_frame _ _ _ _ _ _ _ Ew) as (H1' & H2' & H3').
  intros [= <- <-]. split_and!; [done| |].
  - intros Hm Hs. destruct (H2' Hm Hs) as [-> ->]. done.
  - intros k. destruct r as [[]|]; [|done]. intros [= <-]. split; [done|]. eapply open_sealed; [exact Es|by apply H3'].
Qed.

(** C39. A key that was created can be opened.  When [create] or
    [create_overwriting] succeeds, whatever the salt and the nonce, the file
    opens under the passphrase to the key that was generated; no other file
    changes; and [create] never changes a file that exists — it fails. *)
Theorem keyfile_roundtrip io sk path passphrase mode files files' res :
  write_keyfile io sk path passphrase mode files = (files', res) →
  (∀ p, p ≠ path → files' !! p = files !! p) ∧
  (mode = NoClobber → is_Some (files !! path) → files' = files ∧ is_ok res = false) ∧
  (∀ k, res = Ok k → k = sk ∧ open_keyfile path passphrase files' = Ok sk).
Proof. apply write_keyfile_frame. Qed.

(** Overwriting is not atomic: the old file is emptied first, so when the
    new one is not written to its end, or its permissions cannot be set,
    neither key can be opened any more. *)
Theorem failed_overwrite_loses_key io sk path passphrase pass files files' res n salt nonce :
  io_random io = Some (salt, nonce) → io_dirs io = true → io_open io = true →
  io_permissions io = false ∨ io_written io = Some n ∧ (n < KEYFILE_LEN)%nat →
  create_overwriting io sk path passphrase files = (files', res) →
  is_ok res = false ∧ open_keyfile path pass files' = Err InvalidFile.
Proof.
  intros Er Ed Eo Hw. unfold create_overwriting, write_keyfile. rewrite Er, Ed. cbn [negb].
  destruct (sealed_keyfile_total passphrase salt nonce sk) as (ct & -> & Hl & _). unfold write_private_file. rewrite Eo. cbn [negb].
  assert (∀ bytes, (length bytes < KEYFILE_LEN)%nat → parse_keyfile bytes = Err InvalidFile) as Hp.
  { intros bytes Hb. unfold parse_keyfile. by rewrite (proj2 (Nat.eqb_neq _ _)) by lia. }
  destruct (io_permissions io) eqn:Epm; cbn [negb]; [destruct Hw as [?|[-> Hn]]; [done|]|]; intros [= <- <-]; (split; [done|]);
    unfold open_keyfile; rewrite lookup_insert_eq; cbn [ok_or rbind]; (rewrite Hp; [done|]).
  - rewrite length_take. lia.
  - cbn. unfold KEYFILE_LEN, SALT_LEN, NONCE_LEN, CIPHERTEXT_LEN. lia.
Qed.
End keys.

(** ** Recovery *)

Section phrases.
Context `{SealingLaws} `{Crypto}.

Lemma write_derived_frame io path passphrase sk mode files files' res :
  write_derived_keyfile io path passphrase sk mode files = (files', res) →
  (∀ p, p ≠ path → files' !! p = files !! p) ∧ (res = Ok tt → open_keyfile path passphrase files' = Ok sk).
Proof.
  unfold write_derived_keyfile. destruct (io_random io) as [[salt nonce]|]; [|by intros [= <- <-]].
  destruct (sealed_keyfile _ _ _ _) as [file|] eqn:Es; [|by intros [= <- <-]].
  intros Ew. destruct (write_private_frame _ _ _ _ _ _ _ Ew) as (H1' & _ & H3'). split; [done|].
  intros Hr. eapply open_sealed; [exact Es|by apply H3'].
Qed.

(** The phrase is the key.  The words that [create_with_phrase] returns,
    given to [restore_from_phrase] at any path and under any other
    passphrase, restore the same key — whatever file stood there — and
    both files open to it under their own passphrases. *)
Theorem phrase_restores_key io entropy path passphrase mode files files' sk words io' path' passphrase' other other' res :
  create_with_phrase_overwriting io entropy path passphrase mode files = (files', Ok (sk, words)) →
  restore_from_phrase io' path' passphrase' (join_words words) other = (other', res) →
  open_keyfile path passphrase files' = Ok sk ∧
  ∀ k, res = Ok k → k = sk ∧ open_keyfile path' passphrase' other' = Ok sk.
Proof.
  unfold create_with_phrase_overwriting, restore_from_phrase. destruct entropy as [en|]; [|done].
  destruct (from_entropy en) as [m|]; [|done]. destruct (write_derived_keyfile io _ _ _ _ _) as [fs r] eqn:Ew.
  destruct r as [[]|]; [|done]. intros [= <- <- <-]. rewrite phrase_read.
  destruct (write_derived_keyfile io' _ _ _ _ _) as [fs' r'] eqn:Ew'. intros [= <- <-].
  destruct (write_derived_frame _ _ _ _ _ _ _ _ Ew) as [_ Ho]. split; [by apply Ho|].
  destruct (write_derived_frame _ _ _ _ _ _ _ _ Ew') as [_ Ho']. destruct r' as [[]|]; [|done]. intros k [= <-]. split; [done|by apply Ho'].
Qed.
End phrases.

(** ** Names of identities *)

Lemma split_keyfile name : split_last_dot (keyfile_name name) = Some (name, KEYFILE_EXTENSION).
Proof. induction name as [|b name IH]; [done|]. change (keyfile_name (b :: name)) with (b :: keyfile_name name). cbn [split_last_dot]. by rewrite IH. Qed.

(** The file of a valid identity lists as that identity.  A name that
    passes [validate_identity_name] stays inside the keystore directory —
    its file name has no separator and no NUL, and is neither empty nor a
    relative directory — and, when it is UTF-8, [list] gives the name back
    from its file, sorted among those of the directory. *)
Theorem identity_listed name entries :
  validate_identity_name name = true → utf8_valid name = true →
  forallb de_readable entries = true → mkEntry (keyfile_name name) true true ∈ entries →
  contains_byte x2f (keyfile_name name) = false ∧ contains_byte x5c (keyfile_name name) = false ∧
  contains_byte x00 (keyfile_name name) = false ∧ starts_with_dot (keyfile_name name) = false ∧
  ∃ names, list_identities (Some (Ok entries)) = Ok names ∧ name ∈ names ∧ StronglySorted bytes_le names.
Proof.
  unfold validate_identity_name. intros Hv%negb_true_iff Hu Hr Hin. rewrite !orb_false_iff in Hv.
  destruct Hv as (((((((Hne & _) & _) & Hs) & Hb) & Hz) & Hd) & _). apply bool_decide_eq_false in Hne.
  unfold keyfile_name, contains_byte in *. rewrite !existsb_app, Hs, Hb, Hz. split_and!; [done..| |].
  - by destruct name.
  - eexists. split; [unfold list_identities; by rewrite Hr|]. split; [|apply (StronglySorted_merge_sort bytes_le)].
    rewrite merge_sort_Permutation. apply list_elem_of_omap. eexists. split; [exact Hin|].
    unfold entry_identity, stem_and_extension. cbn [de_is_file de_name negb]. fold (keyfile_name name). rewrite split_keyfile.
    destruct name as [|b name]; [done|]. cbn [mbind option_bind].
    replace (utf8_valid KEYFILE_EXTENSION && bool_decide (map ascii_lower KEYFILE_EXTENSION = KEYFILE_EXTENSION)) with true by done.
    cbn [negb]. by rewrite Hu.
Qed.

(** ** A concrete keystore *)

Module ToySealing.
#[local] Existing Instance Toy.crypto.

(** Nothing is hidden: the tag is zero, the words are the entropy. *)
#[global] Instance sealing : Sealing := {|
  argon2id p _ m t := if (8 <=? m) && (1 <=? t) then Some (arr_of 32 p) else None;
  xchacha_encrypt _ _ t := Some (t ++ replicate 16 x00);
  xchacha_decrypt _ _ c := if bool_decide (drop (length c - 16) c = replicate 16 x00) then Some (take (length c - 16) c) else None;
  Mnemonic := arr 32;
  from_entropy := Some;
  phrase_of m := [arr_list m];
  parse_phrase := to_arr 32;
  to_seed m := arr_of 64 (arr_list m) |}.

#[global] Instance sealing_laws : SealingLaws.
Proof.
  split.
  - intros p s. by eexists.
  - intros k n t. by eexists.
  - intros k n t c [= <-]. by rewrite length_app.
  - intros k n t c [= <-]. unfold xchacha_decrypt, sealing. rewrite length_app. change (length (replicate 16 x00)) with 16%nat.
    rewrite Nat.add_sub, drop_app_length, bool_decide_eq_true_2 by done. by rewrite take_app_length.
  - intros m. apply to_arr_arr.
Qed.

Definition fine : KeyIo := mkKeyIo (Some (arr_of 16 [x01], arr_of 24 [x02])) true true true None.
Definition sk : SigningKey := arr_of 32 [x07; x08].
Definition path : list byte := ascii "keys/alice.sconekey".
Definition pass : list byte := ascii "secret".
Notation created := (create fine sk path pass ∅).
Lemma key_created : created.2 = Ok sk.
Proof. by vm_compute. Qed.

Lemma keyfile_roundtrip_witness : created.2 = Ok sk ∧ open_keyfile path pass created.1 = Ok sk.
Proof.
  split; [exact key_created|].
  assert (created = (created.1, created.2)) as E by (destruct created; reflexivity).
  destruct (keyfile_roundtrip fine sk path pass NoClobber ∅ created.1 created.2 E) as (_ & _ & Ho).
  exact (proj2 (Ho sk key_created)).
Defined.

Definition alice_entry : DirEntry := mkEntry (keyfile_name (ascii "alice")) true true.
Lemma identity_listed_witness :
  validate_identity_name (ascii "alice") = true ∧
  ∃ names, list_identities (Some (Ok [alice_entry])) = Ok names ∧ ascii "alice" ∈ names.
Proof.
  split; [by vm_compute|].
  destruct (identity_listed (ascii "alice") [alice_entry]) as (_ & _ & _ & _ & names & E & Hin & _); [by vm_compute|by vm_compute|done|by left|].
  exists names. by split.
Defined.

Notation restored := (restore_from_phrase fine path pass (arr_list sk) ∅).
Notation with_phrase := (create_with_phrase_overwriting fine (Some sk) path pass NoClobber ∅).
Lemma with_phrase_ok : with_phrase = (with_phrase.1, Ok (sk, [arr_list sk])).
Proof.
  assert (with_phrase.2 = Ok (sk, [arr_list sk])) as <-; [|by destruct with_phrase]. by vm_compute.
Qed.
Lemma phrase_restores_key_witness : with_phrase.2 = Ok (sk, [arr_list sk]) ∧ open_keyfile path pass restored.1 = Ok sk.
Proof.
  split; [by rewrite with_phrase_ok|].
  assert (restored = (restored.1, restored.2)) as E by (destruct restored; reflexivity).
  assert (restored.2 = Ok sk) as Er by by vm_compute.
  destruct (phrase_restores_key fine (Some sk) path pass NoClobber ∅ _ sk [arr_list sk] fine path pass ∅ restored.1 restored.2
    with_phrase_ok E) as [_ Ho].
  exact (proj2 (Ho sk Er)).
Defined.
End ToySealing.
