(* ===== verification/Wallet.v ===== *)
(** * The wallet of the command line ([scone]: [tx.rs], [pow.rs])

    Building, signing and checking transactions offline.  The texts shown
    to the user are left out; a hexadecimal argument is taken trimmed. *)

From S2P Require Import Prelude Bytes Crypto Names Codec Checkpoint Pow Tx Wire State Hex.
From S2P Require Keystore.

(** [scone/src/error.rs:6-43 CliError]: without the texts; no passphrase is
    one case. *)
Inductive CliError :=
| CliDomain (e : SconeError)
| CliUnknownIdentity
| CliInvalidIdentityName
| CliNoPassphrase
| CliKeystore (e : Keystore.KeystoreError)
| CliInvalidHex
| CliMalformedTransaction (e : ProtocolError)
| CliInvalidTransaction (e : BlockchainError)
| CliInvalidHashLength (len : nat)
| CliRelayUnreachable
| CliRelayError
| CliBadRecordFile
| CliDomainState.

(** [scone/src/cli.rs:312-393 TxKind] *)
Inductive TxKind :=
| KRegisterDomain (name : list byte) (timestamp : N) (proof_hex : option (list byte))
| KRegisterTld (tld : list byte) (timestamp : N) (proof_hex : option (list byte))
| KUpdateDomain (name : list byte) (sequence : N) (record_hash : list byte)
| KSetTldOpen (tld : list byte) (open : bool)
| KAssignDomain (name assignee : list byte)
| KRenewDomain (name : list byte) (valid_until : N)
| KTransferTld (tld new_owner : list byte)
| KRevokeTld (tld : list byte).

Section wallet.
Context `{Crypto}.

(** [Signature::from_bytes([0; 64])] *)
Definition placeholder : Signature := arr_zero 64.

(** ** Mining *)

(** [scone/src/pow.rs:26-29 mine]: [None] while it still searches. *)
Definition mine_proof (fuel : nat) (network : NetworkParams) (challenge : list byte) (difficulty : N) : option Proof_ :=
  encode_proof <$> mine fuel (np_network_id network) challenge difficulty.
(** [scone/src/pow.rs:11-16 mine_domain_proof] *)
Definition mine_domain_proof (fuel : nat) (network : NetworkParams) (name : list byte) : option Proof_ :=
  mine_proof fuel network (DOMAIN_ID_VERSION ++ name) (domain_pow_difficulty network).
(** [scone/src/pow.rs:19-24 mine_tld_proof] *)
Definition mine_tld_proof (fuel : nat) (network : NetworkParams) (tld : list byte) : option Proof_ :=
  mine_proof fuel network (TLD_ID_VERSION ++ tld) (tld_pow_difficulty network).

(** ** Reading *)

(** [scone/src/tx.rs:113-265 unsigned_into_transaction]: the identifiers
    and the owner are computed again. *)
Definition unsigned_into_transaction (unsigned : UnsignedTransaction) : Transaction :=
  match unsigned with
  | UnRegisterDomain network name _ _ timestamp proof public_key =>
      TxRegisterDomain (register_domain_on network name timestamp proof public_key placeholder)
  | UnUpdateDomain network domain_id _ sequence record_hash public_key =>
      TxUpdateDomain (update_domain_on network domain_id sequence record_hash public_key placeholder)
  | UnRegisterTld network name _ _ timestamp proof public_key =>
      TxRegisterTld (register_tld_on network name timestamp proof public_key placeholder)
  | UnTransferTld network tld_id _ new_owner public_key =>
      TxTransferTld (transfer_tld_on network tld_id new_owner public_key placeholder)
  | UnRevokeTld network tld_id _ public_key =>
      TxRevokeTld (revoke_tld_on network tld_id public_key placeholder)
  | UnSetTldOpen network tld_id _ open public_key =>
      TxSetTldOpen (set_tld_open_on network tld_id open public_key placeholder)
  | UnAssignDomain network name _ _ assignee public_key =>
      TxAssignDomain (assign_domain_on network name assignee public_key placeholder)
  | UnRenewDomain network domain_id _ valid_until public_key =>
      TxRenewDomain (renew_domain_on network domain_id valid_until public_key placeholder)
  | UnTransferDomain network domain_id _ new_owner public_key =>
      TxTransferDomain (transfer_domain_on network domain_id new_owner public_key placeholder)
  | UnSlash network offender evidence_a sig_a evidence_b sig_b public_key =>
      TxSlash (slash_on network offender evidence_a sig_a evidence_b sig_b public_key placeholder)
  end.

(** [slice::strip_prefix] *)
Fixpoint strip_prefix (prefix bytes : list byte) : option (list byte) :=
  match prefix, bytes with
  | [], _ => Some bytes
  | p :: prefix, b :: bytes => if byte_eqb p b then strip_prefix prefix bytes else None
  | _, [] => None
  end.

(** [scone/src/tx.rs:93-106 decode_tx_or_payload] *)
Definition decode_tx_or_payload (bytes : list byte) : result CliError Transaction :=
  match decode_complete (dec Transaction_c) bytes with
  | Ok tx => Ok tx
  | Err _ =>
      match strip_prefix TX_SIG_PREFIX bytes with
      | Some rest =>
          match decode_complete (dec UnsignedTransaction_c) rest with
          | Ok unsigned => Ok (unsigned_into_transaction unsigned)
          | Err _ => Err (CliMalformedTransaction Truncated)
          end
      | None => Err (CliMalformedTransaction Truncated)
      end
  end.

(** A hexadecimal argument, and one of 32 bytes. *)
Definition hex_arg (hex : list byte) : result CliError (list byte) := ok_or (hex_decode hex) CliInvalidHex.
Definition hash_arg (hex : list byte) : result CliError hash :=
  let? bytes := hex_arg hex in
  match to_arr 32 bytes with Some raw => Ok raw | None => Err (CliInvalidHashLength (length bytes * 2)) end.

Definition domain_arg (name : list byte) : result CliError DomainName := map_err CliDomain (DomainName_new name).
Definition tld_arg (tld : list byte) : result CliError TldName := map_err CliDomain (TldName_new tld).

(** ** Building *)

(** The key that stands for the signer, who is not known yet. *)
Definition build_key : SigningKey := arr_of 32 (repeat x42 32).

(** A proof given by the user, or mined for the test network. *)
Definition proof_arg (given : option (list byte)) (mined : option Proof_) : option (result CliError Proof_) :=
  match given with
  | Some hex => Some (hex_arg hex)
  | None => Ok <$> mined
  end.

(** [scone/src/tx.rs:268-431 build_unsigned]: without the description;
    [None] while it still mines. *)
Definition build_unsigned (fuel : nat) (kind : TxKind) : option (result CliError Transaction) :=
  let pk := sk_public_key build_key in
  match kind with
  | KRegisterDomain name timestamp proof_hex =>
      match domain_arg name with
      | Err e => Some (Err e)
      | Ok domain =>
          proof ← proof_arg proof_hex (mine_domain_proof fuel TESTNET name);
          Some (let? proof := proof in Ok (TxRegisterDomain (register_domain_signed domain timestamp proof pk placeholder)))
      end
  | KRegisterTld tld timestamp proof_hex =>
      match tld_arg tld with
      | Err e => Some (Err e)
      | Ok tld_name =>
          proof ← proof_arg proof_hex (mine_tld_proof fuel TESTNET tld);
          Some (let? proof := proof in Ok (TxRegisterTld (register_tld_signed tld_name timestamp proof pk placeholder)))
      end
  | KUpdateDomain name sequence record_hash => Some (
      let? domain := domain_arg name in
      let? raw := hash_arg record_hash in
      Ok (TxUpdateDomain (update_domain_signed (DomainId_from_name domain) sequence raw pk placeholder)))
  | KSetTldOpen tld open => Some (
      let? tld_name := tld_arg tld in
      Ok (TxSetTldOpen (set_tld_open_signed (TldId_from_tld tld_name) open pk placeholder)))
  | KAssignDomain name assignee => Some (
      let? domain := domain_arg name in
      let? raw := hash_arg assignee in
      Ok (TxAssignDomain (assign_domain_signed domain raw pk placeholder)))
  | KRenewDomain name valid_until => Some (
      let? domain := domain_arg name in
      Ok (TxRenewDomain (renew_domain_signed (DomainId_from_name domain) valid_until pk placeholder)))
  | KTransferTld tld new_owner => Some (
      let? tld_name := tld_arg tld in
      let? raw := hash_arg new_owner in
      Ok (TxTransferTld (transfer_tld_signed (TldId_from_tld tld_name) raw pk placeholder)))
  | KRevokeTld tld => Some (
      let? tld_name := tld_arg tld in
      Ok (TxRevokeTld (revoke_tld_signed (TldId_from_tld tld_name) pk placeholder)))
  end.

(** ** Signing *)

(** [scone/src/tx.rs:436-523 rebind] *)
Definition rebind (tx : Transaction) (sk : SigningKey) : Transaction :=
  let pk := sk_public_key sk in
  match tx with
  | TxRegisterDomain r => TxRegisterDomain (register_domain_signed (rd_name r) (rd_timestamp r) (rd_proof r) pk placeholder)
  | TxUpdateDomain u => TxUpdateDomain (update_domain_signed (ud_domain_id u) (ud_sequence u) (ud_record_hash u) pk placeholder)
  | TxRegisterTld t => TxRegisterTld (register_tld_signed (rt_name t) (rt_timestamp t) (rt_proof t) pk placeholder)
  | TxTransferTld t => TxTransferTld (transfer_tld_signed (tt_tld_id t) (tt_new_owner t) pk placeholder)
  | TxRevokeTld t => TxRevokeTld (revoke_tld_signed (rv_tld_id t) pk placeholder)
  | TxSetTldOpen t => TxSetTldOpen (set_tld_open_signed (so_tld_id t) (so_open t) pk placeholder)
  | TxAssignDomain a => TxAssignDomain (assign_domain_signed (ad_name a) (ad_assignee a) pk placeholder)
  | TxRenewDomain r => TxRenewDomain (renew_domain_signed (rn_domain_id r) (rn_valid_until r) pk placeholder)
  | TxTransferDomain t => TxTransferDomain (transfer_domain_signed (td_domain_id t) (td_new_owner t) pk placeholder)
  | TxSlash x =>
      TxSlash (slash_on (sl_network x) (sl_offender x) (sl_evidence_a x) (sl_sig_a x) (sl_evidence_b x) (sl_sig_b x) pk placeholder)
  end.

(** [scone/src/tx.rs:526-571 attach_signature] *)
Definition attach_signature (tx : Transaction) (signature : Signature) : Transaction :=
  match tx with
  | TxRegisterDomain t => TxRegisterDomain (mkRegisterDomain (rd_network t) (rd_name t) (rd_domain_id t) (rd_owner t) (rd_timestamp t) (rd_proof t) (rd_public_key t) signature)
  | TxUpdateDomain t => TxUpdateDomain (mkUpdateDomain (ud_network t) (ud_domain_id t) (ud_owner t) (ud_sequence t) (ud_record_hash t) (ud_public_key t) signature)
  | TxRegisterTld t => TxRegisterTld (mkRegisterTld (rt_network t) (rt_name t) (rt_tld_id t) (rt_owner t) (rt_timestamp t) (rt_proof t) (rt_public_key t) signature)
  | TxTransferTld t => TxTransferTld (mkTransferTld (tt_network t) (tt_tld_id t) (tt_owner t) (tt_new_owner t) (tt_public_key t) signature)
  | TxRevokeTld t => TxRevokeTld (mkRevokeTld (rv_network t) (rv_tld_id t) (rv_owner t) (rv_public_key t) signature)
  | TxSetTldOpen t => TxSetTldOpen (mkSetTldOpen (so_network t) (so_tld_id t) (so_owner t) (so_open t) (so_public_key t) signature)
  | TxAssignDomain t => TxAssignDomain (mkAssignDomain (ad_network t) (ad_name t) (ad_domain_id t) (ad_owner t) (ad_assignee t) (ad_public_key t) signature)
  | TxRenewDomain t => TxRenewDomain (mkRenewDomain (rn_network t) (rn_domain_id t) (rn_owner t) (rn_valid_until t) (rn_public_key t) signature)
  | TxTransferDomain t => TxTransferDomain (mkTransferDomain (td_network t) (td_domain_id t) (td_owner t) (td_new_owner t) (td_public_key t) signature)
  | TxSlash t => TxSlash (mkSlashTx (sl_network t) (sl_offender t) (sl_evidence_a t) (sl_sig_a t) (sl_evidence_b t) (sl_sig_b t) (sl_public_key t) signature)
  end.

(** [scone/src/tx.rs:578-586 sign_tx_with] *)
Definition sign_tx_with (unsigned : Transaction) (sk : SigningKey) : result CliError Transaction :=
  let? payload := map_err CliMalformedTransaction (signing_payload unsigned) in
  Ok (attach_signature unsigned (sk_sign sk payload)).

(** [scone/src/tx.rs:17-25 run_tx]: [Build]; the payload that is printed. *)
Definition tx_build (fuel : nat) (kind : TxKind) : option (result CliError (list byte)) :=
  built ← build_unsigned fuel kind;
  Some (let? tx := built in map_err CliMalformedTransaction (signing_payload tx)).

(** [scone/src/tx.rs:26-47 run_tx]: [Sign], once the key of the identity is
    opened; the bytes of the transaction that is printed. *)
Definition tx_sign (hex : list byte) (sk : SigningKey) : result CliError (list byte) :=
  let? bytes := hex_arg hex in
  let? unsigned := decode_tx_or_payload bytes in
  let rebound := rebind unsigned sk in
  let? payload := map_err CliMalformedTransaction (signing_payload rebound) in
  let signed := attach_signature rebound (sk_sign sk payload) in
  map_err CliMalformedTransaction (enc Transaction_c signed).

(** [scone/src/tx.rs:48-82 run_tx]: [Verify]; the transaction described as
    validly signed. *)
Definition tx_verify (hex : list byte) : result CliError Transaction :=
  let? bytes := hex_arg hex in
  let? decoded := map_err CliMalformedTransaction (decode_complete (dec Transaction_c) bytes) in
  let? _ := map_err CliInvalidTransaction (validate_transaction decoded) in
  Ok decoded.

(** [scone/src/tx.rs:589-593 tx_hex] *)
Definition tx_hex (tx : Transaction) : result CliError (list byte) :=
  rmap hex (map_err CliMalformedTransaction (enc Transaction_c tx)).

(** [scone/src/tx.rs:607-624 signed_register_domain_tx_on] *)
Definition signed_register_domain_tx_on (fuel : nat) (network : NetworkParams) (sk : SigningKey) (domain : DomainName)
    (timestamp : N) : option (result CliError Transaction) :=
  proof ← mine_domain_proof fuel network domain;
  Some (sign_tx_with (TxRegisterDomain
    (register_domain_on (np_network_id network) domain timestamp proof (sk_public_key sk) placeholder)) sk).

(** [scone/src/tx.rs:596-602 signed_register_domain_tx] *)
Definition signed_register_domain_tx (fuel : nat) (sk : SigningKey) (domain : DomainName) (timestamp : N)
    : option (result CliError Transaction) := signed_register_domain_tx_on fuel TESTNET sk domain timestamp.

(** [scone/src/tx.rs:627-641 signed_update_domain_tx] *)
Definition signed_update_domain_tx (sk : SigningKey) (domain : DomainName) (sequence : N) (record_hash : RecordHash)
    : result CliError Transaction :=
  sign_tx_with (TxUpdateDomain
    (update_domain_signed (DomainId_from_name domain) sequence record_hash (sk_public_key sk) placeholder)) sk.
End wallet.
