(* ===== verification/WalletProps.v ===== *)
(** * Properties of the wallet *)

From S2P Require Import Prelude Bytes Crypto Names Codec Checkpoint Pow Tx Wire WireProps Smt State StateSpec StateProofs StateProps Hex Wallet.

Section wallet.
Context `{CryptoLaws}.

(** ** What signing changes *)

(** The fields a signature covers fit the wire. *)
Definition fields_wf (tx : Transaction) : Prop := UnsignedTransaction_wf (UnsignedTransaction_from tx).

Lemma fields_validated tx : fields_wf tx → tx_validate tx = Ok tt → Transaction_wf tx.
Proof.
  unfold fields_wf. destruct tx; cbn [Transaction_wf UnsignedTransaction_wf UnsignedTransaction_from cwf tx_validate
    RegisterDomain_c UpdateDomain_c RegisterTld_c TransferTld_c RevokeTld_c SetTldOpen_c
    AssignDomain_c RenewDomain_c TransferDomain_c SlashTx_c];
  unfold RegisterDomain_wf, UpdateDomain_wf, RegisterTld_wf, TransferTld_wf, RevokeTld_wf,
    SetTldOpen_wf, AssignDomain_wf, RenewDomain_wf, TransferDomain_wf, SlashTx_wf; cbn; tauto.
Qed.

Lemma unsigned_into_wf u : UnsignedTransaction_wf u → fields_wf (unsigned_into_transaction u).
Proof. unfold fields_wf. destruct u; cbn; tauto. Qed.

Lemma decoded_wf bytes tx : decode_tx_or_payload bytes = Ok tx → fields_wf tx.
Proof.
  unfold decode_tx_or_payload. destruct (decode_complete (dec Transaction_c) bytes) as [t|] eqn:E.
  - intros [= <-]. apply UnsignedTransaction_from_wf. by apply (decode_complete_canonical Transaction_c) in E as [? _].
  - destruct (strip_prefix _ _) as [rest|]; [|done]. destruct (decode_complete _ rest) as [u|] eqn:Eu; [|done].
    intros [= <-]. apply unsigned_into_wf. by apply (decode_complete_canonical UnsignedTransaction_c) in Eu as [? _].
Qed.

Lemma TESTNET_wf : cwf NetworkId_c NetworkId_TESTNET.
Proof. done. Qed.

Lemma rebind_wf tx sk : fields_wf tx → fields_wf (rebind tx sk).
Proof.
  unfold fields_wf. pose proof TESTNET_wf. assert (vk_valid (sk_public_key sk) = true) by apply public_valid.
  destruct tx; cbn; tauto.
Qed.

Lemma attach_from tx s : UnsignedTransaction_from (attach_signature tx s) = UnsignedTransaction_from tx.
Proof. by destruct tx. Qed.
Lemma attach_payload tx s : signing_payload (attach_signature tx s) = signing_payload tx.
Proof. unfold signing_payload. by rewrite attach_from. Qed.
Lemma attach_signed tx s : tx_signature (attach_signature tx s) = s.
Proof. by destruct tx. Qed.
Lemma attach_key tx s : tx_public_key (attach_signature tx s) = tx_public_key tx.
Proof. by destruct tx. Qed.
Lemma attach_validate tx s : tx_validate (attach_signature tx s) = tx_validate tx.
Proof. by destruct tx. Qed.
Lemma rebind_key tx sk : tx_public_key (rebind tx sk) = sk_public_key sk.
Proof. by destruct tx. Qed.
Lemma rebind_owner tx sk : tx_owner (rebind tx sk) = owner_of (sk_public_key sk).
Proof. by destruct tx. Qed.

(** The network of what is signed. *)
Lemma rebind_network tx sk :
  tx_network (rebind tx sk) = match tx with TxSlash t => sl_network t | _ => NetworkId_TESTNET end.
Proof. by destruct tx. Qed.

(** A transaction bound to the key that signs it is valid. *)
Lemma signed_valid tx sk payload :
  tx_public_key tx = sk_public_key sk → tx_owner tx = owner_of (sk_public_key sk) → tx_validate tx = Ok tt →
  signing_payload tx = Ok payload → validate_transaction (attach_signature tx (sk_sign sk payload)) = Ok tt.
Proof.
  intros Ek Eo Ev Ep. unfold validate_transaction. rewrite attach_key, attach_payload, attach_signed, attach_validate, Ek, Ev, Ep.
  assert (tx_owner (attach_signature tx (sk_sign sk payload)) = tx_owner tx) as -> by by destruct tx.
  rewrite Eo. unfold arr_eqb. rewrite bool_decide_eq_true_2 by done. cbn [negb map_err rbind].
  by rewrite pk_verify_sign.
Qed.

Lemma enc_validates tx bytes : enc Transaction_c tx = Ok bytes → tx_validate tx = Ok tt.
Proof.
  cbn [enc Transaction_c]. unfold Transaction_encode. destruct tx as [t|t|t|t|t|t|t|t|t|t]; cbn [tx_validate];
    intros (a & b & _ & (x & y & Ex & _ & _)%cat_cons & _)%cat_cons; cbn in Ex;
    unfold RegisterDomain_encode, UpdateDomain_encode, RegisterTld_encode, TransferTld_encode, RevokeTld_encode,
      SetTldOpen_encode, AssignDomain_encode, RenewDomain_encode, TransferDomain_encode, SlashTx_encode in Ex;
    apply rbind_Ok in Ex as ([] & Ev & _);
    match type of Ev with map_err _ ?v = _ => by destruct v as [[]|] end.
Qed.

(** ** Signing *)

(** The transaction that [tx sign] prints, and what it signs. *)
Lemma tx_sign_Ok hex sk encoded :
  tx_sign hex sk = Ok encoded ↔
    ∃ bytes tx payload, hex_arg hex = Ok bytes ∧ decode_tx_or_payload bytes = Ok tx ∧
      signing_payload (rebind tx sk) = Ok payload ∧
      enc Transaction_c (attach_signature (rebind tx sk) (sk_sign sk payload)) = Ok encoded.
Proof.
  unfold tx_sign. split.
  - intros (bytes & Eb & (tx & Et & (p & Ep & E)%rbind_Ok)%rbind_Ok)%rbind_Ok.
    destruct (signing_payload (rebind tx sk)) as [q|] eqn:Eq; [|done]. injection Ep as ->.
    exists bytes, tx, p. split_and!; try done. by destruct (enc Transaction_c _); [injection E as ->|].
  - intros (bytes & tx & p & -> & Et & Ep & E). cbn [rbind]. rewrite Et. cbn [rbind]. rewrite Ep. cbn [map_err rbind]. by rewrite E.
Qed.

Lemma hex_arg_hex bytes : hex_arg (hex bytes) = Ok bytes.
Proof. unfold hex_arg. by rewrite hex_roundtrip. Qed.

(** Whatever the wallet signs is valid.  When [tx sign] prints a
    transaction, for whatever input — a transaction, a payload, somebody
    else's, a tampered one — what it prints decodes to a transaction that
    every node validates and [tx verify] describes, owned and signed by the
    key of the identity over the operation that was read, moved to the test
    network unless it is a slash. *)
Theorem signed_output_valid input sk encoded :
  tx_sign input sk = Ok encoded →
  ∃ bytes read tx, hex_arg input = Ok bytes ∧ decode_tx_or_payload bytes = Ok read ∧
    decode_complete (dec Transaction_c) encoded = Ok tx ∧ validate_transaction tx = Ok tt ∧ tx_verify (hex encoded) = Ok tx ∧
    UnsignedTransaction_from tx = UnsignedTransaction_from (rebind read sk) ∧
    tx_public_key tx = sk_public_key sk ∧ tx_owner tx = owner_of (sk_public_key sk) ∧
    tx_network tx = match read with TxSlash t => sl_network t | _ => NetworkId_TESTNET end.
Proof.
  intros (bytes & read & p & Eb & Er & Ep & Ee)%tx_sign_Ok. set (tx := attach_signature _ _) in Ee.
  assert (tx_validate (rebind read sk) = Ok tt) as Ev by (rewrite <- (attach_validate _ (sk_sign sk p)); by eapply enc_validates).
  assert (Transaction_wf tx) as Hw.
  { apply fields_validated; [|by unfold tx; rewrite attach_validate]. unfold fields_wf, tx. rewrite attach_from.
    by eapply rebind_wf, decoded_wf. }
  assert (decode_complete (dec Transaction_c) encoded = Ok tx) as Hd by by apply (decode_complete_roundtrip Transaction_c).
  assert (validate_transaction tx = Ok tt) as Hv by (by apply signed_valid; [apply rebind_key|apply rebind_owner|..]).
  exists bytes, read, tx. split_and!; try done.
  - unfold tx_verify. rewrite hex_arg_hex. cbn [rbind]. rewrite Hd. cbn [map_err rbind]. by rewrite Hv.
  - apply attach_from.
  - unfold tx. by rewrite attach_key, rebind_key.
  - unfold tx. rewrite <- (rebind_owner read sk). by destruct (rebind read sk).
  - rewrite <- (rebind_network read sk). unfold tx. by destruct (rebind read sk).
Qed.

(** ** Building, then signing *)

(** The numbers of a request fit 64 bits. *)
Definition kind_wf (kind : TxKind) : Prop :=
  match kind with
  | KRegisterDomain _ t _ | KRegisterTld _ t _ => t < U64
  | KUpdateDomain _ sequence _ => sequence < U64
  | KRenewDomain _ valid_until => valid_until < U64
  | _ => True
  end.

Lemma domain_arg_Ok name domain : domain_arg name = Ok domain → domain = name ∧ cwf DomainName_c domain.
Proof.
  unfold domain_arg, DomainName_new. destruct (DomainName_validate name) as [[]|] eqn:E; [|done]. by intros [= <-].
Qed.
Lemma tld_arg_Ok tld name : tld_arg tld = Ok name → name = tld ∧ cwf TldName_c name.
Proof.
  unfold tld_arg, TldName_new. destruct (TldName_validate tld) as [[]|] eqn:E; [|done]. by intros [= <-].
Qed.

(** The steps of [build_unsigned] that succeeded. *)
Ltac built_step :=
  match goal with
  | E : Some _ = Some _ |- _ => injection E as E
  | E : mbind _ _ = Some _ |- _ => let p := fresh "p" in let Ep := fresh "Ep" in apply bind_Some in E as (p & Ep & E)
  | E : rbind (domain_arg _) _ = Ok _ |- _ => let Hn := fresh "Hn" in apply rbind_Ok in E as (? & [-> Hn]%domain_arg_Ok & E)
  | E : rbind (tld_arg _) _ = Ok _ |- _ => let Hn := fresh "Hn" in apply rbind_Ok in E as (? & [-> Hn]%tld_arg_Ok & E)
  | E : rbind _ _ = Ok _ |- _ => apply rbind_Ok in E as (? & ? & E)
  | E : match domain_arg ?n with _ => _ end = Some _ |- _ =>
      let Hn := fresh "Hn" in destruct (domain_arg n) eqn:Hn; [apply domain_arg_Ok in Hn as [-> Hn]|by injection E]
  | E : match tld_arg ?n with _ => _ end = Some _ |- _ =>
      let Hn := fresh "Hn" in destruct (tld_arg n) eqn:Hn; [apply tld_arg_Ok in Hn as [-> Hn]|by injection E]
  | E : Ok _ = Ok _ |- _ => injection E as <-
  end.

Lemma built_wf fuel kind tx : build_unsigned fuel kind = Some (Ok tx) → kind_wf kind →
  fields_wf tx ∧ unsigned_into_transaction (UnsignedTransaction_from tx) = tx.
Proof.
  intros E Hk. assert (vk_valid (sk_public_key build_key) = true) as Hpk by apply public_valid. pose proof TESTNET_wf.
  unfold fields_wf. destruct kind; cbn [build_unsigned kind_wf] in *; repeat built_step; (split; [|reflexivity]); cbn; tauto.
Qed.

Lemma payload_no_transaction tx payload : signing_payload tx = Ok payload →
  is_ok (decode_complete (dec Transaction_c) payload) = false ∧
  ∃ e, strip_prefix TX_SIG_PREFIX payload = Some e ∧ enc UnsignedTransaction_c (UnsignedTransaction_from tx) = Ok e.
Proof. intros (e & He & <-%Ok_inj)%rbind_Ok. split; [reflexivity|]. exists e. split; [reflexivity|exact He]. Qed.

(** The payload of a built transaction is read back as that transaction. *)
Lemma payload_read fuel kind tx payload : build_unsigned fuel kind = Some (Ok tx) → kind_wf kind →
  signing_payload tx = Ok payload → decode_tx_or_payload payload = Ok tx.
Proof.
  intros Eb Hk Ep. destruct (built_wf _ _ _ Eb Hk) as [Hw Hi].
  destruct (payload_no_transaction _ _ Ep) as (Hno & e & Es & Ee). unfold decode_tx_or_payload.
  destruct (decode_complete (dec Transaction_c) payload); [done|]. rewrite Es.
  rewrite (decode_complete_roundtrip UnsignedTransaction_c _ _ Hw Ee). by rewrite Hi.
Qed.

(** Everything that is built but an update to sequence 0 can be signed. *)
Definition kind_signable (kind : TxKind) : Prop :=
  match kind with KUpdateDomain _ sequence _ => sequence ≠ 0 | _ => True end.

Lemma rebind_validate fuel kind tx sk : build_unsigned fuel kind = Some (Ok tx) → kind_signable kind →
  tx_validate (rebind tx sk) = Ok tt.
Proof.
  intros E Hk. destruct kind; cbn [build_unsigned kind_signable] in *; repeat built_step; cbn;
    unfold RegisterDomain_validate, UpdateDomain_validate, RegisterTld_validate, TransferTld_validate, RevokeTld_validate,
      SetTldOpen_validate, AssignDomain_validate, RenewDomain_validate, check_owner_binding, arr_eqb; cbn;
    rewrite ?bool_decide_eq_true_2 by done; try done.
  by rewrite (proj2 (N.eqb_neq _ _)) by done.
Qed.

Lemma cat_elem l bs x : cat l = Ok bs → x ∈ l → ∃ y, x = Ok y.
Proof.
  revert bs. induction l as [|z l IH]; intros bs; [by intros _ ?%elem_of_nil|].
  intros (a & b & -> & E & _)%cat_cons. intros [->|Hx]%elem_of_cons; [by exists a|by eapply IH].
Qed.

Lemma proof_encodes proof bs : enc Proof_c proof = Ok bs → blen proof ≤ MAX_PROOF_LEN.
Proof. cbn. unfold Proof_encode, put_bounded. destruct (N.ltb_spec MAX_PROOF_LEN (blen proof)); [done|]. lia. Qed.

Lemma payload_bounded tx payload : signing_payload tx = Ok payload → proof_bounded tx.
Proof.
  intros (e & He & _)%rbind_Ok. destruct tx as [t|t|t|t|t|t|t|t|t|t]; cbn [proof_bounded]; try done.
  - destruct (cat_elem _ _ (enc Proof_c (rd_proof t)) He) as [bs Hb]; [set_solver|by eapply proof_encodes].
  - destruct (cat_elem _ _ (enc Proof_c (rt_proof t)) He) as [bs Hb]; [set_solver|by eapply proof_encodes].
Qed.
Lemma rebind_bounded tx sk : proof_bounded tx → proof_bounded (rebind tx sk).
Proof. by destruct tx. Qed.

Ltac encode_field := first
  [ by apply NetworkId_encodes | by apply TldName_encodes | by apply DomainName_encodes
  | by apply put_bounded_total | by eexists ].

(** What a signature covers is encoded. *)
Lemma payload_total tx : fields_wf tx → proof_bounded tx → ∃ payload, signing_payload tx = Ok payload.
Proof.
  unfold fields_wf, signing_payload. cbn [enc UnsignedTransaction_c].
  intros Hw Hp. enough (∃ e, UnsignedTransaction_encode (UnsignedTransaction_from tx) = Ok e) as [e ->] by by eexists.
  destruct tx as [t|t|t|t|t|t|t|t|t|t]; cbn [UnsignedTransaction_from UnsignedTransaction_wf UnsignedTransaction_encode proof_bounded] in *;
    destruct_and? Hw; apply cat_total; repeat (apply Forall_cons; split; [encode_field|]); apply Forall_nil_2.
Qed.

(** What a request says, signed by [sk] for the test network. *)
Definition requested_by (fuel : nat) (kind : TxKind) (sk : SigningKey) (u : UnsignedTransaction) : Prop :=
  let pk := sk_public_key sk in
  let owner := owner_of pk in
  match kind with
  | KRegisterDomain name timestamp given => ∃ proof,
      u = UnRegisterDomain NetworkId_TESTNET name (DomainId_from_name name) owner timestamp proof pk ∧
      proof_arg given (mine_domain_proof fuel TESTNET name) = Some (Ok proof)
  | KRegisterTld tld timestamp given => ∃ proof,
      u = UnRegisterTld NetworkId_TESTNET tld (TldId_from_tld tld) owner timestamp proof pk ∧
      proof_arg given (mine_tld_proof fuel TESTNET tld) = Some (Ok proof)
  | KUpdateDomain name sequence record_hash => ∃ raw, hash_arg record_hash = Ok raw ∧
      u = UnUpdateDomain NetworkId_TESTNET (DomainId_from_name name) owner sequence raw pk
  | KSetTldOpen tld open => u = UnSetTldOpen NetworkId_TESTNET (TldId_from_tld tld) owner open pk
  | KAssignDomain name assignee => ∃ raw, hash_arg assignee = Ok raw ∧
      u = UnAssignDomain NetworkId_TESTNET name (DomainId_from_name name) owner raw pk
  | KRenewDomain name valid_until => u = UnRenewDomain NetworkId_TESTNET (DomainId_from_name name) owner valid_until pk
  | KTransferTld tld new_owner => ∃ raw, hash_arg new_owner = Ok raw ∧
      u = UnTransferTld NetworkId_TESTNET (TldId_from_tld tld) owner raw pk
  | KRevokeTld tld => u = UnRevokeTld NetworkId_TESTNET (TldId_from_tld tld) owner pk
  end.

Lemma rebind_requested fuel kind tx sk : build_unsigned fuel kind = Some (Ok tx) →
  requested_by fuel kind sk (UnsignedTransaction_from (rebind tx sk)).
Proof.
  intros E. destruct kind; cbn [build_unsigned] in E; repeat built_step; subst; cbn [requested_by];
    solve [done | eexists; split; [done|eassumption] | eexists; split; [eassumption|done]].
Qed.

(** C38. Build, sign, verify.  What [tx build] prints for a request, [tx
    sign] takes: it prints a transaction, which [tx verify] accepts and
    describes as the requested operation — same names, numbers, hashes and
    proof — by the identity that signed it. *)
Theorem build_sign_verify fuel kind payload sk :
  tx_build fuel kind = Some (Ok payload) → kind_wf kind → kind_signable kind →
  ∃ encoded tx, tx_sign (hex payload) sk = Ok encoded ∧ tx_verify (hex encoded) = Ok tx ∧
    requested_by fuel kind sk (UnsignedTransaction_from tx).
Proof.
  unfold tx_build. intros (b & Eb & E)%bind_Some Hk Hs. injection E as E. apply rbind_Ok in E as (tx & -> & E).
  destruct (signing_payload tx) as [p|] eqn:Ep; [|done]. injection E as ->.
  pose proof (payload_read _ _ _ _ Eb Hk Ep) as Hr. destruct (built_wf _ _ _ Eb Hk) as [Hw _].
  pose proof (rebind_wf tx sk Hw) as Hwr. pose proof (rebind_validate _ _ _ sk Eb Hs) as Hv.
  pose proof (rebind_bounded tx sk (payload_bounded _ _ Ep)) as Hb.
  destruct (payload_total _ Hwr Hb) as [q Eq]. set (signed := attach_signature (rebind tx sk) (sk_sign sk q)).
  destruct (Transaction_encodes signed) as [encoded Ee].
  { apply fields_validated; [|by unfold signed; rewrite attach_validate]. unfold fields_wf, signed. by rewrite attach_from. }
  { unfold signed. by destruct (rebind tx sk). }
  assert (tx_sign (hex payload) sk = Ok encoded) as Es.
  { apply tx_sign_Ok. exists payload, tx, q. split_and!; try done. apply hex_arg_hex. }
  assert (decode_complete (dec Transaction_c) encoded = Ok signed) as Hd.
  { apply (decode_complete_roundtrip Transaction_c); [|exact Ee]. apply fields_validated; [|by unfold signed; rewrite attach_validate].
    unfold fields_wf, signed. by rewrite attach_from. }
  exists encoded, signed. split_and!; try done; [|unfold signed; rewrite attach_from; by apply rebind_requested].
  unfold tx_verify. rewrite hex_arg_hex. cbn [rbind]. rewrite Hd. cbn [map_err rbind].
  pose proof (signed_valid _ sk q (rebind_key tx sk) (rebind_owner tx sk) Hv Eq) as Hsv. fold signed in Hsv. by rewrite Hsv.
Qed.

(** ** Registering a domain *)

Lemma mine_from_nonce fuel net ch d n c : n < U64 → mine_from fuel net ch d n = Some c → nonce c < U64.
Proof.
  revert n. induction fuel as [|fuel IH]; intros n Hn; cbn [mine_from]; [done|].
  destruct (pow_check net ch n d) as [c'|] eqn:E.
  - intros [= <-]. by apply pow_check_iff in E as [-> _].
  - apply IH. unfold add64. by apply N.mod_lt.
Qed.

Lemma mined_verifies fuel network challenge d proof : d ≤ U32_MAX → mine_proof fuel network challenge d = Some proof →
  is_ok (pow_verify (np_network_id network) challenge proof d) = true.
Proof.
  intros Hd (c & Ec & ->)%fmap_Some_1. pose proof (mine_from_sound _ _ _ _ _ _ Ec) as Hc.
  pose proof (mine_from_nonce _ _ _ _ 0 _ ltac:(done) Ec) as Hn. apply pow_check_iff in Hc as (Hc & Hd' & Hb).
  enough (pow_verify (np_network_id network) challenge (encode_proof c) d = Ok c) as -> by done.
  apply pow_verify_iff; [done|]. split_and!; try done. by rewrite Hc.
Qed.

(** A registration made by the wallet is accepted.  On any network,
    once the proof of work is found: the signed transaction is valid, and
    where the TLD is registered and open and the domain free, the rules
    accept it, and the domain is the signer's from then on. *)
Theorem registration_accepted fuel r sk domain timestamp tx now tld :
  signed_register_domain_tx_on fuel (r_network r) sk domain timestamp = Some (Ok tx) →
  domain_pow_difficulty (r_network r) ≤ U32_MAX →
  r_tlds r !! TldId_from_tld (DomainName_tld domain) = Some tld → ts_open tld = true →
  domain_free r (DomainId_from_name domain) now (owner_of (sk_public_key sk)) = true →
  validate_transaction tx = Ok tt ∧ (registry_apply r tx now).2 = Ok tt ∧
  ds_owner <$> r_domains (registry_apply r tx now).1 !! DomainId_from_name domain = Some (owner_of (sk_public_key sk)).
Proof.
  intros (proof & Ep & E)%bind_Some Hd Et Ho Hf. injection E as E.
  set (t := register_domain_on _ _ _ _ _ _) in E. apply rbind_Ok in E as (payload & E1 & <-%Ok_inj).
  destruct (signing_payload (TxRegisterDomain t)) as [q|] eqn:Eq; [|done]. injection E1 as ->.
  assert (tx_validate (TxRegisterDomain t) = Ok tt) as Hv.
  { cbn. unfold RegisterDomain_validate, check_owner_binding, arr_eqb. cbn. by rewrite !bool_decide_eq_true_2 by done. }
  split; [by apply signed_valid|]. unfold registry_apply. rewrite attach_validate, Hv.
  rewrite decide_True by done. cbn [attach_signature]. unfold register_domain_rule. cbn [rd_name rd_domain_id rd_owner rd_proof t register_domain_on].
  rewrite Et, Ho. cbn [negb]. rewrite Hf. cbn [negb]. unfold with_pow.
  pose proof (mined_verifies _ _ _ _ _ Hd Ep) as Hp. destruct (pow_verify _ _ _ _); [|done]. split; [done|].
  cbn. unfold created. cbn. by rewrite lookup_insert_eq.
Qed.
End wallet.

(** ** Concrete runs *)

Module WalletScenario.
#[local] Existing Instances Toy.crypto Toy.laws.

Definition sk : SigningKey := arr_of 32 [x01].
Definition renew : TxKind := KRenewDomain (ascii "a.uip") 5000.
Definition payload : list byte := match tx_build 0 renew with Some (Ok p) => p | _ => [] end.
Definition printed : list byte := match tx_sign (hex payload) sk with Ok e => e | Err _ => [] end.

Lemma signed_output_valid_witness :
  tx_sign (hex payload) sk = Ok printed ∧ ∃ tx, tx_verify (hex printed) = Ok tx ∧ tx_public_key tx = sk_public_key sk.
Proof.
  split; [by vm_compute|].
  destruct (signed_output_valid (hex payload) sk printed) as (_ & _ & tx & _ & _ & _ & _ & Ev & _ & Ek & _); [by vm_compute|].
  exists tx. split; [exact Ev|exact Ek].
Defined.

Lemma build_sign_verify_witness :
  tx_build 0 renew = Some (Ok payload) ∧ ∃ tx, tx_verify (hex printed) = Ok tx.
Proof.
  split; [by vm_compute|].
  destruct (build_sign_verify 0 renew payload sk) as (e & tx & Es & Ev & _); [by vm_compute|by vm_compute|done|].
  exists tx. assert (printed = e) as -> by (unfold printed; by rewrite Es). exact Ev.
Defined.

Definition site : DomainName := ascii "a.uip".
Definition open_tld : Registry := set_tld (empty_registry TESTNET) (TldId_from_tld (ascii "uip")) (mkTldState (arr_of 32 [x07]) true).
Definition registration : Transaction :=
  match signed_register_domain_tx_on 3000 TESTNET sk site 9 with
  | Some (Ok tx) => tx
  | _ => TxRegisterDomain (register_domain_on NetworkId_TESTNET site 9 [] sk placeholder)
  end.
Definition built : bool := match signed_register_domain_tx_on 3000 TESTNET sk site 9 with Some (Ok _) => true | _ => false end.
Lemma built_run : built = true.
Proof. by vm_compute. Qed.
Lemma built_registration : signed_register_domain_tx_on 3000 TESTNET sk site 9 = Some (Ok registration).
Proof.
  pose proof built_run as E. unfold built, registration in *. by destruct (signed_register_domain_tx_on _ _ _ _ _) as [[tx|]|].
Qed.
Lemma registration_accepted_witness :
  signed_register_domain_tx_on 3000 TESTNET sk site 9 = Some (Ok registration) ∧
  (registry_apply open_tld registration 100).2 = Ok tt.
Proof.
  split; [exact built_registration|].
  refine (proj1 (proj2 (registration_accepted 3000 open_tld sk site 9 registration 100 (mkTldState (arr_of 32 [x07]) true)
    built_registration _ _ eq_refl _))).
  - by vm_compute.
  - by vm_compute.
  - by vm_compute.
Defined.
End WalletScenario.
