(* ===== verification/Groups.v ===== *)
(** * Groups of records ([scone-core]: [groups.rs]; [scone-crypto]: [group_aead.rs])

    A domain may publish several record sets, one of them public and the
    others sealed, each under a key of its own.  The chain commits to all
    of them by one root; a resolver serves what it can open, in the order
    of priority. *)

From S2P Require Import Prelude Bytes Crypto Names Codec Checkpoint Tx Wire Records Keystore.

(** ** Texts of addresses *)

(** The digits of a number in a base up to 16, at least one; as many
    rounds as it has bits are enough. *)
Fixpoint digits_from (fuel : nat) (base n : N) : list byte :=
  let d := nth (N.to_nat (n mod base)) (ascii "0123456789abcdef") x00 in
  match fuel with
  | O => [d]
  | S fuel => if n <? base then [d] else digits_from fuel base (n / base) ++ [d]
  end.
Definition decimal (n : N) : list byte := digits_from (N.size_nat n) 10 n.
Definition lower_hex (n : N) : list byte := digits_from (N.size_nat n) 16 n.

Fixpoint join_with (sep : list byte) (parts : list (list byte)) : list byte :=
  match parts with
  | [] => []
  | [p] => p
  | p :: parts => p ++ sep ++ join_with sep parts
  end.

(** [Display for Ipv4Addr] *)
Definition ipv4_text (octets : list byte) : list byte := join_with (ascii ".") (map (λ b, decimal (Byte.to_N b)) octets).

Fixpoint segments (octets : list byte) : list N :=
  match octets with a :: b :: rest => Byte.to_N a * 256 + Byte.to_N b :: segments rest | _ => [] end.

(** The longest run of zero segments, the first of its length: start and
    length. *)
Fixpoint longest_zeros (i : nat) (current longest : nat * nat) (segs : list N) : nat * nat :=
  match segs with
  | [] => longest
  | s :: segs =>
      if s =? 0 then
        let start := if (current.2 =? 0)%nat then i else current.1 in
        let current := (start, S current.2) in
        longest_zeros (S i) current (if (longest.2 <? current.2)%nat then current else longest) segs
      else longest_zeros (S i) (0, 0)%nat longest segs
  end.

(** [Display for Ipv6Addr]: a mapped IPv4 address, or else groups with
    the longest run of two zeros or more shortened. *)
Definition ipv6_text (octets : list byte) : list byte :=
  let segs := segments octets in
  let groups l := join_with (ascii ":") (map lower_hex l) in
  if bool_decide (take 12 octets = replicate 10 x00 ++ [xff; xff])
  then ascii "::ffff:" ++ ipv4_text (drop 12 octets)
  else
    let '(start, len) := longest_zeros 0 (0, 0)%nat (0, 0)%nat segs in
    if (1 <? len)%nat then groups (take start segs) ++ ascii "::" ++ groups (drop (start + len) segs)
    else groups segs.

Definition NEWLINE : byte := x0a.

(** One line of [canonical_records]. *)
Definition record_line (r : RecordData) : list byte :=
  match r with
  | RdA ip => ascii "A " ++ ipv4_text (arr_list ip)
  | RdAaaa ip => ascii "AAAA " ++ ipv6_text (arr_list ip)
  | RdCname n => ascii "CNAME " ++ n
  | RdMx preference exchange => ascii "MX " ++ decimal preference ++ ascii " " ++ exchange
  | RdTxt t => ascii "TXT " ++ t
  | RdNs n => ascii "NS " ++ n
  | RdUnknown type_code rdata => ascii "TYPE" ++ decimal type_code ++ ascii " " ++ decimal (blen rdata)
  end ++ [NEWLINE].

(** [scone-core/src/groups.rs:216-250 canonical_records] *)
Definition canonical_records (records : list RecordData) : list byte := concat (map record_line records).

(** [scone-core/src/groups.rs:254-264 record_type] *)
Definition record_type (r : RecordData) : N :=
  match r with
  | RdA _ => 1
  | RdNs _ => 2
  | RdCname _ => 5
  | RdMx _ _ => 15
  | RdTxt _ => 16
  | RdAaaa _ => 28
  | RdUnknown type_code _ => type_code
  end.

(** ** Groups *)

(** [scone-core/src/groups.rs:26-26 GROUP_TAG] *)
Definition GROUP_TAG : list byte := ascii "SCONE-GROUP-V1".
(** [scone-core/src/groups.rs:29-29 GROUPS_ROOT_TAG] *)
Definition GROUPS_ROOT_TAG : list byte := ascii "SCONE-GROUPS-V1".
(** [scone-core/src/groups.rs:33-33 GroupId] *)
Definition GroupId : Type := list byte.
(** [scone-core/src/groups.rs:36-36 PUBLIC_GROUP] *)
Definition PUBLIC_GROUP : GroupId := ascii "public".

Definition group_byte (b : byte) : bool :=
  let n := Byte.to_N b in (97 <=? n) && (n <=? 122) || (48 <=? n) && (n <=? 57) || (n =? 45).

(** [scone-core/src/groups.rs:44-55 GroupId::new]: [None], for [InvalidRecord]. *)
Definition GroupId_new (label : list byte) : option GroupId :=
  if (1 <=? length label)%nat && (length label <=? 32)%nat && forallb group_byte label then Some label else None.

(** [scone-core/src/groups.rs:66-72 GroupContent] *)
Inductive GroupContent := Clear (records : list RecordData) | Encrypted (ct : list byte).

(** [scone-core/src/groups.rs:76-79 RecordGroup] *)
Record RecordGroup := mkGroup { rg_id : GroupId; rg_content : GroupContent }.

(** [scone-core/src/groups.rs:109-114 GroupMap] *)
Record GroupMap := mkGroupMap { gm_priority : list GroupId; gm_groups : list RecordGroup }.

(** [scone-core/src/groups.rs:101-103 RecordGroup::is_public] *)
Definition is_public (g : RecordGroup) : bool := bool_decide (rg_id g = PUBLIC_GROUP).

(** [scone-core/src/groups.rs:119-127 GroupMap::public_only] *)
Definition public_only (records : list RecordData) : GroupMap :=
  mkGroupMap [PUBLIC_GROUP] [mkGroup PUBLIC_GROUP (Clear records)].

(** [scone-core/src/groups.rs:135-163 GroupMap::validate]: every failure is
    [InvalidRecord]. *)
Definition GroupMap_validate (m : GroupMap) : bool :=
  match find is_public (gm_groups m) with
  | None => false
  | Some public =>
      match rg_content public with
      | Encrypted _ => false
      | Clear _ =>
          (length (gm_groups m) =? length (gm_priority m))%nat &&
          forallb (λ g, (length (filter (λ p, p = rg_id g) (gm_priority m)) =? 1)%nat) (gm_groups m)
      end
  end.

(** [scone-core/src/groups.rs:191-208 GroupMap::select]: a group that cannot
    be opened is skipped. *)
Definition group_records (decrypt : GroupId → list byte → option (list RecordData)) (g : RecordGroup) : option (list RecordData) :=
  match rg_content g with Clear r => Some r | Encrypted ct => decrypt (rg_id g) ct end.
Fixpoint select_from (decrypt : GroupId → list byte → option (list RecordData)) (groups : list RecordGroup) (rtype : N)
    (priority : list GroupId) : list RecordData :=
  match priority with
  | [] => []
  | id :: priority =>
      match find (λ g, bool_decide (rg_id g = id)) groups with
      | None => select_from decrypt groups rtype priority
      | Some group =>
          match group_records decrypt group with
          | None => select_from decrypt groups rtype priority
          | Some r =>
              match filter (λ rec, record_type rec = rtype) r with
              | [] => select_from decrypt groups rtype priority
              | r => r
              end
          end
      end
  end.
Definition GroupMap_select (m : GroupMap) (rtype : N) (decrypt : GroupId → list byte → option (list RecordData)) : list RecordData :=
  select_from decrypt (gm_groups m) rtype (gm_priority m).

Section commitments.
Context `{Crypto}.

(** [scone-core/src/groups.rs:85-97 RecordGroup::commitment] *)
Definition commitment (g : RecordGroup) : hash :=
  match rg_content g with
  | Clear records => hash256 [GROUP_TAG; rg_id g; ascii "clear"; canonical_records records]
  | Encrypted ct => hash256 [GROUP_TAG; rg_id g; ascii "enc"; ct]
  end.

(** [sort_by] on the identifiers, which is stable. *)
Fixpoint insert_tagged (x : hash * GroupId) (l : list (hash * GroupId)) : list (hash * GroupId) :=
  match l with
  | [] => [x]
  | y :: l' => if bytes_leb x.2 y.2 then x :: l else y :: insert_tagged x l'
  end.
Definition sort_tagged (l : list (hash * GroupId)) : list (hash * GroupId) := foldr insert_tagged [] l.

Definition root_entry (e : hash * GroupId) : list byte := e.2 ++ x00 :: arr_list e.1.

(** [scone-core/src/groups.rs:166-181 GroupMap::root] *)
Definition GroupMap_root (m : GroupMap) : hash :=
  let tagged := sort_tagged (map (λ g, (commitment g, rg_id g)) (gm_groups m)) in
  hash256 [GROUPS_ROOT_TAG ++ concat (map root_entry tagged)].
End commitments.

(** ** Sealing a group *)

Section envelopes.
Context `{Sealing}.

(** [scone-crypto/src/group_aead.rs:14-14 DEK_LEN] *)
Definition DEK_LEN : nat := 32.

(** [scone-crypto/src/group_aead.rs:27-34 seal]; [None], for the panic on a
    failure of the primitive. *)
Definition seal (dek : arr 32) (nonce : arr 24) (plaintext : list byte) : option (list byte) :=
  ct ← xchacha_encrypt dek nonce plaintext; Some (arr_list nonce ++ ct).

(** [scone-crypto/src/group_aead.rs:39-49 open] *)
Definition open_envelope (dek : arr 32) (envelope : list byte) : option (list byte) :=
  if (length envelope <? NONCE_LEN + 16)%nat then None
  else xchacha_decrypt dek (arr_of 24 (take NONCE_LEN envelope)) (drop NONCE_LEN envelope).
End envelopes.
