(* ===== verification/GroupsProps.v ===== *)
(** * Properties of groups of records *)

From S2P Require Import Prelude Bytes Crypto Commitment Names Codec Checkpoint Tx Wire Records Keystore KeystoreProps Groups.

(** ** Texts *)

Definition v6 (l : list N) : list byte := concat (map (λ s, be_bytes 2 s) l).
Example address_texts :
  ipv4_text [xcb; x00; x71; x05] = ascii "203.0.113.5" ∧
  ipv6_text (v6 [0x2001; 0xdb8; 0; 0; 0; 0; 0; 1]) = ascii "2001:db8::1" ∧
  ipv6_text (v6 [0; 0; 0; 0; 0; 0; 0; 1]) = ascii "::1" ∧
  ipv6_text (v6 [0; 0; 0; 0; 0; 0; 0; 0]) = ascii "::" ∧
  ipv6_text (v6 [1; 0; 0; 2; 0; 0; 0; 3]) = ascii "1:0:0:2::3" ∧
  ipv6_text (v6 [1; 0; 2; 0; 3; 0; 4; 0]) = ascii "1:0:2:0:3:0:4:0" ∧
  ipv6_text (v6 [0; 0; 0; 0; 0; 0xffff; 0x102; 0x304]) = ascii "::ffff:1.2.3.4".
Proof. by vm_compute. Qed.

(** ** Validation *)

(** What validation guarantees.  A group map is accepted exactly when
    it has a public group, the first of them in clear, as many entries in
    the priority list as groups, and every group's identifier exactly once
    in that list; and when the identifiers of its groups are distinct, the
    priority list is then a permutation of them. *)
Theorem validate_exact m :
  (GroupMap_validate m = true ↔
    (∃ public records, find is_public (gm_groups m) = Some public ∧ rg_content public = Clear records) ∧
    length (gm_groups m) = length (gm_priority m) ∧
    ∀ g, g ∈ gm_groups m → length (filter (λ p, p = rg_id g) (gm_priority m)) = 1%nat) ∧
  (GroupMap_validate m = true → NoDup (map rg_id (gm_groups m)) → gm_priority m ≡ₚ map rg_id (gm_groups m)).
Proof.
  assert (GroupMap_validate m = true ↔
    (∃ public records, find is_public (gm_groups m) = Some public ∧ rg_content public = Clear records) ∧
    length (gm_groups m) = length (gm_priority m) ∧
    ∀ g, g ∈ gm_groups m → length (filter (λ p, p = rg_id g) (gm_priority m)) = 1%nat) as Hiff.
  { unfold GroupMap_validate. destruct (find is_public _) as [public|]; [|by split; [|intros ((? & ? & ? & _) & _)]].
    destruct (rg_content public) as [records|ct] eqn:Ec.
    2:{ split; [done|]. intros ((? & ? & [= <-] & E) & _). congruence. }
    rewrite andb_true_iff, Nat.eqb_eq, forallb_forall. split.
    - intros [Hl Hg]. split_and!; [by exists public, records|done|]. intros g Hin. by apply Nat.eqb_eq, Hg, list_elem_of_In.
    - intros (_ & Hl & Hg). split; [done|]. intros g Hin. by apply Nat.eqb_eq, Hg, list_elem_of_In. }
  split; [exact Hiff|]. intros (_ & Hl & Hg)%Hiff Hn. symmetry.
  apply submseteq_length_Permutation; [|rewrite length_map; lia].
  apply NoDup_submseteq; [done|]. intros id (g & -> & Hin)%list_elem_of_fmap.
  specialize (Hg g Hin). destruct (filter _ (gm_priority m)) as [|p l] eqn:Ef; [done|].
  assert (p ∈ filter (λ p, p = rg_id g) (gm_priority m)) as [-> Hp]%list_elem_of_filter; [rewrite Ef; by left|done].
Qed.

(** Identifiers are not compared with each other: a map with two public
    groups, and a priority that names no group, is accepted. *)
Definition doubled : GroupMap :=
  mkGroupMap [PUBLIC_GROUP; ascii "ghost"] [mkGroup PUBLIC_GROUP (Clear [RdTxt []]); mkGroup PUBLIC_GROUP (Clear [])].
Theorem validate_accepts_duplicates :
  GroupMap_validate doubled = true ∧ ¬ NoDup (map rg_id (gm_groups doubled)) ∧
  ascii "ghost" ∈ gm_priority doubled ∧ ascii "ghost" ∉ map rg_id (gm_groups doubled).
Proof.
  split_and!; [done| |by right; left|].
  - apply (bool_decide_unpack (¬ NoDup _)). by vm_compute.
  - apply (bool_decide_unpack (_ ∉ _)). by vm_compute.
Qed.

(** ** Selection *)

Section selection.
Context (decrypt : GroupId → list byte → option (list RecordData)) (groups : list RecordGroup) (rtype : N).

(** The records of a type that a group of this identifier offers. *)
Definition offers (id : GroupId) : list RecordData :=
  match find (λ g, bool_decide (rg_id g = id)) groups with
  | Some g => match group_records decrypt g with Some r => filter (λ rec, record_type rec = rtype) r | None => [] end
  | None => []
  end.

Lemma select_from_spec priority :
  select_from decrypt groups rtype priority = default [] (head (filter (λ l, l ≠ []) (map offers priority))).
Proof.
  induction priority as [|id priority IH]; [done|]. cbn [select_from map]. unfold offers at 1.
  destruct (find _ groups) as [g|]; [|by rewrite filter_cons_False by tauto].
  destruct (group_records decrypt g) as [r|]; [|by rewrite filter_cons_False by tauto].
  destruct (filter _ r) as [|x l] eqn:Ef; [by rewrite filter_cons_False by tauto|]. by rewrite filter_cons_True.
Qed.
End selection.

(** The first group wins.  The answer to a query of a type is the
    records of that type of the first group, in the order of priority, that
    is in clear or can be opened and has one — all of them, in their order
    — and nothing when there is no such group. *)
Theorem select_first m rtype decrypt :
  GroupMap_select m rtype decrypt =
    default [] (head (filter (λ l, l ≠ []) (map (offers decrypt (gm_groups m) rtype) (gm_priority m)))).
Proof. apply select_from_spec. Qed.

(** ** The root *)

Definition id_le (x y : hash * GroupId) : Prop := bytes_le x.2 y.2.
#[local] Instance id_le_trans : Transitive id_le.
Proof. intros x y z. unfold id_le. apply transitivity. Qed.

Lemma insert_tagged_perm x l : insert_tagged x l ≡ₚ x :: l.
Proof.
  induction l as [|y l IH]; [done|]. cbn [insert_tagged]. destruct (bytes_leb _ _); [done|]. rewrite IH. by constructor.
Qed.
Lemma sort_tagged_perm l : sort_tagged l ≡ₚ l.
Proof. induction l as [|x l IH]; [done|]. unfold sort_tagged. cbn [foldr]. by rewrite insert_tagged_perm, IH. Qed.

Lemma insert_tagged_sorted x l : StronglySorted id_le l → StronglySorted id_le (insert_tagged x l).
Proof.
  induction 1 as [|y l Hl IH Hy]; [by repeat constructor|]. cbn [insert_tagged]. destruct (bytes_leb x.2 y.2) eqn:E.
  - constructor; [by constructor|]. constructor; [exact E|]. eapply Forall_impl; [exact Hy|]. intros z Hz. by etrans; [exact E|].
  - constructor; [done|]. rewrite insert_tagged_perm. constructor; [|done]. unfold id_le.
    destruct (total bytes_le y.2 x.2) as [?|Hx]; [done|]. unfold bytes_le in Hx. congruence.
Qed.
Lemma sort_tagged_sorted l : StronglySorted id_le (sort_tagged l).
Proof. induction l as [|x l IH]; [constructor|]. by apply insert_tagged_sorted. Qed.

Lemma sort_tagged_unique l l' : NoDup (map snd l) → l ≡ₚ l' → sort_tagged l = sort_tagged l'.
Proof.
  intros Hn Hp. apply (StronglySorted_unique_strong id_le); [|apply sort_tagged_sorted..|].
  - intros x y Hx Hy H1 H2. rewrite sort_tagged_perm in Hx, Hy. rewrite <- Hp in Hy.
    assert (x.2 = y.2) as E by by apply (anti_symm bytes_le).
    apply list_elem_of_lookup in Hx as [i Hi]. apply list_elem_of_lookup in Hy as [j Hj].
    assert (i = j) as <-; [|congruence]. eapply (NoDup_lookup (map snd l)); [done|..]; rewrite list_lookup_fmap.
    + by rewrite Hi.
    + by rewrite Hj, E.
  - by rewrite !sort_tagged_perm.
Qed.

Section roots.
Context `{Crypto}.

(** The root does not depend on any order.  Two maps with the same
    groups, listed in any order and under any priorities, have the same
    root, as long as their identifiers are distinct. *)
Theorem root_order_independent m m' :
  NoDup (map rg_id (gm_groups m)) → gm_groups m ≡ₚ gm_groups m' → GroupMap_root m = GroupMap_root m'.
Proof.
  intros Hn Hp. unfold GroupMap_root. do 5 f_equal. apply sort_tagged_unique; [|by rewrite Hp].
  by rewrite map_map.
Qed.

(** The entries of the root are read back one after the other. *)
Definition no_nul (id : GroupId) : Prop := x00 ∉ id.

Lemma valid_no_nul id : is_Some (GroupId_new id) → no_nul id.
Proof.
  unfold GroupId_new. destruct (_ && _) eqn:E; [|by intros []]. apply andb_true_iff in E as [_ Hb].
  intros _ Hin. rewrite forallb_forall in Hb. by apply list_elem_of_In, Hb in Hin.
Qed.

Lemma nul_split a a' (b b' : list byte) : no_nul a → no_nul a' → a ++ x00 :: b = a' ++ x00 :: b' → a = a' ∧ b = b'.
Proof.
  revert a'. induction a as [|x a IH]; intros [|x' a'] Ha Ha' E; cbn in E.
  - by injection E.
  - injection E as <- _. exfalso. apply Ha'. by left.
  - injection E as -> _. exfalso. apply Ha. by left.
  - injection E as <- E. destruct (IH a') as [-> ->]; try done; intros Hin; [apply Ha|apply Ha']; by right.
Qed.

Lemma entries_inj (l l' : list (hash * GroupId)) :
  Forall (λ e, no_nul e.2) l → Forall (λ e, no_nul e.2) l' →
  concat (map root_entry l) = concat (map root_entry l') → l = l'.
Proof.
  assert (∀ e (rest : list byte), root_entry e ++ rest ≠ []) as Hne by (intros [c id] rest; unfold root_entry; by destruct id).
  revert l'. induction l as [|[c id] l IH]; intros [|[c' id'] l'] Hl Hl' E; cbn [map concat] in E.
  - done.
  - by apply symmetry, Hne in E.
  - by apply Hne in E.
  - apply Forall_cons in Hl as [Hi Hl]. apply Forall_cons in Hl' as [Hi' Hl']. unfold root_entry in E. cbn [fst snd] in *.
    rewrite <- !app_assoc in E. cbn [app] in E. apply nul_split in E as [-> E]; [|done..].
    apply app_inj_1 in E as [Ec E]; [|by rewrite !arr_length]. apply arr_eq in Ec as ->. f_equal. by apply IH.
Qed.

Lemma insert_tagged_forall (P : hash * GroupId → Prop) l : Forall P l → Forall P (sort_tagged l).
Proof. intros Hl. by rewrite sort_tagged_perm. Qed.

(** What is hashed for the root and for a group. *)
Definition root_text (m : GroupMap) : list byte :=
  GROUPS_ROOT_TAG ++ concat (map root_entry (sort_tagged (map (λ g, (commitment g, rg_id g)) (gm_groups m)))).
Definition content_text (c : GroupContent) : list byte :=
  match c with Clear records => ascii "clear" ++ canonical_records records | Encrypted ct => ascii "enc" ++ ct end.

(** The same content: the same sealed bytes, or records with the same
    canonical text. *)
Definition same_content (c c' : GroupContent) : Prop :=
  match c, c' with
  | Clear r, Clear r' => canonical_records r = canonical_records r'
  | Encrypted ct, Encrypted ct' => ct = ct'
  | _, _ => False
  end.

Lemma content_text_inj c c' : content_text c = content_text c' → same_content c c'.
Proof. destruct c, c'; cbn [content_text same_content]; intros E; [by apply app_inv_head in E|done..|by apply app_inv_head in E]. Qed.

Lemma commitment_text g : commitment g = blake3 (GROUP_TAG ++ rg_id g ++ content_text (rg_content g)).
Proof.
  unfold commitment, hash256, content_text. destruct (rg_content g); f_equal; cbn [concat]; by rewrite app_nil_r.
Qed.

(** The root commits to the groups.  Two maps with the same root have
    the same identifiers, and under each of them the same content — the
    same sealed bytes, or records with the same canonical text — provided
    none of the texts hashed collide. *)
Theorem root_commits m m' :
  Forall (λ g, is_Some (GroupId_new (rg_id g))) (gm_groups m ++ gm_groups m') →
  NoDup (map rg_id (gm_groups m)) →
  (blake3 (root_text m) = blake3 (root_text m') → root_text m = root_text m') →
  (∀ g g', g ∈ gm_groups m → g' ∈ gm_groups m' → commitment g = commitment g' →
    GROUP_TAG ++ rg_id g ++ content_text (rg_content g) = GROUP_TAG ++ rg_id g' ++ content_text (rg_content g')) →
  GroupMap_root m = GroupMap_root m' →
  map rg_id (gm_groups m) ≡ₚ map rg_id (gm_groups m') ∧
  ∀ g g', g ∈ gm_groups m → g' ∈ gm_groups m' → rg_id g = rg_id g' → same_content (rg_content g) (rg_content g').
Proof.
  intros [Hv Hv']%Forall_app Hn Hroot Hgroup E. set (tag := λ g, (commitment g, rg_id g)).
  assert (∀ gs, Forall (λ g, is_Some (GroupId_new (rg_id g))) gs → Forall (λ e : hash * GroupId, no_nul e.2) (sort_tagged (map tag gs))) as Hs.
  { intros gs Hgs. apply insert_tagged_forall. apply Forall_forall. intros e (g & -> & Hin)%list_elem_of_fmap.
    apply valid_no_nul. by apply (proj1 (Forall_forall _ _) Hgs). }
  assert (map tag (gm_groups m) ≡ₚ map tag (gm_groups m')) as Hp.
  { rewrite <- (sort_tagged_perm (map tag (gm_groups m))), <- (sort_tagged_perm (map tag (gm_groups m'))).
    apply reflexive_eq, entries_inj; [by apply Hs|by apply Hs|]. apply (app_inv_head GROUPS_ROOT_TAG), Hroot.
    unfold GroupMap_root, hash256 in E. cbn [concat] in E. by rewrite !app_nil_r in E. }
  split.
  - assert (map snd (map tag (gm_groups m)) ≡ₚ map snd (map tag (gm_groups m'))) as Hi by by rewrite Hp. by rewrite !map_map in Hi.
  - intros g g' Hg Hg' Eid.
    assert (tag g' ∈ map tag (gm_groups m)) as (g2 & E2 & Hg2)%list_elem_of_fmap by (rewrite Hp; by apply list_elem_of_fmap_2).
    injection E2 as Ec Ei.
    assert (g2 = g) as ->.
    { apply list_elem_of_lookup in Hg as [i Hi]. apply list_elem_of_lookup in Hg2 as [j Hj].
      assert (i = j) as <-; [|congruence]. eapply (NoDup_lookup (map rg_id (gm_groups m))); [done|..]; rewrite list_lookup_fmap.
      + by rewrite Hi.
      + rewrite Hj. cbn. by rewrite <- Ei, Eid. }
    specialize (Hgroup g g' Hg Hg' (eq_sym Ec)). rewrite Eid in Hgroup.
    apply content_text_inj. by do 2 apply app_inv_head in Hgroup.
Qed.

(** The canonical text does not determine the records: of a record of an
    unknown type only the length is written, and a line break in a text
    looks like the next record; so the root does not either. *)
Theorem commitment_misses_data id (rdata rdata' : list byte) t :
  blen rdata = blen rdata' →
  commitment (mkGroup id (Clear [RdUnknown t rdata])) = commitment (mkGroup id (Clear [RdUnknown t rdata'])) ∧
  commitment (mkGroup id (Clear [RdTxt (ascii "a" ++ NEWLINE :: ascii "A 10.0.0.1")])) =
    commitment (mkGroup id (Clear [RdTxt (ascii "a"); RdA (arr_of 4 [x0a; x00; x00; x01])])).
Proof.
  intros E. assert (canonical_records [RdUnknown t rdata] = canonical_records [RdUnknown t rdata']) as Er.
  { unfold canonical_records. cbn [map concat]. unfold record_line. by rewrite E. }
  rewrite !commitment_text. cbn [content_text rg_content rg_id]. by rewrite Er.
Qed.
End roots.

(** ** Envelopes *)

(** An envelope opens to what was sealed, under its key, and is 40
    bytes longer; anything shorter than that does not open. *)
Theorem envelope_roundtrip `{SealingLaws} dek nonce plaintext envelope :
  seal dek nonce plaintext = Some envelope →
  open_envelope dek envelope = Some plaintext ∧ length envelope = (length plaintext + 40)%nat ∧
  ∀ short, (length short < 40)%nat → open_envelope dek short = None.
Proof.
  unfold seal. intros (ct & Ec & [= <-])%bind_Some. pose proof (seal_length _ _ _ _ Ec) as Hl. split_and!.
  - unfold open_envelope. rewrite length_app, arr_length, Hl.
    rewrite (proj2 (Nat.ltb_ge _ _)) by (unfold NONCE_LEN; lia).
    rewrite take_app_length' by by rewrite arr_length. rewrite drop_app_length' by by rewrite arr_length.
    rewrite arr_of_own. by apply seal_open with (1 := Ec).
  - rewrite length_app, arr_length, Hl. lia.
  - intros short Hs. unfold open_envelope. by rewrite (proj2 (Nat.ltb_lt _ _)) by (unfold NONCE_LEN; lia).
Qed.
