(* ===== verification/Publish.v ===== *)
(** * Registering and publishing from the command line ([scone]:
    [domain.rs], [identity.rs], [rpc.rs])

    The file of a record set, read strictly; the update that commits to the
    records and the signed record that is published; and the commands, each
    a conversation with the relay: it asks, and goes on with the answer,
    in the requests and answers of the control RPC.  The texts shown are
    left out; a file is UTF-8. *)

From S2P Require Import Prelude Bytes Crypto Names Codec Checkpoint Tx Wire State Blocks Records.
From S2P Require Import Messages Mempool Anchor Relay Hex RelayRpc Keystore Wallet.

(** ** White space *)

(** [char::is_whitespace]: what follows one such character. *)
Definition skip_whitespace (l : list byte) : option (list byte) :=
  match l with
  | [] => None
  | b :: r =>
      let n := Byte.to_N b in
      if (9 <=? n) && (n <=? 13) || (n =? 32) then Some r
      else
        match b, r with
        | xc2, x85 :: r | xc2, xa0 :: r | xe1, x9a :: x80 :: r | xe2, x81 :: x9f :: r | xe3, x80 :: x80 :: r => Some r
        | xe2, x80 :: c :: r =>
            let m := Byte.to_N c in
            if (0x80 <=? m) && (m <=? 0x8a) || (m =? 0xa8) || (m =? 0xa9) || (m =? 0xaf) then Some r else None
        | _, _ => None
        end
  end.

Fixpoint trim_start (fuel : nat) (l : list byte) : list byte :=
  match fuel with
  | O => l
  | S fuel => match skip_whitespace l with Some r => trim_start fuel r | None => l end
  end.
Fixpoint trim_end (l : list byte) : list byte :=
  match l with
  | [] => []
  | b :: r => match trim_start (length l) l with [] => [] | _ => b :: trim_end r end
  end.
(** [str::trim]: each character has a byte at least. *)
Definition trim (l : list byte) : list byte := trim_end (trim_start (length l) l).

(** The rest of [split_once(char::is_whitespace)]. *)
Fixpoint after_whitespace (l : list byte) : option (list byte) :=
  match skip_whitespace l with
  | Some r => Some r
  | None => match l with [] => None | _ :: r => after_whitespace r end
  end.

Definition is_ascii_whitespace (b : byte) : bool :=
  let n := Byte.to_N b in (n =? 32) || (n =? 9) || (n =? 10) || (n =? 12) || (n =? 13).

(** [split_ascii_whitespace]: [field], the part that is read. *)
Fixpoint fields_from (field : list byte) (l : list byte) : list (list byte) :=
  let emit := match field with [] => [] | _ => [field] end in
  match l with
  | [] => emit
  | b :: r => if is_ascii_whitespace b then emit ++ fields_from [] r else fields_from (field ++ [b]) r
  end.
Definition split_ascii_whitespace (l : list byte) : list (list byte) := fields_from [] l.

(** [str::lines] before each line is trimmed. *)
Fixpoint lines_from (line : list byte) (l : list byte) : list (list byte) :=
  match l with
  | [] => [line]
  | b :: r => if byte_eqb b x0a then line :: lines_from [] r else lines_from (line ++ [b]) r
  end.

(** ** Numbers and addresses *)

Definition to_digit (radix : N) (b : byte) : option N :=
  let n := Byte.to_N b in
  let v := if (48 <=? n) && (n <=? 57) then n - 48
           else if (97 <=? n) && (n <=? 122) then n - 87
           else if (65 <=? n) && (n <=? 90) then n - 55 else 36 in
  if v <? radix then Some v else None.

(** [Parser::read_number]: the value, the number of digits, the rest;
    [None] past the maximum. *)
Fixpoint read_digits (radix : N) (max count : nat) (acc : N) (l : list byte) : option (N * nat * list byte) :=
  match l with
  | b :: r =>
      match to_digit radix b with
      | Some d => if (max <? S count)%nat then None else read_digits radix max (S count) (acc * radix + d) r
      | None => Some (acc, count, l)
      end
  | [] => Some (acc, count, l)
  end.
Definition read_number (radix : N) (max : nat) (allow_zero_prefix : bool) (limit : N) (l : list byte) : option (N * list byte) :=
  '(v, count, r) ← read_digits radix max 0 0 l;
  let leading_zero := match l with x30 :: _ => true | _ => false end in
  if (count =? 0)%nat || negb allow_zero_prefix && leading_zero && (1 <? count)%nat || (limit <? v) then None else Some (v, r).

Definition read_char (c : byte) (l : list byte) : option (list byte) :=
  match l with b :: r => if byte_eqb b c then Some r else None | [] => None end.
Definition read_separator {A} (c : byte) (index : nat) (inner : list byte → option (A * list byte)) (l : list byte)
    : option (A * list byte) :=
  if (index =? 0)%nat then inner l else (r ← read_char c l; inner r).

Fixpoint read_octets (index n : nat) (l : list byte) : option (list N * list byte) :=
  match n with
  | O => Some ([], l)
  | S n =>
      '(o, r) ← read_separator x2e index (read_number 10 3 false 255) l;
      '(os, r) ← read_octets (S index) n r; Some (o :: os, r)
  end.
Definition read_ipv4_addr (l : list byte) : option (list N * list byte) := read_octets 0 4 l.

(** [read_groups] into [n] slots, [index] of which are filled: the groups
    read, whether an IPv4 address ends them, and the rest. *)
Fixpoint read_groups (index n : nat) (l : list byte) : list N * bool * list byte :=
  match n with
  | O => ([], false, l)
  | S n' =>
      match (if (1 <? n)%nat then read_separator x3a index read_ipv4_addr l else None) with
      | Some ([a; b; c; d], r) => ([a * 256 + b; c * 256 + d], true, r)
      | _ =>
          match read_separator x3a index (read_number 16 4 true 0xffff) l with
          | Some (g, r) => let '(gs, v4, r) := read_groups (S index) n' r in (g :: gs, v4, r)
          | None => ([], false, l)
          end
      end
  end.

Definition read_ipv6_addr (l : list byte) : option (list N * list byte) :=
  let '(head, head_ipv4, r) := read_groups 0 8 l in
  if (length head =? 8)%nat then Some (head, r)
  else if head_ipv4 then None
  else
    r ← read_char x3a r;
    r ← read_char x3a r;
    let '(tail, _, r) := read_groups 0 (8 - (length head + 1)) r in
    Some (head ++ replicate (8 - length head - length tail) 0 ++ tail, r).

(** [FromStr] of the addresses: everything is read. *)
Definition whole {A} (p : option (A * list byte)) : option A :=
  match p with Some (a, []) => Some a | _ => None end.
Definition parse_ipv4 (l : list byte) : option (arr 4) :=
  octets ← whole (read_ipv4_addr l); to_arr 4 (map byte_of_N octets).
Definition parse_ipv6 (l : list byte) : option (arr 16) :=
  groups ← whole (read_ipv6_addr l); to_arr 16 (concat (map (be_bytes 2) groups)).

(** [u16::from_str]. *)
Definition parse_u16 (l : list byte) : option N :=
  let digits := match l with x2b :: r => r | _ => l end in
  match digits with
  | [] => None
  | _ =>
      v ← foldl (λ acc b, a ← acc; d ← to_digit 10 b; if 0xffff <? a * 10 + d then None else Some (a * 10 + d)) (Some 0) digits;
      Some v
  end.

(** ** Record files *)

Definition ascii_upper (b : byte) : byte :=
  let n := Byte.to_N b in if (97 <=? n) && (n <=? 122) then byte_of_N (n - 32) else b.

Definition bad {A} (o : option A) : result CliError A := ok_or o CliBadRecordFile.
Definition name_field (raw : list byte) : result CliError DomainName :=
  map_err (λ _, CliBadRecordFile) (DomainName_new raw).

Definition no_trailing (fields : list (list byte)) : result CliError unit :=
  match fields with [] => Ok tt | _ => Err CliBadRecordFile end.

(** [scone/src/domain.rs:60-139 parse_record_line]: the texts of the errors
    left out. *)
Definition parse_record_line (line : list byte) : result CliError RecordData :=
  match split_ascii_whitespace line with
  | [] => Err CliBadRecordFile
  | kind :: fields =>
      let kind := map ascii_upper kind in
      if bool_decide (kind = ascii "A") then
        let? raw := bad (head fields) in
        let? ip := bad (parse_ipv4 raw) in
        let? _ := no_trailing (tail fields) in Ok (RdA ip)
      else if bool_decide (kind = ascii "AAAA") then
        let? raw := bad (head fields) in
        let? ip := bad (parse_ipv6 raw) in
        let? _ := no_trailing (tail fields) in Ok (RdAaaa ip)
      else if bool_decide (kind = ascii "CNAME") || bool_decide (kind = ascii "NS") then
        let? raw := bad (head fields) in
        let? name := name_field raw in
        let? _ := no_trailing (tail fields) in
        Ok (if bool_decide (kind = ascii "CNAME") then RdCname name else RdNs name)
      else if bool_decide (kind = ascii "MX") then
        let? pref := bad (head fields) in
        let? pref := bad (parse_u16 pref) in
        let? raw := bad (head (tail fields)) in
        let? exchange := name_field raw in
        let? _ := no_trailing (tail (tail fields)) in Ok (RdMx pref exchange)
      else if bool_decide (kind = ascii "TXT") then
        let text := match after_whitespace line with
                    | Some rest => Keystore.join_words (split_ascii_whitespace rest)
                    | None => []
                    end in
        match text with [] => Err CliBadRecordFile | _ => Ok (RdTxt text) end
      else Err CliBadRecordFile
  end.

(** The lines that hold a record: trimmed, not blank, not a comment. *)
Definition record_lines (text : list byte) : list (list byte) :=
  filter (λ l, match l with [] => false | b :: _ => negb (byte_eqb b x23) end = true) (map trim (lines_from [] text)).

(** [scone/src/domain.rs:145-179 read_record_file]: of the text that was
    read. *)
Definition read_record_file (text : list byte) : result CliError (list RecordData) :=
  let? records := collect parse_record_line (record_lines text) in
  match records with
  | [] => Err CliBadRecordFile
  | _ =>
      if MAX_RECORDS_PER_SET <? N.of_nat (length records) then Err CliBadRecordFile
      else
        let? canonical := map_err CliMalformedTransaction (encode_all records) in
        if adjacent_eq (merge_sort bytes_le canonical) then Err CliBadRecordFile
        else Ok records
  end.

Section update.
Context `{Crypto}.

(** [scone/src/identity.rs:69-73 owner_id_of] *)
Definition owner_id_of (sk : SigningKey) : OwnerId := owner_of (sk_public_key sk).

(** [scone/src/domain.rs:255-288 run_domain]: [Update]; what is committed
    to, after the lookup of the domain answered [st]. *)
Definition next_record (sk : SigningKey) (domain : DomainName) (records : list RecordData) (st : option DomainState)
    : result CliError DnsRecord :=
  match st with
  | None => Err CliDomainState
  | Some st =>
      let? next := ok_or (checked_add64 (ds_sequence st) 1) CliDomainState in
      if negb (arr_eqb (ds_owner st) (owner_id_of sk)) then Err CliDomainState
      else Ok (mkDnsRecord (DomainId_from_name domain) next 0 records)
  end.

(** [scone/src/domain.rs:289-291 run_domain]: [Update]; the transaction.
    [None], for the panic of [record_hash]. *)
Definition update_tx (sk : SigningKey) (domain : DomainName) (dns : DnsRecord) : option (result CliError Transaction) :=
  record_hash ← record_hash_of dns; Some (signed_update_domain_tx sk domain (dr_sequence dns) record_hash).

(** [scone/src/domain.rs:303-311 run_domain]: [Update]; the record that is
    published once the chain carries the update. *)
Definition signed_record (sk : SigningKey) (dns : DnsRecord) : result CliError SignedDnsRecord :=
  let? canonical := map_err CliMalformedTransaction (enc DnsRecord_c dns) in
  Ok (mkSignedDnsRecord dns (owner_id_of sk) (arr_list (sk_sign sk canonical))).

(** [scone/src/domain.rs:312-314 run_domain]: [Update]; its bytes. *)
Definition record_bytes (sk : SigningKey) (dns : DnsRecord) : result CliError (list byte) :=
  let? signed := signed_record sk dns in map_err CliMalformedTransaction (enc SignedDnsRecord_c signed).
End update.

(** ** Conversations *)

(** [Waits]: the program does not go on, as it still mines, or panicked. *)
Inductive Talk (A : Type) :=
| Done (res : result CliError A)
| Ask (request : RpcRequest) (k : result CliError RpcResponse → Talk A)
| Waits.
Arguments Done {A} _.
Arguments Ask {A} _ _.
Arguments Waits {A}.

Fixpoint tbind {A B} (t : Talk A) (k : A → Talk B) : Talk B :=
  match t with
  | Done (Ok a) => k a
  | Done (Err e) => Done (Err e)
  | Ask request f => Ask request (λ answer, tbind (f answer) k)
  | Waits => Waits
  end.
Definition lift {A} (res : result CliError A) : Talk A := Done res.
Definition lift_opt {A} (o : option (result CliError A)) : Talk A := match o with Some res => Done res | None => Waits end.

Declare Scope talk_scope.
Delimit Scope talk_scope with talk.
Notation "'ask!' x := m 'in' k" := (tbind m (λ x, k)) (at level 200, x pattern, m at level 100, k at level 200) : talk_scope.
#[local] Open Scope talk_scope.

(** The answers that are errors. *)
Definition refused (response : RpcResponse) : bool :=
  match response with
  | RpcError _ | RpcTooManyLookups | RpcKeyMismatch | RpcNotOnChain | RpcBadRecord _ | RpcNotFound | RpcTimedOut => true
  | _ => false
  end.

(** [scone/src/rpc.rs:100-118 rpc_json] *)
Definition rpc_json (request : RpcRequest) : Talk RpcResponse :=
  Ask request (λ answer,
    match answer with
    | Ok response => Done (if refused response then Err CliRelayError else Ok response)
    | Err e => Done (Err e)
    end).

(** The fields [registered], [owner] and [sequence] of an answer. *)
Definition shown (response : RpcResponse) : option DomainState :=
  match response with RpcDomain _ st | RpcInfo _ st _ | RpcResolved _ st _ => st | _ => None end.

(** [scone/src/domain.rs:24-46 wait_for_sequence]: [polls], the answers
    after which the deadline has not passed. *)
Fixpoint wait_for_sequence (polls : nat) (name : list byte) (at_least : N) : Talk DomainState :=
  ask! info := rpc_json (RqLookup name) in
  let again := match polls with O => Done (Err CliRelayError) | S polls => wait_for_sequence polls name at_least end in
  match shown info with
  | Some st => if at_least <=? ds_sequence st then Done (Ok st) else again
  | None => again
  end.

Section domain.
Context `{Crypto} `{Sealing}.

(** [scone/src/identity.rs:77-90 open_identity]: the files of the keystore
    directory. *)
Definition open_identity (name : list byte) (passphrase : option (list byte)) (files : Files) : result CliError SigningKey :=
  if negb (validate_identity_name name) then Err CliInvalidIdentityName
  else
    let path := keyfile_name name in
    match files !! path with
    | None => Err CliUnknownIdentity
    | Some _ =>
        let? passphrase := ok_or passphrase CliNoPassphrase in
        map_err CliKeystore (open_keyfile path passphrase files)
    end.

(** [scone/src/domain.rs:184-238 run_domain]: [Register]; the domain as it
    was confirmed. *)
Definition run_register (fuel polls : nat) (identity : result CliError SigningKey) (unix_now : N) (name : list byte)
    : Talk DomainState :=
  ask! domain := lift (domain_arg name) in
  ask! info := rpc_json (RqLookup name) in
  match shown info with
  | Some _ => Done (Err CliDomainState)
  | None =>
      ask! sk := lift identity in
      ask! tx := lift_opt (signed_register_domain_tx fuel sk domain unix_now) in
      ask! hex_string := lift (tx_hex tx) in
      ask! _ := rpc_json (RqSubmitTx hex_string) in
      ask! confirmed := wait_for_sequence polls name 0 in
      if negb (arr_eqb (ds_owner confirmed) (owner_id_of sk)) then Done (Err CliDomainState) else Done (Ok confirmed)
  end.

(** [scone/src/domain.rs:239-332 run_domain]: [Update], of the text of the
    file; the record set that was committed to and published. *)
Definition run_update (polls : nat) (identity : result CliError SigningKey) (name text : list byte) : Talk DnsRecord :=
  ask! domain := lift (domain_arg name) in
  ask! records := lift (read_record_file text) in
  ask! info := rpc_json (RqLookup name) in
  ask! st := lift (ok_or (shown info) CliDomainState) in
  ask! _ := lift (ok_or (checked_add64 (ds_sequence st) 1) CliDomainState) in
  ask! sk := lift identity in
  ask! dns := lift (next_record sk domain records (Some st)) in
  ask! tx := lift_opt (update_tx sk domain dns) in
  ask! hex_string := lift (tx_hex tx) in
  ask! _ := rpc_json (RqSubmitTx hex_string) in
  ask! _ := wait_for_sequence polls name (dr_sequence dns) in
  ask! encoded := lift (record_bytes sk dns) in
  ask! answer := rpc_json (RqPutRecord (hex encoded)) in
  match answer with
  | RpcPublished id => if arr_eqb id (DomainId_from_name domain) then Done (Ok dns) else Done (Err CliRelayError)
  | _ => Done (Err CliRelayError)
  end.
End domain.
