(* ===== verification/PublishProps.v ===== *)
(** * From the command line to the resolver

    A record set that the owner of a domain publishes is what the DNS
    server of a relay answers with: the properties of the client, of the
    chain, of the relay and of the encoding, composed. *)

From S2P Require Import Prelude Bytes Crypto Commitment Smt Names Icann Codec Checkpoint Pow Tx Wire WireProps.
From S2P Require Import State StateSpec StateProofs StateProps Blocks BlocksProps Chain ForkChoice ChainProofs ChainProps ForkProps.
From S2P Require Import StateBytes Redb Store StoreSpec StorePaging StoreProofs StoreProps Persist PersistProofs.
From S2P Require Import Restart Mirror Resume RestartProps Signer Records Messages MessagesProps Mempool Anchor Relay Hex Dns.
From S2P Require Import RelayRpc RelayProofs RelayProps Keystore Wallet WalletProps Publish.

(** ** Record files *)

Example lines_read :
  parse_record_line (ascii "A 203.0.113.5") = Ok (RdA (arr_of 4 [xcb; x00; x71; x05])) ∧
  parse_record_line (ascii "aaaa 2001:db8::1") = Ok (RdAaaa (arr_of 16 [x20; x01; x0d; xb8; x00; x00; x00; x00; x00; x00; x00; x00; x00; x00; x00; x01])) ∧
  parse_record_line (ascii "AAAA ::ffff:1.2.3.4") = Ok (RdAaaa (arr_of 16 [x00; x00; x00; x00; x00; x00; x00; x00; x00; x00; xff; xff; x01; x02; x03; x04])) ∧
  parse_record_line (ascii "MX 10 mail.a.uip") = Ok (RdMx 10 (ascii "mail.a.uip")) ∧
  parse_record_line (ascii "TXT  v=spf1   -all ") = Ok (RdTxt (ascii "v=spf1 -all")) ∧
  map is_ok (map parse_record_line [ascii "A 1.2.3"; ascii "A 01.2.3.4"; ascii "A 1.2.3.256"; ascii "A 1.2.3.4 x"; ascii "AAAA 1::2::3";
    ascii "AAAA 1:2:3:4:5:6:7"; ascii "MX 65536 a.uip"; ascii "TXT  "; ascii "SRV x"; []]) = replicate 10 false.
Proof. by vm_compute. Qed.

Section publish.
Context `{CryptoLaws}.

(** A record set that was read is encoded, under any sequence number but
    zero: [record_hash] does not panic on it. *)
Lemma record_file_encodes text records id sequence :
  read_record_file text = Ok records → sequence ≠ 0 → ∃ bs, enc DnsRecord_c (mkDnsRecord id sequence 0 records) = Ok bs.
Proof.
  unfold read_record_file. intros (rs & _ & E)%rbind_Ok Hs. destruct rs as [|r rs]; [done|].
  destruct (N.ltb_spec MAX_RECORDS_PER_SET (N.of_nat (length (r :: rs)))) as [|Hl]; [done|].
  apply rbind_Ok in E as (es & Ee & E). destruct (encode_all (r :: rs)) as [es'|] eqn:Ea; [|done]. injection Ee as ->.
  destruct (adjacent_eq _) eqn:Ed; [done|]. injection E as <-.
  eexists. apply DnsRecord_encode_Ok. split; [|split; [exact Hl|]].
  - unfold DnsRecord_validate. cbn [dr_sequence dr_records]. by rewrite (proj2 (N.eqb_neq _ _) Hs).
  - exists es. split; [by apply encode_all_Ok|]. split; [|done].
    apply adjacent_eq_sorted; [apply (StronglySorted_merge_sort bytes_le)|done].
Qed.

(** The texts of a file that is UTF-8. *)
Definition texts_utf8 (records : list RecordData) : Prop :=
  Forall (λ rd, match rd with RdTxt text => utf8_valid text = true | _ => True end) records.

Lemma name_field_Ok raw name : name_field raw = Ok name → DomainName_valid name.
Proof.
  unfold name_field, DomainName_new, DomainName_valid. destruct (DomainName_validate raw) as [[]|] eqn:E; [|done].
  by intros [= <-].
Qed.

Lemma parse_u16_bound l v : parse_u16 l = Some v → v ≤ 0xffff.
Proof.
  unfold parse_u16. set (digits := match l with x2b :: r => r | _ => l end). set (step := λ acc b, _).
  assert (∀ bs acc v, (∀ a, acc = Some a → a ≤ 0xffff) → foldl step acc bs = Some v → v ≤ 0xffff) as Hb.
  { induction bs as [|b bs IH]; intros acc w Ha; [apply Ha|]. cbn [foldl]. apply IH. subst step. cbn beta.
    intros a (a0 & _ & E)%bind_Some. apply bind_Some in E as (d & _ & E).
    destruct (N.ltb_spec 0xffff (a0 * 10 + d)); [done|]. by injection E as <-. }
  destruct digits; [done|]. intros (w & E & [= <-])%bind_Some. eapply Hb; [|exact E]. by intros ? [= <-].
Qed.

(** A line that is read holds a record of the wire format. *)
Lemma parse_record_line_wf line rd :
  parse_record_line line = Ok rd → match rd with RdTxt _ => True | RdUnknown _ _ => False | _ => RecordData_wf rd end.
Proof.
  unfold parse_record_line. destruct (split_ascii_whitespace line) as [|kind fields]; [done|].
  case_bool_decide. { by intros (raw & _ & (ip & _ & (? & _ & [= <-])%rbind_Ok)%rbind_Ok)%rbind_Ok. }
  case_bool_decide. { by intros (raw & _ & (ip & _ & (? & _ & [= <-])%rbind_Ok)%rbind_Ok)%rbind_Ok. }
  destruct (_ || _).
  { intros (raw & _ & (name & Hn%name_field_Ok & (? & _ & [= <-])%rbind_Ok)%rbind_Ok)%rbind_Ok. by case_bool_decide. }
  case_bool_decide.
  { intros (raw & _ & (pref & Ep & (host & _ & (name & Hn%name_field_Ok & (? & _ & [= <-])%rbind_Ok)%rbind_Ok)%rbind_Ok)%rbind_Ok)%rbind_Ok.
    split; [|done]. destruct (parse_u16 raw) as [v|] eqn:E; [|done]. injection Ep as <-. by eapply parse_u16_bound. }
  case_bool_decide; [|done]. destruct (match after_whitespace line with Some _ => _ | None => _ end); [done|]. by intros [= <-].
Qed.

Lemma collect_Forall {E A B} (f : A → result E B) (P : B → Prop) l ys :
  (∀ x y, f x = Ok y → P y) → collect f l = Ok ys → Forall P ys.
Proof.
  intros Hf. revert ys. induction l as [|x l IH]; intros ys; [by intros [= <-]|].
  intros (y & Ey & (zs & Ez & [= <-])%rbind_Ok)%rbind_Ok. constructor; [by eapply Hf|by apply IH].
Qed.

Lemma record_file_wf text records : read_record_file text = Ok records → texts_utf8 records → Forall RecordData_wf records.
Proof.
  unfold read_record_file. intros (rs & Er & E)%rbind_Ok Hu.
  apply (collect_Forall _ _ _ _ parse_record_line_wf) in Er. assert (records = rs) as ->.
  { destruct rs; [done|]. destruct (_ <? _); [done|]. apply rbind_Ok in E as (? & _ & E). destruct (adjacent_eq _); [done|]. by injection E as <-. }
  unfold texts_utf8 in Hu. rewrite Forall_forall in Er, Hu |- *. intros rd Hin. specialize (Er rd Hin). specialize (Hu rd Hin).
  by destruct rd.
Qed.

(** ** The update *)

Lemma next_record_Ok sk domain records st dns : next_record sk domain records (Some st) = Ok dns ↔
  ds_sequence st + 1 < U64 ∧ ds_owner st = owner_id_of sk ∧
  dns = mkDnsRecord (DomainId_from_name domain) (ds_sequence st + 1) 0 records.
Proof.
  unfold next_record, checked_add64, arr_eqb. destruct (N.leb_spec (ds_sequence st + 1) U64_MAX); cbn [ok_or rbind].
  2:{ split; [done|]. intros (? & _). unfold U64_MAX, U64 in *. lia. }
  case_bool_decide; cbn [negb].
  - split; [intros [= <-]|intros (_ & _ & ->); done]. split_and!; [unfold U64_MAX, U64 in *; lia|done|done].
  - split; [done|]. by intros (_ & ? & _).
Qed.

(** What the chain holds after the update. *)
Definition updated (st : DomainState) (x : hash) : DomainState :=
  mkDomainState (ds_owner st) (ds_sequence st + 1) (Some x) (ds_registered_at st) (ds_valid_until st).

Lemma update_tx_accepted sk domain records st dns tx r now x :
  r_domains r !! DomainId_from_name domain = Some st → np_network_id (r_network r) = NetworkId_TESTNET →
  next_record sk domain records (Some st) = Ok dns → record_hash_of dns = Some x → x ≠ arr_zero 32 →
  update_tx sk domain dns = Some (Ok tx) →
  validate_transaction tx = Ok tt ∧ (registry_apply r tx now).2 = Ok tt ∧
  r_domains (registry_apply r tx now).1 !! DomainId_from_name domain = Some (updated st x).
Proof.
  intros Ed En (Hs & Ho & ->)%next_record_Ok Ex Hx. unfold update_tx. rewrite Ex. cbn [mbind option_bind]. intros E%(inj Some).
  unfold signed_update_domain_tx in E. cbn [dr_sequence] in E. set (t := update_domain_signed _ _ _ _ _) in E.
  apply rbind_Ok in E as (payload & E1 & <-%Ok_inj). destruct (signing_payload (TxUpdateDomain t)) as [q|] eqn:Eq; [|done]. injection E1 as ->.
  assert (tx_validate (TxUpdateDomain t) = Ok tt) as Hv.
  { cbn. unfold UpdateDomain_validate, check_owner_binding, arr_eqb. cbn. rewrite bool_decide_eq_true_2 by done.
    by rewrite (proj2 (N.eqb_neq _ _)) by lia. }
  split; [exact (signed_valid (TxUpdateDomain t) sk payload eq_refl eq_refl Hv Eq)|].
  unfold registry_apply. rewrite attach_validate, Hv. cbn [attach_signature tx_network ud_network t update_domain_signed update_domain_on].
  rewrite En, decide_True by done. unfold update_domain_rule, on_domain, t, update_domain_signed, update_domain_on.
  cbn [ud_domain_id ud_owner ud_sequence ud_public_key ud_record_hash]. fold (owner_id_of sk).
  rewrite Ed, decide_True by done. rewrite decide_False by (unfold U64_MAX, U64 in *; lia). rewrite decide_True by done.
  cbn [fst snd]. split; [done|]. unfold set_domain, updated, norm_hash. rewrite bool_decide_eq_false_2 by done.
  unfold r_with_domains. cbn [r_domains]. apply lookup_insert_eq.
Qed.

(** ** The record *)

(** The record as the relay decodes it. *)
Definition published (sk : SigningKey) (dns : DnsRecord) (signature : list byte) : SignedDnsRecord :=
  mkSignedDnsRecord (canonical_record dns) (owner_id_of sk) signature.

Lemma record_bytes_decode sk dns encoded :
  dr_sequence dns < U64 → dr_expiration dns < U64 → Forall RecordData_wf (dr_records dns) →
  record_bytes sk dns = Ok encoded →
  ∃ signature, decode_complete (dec SignedDnsRecord_c) encoded = Ok (published sk dns signature) ∧
    enc SignedDnsRecord_c (published sk dns signature) = Ok encoded ∧
    record_hash_of (canonical_record dns) = record_hash_of dns.
Proof.
  intros Hs Hx Hw (signed & Esg & E)%rbind_Ok. apply rbind_Ok in Esg as (cb & Ecb & <-%Ok_inj).
  destruct (enc DnsRecord_c dns) as [b|] eqn:Eb; [|done]. injection Ecb as ->.
  pose proof Eb as (_ & _ & es & He & Hso & _)%DnsRecord_encode_Ok.
  assert (DnsRecord_encode (canonical_record dns) = Ok cb) as Ec.
  { apply (DnsRecord_encode_perm dns); try done. cbn. by rewrite merge_sort_Permutation. }
  exists (arr_list (sk_sign sk cb)). set (sg := arr_list (sk_sign sk cb)) in *.
  assert (enc SignedDnsRecord_c (published sk dns sg) = Ok encoded) as Ep.
  { destruct (enc SignedDnsRecord_c (mkSignedDnsRecord dns (owner_id_of sk) sg)) as [e|] eqn:Ee; [|done]. injection E as ->.
    rewrite <- Ee. cbn [enc SignedDnsRecord_c]. unfold SignedDnsRecord_encode, published. cbn [sr_record sr_owner sr_signature].
    cbn [enc DnsRecord_c] in Eb |- *. by rewrite Ec, Eb. }
  split; [|split; [exact Ep|]].
  - apply (decode_complete_roundtrip SignedDnsRecord_c); [|exact Ep]. by eapply canonical_record_wf.
  - unfold record_hash_of. cbn [enc DnsRecord_c] in Eb |- *. by rewrite Ec, Eb.
Qed.

Lemma record_bytes_total sk dns b : enc DnsRecord_c dns = Ok b → ∃ encoded, record_bytes sk dns = Ok encoded.
Proof.
  intros Eb. unfold record_bytes, signed_record. rewrite Eb. cbn [map_err rbind].
  enough (∃ e, enc SignedDnsRecord_c (mkSignedDnsRecord dns (owner_id_of sk) (arr_list (sk_sign sk b))) = Ok e) as [e ->]
    by by exists e.
  apply cat_total. repeat (apply Forall_cons; split); [by exists b|by eexists| |by apply Forall_nil].
  apply put_bounded_total. cbn [sr_signature]. unfold blen. rewrite arr_length. done.
Qed.

Lemma update_tx_total sk domain dns x : record_hash_of dns = Some x → dr_sequence dns < U64 →
  ∃ tx, update_tx sk domain dns = Some (Ok tx).
Proof.
  intros Ex Hs. unfold update_tx. rewrite Ex. cbn [mbind option_bind]. unfold signed_update_domain_tx.
  set (t := update_domain_signed _ _ _ _ _).
  destruct (payload_total (TxUpdateDomain t)) as [q Eq]; [|done|unfold sign_tx_with; rewrite Eq; by eexists].
  unfold fields_wf. cbn. pose proof TESTNET_wf. pose proof (public_valid sk). done.
Qed.
End publish.

(** ** From the file to the resolver *)

Section resolver.
Context `{CryptoLaws} `{RedbLaws} `{!Faults} `{Swarm}.

(** C19. A published file of at most 64 KiB is what the resolver serves.
    A record file that is read — of a domain its owner holds on the test
    network — yields, without a panic or an error, an update that is valid
    and that the rules accept, and a signed record.  A relay whose chain
    has taken the update accepts the record if its encoding has at most
    [MAX_DHT_CACHE_ENTRY] bytes and its store takes the write, whatever it
    held under the domain before, and its DNS server then answers with the
    records of the file, all of them and no other.  A record with a longer
    encoding is refused by every such relay, which does not change: the
    update is on the chain and can never be served. *)
Theorem update_reaches_resolver sk domain text records r now st :
  read_record_file text = Ok records → texts_utf8 records → DomainName_valid domain →
  np_network_id (r_network r) = NetworkId_TESTNET →
  r_domains r !! DomainId_from_name domain = Some st → ds_owner st = owner_id_of sk → ds_sequence st + 1 < U64 →
  record_hash_of (mkDnsRecord (DomainId_from_name domain) (ds_sequence st + 1) 0 records) ≠ Some (arr_zero 32) →
  ∃ dns tx encoded,
    next_record sk domain records (Some st) = Ok dns ∧ update_tx sk domain dns = Some (Ok tx) ∧ record_bytes sk dns = Ok encoded ∧
    validate_transaction tx = Ok tt ∧ (registry_apply r tx now).2 = Ok tt ∧
    ∀ relay, cs_domain (bc_state (rl_chain relay)) (DomainId_from_name domain) =
        r_domains (registry_apply r tx now).1 !! DomainId_from_name domain →
      (MAX_DHT_CACHE_ENTRY < blen encoded →
        put_record_hex true (hex encoded) relay = (relay, Err (NeLimitExceeded "record size"))) ∧
      (blen encoded ≤ MAX_DHT_CACHE_ENTRY → (put_dht_cache (DomainId_from_name domain) encoded (rl_store relay)).2 = Ok tt →
       ∃ relay' rs, put_record_hex true (hex encoded) relay = (relay', Ok (DomainId_from_name domain)) ∧ rs ≡ₚ records ∧
        dns_resolver relay' domain = Ok (Some (mkResolved (wire_records rs) true))).
Proof.
  intros Hf Hu Hn Hnet Est Ho Hseq Hz. set (dns := mkDnsRecord _ _ _ _) in Hz.
  assert (next_record sk domain records (Some st) = Ok dns) as En by by apply next_record_Ok.
  destruct (record_file_encodes text records (DomainId_from_name domain) (ds_sequence st + 1) Hf) as [b Eb]; [lia|].
  fold dns in Eb. assert (∃ x, record_hash_of dns = Some x) as [x Ex] by (unfold record_hash_of; rewrite Eb; by eexists).
  destruct (update_tx_total sk domain dns x Ex Hseq) as [tx Etx]. destruct (record_bytes_total sk dns b Eb) as [encoded Een].
  exists dns, tx, encoded. destruct (update_tx_accepted sk domain records st dns tx r now x) as (Hv & Ha & Hl); try done.
  { intros ->. by rewrite Ex in Hz. }
  split_and!; try done. intros relay Hc. split.
  { intros Hlen. unfold put_record_hex. rewrite hex_roundtrip. cbn [ok_or rbind]. by rewrite (proj2 (N.ltb_lt _ _) Hlen). }
  intros Hlen Hput.
  destruct (record_bytes_decode sk dns encoded) as (sg & Ed & Ee & Eh); [done|done|by eapply record_file_wf|done|].
  rewrite Hl in Hc.
  assert (committed (rl_chain relay) (published sk dns sg)) as Hcom.
  { exists (updated st x). split; [exact Hc|]. cbn [published sr_record sr_owner canonical_record dr_sequence updated ds_owner ds_sequence ds_record_hash].
    split_and!; try done. unfold published. cbn [sr_record]. by rewrite Eh, Ex. }
  pose proof (proj2 (verify_committed _ _) Hcom) as Hver.
  unfold put_record_hex. rewrite hex_roundtrip. cbn [ok_or rbind]. destruct (N.ltb_spec MAX_DHT_CACHE_ENTRY (blen encoded)); [lia|].
  rewrite Ed. cbn [map_err]. rewrite Hver. cbn [negb]. rewrite Ee. cbn [negb published sr_record canonical_record dr_domain_id].
  change (dr_domain_id dns) with (DomainId_from_name domain). change (rl_store (emit _ relay)) with (rl_store relay).
  pose proof (put_cache_get _ _ _ Hput) as Hget. destruct (put_dht_cache _ _ _) as [db res]. cbn [fst snd] in Hput, Hget. subst res.
  eexists _, (dr_records (canonical_record dns)). split; [done|]. split; [apply (merge_sort_Permutation record_le)|].
  unfold dns_resolver, resolve_local, requested, DomainName_new. unfold DomainName_valid in Hn. rewrite Hn. cbn [rmap map_err rbind].
  cbn [rl_chain with_store emit]. rewrite Hc, wire_resolved. unfold cached_records. cbn [rl_store with_store]. rewrite Hget, Ed.
  cbn [rl_chain with_store emit]. by rewrite Hver.
Qed.
End resolver.

(** ** A concrete run *)

From S2P Require Import ChainScenario RestartScenario RelayScenario.

Module PublishScenario.
Import ChainScenario ToyRedb RestartScenario RelayScenario.
#[local] Existing Instances Toy.crypto Toy.laws no_faults numbers Block_eq_dec.

Definition page : list byte := ascii "# b.uip
  A 203.0.113.5

TXT  v=spf1   -all
".
Definition file_records : list RecordData := match read_record_file page with Ok rs => rs | Err _ => [] end.
Definition held : DomainState :=
  default (mkDomainState (arr_zero 32) 0 None 0 0) (cs_domain (bc_state c1) (DomainId_from_name bobs)).
Definition before : Registry := set_domain (empty_registry TESTNET) (DomainId_from_name bobs) held.

Definition tx_of (sk : SigningKey) (domain : DomainName) (records : list RecordData) (st : DomainState) : option Transaction :=
  match next_record sk domain records (Some st) with
  | Ok dns => match update_tx sk domain dns with Some (Ok tx) => Some tx | _ => None end
  | Err _ => None
  end.
Definition bytes_of (sk : SigningKey) (domain : DomainName) (records : list RecordData) (st : DomainState) : list byte :=
  match next_record sk domain records (Some st) with
  | Ok dns => match record_bytes sk dns with Ok bs => bs | Err _ => [] end
  | Err _ => []
  end.
Lemma tx_of_Ok sk domain records st dns tx :
  next_record sk domain records (Some st) = Ok dns → update_tx sk domain dns = Some (Ok tx) → tx_of sk domain records st = Some tx.
Proof. unfold tx_of. by intros -> ->. Qed.
Lemma bytes_of_Ok sk domain records st dns bs :
  next_record sk domain records (Some st) = Ok dns → record_bytes sk dns = Ok bs → bytes_of sk domain records st = bs.
Proof. unfold bytes_of. by intros -> ->. Qed.

Notation update := (default update_bobs (tx_of bob bobs file_records held)).
Definition publisher : Relay := idle (push_block_with_gc c1 (make alice 1 (bc_tip c1) 1010 [update])).1 db0.
Notation sent := (bytes_of bob bobs file_records held).

Lemma publish_run : all [is_ok (read_record_file page); bool_decide (DomainName_validate bobs = Ok tt);
  arr_eqb (ds_owner held) (owner_id_of bob); ds_sequence held + 1 <? U64;
  forallb (λ rd, match rd with RdTxt text => utf8_valid text | _ => true end) file_records;
  negb (bool_decide (record_hash_of (mkDnsRecord (DomainId_from_name bobs) (ds_sequence held + 1) 0 file_records) = Some (arr_zero 32)));
  eqb (cs_domain (bc_state (rl_chain publisher)) (DomainId_from_name bobs))
    (r_domains (registry_apply before update 1010).1 !! DomainId_from_name bobs);
  blen sent <=? MAX_DHT_CACHE_ENTRY; is_ok (put_dht_cache (DomainId_from_name bobs) sent (rl_store publisher)).2] = true.
Proof. by_eval. Qed.

Lemma texts_utf8_eval rs : forallb (λ rd, match rd with RdTxt text => utf8_valid text | _ => true end) rs = true → texts_utf8 rs.
Proof.
  unfold texts_utf8. induction rs as [|rd rs IH]; [by constructor|]. cbn. intros [Hr Hs]%andb_true_iff.
  constructor; [by destruct rd|by apply IH].
Qed.
Lemma file_read : is_ok (read_record_file page) = true → read_record_file page = Ok file_records.
Proof. unfold file_records. by destruct (read_record_file page). Qed.
Lemma held_before : r_domains before !! DomainId_from_name bobs = Some held.
Proof. apply lookup_insert_eq. Qed.
(** The transaction and the bytes of the theorem are those computed. *)
Lemma computed (sk : SigningKey) (domain : DomainName) records st fallback (P Q : Transaction → Prop) (R : Transaction → list byte → Prop) :
  (∃ dns tx encoded, next_record sk domain records (Some st) = Ok dns ∧ update_tx sk domain dns = Some (Ok tx) ∧
    record_bytes sk dns = Ok encoded ∧ P tx ∧ Q tx ∧ R tx encoded) →
  R (default fallback (tx_of sk domain records st)) (bytes_of sk domain records st).
Proof.
  intros (dns & tx & encoded & En & Et & Er & _ & _ & Hr). unfold tx_of, bytes_of. by rewrite En, Et, Er.
Qed.

Lemma update_reaches_resolver_witness :
  read_record_file page = Ok file_records ∧
  ∃ relay' rs, put_record_hex true (hex sent) publisher = (relay', Ok (DomainId_from_name bobs)) ∧ rs ≡ₚ file_records ∧
    dns_resolver relay' bobs = Ok (Some (mkResolved (wire_records rs) true)).
Proof.
  destruct (all_true _ publish_run) as (E1 & E2 & E3 & E4 & E5 & E6 & E7 & E8 & E9 & _).
  split; [exact (file_read E1)|].
  refine (proj2 (computed bob bobs file_records held update_bobs _ _
    (λ tx encoded, ∀ relay, cs_domain (bc_state (rl_chain relay)) (DomainId_from_name bobs) =
        r_domains (registry_apply before tx 1010).1 !! DomainId_from_name bobs →
      (MAX_DHT_CACHE_ENTRY < blen encoded →
        put_record_hex true (hex encoded) relay = (relay, Err (NeLimitExceeded "record size"))) ∧
      (blen encoded ≤ MAX_DHT_CACHE_ENTRY → (put_dht_cache (DomainId_from_name bobs) encoded (rl_store relay)).2 = Ok tt →
       ∃ relay' rs, put_record_hex true (hex encoded) relay = (relay', Ok (DomainId_from_name bobs)) ∧ rs ≡ₚ file_records ∧
        dns_resolver relay' bobs = Ok (Some (mkResolved (wire_records rs) true))))
    (update_reaches_resolver bob bobs page file_records before 1010 held (file_read E1) (texts_utf8_eval _ E5)
      (bool_decide_eq_true_1 _ E2) eq_refl held_before (arr_eqb_true _ _ E3) (proj1 (N.ltb_lt _ _) E4)
      (proj1 (bool_decide_eq_false _) (proj1 (negb_true_iff _) E6))) publisher _) _ _).
  - exact (eqb_true _ _ E7).
  - exact (proj1 (N.leb_le _ _) E8).
  - exact (is_ok_unit _ E9).
Defined.
End PublishScenario.
