(* ===== verification/DomainProps.v ===== *)
(** * What the command line reports

    A conversation with a running relay: whatever happens to the relay
    between two requests — blocks, reorganisations, other clients — a
    command that reports success reports the truth. *)

From S2P Require Import Prelude Bytes Crypto Commitment Smt Names Icann Codec Checkpoint Pow Tx Wire WireProps.
From S2P Require Import State StateSpec StateProofs StateProps Blocks BlocksProps Chain ForkChoice ChainProofs ChainProps ForkProps.
From S2P Require Import StateBytes Redb Store StoreSpec StorePaging StoreProofs StoreProps Persist PersistProofs.
From S2P Require Import Restart Mirror Resume RestartProps Signer Records Messages MessagesProps Mempool Anchor Relay Hex Dns.
From S2P Require Import RelayRpc RelayProofs RelayProps Keystore Wallet WalletProps Publish PublishProps.

Section talk.
Context `{Crypto} `{RedbLaws} `{!Faults} `{Swarm}.

(** A request reaches the relay after any events, and is answered; or
    fails, whether it was carried out or not. *)
Inductive conversed {A} : Relay → Talk A → Relay → result CliError A → Prop :=
| conv_done r res : conversed r (Done res) r res
| conv_ask r r1 r3 env request response k res :
    relay_runs r r1 → (dispatch env request r1).2 = Now response →
    conversed (handle_command env request r1) (k (Ok response)) r3 res → conversed r (Ask request k) r3 res
| conv_failed r r1 r3 request e k res :
    relay_runs r r1 → conversed r1 (k (Err e)) r3 res → conversed r (Ask request k) r3 res.

Lemma conversed_lift {A} r (res : result CliError A) r' b : conversed r (lift res) r' (Ok b) → r' = r ∧ res = Ok b.
Proof. unfold lift. intros E. by inversion E. Qed.

Lemma conversed_bind {A B} r (t : Talk A) (k : A → Talk B) r' b :
  conversed r (tbind t k) r' (Ok b) → ∃ a r1, conversed r t r1 (Ok a) ∧ conversed r1 (k a) r' (Ok b).
Proof.
  revert r. induction t as [[a|e]|request f IH|]; intros r E; cbn [tbind] in E.
  - exists a, r. split; [constructor|done].
  - by inversion E.
  - inversion E as [|? r1 ? env ? response ? ? Hr Hd Hk|? r1 ? ? e ? ? Hr Hk]; subst.
    + apply IH in Hk as (a & r2 & Ha & Hk). exists a, r2. split; [by eapply conv_ask|done].
    + apply IH in Hk as (a & r2 & Ha & Hk). exists a, r2. split; [by eapply conv_failed|done].
  - by inversion E.
Qed.

Lemma conversed_rpc r request r' response : conversed r (rpc_json request) r' (Ok response) →
  ∃ env r1, relay_runs r r1 ∧ (dispatch env request r1).2 = Now response ∧ refused response = false ∧
    r' = handle_command env request r1.
Proof.
  unfold rpc_json. intros E. inversion E as [|? r1 ? env ? response' ? ? Hr Hd Hk|? r1 ? ? e ? ? Hr Hk]; subst.
  - destruct (refused response') eqn:Er; inversion Hk; subst. by exists env, r1.
  - by inversion Hk.
Qed.

(** Answered lookups show the chain. *)
Lemma conversed_lookup r name r' response st : conversed r (rpc_json (RqLookup name)) r' (Ok response) → shown response = Some st →
  cs_domain (bc_state (rl_chain r')) (DomainId_from_name name) = Some st.
Proof.
  intros (env & r1 & _ & Hd & Hr & ->)%conversed_rpc Hs. unfold handle_command. cbn [dispatch] in *.
  unfold answer, lookup_domain, requested in *. destruct (DomainName_new name) as [n|e] eqn:En; cbn [rmap map_err rbind] in *.
  - assert (n = name) as ->.
    { unfold DomainName_new in En. destruct (DomainName_validate name); [|done]. by injection En as <-. }
    cbn in Hd. injection Hd as <-. exact Hs.
  - cbn in Hd. by injection Hd as <-.
Qed.

Lemma conversed_wait polls r name n r' st : conversed r (wait_for_sequence polls name n) r' (Ok st) →
  cs_domain (bc_state (rl_chain r')) (DomainId_from_name name) = Some st ∧ n ≤ ds_sequence st.
Proof.
  revert r. induction polls as [|polls IH]; intros r (info & r1 & Hi & E)%conversed_bind; cbn zeta in E;
    destruct (shown info) as [st'|] eqn:Es; try destruct (N.leb_spec n (ds_sequence st')) as [Hn|]; try (by inversion E); try (by eapply IH).
  all: inversion E; subst; split; [by eapply conversed_lookup|done].
Qed.

Lemma conversed_put r hexed r' id : conversed r (rpc_json (RqPutRecord hexed)) r' (Ok (RpcPublished id)) →
  ∃ bytes record encoded, hex_decode hexed = Some bytes ∧ decode_complete (dec SignedDnsRecord_c) bytes = Ok record ∧
    committed (rl_chain r') record ∧ id = dr_domain_id (sr_record record) ∧
    enc SignedDnsRecord_c record = Ok encoded ∧ dht_cache id (rl_store r') = Some encoded.
Proof.
  intros (env & r1 & _ & Hd & _ & ->)%conversed_rpc. unfold handle_command. cbn [dispatch] in *.
  unfold put_record_hex in *. destruct (hex_decode hexed) as [bytes|] eqn:Eh; cbn [ok_or rbind] in *; [|done].
  destruct (MAX_DHT_CACHE_ENTRY <? blen bytes); [done|].
  destruct (decode_complete (dec SignedDnsRecord_c) bytes) as [record|e] eqn:Ed; cbn [map_err] in *; [|done].
  destruct (verify_record_against_chain (rl_chain r1) record) eqn:Ev; cbn [negb] in *; [|done].
  destruct (enc SignedDnsRecord_c record) as [encoded|e] eqn:Ee; [|done].
  destruct (re_accepted env); cbn [negb] in *; [|done]. set (id' := dr_domain_id _) in *.
  change (rl_store (emit _ r1)) with (rl_store r1) in *.
  pose proof (put_cache_get id' encoded (rl_store r1)) as Hg. destruct (put_dht_cache id' encoded (rl_store r1)) as [db [[]|e]]; [|done].
  cbn [fst snd rmap map_err answer] in *. injection Hd as <-. exists bytes, record, encoded. split_and!; try done.
  - by apply verify_committed in Ev.
  - exact (Hg eq_refl).
Qed.
End talk.

Section reports.
Context `{CryptoLaws} `{Sealing} `{RedbLaws} `{!Faults} `{Swarm}.

(** A registration that is reported is one.  Whatever happens to the
    relay meanwhile, when [domain register] succeeds, its chain has the
    domain at that moment, owned by the key of the identity. *)
Theorem register_reports_truth r fuel polls identity now name r' st :
  conversed r (run_register fuel polls identity now name) r' (Ok st) →
  DomainName_valid name ∧ cs_domain (bc_state (rl_chain r')) (DomainId_from_name name) = Some st ∧
  ∃ sk, identity = Ok sk ∧ ds_owner st = owner_of (sk_public_key sk).
Proof.
  intros (domain & ? & [-> [-> Hn]%domain_arg_Ok]%conversed_lift & E)%conversed_bind.
  apply conversed_bind in E as (info & r1 & _ & E). destruct (shown info); [by inversion E|].
  apply conversed_bind in E as (sk & ? & [-> ->]%conversed_lift & E). apply conversed_bind in E as (tx & r2 & _ & E).
  apply conversed_bind in E as (hexed & r3 & _ & E). apply conversed_bind in E as (? & r4 & _ & E).
  apply conversed_bind in E as (confirmed & r5 & Hw & E). unfold arr_eqb in E. case_bool_decide as Ho; [|by inversion E].
  inversion E; subst. split; [exact Hn|]. split; [by eapply conversed_wait|]. exists sk. by split.
Qed.

(** C20. An update that is reported is served.  Whatever happens to the
    relay meanwhile — other updates of the domain included — when [domain
    update] succeeds, the chain of the relay commits to the records of the
    file at that moment, under the key of the identity, and its DNS server
    answers with them, all of them and no other. *)
Theorem update_reports_truth r polls identity name text r' dns :
  (∀ records, read_record_file text = Ok records → texts_utf8 records) →
  conversed r (run_update polls identity name text) r' (Ok dns) →
  ∃ sk st rs, identity = Ok sk ∧ read_record_file text = Ok (dr_records dns) ∧
    cs_domain (bc_state (rl_chain r')) (DomainId_from_name name) = Some st ∧ ds_owner st = owner_of (sk_public_key sk) ∧
    ds_sequence st = dr_sequence dns ∧ ds_record_hash st = record_hash_of dns ∧ rs ≡ₚ dr_records dns ∧
    dns_resolver r' name = Ok (Some (mkResolved (wire_records rs) true)).
Proof.
  intros Hu (domain & ? & [-> [-> Hn]%domain_arg_Ok]%conversed_lift & E)%conversed_bind.
  apply conversed_bind in E as (records & ? & [-> Hf]%conversed_lift & E). apply conversed_bind in E as (info & r1 & _ & E).
  apply conversed_bind in E as (st0 & ? & [-> _]%conversed_lift & E). apply conversed_bind in E as (? & ? & [-> _]%conversed_lift & E).
  apply conversed_bind in E as (sk & ? & [-> ->]%conversed_lift & E). apply conversed_bind in E as (dns' & ? & [-> Hd]%conversed_lift & E).
  apply next_record_Ok in Hd as (Hs & _ & Ed). apply conversed_bind in E as (tx & r2 & _ & E).
  apply conversed_bind in E as (hexed & r3 & _ & E). apply conversed_bind in E as (? & r4 & _ & E).
  apply conversed_bind in E as (? & r5 & _ & E). apply conversed_bind in E as (encoded & ? & [-> He]%conversed_lift & E).
  apply conversed_bind in E as (response & r6 & Hp & E). destruct response as [| | | | |id| | | | | | | |]; try by inversion E.
  unfold arr_eqb in E. case_bool_decide as Eid; [|by inversion E]. apply conversed_lift in E as [-> <-%Ok_inj]. subst id dns'.
  set (dns := mkDnsRecord _ _ _ _) in *.
  destruct (record_bytes_decode sk dns encoded) as (sg & Edec & Eenc & Eh); [done|done|by eapply record_file_wf, Hu|done|].
  apply conversed_put in Hp as (bytes & record & encoded' & Eb & Er & Hc & _ & Ee & Hcache).
  rewrite hex_roundtrip in Eb. injection Eb as <-. rewrite Edec in Er. apply Ok_inj in Er as <-. rewrite Eenc in Ee. apply Ok_inj in Ee as <-.
  pose proof (proj2 (verify_committed _ _) Hc) as Hv. destruct Hc as (st & Est & Ho & Hq & _ & Hh).
  cbn [published sr_record sr_owner canonical_record dr_domain_id dr_sequence] in Est, Ho, Hq, Hh.
  change (dr_domain_id dns) with (DomainId_from_name name) in Est. exists sk, st, (dr_records (canonical_record dns)).
  split_and!; try done; [by rewrite <- Hh, Eh|apply (merge_sort_Permutation record_le)|].
  unfold dns_resolver, resolve_local, requested, DomainName_new. change (DomainName_validate name = Ok tt) in Hn. rewrite Hn. cbn [rmap map_err rbind].
  rewrite Est, wire_resolved. unfold cached_records. by rewrite Hcache, Edec, Hv.
Qed.
End reports.

(** ** A concrete conversation *)

From S2P Require Import ChainScenario RestartScenario RelayScenario KeystoreProps.

Section converse.
Context `{Crypto} `{RedbLaws} `{!Faults} `{Swarm}.

Definition after_events (events : list (WriteOutcome * Wake)) (r : Relay) : Relay :=
  fold_left (λ r e, (relay_step e.1 e.2 r).1) events r.

(** A conversation whose events and answers are given. *)
Fixpoint converse {A} (t : Talk A) (script : list (list (WriteOutcome * Wake) * RequestEnv)) (r : Relay)
    : option (Relay * result CliError A) :=
  match t, script with
  | Done res, _ => Some (r, res)
  | Ask request k, (events, env) :: script =>
      let r := after_events events r in
      match (dispatch env request r).2 with
      | Now response => converse (k (Ok response)) script (handle_command env request r)
      | Parked _ => None
      end
  | _, _ => None
  end.

Lemma after_events_run r events r1 : relay_runs r r1 → relay_runs r (after_events events r1).
Proof. revert r1. induction events as [|[o w] events IH]; intros r1 Hr; [done|]. by apply IH, runs_step. Qed.

Lemma converse_sound {A} (t : Talk A) script r r' res : converse t script r = Some (r', res) → conversed r t r' res.
Proof.
  revert script r. induction t as [res0|request k IH|]; intros script r E; cbn [converse] in E.
  - injection E as <- <-. constructor.
  - destruct script as [|[events env] script]; [done|].
    destruct (dispatch env request (after_events events r)).2 as [response|w] eqn:Ed; [|done].
    apply (conv_ask r (after_events events r) r' env request response); [apply after_events_run, runs_start|exact Ed|by apply (IH _ script)].
  - by destruct script.
Qed.

Definition succeeded {A} (o : option (Relay * result CliError A)) : bool :=
  match o with Some (_, Ok _) => true | _ => false end.
Lemma succeeded_conversed {A} (t : Talk A) script r : succeeded (converse t script r) = true →
  ∃ r' a, conversed r t r' (Ok a).
Proof.
  destruct (converse t script r) as [[r' [a|e]]|] eqn:E; try done. intros _. exists r', a. by eapply converse_sound.
Qed.
End converse.

Module DomainScenario.
Import ChainScenario ToyRedb RestartScenario RelayScenario ToySealing.
#[local] Existing Instances Toy.crypto Toy.laws no_faults numbers Block_eq_dec.

Definition env : RequestEnv := mkRequestEnv true (0 : N) 0 (1 : N).
Definition page : list byte := ascii "# the site
A 203.0.113.5
TXT  hello   world
".
Definition page_records : list RecordData := match read_record_file page with Ok rs => rs | Err _ => [] end.

(** The relay starts after a block that registers the site; a peer sends a
    block with the update after it was submitted. *)
Definition opening : Block := make alice 0 (bc_tip k0) 100 [claim_tld; set_open true; register_site].
Definition opened : Relay := receives opening RelayScenario.r0.
Definition registered : DomainState :=
  default (mkDomainState (arr_zero 32) 0 None 0 0) (cs_domain (bc_state (rl_chain opened)) site_id).
Definition sent_update : Transaction := default register_site (PublishScenario.tx_of alice site page_records registered).
Definition with_update : Block := make alice 1 (bc_tip (rl_chain opened)) 101 [sent_update].
Definition script : list (list (WriteOutcome * Wake) * RequestEnv) :=
  [([], env); ([], env); ([], env); ([(WriteFails, WakePeer true (Request (7 : N) (MsgBlock with_update)))], env); ([], env)].

(** Another relay, on which the TLD is open, and the site is registered. *)
Definition empty_tld : Relay := receives (make alice 0 (bc_tip k0) 100 [claim_tld; set_open true]) RelayScenario.r0.
Definition sent_registration : Transaction :=
  match signed_register_domain_tx 5000 alice site 7 with Some (Ok tx) => tx | _ => claim_tld end.
Definition with_site : Block := make alice 1 (bc_tip (rl_chain empty_tld)) 101 [sent_registration].
Definition register_script : list (list (WriteOutcome * Wake) * RequestEnv) :=
  [([], env); ([], env); ([(WriteFails, WakePeer true (Request (7 : N) (MsgBlock with_site)))], env)].

Lemma domain_run : all [succeeded (converse (run_update 3 (Ok alice) site page) script opened);
  match read_record_file page with
  | Ok rs => forallb (λ rd, match rd with RdTxt text => utf8_valid text | _ => true end) rs
  | Err _ => true
  end;
  succeeded (converse (run_register 5000 0 (Ok alice) 7 site) register_script empty_tld)] = true.
Proof. by_eval. Qed.

Lemma texts_eval text : match read_record_file text with
  | Ok rs => forallb (λ rd, match rd with RdTxt text => utf8_valid text | _ => true end) rs
  | Err _ => true
  end = true → ∀ records, read_record_file text = Ok records → texts_utf8 records.
Proof. intros E records Er. rewrite Er in E. by apply PublishScenario.texts_utf8_eval. Qed.

Lemma update_reports_truth_witness :
  ∃ r' dns rs, conversed opened (run_update 3 (Ok alice) site page) r' (Ok dns) ∧ rs ≡ₚ dr_records dns ∧
    dns_resolver r' site = Ok (Some (mkResolved (wire_records rs) true)).
Proof.
  destruct (all_true _ domain_run) as (E1 & E2 & _). destruct (succeeded_conversed _ _ _ E1) as (r' & dns & Hc).
  destruct (update_reports_truth opened 3 (Ok alice) site page r' dns (texts_eval page E2) Hc)
    as (sk & st & rs & _ & _ & _ & _ & _ & _ & Hp & Hd).
  exists r', dns, rs. split; [exact Hc|]. split; [exact Hp|exact Hd].
Defined.

Lemma register_reports_truth_witness :
  ∃ r' st, conversed empty_tld (run_register 5000 0 (Ok alice) 7 site) r' (Ok st) ∧
    cs_domain (bc_state (rl_chain r')) (DomainId_from_name site) = Some st.
Proof.
  destruct (all_true _ domain_run) as (_ & _ & E3 & _). destruct (succeeded_conversed _ _ _ E3) as (r' & st & Hc).
  destruct (register_reports_truth empty_tld 5000 0 (Ok alice) 7 site r' st Hc) as (_ & Hs & _).
  exists r', st. split; [exact Hc|exact Hs].
Defined.
End DomainScenario.
